(* ===== verification/_CoqProject ===== *)
-Q . S2P
Prelude.v
Job.v
Uuid.v
Heap.v
Queue.v
Events.v
Httpd.v
Json.v
Registry.v
Sql.v
Db.v
DbAdmin.v
DbOpen.v
DbOpenProps.v
DbInv.v
Rows.v
Allocator.v
AllocatorSpec.v
AllocatorProps.v
JobOps.v
DbProps.v
Cloud.v
Transfer.v
Config.v
Decision.v
Shell.v
System.v
Store.v
JobProps.v
SysFixture.v
Executor.v
ExecProps.v
ExecutorWin.v
ExecTheorems.v
Scheduler.v
SchedSteps.v
SchedProps.v
RegistryProps.v
Sha256.v
Auth.v
Probe.v
Http.v
Batches.v
Apps.v
AppsProps.v
Submit.v
SubmitProps.v
Workflow.v
WorkflowProps.v
IdsProps.v
Reports.v
Accounts.v
AccountsProps.v
Views.v
ViewsProps.v
Admin.v
Router.v
RouterProps.v
SysInv.v
LaunchProps.v
SysExec.v
SysSched.v
SysWeb.v
SysRouter.v
Process.v
Races.v
Shutdown.v
Main.v
ServiceWin.v
MainProps.v
Thermal.v
Synthetic.v
