(* ===== verification/Prelude.v ===== *)
(** * A verification library for BHC_SCHEDULER

    BHC_SCHEDULER is a job orchestrator written in C: clients submit jobs over
    HTTP, a scheduler thread gives each job resources on a machine, and an
    executor runs it locally or over ssh; everything is recorded in SQLite.
    This library translates the core of src/ into executable definitions and
    proves what makes each part correct.  It uses the Standard Library and
    stdpp, and no axiom.

    ** The parts of the program and the files that model them

    - [Prelude] (this file): the state monad [ST], C strings and bounded
      copies ([cbuf] is [strncpy] or [snprintf] into a zeroed array), tokens,
      integers, list lemmas, tactics and hints.
    - [Job], [Uuid], [JobOps], [JobProps], [IdsProps]: include/job.h and
      src/core/job.c; the job record, identifiers, the transition table,
      [job_create_ex] and [job_set_status_r] with their rows and events, the
      paths of src/transfer/store.c and the persistent events of
      src/http/events.c.
    - [Heap], [Queue]: src/core/queue.c; a generic binary heap over a strict
      weak order, and the queue of jobs as an instance of it.
    - [Events]: the ring buffer of src/http/events.c.
    - [Json]: binary64 numbers ([SpecFloat]) and cJSON trees.
    - [Registry], [RegistryProps]: src/resources/registry.c; the machine table
      and the class [MachineStore], with laws, through which the allocator
      sees it.
    - [Allocator], [AllocatorSpec], [AllocatorProps]:
      src/resources/allocator.c, over any [MachineStore].
    - [Sql], [Db], [DbAdmin], [Reports], [DbInv], [DbProps]:
      src/persistence/db.c over an SQLite connection with the tables as
      records.  [DbOpen], [DbOpenProps]: [db_open], with tables as columns
      and untyped rows, since it changes the schema; [Rows]: these rows as the
      records of [Sql], and the typed tables that a file means.
    - [Config]: src/persistence/config.c.
    - [Cloud]: src/cloud/cloud.c.
    - [Transfer], [Store]: src/transfer/upload.c, download.c, artifacts.c and
      store.c.
    - [Decision]: src/decision_core_default.c.
    - [Shell], [Executor], [ExecProps], [ExecTheorems], [LaunchProps]:
      src/core/executor.c with its POSIX parts; [ExecutorWin]: its Windows
      parts.
    - [System], [SysFixture]: the static variables of the process in one
      record [Sys], the environment [Env], and a small system for witnesses.
    - [Scheduler], [SchedProps]: src/core/scheduler.c; [SchedSteps]: its thread
      as steps, one job or a part of its dispatch each, which undisturbed are
      a round of its loop ([tick_is_a_round]).
    - [Probe]: src/resources/probe.c.
    - [Sha256], [Auth]: src/http/auth.c; the hash functions against their
      standard definitions, API keys and passwords.
    - [Httpd]: src/http/httpd.c; the subscribers of the event stream and the
      loop of the HTTP thread.
    - [Http], [Apps], [Submit], [Workflow], [Accounts], [Views], [Admin]:
      src/http/routes.c, in the order of the file: requests and replies,
      application templates, the handlers that change jobs, workflows,
      accounts, the handlers that read (with src/http/artifacts.c), and
      administration.  [Batches] is src/http/batches.c.
    - [Router]: [routes_handler], the dispatch of every route, with the
      headers of src/http/response.c.
    - [AppsProps], [SubmitProps], [WorkflowProps], [AccountsProps],
      [ViewsProps], [RouterProps]: the properties of these handlers.
    - [Process]: [orchestrator_run] of src/main.c from the registry on, and
      the events that may follow; [SysInv] states the invariant of the whole
      record [Sys], and [SysExec], [SysSched], [SysWeb], [SysRouter] show
      that the executor, the scheduler and every request keep it.
    - [Races]: interleavings of the scheduler's thread with a request, a stop
      and the executor.  [Shutdown]: how the process stops.
    - [Main]: the rest of src/main.c, src/persistence/log.c and
      src/platform/service_linux.c.  [ServiceWin]: src/platform/service_win.c
      and the Windows parts of src/main.c; sequences of invocations in either
      build.  [MainProps]: their properties.
    - [Thermal]: src/solvers/thermal/thermal_solver.c and
      src/tools/presim_runner.c, the example solver and what it writes for
      the decision core.  [Synthetic]: src/tools/synthetic_workload.c.

    A function keeps its C name.  A function that writes static variables or
    an output parameter is a state transformer [ST S A]; the result code is
    its value.  Components run on their part of [Sys] through [on_alloc],
    [ydb], [on_jenv] and [on_cloud].  Static helpers that C writes inline (the
    stages of the scheduler's loop, the parts of a handler) are definitions of
    their own, composed in the order of the code.

    ** How the hard parts are modelled

    - SQLite: tables are lists of rows; each statement succeeds, fails, or
      fails and aborts the transaction, as a list of outcomes decides, so a
      theorem about all outcomes covers every failure.  The state keeps the
      tables saved at BEGIN.
    - Threads: a definition is an atomic section of the code (a critical
      section, or a stretch that touches only the thread's own objects and
      single database calls); [Executor.thread_step] interleaves the sections
      of spawning, launching, watching, cancelling and timing out.  The check
      of the row and the change to RUNNING are one section, the start record
      another.  In [Process] a list of events interleaves these sections
      with requests, the steps of the scheduler's thread, the steps of the
      prober (one update of the registry each) and rounds of the event stream.
      The scheduler's thread keeps the list that it loaded between two held or
      running jobs; a queued job is decided on and reserved for in one step,
      then come the record of the dispatch, the last look at the row and the
      sections of [executor_spawn].  A request, the decision on one job and,
      at the stop, the rest of the round of the scheduler's thread are one
      step, which is coarser than the code: there the sections of another
      thread may fall between two database calls of a request.
    - Integers are [Z]; ranges are hypotheses or invariants where the code
      relies on them, and unsigned arithmetic is reduced by [u32].
    - Doubles are correctly rounded binary64.  [qsort] keeps the order of
      equal elements, as glibc's merge sort does.
    - A handler of routes.c is a state transformer on [Sys] that gives its
      reply: a status code with an error text, a JSON tree, a text, a file or
      a stream.  Authorization errors are values of a sum ([Apps.result]).
    - Connections of the event stream are addresses in a map that mongoose
      owns; a subscriber whose address is gone from the map is a dangling
      pointer, and using it is [None].
    - Parameters: mongoose (parsing of requests, its loop and its sockets),
      cJSON's parser and printer, [strtod] and [atof], [popen], [system],
      sockets, the clock, random bytes, the file system and memory
      allocation; the date formatting of SQLite.  Nothing is assumed about
      them but what a theorem states.

    ** What is proved

    - The whole process: after any events, with the executor of either build,
      from any database that was opened, what is reserved on the machines is
      what the ledger lists, and belongs to active executions or to the job
      being dispatched ([reservations_belong_to_active_executions]); and any
      sequence of invocations in either build, stopped or killed between
      two events, leaves databases that can be opened again ([databases_stay_sound]).
      A stop ends ([service_stops]): the work left is bounded by the active
      executions, whose processes are killed, and the database is closed; the
      service manager of Windows is told each step ([svc_main_reports]).
    - Scheduling: a job is dispatched only if its row is QUEUED, its quota
      allows it and the machine fits ([dispatch_is_sound]); held jobs wait,
      fail or are released exactly as their dependencies and files say;
      start-up restores the queue; cancellation removes a queued job.
    - Resources: under every sequence of calls and failures no machine is
      overcommitted and the registry agrees with the ledger; reservation is
      first fit, the fit tests are exact, release undoes reservation.
    - Execution: a launch starts the process of the job or leaves none
      ([launch_starts_the_job]); no execution is leaked and executions only
      evolve along the transition table, in both builds; cancellation takes
      effect.
    - Queue and events: both refine an abstract specification (a sorted
      priority queue, a bounded first-in first-out buffer), and draining the
      queue sorts it.
    - Opening a database loses no row whatever statement fails, brings an
      older file up to date, and gives the program exactly the typed tables
      that the file means ([db_open_refines_typed_tables]); a key that
      [keygen] prints works.
    - Database: recovery is atomic, primary keys stay unique under every
      call, retry and dependency checks do what they say, quotas and API keys
      are exact; a created job reads back.
    - Requests: a handler runs only for a valid key of sufficient role and,
      on a job, for its owner; listings show own jobs; a keyed submission
      happens once; workflows and batches are stored completely or not at
      all; the command of an application carries no injection; a user's key
      stays bound to its user; login attempts are bounded; the event stream
      of a user is private and complete; removal deletes exactly the files of
      a job; identifiers are usable as names and list elements.
    - Hashing: the streaming SHA-256, HMAC and PBKDF2 compute their standard
      definitions; a password verifies exactly against its own hash.
    - Probing: a refresh sets every machine to what its probe said.
    - Configuration, registry file, decision core, cloud, shell text and file
      names: bounds, invariants and safety of what is read or generated.
    - Divergences: where the code does not do what a comment or its design
      says, an example shows the behaviour.

    ** Bounds and fuel

    [heap_up] takes the index as fuel and [heap_down] the length of the heap:
    each step halves the index or moves to a child, and [heap_up_ok] and
    [heap_down_ok] show that the heap order is restored.  [queue_drain] takes
    the size of the queue, [decimal_width] nine divisions for a number below
    10^9, [collect_output_tree] the 33 levels that the code allows, and
    [expand_command] the length of its text, of which every step consumes a
    character.  [replace_loop] takes the number of braces of the template:
    each replacement consumes one ([resolve_app_command_terminates]).
    [rmdir_r] takes [RMDIR_FUEL] = 512 levels, as a path of 512 characters has
    no more; where a path is cut the code recurses without end, and the fuel
    runs out.  [sse_loop] takes the number of subscribers, and [probe_wait]
    one step for each 100 ms begun.  The other recursions are structural.

    ** What is not modelled

    The texts of single log messages, the test programs and vendored
    libraries.  Of the Windows branches those of the executor, the service and
    src/main.c are modelled; the others are not: they mostly put a backslash
    into a path, and in a Windows invocation of [ServiceWin] the paths of the
    job directories, templates and static files are those of the POSIX build.
    The calls of [set_service_status] are atomic here, though no lock orders
    those of the two threads.  [Main] takes from
    [db_open] only whether it succeeds; that it then reads the tables that the
    file means is [db_open_refines_typed_tables].  The INSERT, UPDATE and
    DELETE statements act on the typed tables of [Sql], not on untyped rows,
    and a column that could not be added, after which the statements that name
    it fail, is not part of [Main].  A process killed in the middle of a request or of the
    handling of one job is not covered by the histories of [Main]. *)

(** Shared vocabulary of the development: the state monad in which the
    stateful C functions are written, C strings and their bounded copies,
    decimal printing, the tactics and hint databases, and the generic lemmas
    on lists and relations that several components use. *)
From stdpp Require Export base tactics list strings gmap sorting.
From Stdlib Require Export ZArith Lia Ascii.
From Stdlib Require Import DecimalString.

#[global] Open Scope Z_scope.

(** ** The state monad

    A C function that reads and writes global state of type [S] and returns
    an [A].  stdpp's notation [x ← m; k] sequences such functions. *)
Definition ST (S A : Type) : Type := S → A * S.

#[export] Instance st_ret S : MRet (ST S) := λ A x s, (x, s).
#[export] Instance st_bind S : MBind (ST S) :=
  λ A B f m s, let '(a, s') := m s in f a s'.

Definition st_get {S} : ST S S := λ s, (s, s).
Definition st_put {S} (s' : S) : ST S unit := λ _, (tt, s').
Definition st_modify {S} (f : S → S) : ST S unit := λ s, (tt, f s).
Definition st_gets {S A} (f : S → A) : ST S A := λ s, (f s, s).

(** Run a stateful function on a component of a larger state. *)
Definition st_zoom {S T A} (get : S → T) (set : T → S → S) (m : ST T A) : ST S A :=
  λ s, let '(a, t) := m (get s) in (a, set t s).

(** A [for] loop over a list whose body only acts on the state. *)
Fixpoint st_iter {S A} (f : A → ST S unit) (l : list A) : ST S unit :=
  match l with
  | [] => mret tt
  | x :: l => f x ;; st_iter f l
  end.

(** One step of a run. *)
Lemma bind_step {S A B} (m : ST S A) (f : A → ST S B) s : (m ≫= f) s = f (m s).1 (m s).2.
Proof. unfold mbind, st_bind. by destruct (m s). Qed.

(** The final state of a run. *)
Definition st_exec {S A} (m : ST S A) (s : S) : S := (m s).2.

(** [keeps R m]: every run of [m] relates the initial and final states. *)
Definition keeps {S A} (R : S → S → Prop) (m : ST S A) : Prop :=
  ∀ s a s', m s = (a, s') → R s s'.

Section keeps.
Context {S : Type} (R : S → S → Prop) `{!PreOrder R}.

Lemma keeps_ret {A} (x : A) : keeps R (mret x).
Proof. intros s a s' [= <- <-]. reflexivity. Qed.

Lemma keeps_bind {A B} (m : ST S A) (f : A → ST S B) :
  keeps R m → (∀ a, keeps R (f a)) → keeps R (m ≫= f).
Proof.
  intros Hm Hf s b s'' Hrun. unfold mbind, st_bind in Hrun.
  destruct (m s) as [a s'] eqn:E.
  transitivity s'; [by eapply Hm | by eapply Hf].
Qed.

Lemma keeps_get : keeps R st_get.
Proof. intros s a s' [= <- <-]. reflexivity. Qed.

Lemma keeps_gets {A} (f : S → A) : keeps R (st_gets f).
Proof. intros s a s' [= <- <-]. reflexivity. Qed.

Lemma keeps_modify (f : S → S) : (∀ s, R s (f s)) → keeps R (st_modify f).
Proof. intros Hf s a s' [= <- <-]. apply Hf. Qed.

Lemma keeps_iter {A} (f : A → ST S unit) l :
  (∀ x, keeps R (f x)) → keeps R (st_iter f l).
Proof.
  intros Hf. induction l as [|x l IH]; [apply keeps_ret | by apply keeps_bind].
Qed.
End keeps.

Lemma keeps_zoom {S T A} (R : S → S → Prop) (Q : T → T → Prop)
    (get : S → T) (set : T → S → S) (m : ST T A) :
  keeps Q m → (∀ s t, Q (get s) t → R s (set t s)) → keeps R (st_zoom get set m).
Proof.
  intros Hm Hset s a s' Hrun. unfold st_zoom in Hrun.
  destruct (m (get s)) as [b t] eqn:E. simplify_eq. eapply Hset, Hm, E.
Qed.

(** ** C strings *)

(** The content that [strncpy] of [s] into a zeroed [char\[S n\]], or
    [snprintf] with that size, leaves in the buffer: the first [n] bytes. *)
Fixpoint str_take (n : nat) (s : string) : string :=
  match n, s with
  | S n, String c s => String c (str_take n s)
  | _, _ => EmptyString
  end.

Fixpoint str_drop (n : nat) (s : string) : string :=
  match n, s with
  | S n, String _ s => str_drop n s
  | _, _ => s
  end.

(** A buffer declared [char name\[size\]] that receives [s]. *)
Definition cbuf (size : nat) (s : string) : string := str_take (size - 1) s.

Notation str_len := String.length.

(** [strcmp] compares bytes as unsigned characters. *)
Definition strcmp_lt (a b : string) : bool :=
  match String.compare a b with Lt => true | _ => false end.

Definition str_nonempty (s : string) : bool :=
  match s with EmptyString => false | _ => true end.

Fixpoint str_forallb (p : ascii → bool) (s : string) : bool :=
  match s with
  | EmptyString => true
  | String c s => p c && str_forallb p s
  end.

(** [strchr(s, c)] as a test (the terminating NUL matches too). *)
Fixpoint str_has (c : ascii) (s : string) : bool :=
  match s with
  | EmptyString => false
  | String d s => (Ascii.eqb c d) || str_has c s
  end.

(** [strncmp(s, p, strlen(p)) == 0] *)
Fixpoint str_prefix (p s : string) : bool :=
  match p, s with
  | EmptyString, _ => true
  | String a p, String b s => Ascii.eqb a b && str_prefix p s
  | _, _ => false
  end.

(** [%d] *)
Definition dec (z : Z) : string := NilZero.string_of_int (Z.to_int z).

(** Character classes, on the code of an unsigned char. *)
Definition char_code (c : ascii) : Z := Z.of_N (N_of_ascii c).
Definition in_range (lo hi : Z) (c : ascii) : bool :=
  (lo <=? char_code c) && (char_code c <=? hi).
Definition is_digit (c : ascii) : bool := in_range 48 57 c.
Definition is_lower (c : ascii) : bool := in_range 97 122 c.
Definition is_upper (c : ascii) : bool := in_range 65 90 c.
Definition is_alnum (c : ascii) : bool := is_digit c || is_lower c || is_upper c.

Notation NL := "010"%char.
Notation CR := "013"%char.
Notation TAB := "009"%char.
(** The double quote. *)
Definition DQ : ascii := "034".

Lemma str_take_len n s : (str_len (str_take n s) ≤ n)%nat.
Proof. revert s; induction n as [|n IH]; intros [|c s]; simpl; try lia. specialize (IH s). lia. Qed.

Lemma str_take_ge n s : (str_len s ≤ n)%nat → str_take n s = s.
Proof.
  revert s; induction n as [|n IH]; intros [|c s]; simpl; intros H; try done; try lia.
  f_equal. apply IH. lia.
Qed.

Lemma str_len_app a b : str_len (a +:+ b) = (str_len a + str_len b)%nat.
Proof. induction a as [|c a IH]; simpl; [done|]. by rewrite IH. Qed.

Lemma str_app_nil s : s +:+ "" = s.
Proof. induction s as [|c s IH]; [done|]. exact (f_equal (String c) IH). Qed.

Lemma cbuf_id size s : (str_len s < size)%nat → cbuf size s = s.
Proof. intros H. apply str_take_ge. lia. Qed.

Lemma cbuf_len size s : (0 < size)%nat → (str_len (cbuf size s) < size)%nat.
Proof. intros H. pose proof (str_take_len (size - 1) s). unfold cbuf. lia. Qed.

Lemma str_take_take n s : str_take n (str_take n s) = str_take n s.
Proof. apply str_take_ge, str_take_len. Qed.

Lemma cbuf_cbuf size s : cbuf size (cbuf size s) = cbuf size s.
Proof. apply str_take_take. Qed.

Lemma str_nonempty_spec s : str_nonempty s = true ↔ s ≠ EmptyString.
Proof. by destruct s. Qed.

Lemma str_nonempty_false s : str_nonempty s = false ↔ s = EmptyString.
Proof. by destruct s. Qed.

(** ** Prefixes, substrings and character tests *)

(** [strstr(s, p)]: what is before and after the first occurrence. *)
Fixpoint strstr (p s : string) : option (string * string) :=
  if str_prefix p s then Some (EmptyString, str_drop (str_len p) s)
  else
    match s with
    | EmptyString => None
    | String c s => match strstr p s with Some (b, a) => Some (String c b, a) | None => None end
    end.

Definition has_substring (p s : string) : bool := match strstr p s with Some _ => true | None => false end.

Lemma str_prefix_drop p s : str_prefix p s = true → s = p +:+ str_drop (str_len p) s.
Proof.
  revert s. induction p as [|a p IH]; intros [|b s]; simpl; try done.
  intros [->%Ascii.eqb_eq H]%andb_prop. exact (f_equal (String b) (IH _ H)).
Qed.

Lemma str_prefix_app p s : str_prefix p (p +:+ s) = true.
Proof. induction p as [|a p IH]; [done|]. simpl. rewrite Ascii.eqb_refl. exact IH. Qed.

Lemma str_drop_app p s : str_drop (str_len p) (p +:+ s) = s.
Proof. induction p as [|a p IH]; [done|exact IH]. Qed.

Lemma str_app_assoc a b c : (a +:+ b) +:+ c = a +:+ (b +:+ c).
Proof. induction a as [|x a IH]; [done|]. exact (f_equal (String x) IH). Qed.

Lemma str_prefix_iff p s : str_prefix p s = true ↔ ∃ r, s = p +:+ r.
Proof. split; [intros H%str_prefix_drop; eauto | intros [r ->]; apply str_prefix_app]. Qed.

Lemma strstr_Some p s b a : strstr p s = Some (b, a) → s = b +:+ p +:+ a.
Proof.
  revert b; induction s as [|c s IH]; intros b; cbn [strstr]; destruct (str_prefix p _) eqn:E; try done.
  - intros [= <- <-]. by apply str_prefix_drop.
  - intros [= <- <-]. by apply str_prefix_drop.
  - destruct (strstr p s) as [[b' a']|]; [|done]. intros [= <- <-]. rewrite (IH b' eq_refl). done.
Qed.

Lemma str_forallb_impl (p q : ascii → bool) s :
  (∀ c, p c = true → q c = true) → str_forallb p s = true → str_forallb q s = true.
Proof.
  intros Hpq. induction s as [|c s IH]; cbn; [done|]. intros [H1 H2]%andb_prop. by rewrite Hpq, IH.
Qed.

Lemma forallb_app p a b : str_forallb p (a +:+ b) = str_forallb p a && str_forallb p b.
Proof.
  induction a as [|c a IH]; [done|]. change (String c a +:+ b) with (String c (a +:+ b)). cbn. by rewrite IH, andb_assoc.
Qed.

Lemma forallb_take p n s : str_forallb p s = true → str_forallb p (str_take n s) = true.
Proof.
  revert s; induction n as [|n IH]; intros [|c s]; cbn; try done. intros [H1 H2]%andb_prop. by rewrite H1, IH.
Qed.

Lemma forallb_drop p n s : str_forallb p s = true → str_forallb p (str_drop n s) = true.
Proof.
  revert s; induction n as [|n IH]; intros [|c s]; cbn; try done. intros [H1 H2]%andb_prop. by apply IH.
Qed.

(** ** [strtok(_, ",")] and space trimming *)

(** The non-empty fields between commas: [strtok] skips empty ones. *)
Fixpoint split_on (sep : ascii) (s : string) (acc : string) : list string :=
  match s with
  | EmptyString => [acc]
  | String c s =>
      if Ascii.eqb c sep then acc :: split_on sep s EmptyString
      else split_on sep s (acc +:+ String c EmptyString)
  end.

Definition strtok_commas (s : string) : list string :=
  filter (λ t, str_nonempty t = true) (split_on "," s EmptyString).

Fixpoint trim_left (p : ascii → bool) (s : string) : string :=
  match s with
  | String c s' => if p c then trim_left p s' else s
  | EmptyString => EmptyString
  end.

Fixpoint trim_right (p : ascii → bool) (s : string) : string :=
  match s with
  | EmptyString => EmptyString
  | String c s' =>
      match trim_right p s' with
      | EmptyString => if p c then EmptyString else String c EmptyString
      | t => String c t
      end
  end.

Lemma forallb_trim_right p q s : str_forallb p s = true → str_forallb p (trim_right q s) = true.
Proof.
  induction s as [|c s IH]; cbn; [done|]. intros [H1 H2]%andb_prop. specialize (IH H2).
  destruct (trim_right q s) as [|d t]; [destruct (q c); cbn; by rewrite ?H1|].
  change (p c && str_forallb p (String d t) = true). by rewrite H1, IH.
Qed.

Definition is_space (c : ascii) : bool := Ascii.eqb c " ".
Definition is_blank (c : ascii) : bool := Ascii.eqb c " " || Ascii.eqb c TAB.
Definition is_blank_eol (c : ascii) : bool := is_blank c || Ascii.eqb c CR || Ascii.eqb c NL.

(** [while ( *tok == ' ') tok++] and the loop that cuts trailing spaces. *)
Definition trim_spaces (s : string) : string := trim_right is_space (trim_left is_space s).

(** The dependency and file lists of the program: comma separated, with
    blanks around the names. *)
Definition csv_tokens (s : string) : list string := map trim_spaces (strtok_commas s).

(** ** Integers of the C code *)
Definition INT_MIN : Z := -2147483648.
Definition INT_MAX : Z := 2147483647.
Definition is_int (z : Z) : Prop := INT_MIN ≤ z ≤ INT_MAX.
Definition u32 (z : Z) : Z := z mod 4294967296.

(** ** Lists *)

Fixpoint find_index {A} (p : A → bool) (l : list A) : option nat :=
  match l with
  | [] => None
  | x :: l => if p x then Some O else S <$> find_index p l
  end.

Lemma find_index_Some {A} (p : A → bool) l i :
  find_index p l = Some i →
  ∃ x, l !! i = Some x ∧ p x = true ∧ ∀ j y, (j < i)%nat → l !! j = Some y → p y = false.
Proof.
  revert i; induction l as [|x l IH]; intros i; simpl; [done|].
  destruct (p x) eqn:E.
  - intros [= <-]. exists x. repeat split; [done|]. intros; lia.
  - destruct (find_index p l) as [k|] eqn:F; simpl; [|done]. intros [= <-].
    destruct (IH k eq_refl) as (y & Hy & Hp & Hlt). exists y. repeat split; try done.
    intros [|j] z Hj Hz; simpl in *; [congruence|]. eapply Hlt; [|done]. lia.
Qed.

Lemma find_index_None {A} (p : A → bool) l :
  find_index p l = None → ∀ x, x ∈ l → p x = false.
Proof.
  induction l as [|x l IH]; simpl; [set_solver|].
  destruct (p x) eqn:E; [done|]. destruct (find_index p l) eqn:F; [done|].
  intros _ y [->|Hy]%elem_of_cons; [done|]. by apply IH.
Qed.

Lemma find_index_is_Some {A} (p : A → bool) l x :
  x ∈ l → p x = true → is_Some (find_index p l).
Proof.
  intros Hx Hp. destruct (find_index p l) eqn:E; [done|].
  pose proof (find_index_None _ _ E _ Hx). congruence.
Qed.

Definition sumZ (l : list Z) : Z := foldr Z.add 0 l.

Lemma sumZ_app l k : sumZ (l ++ k) = sumZ l + sumZ k.
Proof. induction l as [|x l IH]; simpl; [done|]. rewrite IH. lia. Qed.

Lemma sumZ_nonneg l : Forall (λ z, 0 ≤ z) l → 0 ≤ sumZ l.
Proof. induction 1; simpl; lia. Qed.

Lemma sumZ_insert (l : list Z) (i : nat) x y :
  l !! i = Some x → sumZ (<[i:=y]> l) = sumZ l - x + y.
Proof.
  revert i; induction l as [|z l IH]; intros [|i] H; simplify_eq/=; [lia|].
  rewrite (IH _ H). lia.
Qed.

Lemma fmap_insert_same {A B} (f : A → B) (l : list A) (i : nat) x y :
  l !! i = Some x → f y = f x → f <$> <[i:=y]> l = f <$> l.
Proof.
  intros Hx Hf. rewrite list_fmap_insert, Hf.
  apply list_insert_id. by rewrite list_lookup_fmap, Hx.
Qed.

(** [a\[i\] = a\[--n\]]: removal from an array without keeping the order. *)
Definition swap_remove {A} (h : list A) (i : nat) : list A :=
  match h !! (length h - 1)%nat with
  | Some z => take (length h - 1) (<[i:=z]> h)
  | None => h
  end.

Lemma swap_remove_app {A} (h : list A) (z : A) (i : nat) :
  swap_remove (h ++ [z]) i = if decide (i < length h)%nat then <[i:=z]> h else h.
Proof.
  unfold swap_remove. rewrite length_app; simpl.
  replace (length h + 1 - 1)%nat with (length h) by lia.
  rewrite lookup_app_r by lia. rewrite Nat.sub_diag; simpl. case_decide as H.
  - rewrite insert_app_l by done. rewrite take_app_le by (rewrite length_insert; lia).
    by rewrite firstn_all2 by (rewrite length_insert; lia).
  - rewrite insert_app_r_alt by lia.
    rewrite take_app_le by lia. by rewrite firstn_all2.
Qed.

Lemma swap_remove_perm {A} (h : list A) i x : h !! i = Some x → h ≡ₚ x :: swap_remove h i.
Proof.
  intros Hx. destruct h as [|z h _] using rev_ind; [done|].
  rewrite swap_remove_app. case_decide as Hi.
  - rewrite lookup_app_l in Hx by done.
    rewrite insert_take_drop by done. rewrite <- (take_drop_middle h i x Hx) at 1.
    rewrite <- !Permutation_middle. rewrite Permutation_app_comm. simpl. apply Permutation_swap.
  - apply lookup_lt_Some in Hx as Hlt. rewrite length_app in Hlt; simpl in Hlt.
    rewrite lookup_app_r in Hx by lia. replace (i - length h)%nat with O in Hx by lia.
    simplify_eq/=. by rewrite Permutation_app_comm.
Qed.

Lemma filter_none {A} (P : A → Prop) `{∀ x, Decision (P x)} (l : list A) :
  (∀ y, y ∈ l → ¬ P y) → filter P l = [].
Proof.
  induction l as [|x l IH]; intros Hn; [done|]. rewrite filter_cons, decide_False by (apply Hn; set_solver).
  apply IH. intros y Hy. apply Hn. set_solver.
Qed.

(** The elements with a given key, when keys are unique. *)
Lemma filter_key {A B} (f : A → B) (p : A → bool) (l : list A) x :
  NoDup (f <$> l) → x ∈ l → (∀ y, p y = true ↔ f y = f x) → filter (λ y, p y = true) l = [x].
Proof.
  intros Hnd Hx Hp. induction l as [|y l IH]; [set_solver|].
  apply NoDup_cons in Hnd as [Hy Hnd]. rewrite filter_cons.
  apply elem_of_cons in Hx as [<-|Hx].
  - rewrite decide_True by (by apply Hp). f_equal. apply filter_none.
    intros z Hz Hpz%Hp. apply Hy. rewrite <- Hpz. by apply list_elem_of_fmap_2.
  - rewrite decide_False; [by apply IH|]. intros Hpy%Hp. apply Hy. rewrite Hpy. by apply list_elem_of_fmap_2.
Qed.

(** A fold that may fail to end. *)
Fixpoint option_fold {A B} (f : A → B → option A) (a : A) (l : list B) : option A :=
  match l with
  | [] => Some a
  | x :: l => a ← f a x; option_fold f a l
  end.

Lemma option_fold_ok {A B} (f : A → B → option A) (P : A → Prop) (Q : B → Prop) l a :
  (∀ a b, P a → Q b → ∃ a', f a b = Some a' ∧ P a') → Forall Q l → P a → ∃ a', option_fold f a l = Some a' ∧ P a'.
Proof.
  intros Hf Hl. revert a. induction Hl as [|b l Hb Hl IH]; intros a Ha; cbn [option_fold]; [by exists a|].
  destruct (Hf a b Ha Hb) as (a1 & -> & H1). exact (IH a1 H1).
Qed.

(** ** Transition sequences *)
Section star.
Context {A : Type} (R : A → A → Prop).

Lemma rtc_invariant (P : A → Prop) :
  (∀ x y, R x y → P x → P y) → ∀ x y, rtc R x y → P x → P y.
Proof. intros Hstep x y Hrtc. induction Hrtc; eauto. Qed.
End star.

(** ** Automation *)

(** Case analysis on the first [if], [match] or [let] of the goal. *)
Ltac case_goal :=
  match goal with
  | |- context [if ?b then _ else _] => destruct b eqn:?
  | |- context [match ?x with _ => _ end] => destruct x eqn:?
  end.

(** Unfold one level of the state monad in a hypothesis or the goal. *)
Ltac st_unfold := unfold mbind, st_bind, mret, st_ret, st_get, st_gets, st_modify, st_put, st_zoom in *.

Ltac bool_prop :=
  repeat match goal with
  | H : andb _ _ = true |- _ => apply andb_prop in H; destruct H
  | H : negb _ = true |- _ => apply negb_true_iff in H
  | H : negb _ = false |- _ => apply negb_false_iff in H
  | H : (_ <=? _) = true |- _ => apply Z.leb_le in H
  | H : (_ <=? _) = false |- _ => apply Z.leb_gt in H
  | H : (_ <? _) = true |- _ => apply Z.ltb_lt in H
  | H : (_ <? _) = false |- _ => apply Z.ltb_ge in H
  | H : (_ =? _) = true |- _ => apply Z.eqb_eq in H
  | H : (_ =? _) = false |- _ => apply Z.eqb_neq in H
  | H : (_ >=? _) = _ |- _ => rewrite Z.geb_leb in H
  | H : (_ >? _) = _ |- _ => rewrite Z.gtb_ltb in H
  | H : String.eqb _ _ = true |- _ => apply String.eqb_eq in H
  | H : String.eqb _ _ = false |- _ => apply String.eqb_neq in H
  end.

Create HintDb clib.
#[export] Hint Resolve keeps_ret keeps_bind keeps_get keeps_gets keeps_iter : clib.
#[export] Hint Resolve cbuf_len cbuf_cbuf sumZ_nonneg : clib.
#[export] Hint Rewrite sumZ_app cbuf_cbuf str_take_take : clib.
