(* ===== verification/Job.v ===== *)
(** The job record of include/job.h, its status codes and the table of
    allowed status transitions of src/core/job.c. *)
From S2P Require Import Prelude.

Definition JOB_ID_LEN : nat := 37.
Definition JOB_CMD_LEN : nat := 512.
Definition JOB_USER_LEN : nat := 128.
Definition JOB_APP_LEN : nat := 128.

(** [JobStatus] with the reserved legacy value 1, which rows written before
    v1 can still hold. *)
Inductive JobStatus :=
  | JOB_STATUS_QUEUED
  | JOB_STATUS_STARTING_legacy
  | JOB_STATUS_RUNNING
  | JOB_STATUS_SUCCEEDED
  | JOB_STATUS_CANCELLED
  | JOB_STATUS_FAILED
  | JOB_STATUS_CREATED.

#[export] Instance JobStatus_eq_dec : EqDecision JobStatus.
Proof. solve_decision. Defined.

Definition status_code (s : JobStatus) : Z :=
  match s with
  | JOB_STATUS_QUEUED => 0
  | JOB_STATUS_STARTING_legacy => 1
  | JOB_STATUS_RUNNING => 2
  | JOB_STATUS_SUCCEEDED => 3
  | JOB_STATUS_CANCELLED => 4
  | JOB_STATUS_FAILED => 5
  | JOB_STATUS_CREATED => 6
  end.

Lemma status_code_inj s t : status_code s = status_code t → s = t.
Proof. by destruct s, t. Qed.

Definition status_is (s t : JobStatus) : bool := bool_decide (s = t).

Definition transition_allowed (from to : JobStatus) : bool :=
  match from with
  | JOB_STATUS_CREATED => status_is to JOB_STATUS_QUEUED || status_is to JOB_STATUS_CANCELLED
  | JOB_STATUS_QUEUED =>
      status_is to JOB_STATUS_RUNNING || status_is to JOB_STATUS_FAILED
      || status_is to JOB_STATUS_CANCELLED
  | JOB_STATUS_RUNNING =>
      status_is to JOB_STATUS_SUCCEEDED || status_is to JOB_STATUS_FAILED
      || status_is to JOB_STATUS_CANCELLED
  | _ => false
  end.

Definition job_status_str (s : JobStatus) : string :=
  match s with
  | JOB_STATUS_CREATED => "CREATED"
  | JOB_STATUS_QUEUED => "QUEUED"
  | JOB_STATUS_RUNNING => "RUNNING"
  | JOB_STATUS_SUCCEEDED => "SUCCEEDED"
  | JOB_STATUS_CANCELLED => "CANCELLED"
  | JOB_STATUS_FAILED => "FAILED"
  | JOB_STATUS_STARTING_legacy => "UNKNOWN"
  end.

(** Statuses from which [transition_allowed] lets nothing out. *)
Definition is_terminal (s : JobStatus) : bool :=
  match s with
  | JOB_STATUS_SUCCEEDED | JOB_STATUS_CANCELLED | JOB_STATUS_FAILED => true
  | _ => false
  end.

(** The C struct; [char] arrays are their string content. *)
Record Job := mkJob {
  j_id : string;
  j_command : string;
  j_user_id : string;
  j_app_id : string;
  j_status : JobStatus;
  j_priority : Z;
  j_req_cores : Z;
  j_req_gpu : Z;
  j_req_ram_mb : Z;
  j_req_disk_mb : Z;
  j_machine_id : string;
  j_input_dir : string;
  j_output_dir : string;
  j_input_files : string;
  j_submitted_at : Z;
  j_started_at : Z;
  j_ended_at : Z;
  j_exit_code : Z;
  j_timeout_seconds : Z;
  j_status_reason : string;
  j_depends_on : string;
  j_workflow_id : string;
  j_batch_id : string;
  j_same_machine_as : string
}.

Definition with_status (x : JobStatus) (j : Job) : Job :=
  let '(mkJob f0 f1 f2 f3 _ f5 f6 f7 f8 f9 f10 f11 f12 f13 f14 f15 f16 f17 f18 f19 f20 f21 f22 f23) := j in
  mkJob f0 f1 f2 f3 x f5 f6 f7 f8 f9 f10 f11 f12 f13 f14 f15 f16 f17 f18 f19 f20 f21 f22 f23.
Definition with_req_cores (x : Z) (j : Job) : Job :=
  let '(mkJob f0 f1 f2 f3 f4 f5 _ f7 f8 f9 f10 f11 f12 f13 f14 f15 f16 f17 f18 f19 f20 f21 f22 f23) := j in
  mkJob f0 f1 f2 f3 f4 f5 x f7 f8 f9 f10 f11 f12 f13 f14 f15 f16 f17 f18 f19 f20 f21 f22 f23.
Definition with_machine_id (x : string) (j : Job) : Job :=
  let '(mkJob f0 f1 f2 f3 f4 f5 f6 f7 f8 f9 _ f11 f12 f13 f14 f15 f16 f17 f18 f19 f20 f21 f22 f23) := j in
  mkJob f0 f1 f2 f3 f4 f5 f6 f7 f8 f9 x f11 f12 f13 f14 f15 f16 f17 f18 f19 f20 f21 f22 f23.
Definition with_input_dir (x : string) (j : Job) : Job :=
  let '(mkJob f0 f1 f2 f3 f4 f5 f6 f7 f8 f9 f10 _ f12 f13 f14 f15 f16 f17 f18 f19 f20 f21 f22 f23) := j in
  mkJob f0 f1 f2 f3 f4 f5 f6 f7 f8 f9 f10 x f12 f13 f14 f15 f16 f17 f18 f19 f20 f21 f22 f23.
Definition with_output_dir (x : string) (j : Job) : Job :=
  let '(mkJob f0 f1 f2 f3 f4 f5 f6 f7 f8 f9 f10 f11 _ f13 f14 f15 f16 f17 f18 f19 f20 f21 f22 f23) := j in
  mkJob f0 f1 f2 f3 f4 f5 f6 f7 f8 f9 f10 f11 x f13 f14 f15 f16 f17 f18 f19 f20 f21 f22 f23.
Definition with_input_files (x : string) (j : Job) : Job :=
  let '(mkJob f0 f1 f2 f3 f4 f5 f6 f7 f8 f9 f10 f11 f12 _ f14 f15 f16 f17 f18 f19 f20 f21 f22 f23) := j in
  mkJob f0 f1 f2 f3 f4 f5 f6 f7 f8 f9 f10 f11 f12 x f14 f15 f16 f17 f18 f19 f20 f21 f22 f23.
Definition with_started_at (x : Z) (j : Job) : Job :=
  let '(mkJob f0 f1 f2 f3 f4 f5 f6 f7 f8 f9 f10 f11 f12 f13 f14 _ f16 f17 f18 f19 f20 f21 f22 f23) := j in
  mkJob f0 f1 f2 f3 f4 f5 f6 f7 f8 f9 f10 f11 f12 f13 f14 x f16 f17 f18 f19 f20 f21 f22 f23.
Definition with_ended_at (x : Z) (j : Job) : Job :=
  let '(mkJob f0 f1 f2 f3 f4 f5 f6 f7 f8 f9 f10 f11 f12 f13 f14 f15 _ f17 f18 f19 f20 f21 f22 f23) := j in
  mkJob f0 f1 f2 f3 f4 f5 f6 f7 f8 f9 f10 f11 f12 f13 f14 f15 x f17 f18 f19 f20 f21 f22 f23.
Definition with_exit_code (x : Z) (j : Job) : Job :=
  let '(mkJob f0 f1 f2 f3 f4 f5 f6 f7 f8 f9 f10 f11 f12 f13 f14 f15 f16 _ f18 f19 f20 f21 f22 f23) := j in
  mkJob f0 f1 f2 f3 f4 f5 f6 f7 f8 f9 f10 f11 f12 f13 f14 f15 f16 x f18 f19 f20 f21 f22 f23.
Definition with_timeout_seconds (x : Z) (j : Job) : Job :=
  let '(mkJob f0 f1 f2 f3 f4 f5 f6 f7 f8 f9 f10 f11 f12 f13 f14 f15 f16 f17 _ f19 f20 f21 f22 f23) := j in
  mkJob f0 f1 f2 f3 f4 f5 f6 f7 f8 f9 f10 f11 f12 f13 f14 f15 f16 f17 x f19 f20 f21 f22 f23.
Definition with_status_reason (x : string) (j : Job) : Job :=
  let '(mkJob f0 f1 f2 f3 f4 f5 f6 f7 f8 f9 f10 f11 f12 f13 f14 f15 f16 f17 f18 _ f20 f21 f22 f23) := j in
  mkJob f0 f1 f2 f3 f4 f5 f6 f7 f8 f9 f10 f11 f12 f13 f14 f15 f16 f17 f18 x f20 f21 f22 f23.
Definition with_depends_on (x : string) (j : Job) : Job :=
  let '(mkJob f0 f1 f2 f3 f4 f5 f6 f7 f8 f9 f10 f11 f12 f13 f14 f15 f16 f17 f18 f19 _ f21 f22 f23) := j in
  mkJob f0 f1 f2 f3 f4 f5 f6 f7 f8 f9 f10 f11 f12 f13 f14 f15 f16 f17 f18 f19 x f21 f22 f23.
Definition with_workflow_id (x : string) (j : Job) : Job :=
  let '(mkJob f0 f1 f2 f3 f4 f5 f6 f7 f8 f9 f10 f11 f12 f13 f14 f15 f16 f17 f18 f19 f20 _ f22 f23) := j in
  mkJob f0 f1 f2 f3 f4 f5 f6 f7 f8 f9 f10 f11 f12 f13 f14 f15 f16 f17 f18 f19 f20 x f22 f23.
Definition with_batch_id (x : string) (j : Job) : Job :=
  let '(mkJob f0 f1 f2 f3 f4 f5 f6 f7 f8 f9 f10 f11 f12 f13 f14 f15 f16 f17 f18 f19 f20 f21 _ f23) := j in
  mkJob f0 f1 f2 f3 f4 f5 f6 f7 f8 f9 f10 f11 f12 f13 f14 f15 f16 f17 f18 f19 f20 f21 x f23.
Definition with_same_machine_as (x : string) (j : Job) : Job :=
  let '(mkJob f0 f1 f2 f3 f4 f5 f6 f7 f8 f9 f10 f11 f12 f13 f14 f15 f16 f17 f18 f19 f20 f21 f22 _) := j in
  mkJob f0 f1 f2 f3 f4 f5 f6 f7 f8 f9 f10 f11 f12 f13 f14 f15 f16 f17 f18 f19 f20 f21 f22 x.

#[export] Instance Job_eq_dec : EqDecision Job.
Proof. solve_decision. Defined.

(** What [calloc] returns. *)
Definition zero_job : Job :=
  mkJob "" "" "" "" JOB_STATUS_QUEUED 0 0 0 0 0 "" "" "" "" 0 0 0 0 0 "" "" "" "" "".

Lemma transition_allowed_terminal s t : is_terminal s = true → transition_allowed s t = false.
Proof. by destruct s. Qed.

Lemma transition_allowed_irrefl s : transition_allowed s s = false.
Proof. by destruct s. Qed.

(** A setter changes one field only; these equations drive [simpl]. *)
Lemma with_status_id s j : j_id (with_status s j) = j_id j.
Proof. by destruct j. Qed.
Lemma with_status_status s j : j_status (with_status s j) = s.
Proof. by destruct j. Qed.
#[export] Hint Rewrite with_status_id with_status_status : clib.
