(* ===== verification/Uuid.v ===== *)
(** Job identifiers: the POSIX [gen_uuid] of src/core/job.c, which formats
    sixteen random bytes as a version 4 UUID, or the time and a pseudo-random
    number when /dev/urandom cannot be read. *)
From S2P Require Import Prelude Job.

(** ** Hexadecimal *)

Definition hex_char (v : Z) : ascii := default "0"%char (String.get (Z.to_nat v) "0123456789abcdef").
(** [%02x] of a byte. *)
Definition hex02 (b : Z) : string := String (hex_char (Z.shiftr b 4)) (String (hex_char (Z.land b 15)) EmptyString).
Definition hex_bytes (l : list Z) : string := foldr (λ b s, hex02 b +:+ s) EmptyString l.
Fixpoint hex_nibbles (n : nat) (z : Z) : string :=
  match n with
  | O => EmptyString
  | S n => String (hex_char (Z.land (Z.shiftr z (4 * Z.of_nat n)) 15)) (hex_nibbles n z)
  end.
(** [%lx] of a 64-bit [long]. *)
Definition hex_long (z : Z) : string :=
  match trim_left (Ascii.eqb "0") (hex_nibbles 16 (z mod 2 ^ 64)) with
  | EmptyString => "0"
  | s => s
  end.

(** ** Identifiers *)

(** What one call finds: the bytes that reading 16 from /dev/urandom gives,
    or the time and [rand()]. *)
Inductive UuidSource :=
  | Urandom (b : list Z)
  | NoUrandom (now rand : Z).

(** Version 4, and the variant. *)
Definition uuid_bytes (b : list Z) : list Z :=
  <[8%nat := Z.lor (Z.land (nth 8 b 0) 63) 128]> (<[6%nat := Z.lor (Z.land (nth 6 b 0) 15) 64]> b).

Definition gen_uuid (source : UuidSource) : string :=
  cbuf JOB_ID_LEN
    (match source with
     | NoUrandom now rand => hex_long now +:+ "-" +:+ hex_long rand
     | Urandom b =>
         let b := uuid_bytes b in
         let part i n := hex_bytes (take n (drop i b)) in
         part 0%nat 4%nat +:+ "-" +:+ part 4%nat 2%nat +:+ "-" +:+ part 6%nat 2%nat +:+ "-" +:+ part 8%nat 2%nat +:+ "-" +:+ part 10%nat 6%nat
     end).

Definition source_ok (source : UuidSource) : Prop :=
  match source with
  | Urandom b => length b = 16%nat ∧ Forall (λ x, 0 ≤ x < 256) b
  | NoUrandom _ _ => True
  end.

(** ** Properties *)

Definition id_char (c : ascii) : bool := is_digit c || in_range 97 102 c || Ascii.eqb c "-".

Lemma hex_char_ok v : id_char (hex_char v) = true.
Proof.
  unfold hex_char. generalize (Z.to_nat v). intros n. do 16 (destruct n as [|n]; [reflexivity|]). by destruct n.
Qed.
Lemma hex_bytes_ok l : str_forallb id_char (hex_bytes l) = true.
Proof.
  induction l as [|b l IH]; [done|]. change (hex_bytes (b :: l)) with (hex02 b +:+ hex_bytes l).
  rewrite forallb_app, IH. unfold hex02. cbn [str_forallb]. by rewrite !hex_char_ok.
Qed.
Lemma hex_bytes_len l : str_len (hex_bytes l) = (2 * length l)%nat.
Proof.
  induction l as [|b l IH]; [done|]. change (hex_bytes (b :: l)) with (hex02 b +:+ hex_bytes l).
  rewrite str_len_app, IH. cbn [hex02 str_len length]. lia.
Qed.
Lemma hex_nibbles_ok n z : str_forallb id_char (hex_nibbles n z) = true ∧ str_len (hex_nibbles n z) = n.
Proof.
  induction n as [|n IH]; [done|]. destruct IH as [H1 H2]. cbn [hex_nibbles str_forallb str_len].
  by rewrite hex_char_ok, H1, H2.
Qed.

Lemma trim_left_ok p q s : str_forallb p s = true → str_forallb p (trim_left q s) = true ∧ (str_len (trim_left q s) ≤ str_len s)%nat.
Proof.
  induction s as [|c s IH]; [done|]. cbn. intros [Hc Hs]%andb_true_iff. destruct (q c).
  - destruct (IH Hs) as [? ?]. split; [done|lia].
  - cbn. rewrite Hc, Hs. split; [done|lia].
Qed.
Lemma hex_long_ok z : str_forallb id_char (hex_long z) = true ∧ (1 ≤ str_len (hex_long z) ≤ 16)%nat.
Proof.
  unfold hex_long. destruct (hex_nibbles_ok 16 (z mod 2 ^ 64)) as [H1 H2].
  destruct (trim_left_ok id_char (Ascii.eqb "0") _ H1) as [H3 H4]. rewrite H2 in H4.
  destruct (trim_left _ _) as [|c s]; [cbn; split; [done|lia]|]. split; [done|]. cbn in *. lia.
Qed.

Lemma gen_uuid_chars source : str_forallb id_char (gen_uuid source) = true ∧ (1 ≤ str_len (gen_uuid source) < JOB_ID_LEN)%nat.
Proof.
  unfold gen_uuid. match goal with |- context [cbuf JOB_ID_LEN ?x] => set (s := x) end.
  assert (str_forallb id_char s = true ∧ (1 ≤ str_len s)%nat) as [H1 H2].
  { unfold s. destruct source as [b|now rand].
    - rewrite !forallb_app, !hex_bytes_ok. split; [done|]. rewrite !str_len_app. cbn [str_len]. lia.
    - destruct (hex_long_ok now) as [E1 ?], (hex_long_ok rand) as [E2 ?]. rewrite !forallb_app, E1, E2.
      split; [done|]. rewrite !str_len_app. lia. }
  split; [by apply forallb_take|]. split; [|apply cbuf_len; unfold JOB_ID_LEN; lia].
  unfold cbuf. destruct s; [cbn in H2; lia|]. cbn. lia.
Qed.
