(* ===== verification/Heap.v ===== *)
(** The array heap of src/core/queue.c, for any comparison: sift up, sift
    down, removal at an index, with heap order and contents proved for each.
    [before x y] is the C predicate "x is served strictly before y". *)
From S2P Require Import Prelude.

(** [before] is a strict weak order: asymmetric, and incomparability is
    transitive. *)
Class StrictWeakOrder {A} (before : A → A → bool) : Prop := {
  swo_asym x y : before x y = true → before y x = false;
  swo_negtrans x y z : before x y = false → before y z = false → before x z = false;
}.

Definition parent (i : nat) : nat := ((i - 1) / 2)%nat.

Section Heap.
Context {A : Type} (before : A → A → bool).

(** [before(heap\[i\], heap\[j\])] *)
Definition before_at (h : list A) (i j : nat) : bool :=
  match h !! i, h !! j with
  | Some x, Some y => before x y
  | _, _ => false
  end.

Definition heap_swap (h : list A) (a b : nat) : list A :=
  match h !! a, h !! b with
  | Some x, Some y => <[b:=x]> (<[a:=y]> h)
  | _, _ => h
  end.

(** The [while] loops run on fuel; [i] iterations suffice going up and
    [length h - i] going down, since the index moves strictly. *)
Fixpoint heap_up (fuel : nat) (h : list A) (i : nat) : list A :=
  match fuel with
  | O => h
  | S fuel =>
      if (i =? 0)%nat then h
      else
        let p := parent i in
        if before_at h i p then heap_up fuel (heap_swap h p i) p else h
  end.

(** The choice of [smallest] among [i] and its two children. *)
Definition heap_smallest (h : list A) (i : nat) : nat :=
  let n := length h in
  let l := (2 * i + 1)%nat in
  let r := (2 * i + 2)%nat in
  let smallest := if (l <? n)%nat && before_at h l i then l else i in
  if (r <? n)%nat && before_at h r smallest then r else smallest.

Fixpoint heap_down (fuel : nat) (h : list A) (i : nat) : list A :=
  match fuel with
  | O => h
  | S fuel =>
      let smallest := heap_smallest h i in
      if (smallest =? i)%nat then h
      else heap_down fuel (heap_swap h i smallest) smallest
  end.

Definition sift_up (h : list A) (i : nat) : list A := heap_up i h i.
Definition sift_down (h : list A) (i : nat) : list A := heap_down (length h - i) h i.

(** Removal at an index: fill from the end, then restore the order in the
    direction the moved element violates it. *)
Definition heap_remove_at (h : list A) (i : nat) : list A :=
  let h' := swap_remove h i in
  if (i <? length h')%nat then
    if (0 <? i)%nat && before_at h' i (parent i) then sift_up h' i
    else sift_down h' i
  else h'.

Definition heap_push (h : list A) (x : A) : list A := sift_up (h ++ [x]) (length h).

(** *** Heap order *)

Definition le (x y : A) : Prop := before y x = false.

Definition edge_ok (h : list A) (j : nat) : Prop :=
  ∀ x p, h !! j = Some x → h !! parent j = Some p → le p x.

Definition heap_ok (h : list A) : Prop := ∀ j, (0 < j)%nat → edge_ok h j.

(** The children of [i] are above the parent of [i]. *)
Definition grand_ok (h : list A) (i : nat) : Prop :=
  ∀ j x g, (0 < i)%nat → (0 < j)%nat → parent j = i →
    h !! j = Some x → h !! parent i = Some g → le g x.

Definition up_ok (h : list A) (i : nat) : Prop :=
  (∀ j, (0 < j)%nat → j ≠ i → edge_ok h j) ∧ grand_ok h i.
Definition down_ok (h : list A) (i : nat) : Prop :=
  (∀ j, (0 < j)%nat → parent j ≠ i → edge_ok h j) ∧ grand_ok h i.
Definition hole_ok (h : list A) (i : nat) : Prop :=
  (∀ j, (0 < j)%nat → j ≠ i → parent j ≠ i → edge_ok h j) ∧ grand_ok h i.

Definition is_min (x : A) (l : list A) : Prop := x ∈ l ∧ ∀ y, y ∈ l → le x y.

Lemma parent_lt i : (0 < i)%nat → (parent i < i)%nat.
Proof. intros H. unfold parent. pose proof (Nat.div_le_mono (i-1) i 2). apply Nat.Div0.div_lt_upper_bound; lia. Qed.

Lemma parent_children i j : (0 < j)%nat → parent j = i ↔ j = (2*i+1)%nat ∨ j = (2*i+2)%nat.
Proof.
  intros Hj. unfold parent. pose proof (Nat.div_mod_eq (j-1) 2).
  pose proof (Nat.mod_upper_bound (j-1) 2). lia.
Qed.

Lemma heap_swap_lookup h a b x y k :
  h !! a = Some x → h !! b = Some y →
  heap_swap h a b !! k = if decide (k = b) then Some x else if decide (k = a) then Some y else h !! k.
Proof.
  intros Ha Hb. unfold heap_swap. rewrite Ha, Hb.
  pose proof (lookup_lt_Some _ _ _ Ha). pose proof (lookup_lt_Some _ _ _ Hb).
  repeat case_decide; subst.
  - rewrite list_lookup_insert_eq; [done|]. by rewrite length_insert.
  - rewrite list_lookup_insert_ne, list_lookup_insert_eq by done. done.
  - by rewrite !list_lookup_insert_ne by done.
Qed.

Lemma heap_swap_length h a b : length (heap_swap h a b) = length h.
Proof. unfold heap_swap. repeat case_match; by rewrite ?length_insert. Qed.

Lemma heap_swap_perm h a b : heap_swap h a b ≡ₚ h.
Proof.
  destruct (h !! a) as [x|] eqn:Ha, (h !! b) as [y|] eqn:Hb;
    try (unfold heap_swap; rewrite ?Ha, ?Hb; done).
  apply Permutation_inj. split; [apply heap_swap_length|].
  exists (λ k, if decide (k = b) then a else if decide (k = a) then b else k). split.
  - intros i j. repeat case_decide; congruence.
  - intros k. rewrite (heap_swap_lookup _ _ _ x y) by done. repeat case_decide; congruence.
Qed.

Lemma heap_up_perm fuel h i : heap_up fuel h i ≡ₚ h.
Proof.
  revert h i. induction fuel as [|fuel IH]; intros h i; simpl; [done|].
  case_match; [done|]. case_match; [|done]. by rewrite IH, heap_swap_perm.
Qed.

Lemma heap_down_perm fuel h i : heap_down fuel h i ≡ₚ h.
Proof.
  revert h i. induction fuel as [|fuel IH]; intros h i; simpl; [done|].
  case_match; [done|]. by rewrite IH, heap_swap_perm.
Qed.

(** *** Contents of the composite operations *)

Lemma heap_push_perm h x : heap_push h x ≡ₚ x :: h.
Proof. unfold heap_push, sift_up. rewrite heap_up_perm. by rewrite Permutation_app_comm. Qed.

Lemma heap_remove_at_perm h i x : h !! i = Some x → h ≡ₚ x :: heap_remove_at h i.
Proof.
  intros Hx. rewrite (swap_remove_perm h i x) at 1 by done. unfold heap_remove_at, sift_up, sift_down.
  repeat case_match; by rewrite ?heap_up_perm, ?heap_down_perm.
Qed.

(** *** Heap order of the loops *)
Context `{!StrictWeakOrder before}.

Lemma le_refl x : le x x.
Proof.
  unfold le. destruct (before x x) eqn:E; [|done]. by rewrite (swo_asym _ _ E) in E.
Qed.

Lemma le_trans x y z : le x y → le y z → le x z.
Proof. unfold le. intros H1 H2. by eapply swo_negtrans. Qed.

Lemma before_le x y : before x y = true → le x y.
Proof. apply swo_asym. Qed.

Lemma before_trans x y z : before x y = true → before y z = true → before x z = true.
Proof.
  intros H1 H2. destruct (before x z) eqn:E; [done|].
  rewrite <- H1. symmetry. eapply swo_negtrans; [exact E|]. by apply swo_asym.
Qed.

Lemma heap_up_step_ok h i x y :
  (0 < i)%nat → h !! i = Some x → h !! parent i = Some y → before x y = true →
  up_ok h i → up_ok (heap_swap h (parent i) i) (parent i).
Proof.
  intros Hi Hx Hy Hxy [Hedge Hgrand]. pose proof (parent_lt i Hi) as Hp.
  pose proof (λ k, heap_swap_lookup h (parent i) i y x k Hy Hx) as L. split.
  - intros j Hj Hji u v. rewrite !L. pose proof (parent_lt j Hj).
    destruct (decide (j = i)) as [->|Hj']; [rewrite decide_False, decide_True by lia|].
    + intros [= <-] [= <-]. by apply before_le.
    + rewrite decide_False by done. case_decide as Hpi.
      { intros Hu [= <-]. eapply (Hgrand j u y); eauto. }
      case_decide as Hpp; [|by eapply Hedge].
      intros Hu [= <-]. eapply le_trans; [by apply before_le|].
      eapply (Hedge j Hj Hj'); [done|]. by rewrite Hpp.
  - intros j u g Hpp Hj Hpj. rewrite !L. pose proof (parent_lt _ Hpp). pose proof (parent_lt j Hj).
    rewrite (decide_False (P := parent (parent i) = i)) by lia.
    rewrite (decide_False (P := parent (parent i) = parent i)) by lia.
    assert (edge_ok h (parent i)) as Hg by (apply Hedge; lia).
    case_decide as Hji; [intros [= <-] Hgv; by eapply Hg|].
    rewrite decide_False by lia. intros Hu Hgv.
    eapply le_trans; [by eapply Hg|]. eapply (Hedge j Hj Hji); [done|]. by rewrite Hpj.
Qed.

Lemma heap_up_ok fuel h i : (i ≤ fuel)%nat → up_ok h i → heap_ok (heap_up fuel h i).
Proof.
  revert h i. induction fuel as [|fuel IH]; intros h i Hf Hok; simpl.
  { intros j Hj. apply Hok; lia. }
  destruct (i =? 0)%nat eqn:Ei; [apply Nat.eqb_eq in Ei; intros j Hj; apply Hok; lia|].
  apply Nat.eqb_neq in Ei. pose proof (parent_lt i ltac:(lia)).
  destruct (before_at h i (parent i)) eqn:Eb.
  - unfold before_at in Eb. destruct (h !! i) as [x|] eqn:Hx, (h !! parent i) as [y|] eqn:Hy; try done.
    apply IH; [lia|]. eapply heap_up_step_ok; eauto; lia.
  - intros j Hj. destruct (decide (j = i)) as [->|Hne]; [|by apply Hok].
    intros x p Hx Hp. unfold before_at in Eb. by rewrite Hx, Hp in Eb.
Qed.

(** What the comparison of [i] with its children establishes. *)
Lemma heap_smallest_spec h i x s :
  h !! i = Some x → s = heap_smallest h i →
  ∃ y, h !! s = Some y ∧ (s = i ∨ parent s = i ∧ (0 < s)%nat ∧ before y x = true) ∧
    ∀ c z, (0 < c)%nat → parent c = i → h !! c = Some z → le y z.
Proof.
  intros Hx ->. unfold heap_smallest, before_at. rewrite Hx.
  set (l := (2 * i + 1)%nat). set (r := (2 * i + 2)%nat).
  assert (∀ c, (0 < c)%nat → parent c = i ↔ c = l ∨ c = r) as Hch by (intros; by apply parent_children).
  assert (parent l = i) as Hpl by (apply Hch; lia). assert (parent r = i) as Hpr by (apply Hch; lia).
  assert (∀ c, (c <? length h)%nat = bool_decide (is_Some (h !! c))) as Hlt.
  { intros c. destruct (Nat.ltb_spec c (length h)) as [Hc|Hc].
    - symmetry. apply bool_decide_eq_true. by apply lookup_lt_is_Some.
    - symmetry. apply bool_decide_eq_false. rewrite lookup_lt_is_Some. lia. }
  assert (0 < l)%nat as Hl0 by lia. assert (0 < r)%nat as Hr0 by lia.
  rewrite !Hlt. clear Hlt. clearbody l r.
  destruct (h !! l) as [yl|] eqn:Hl; [destruct (before yl x) eqn:El|]; simpl; rewrite ?Hl, ?Hx;
    (destruct (h !! r) as [yr|] eqn:Hr;
      [match goal with |- context [before yr ?y] => destruct (before yr y) eqn:Er end|]); simpl;
    rewrite ?Hx, ?Hl, ?Hr; eexists; (split; [reflexivity|]);
    (split; [by eauto 6 using before_trans|]);
    intros c z Hc [->| ->]%Hch Hz; simplify_eq; eauto using le_refl, le_trans, before_le.
Qed.

Lemma heap_down_step_ok h i s x y :
  h !! i = Some x → h !! s = Some y → s ≠ i → parent s = i → (0 < s)%nat → before y x = true →
  (∀ c z, (0 < c)%nat → parent c = i → h !! c = Some z → le y z) →
  down_ok h i → down_ok (heap_swap h i s) s.
Proof.
  intros Hx Hy Hsi Hps Hs Hyx Hmin [Hedge Hgrand].
  pose proof (λ k, heap_swap_lookup h i s x y k Hx Hy) as L. pose proof (parent_lt s Hs) as Hlt.
  split.
  - intros j Hj Hpj u v. rewrite !L. pose proof (parent_lt j Hj).
    rewrite (decide_False (P := parent j = s)) by done.
    destruct (decide (j = s)) as [->|Hjs].
    { rewrite decide_True by done. intros [= <-] [= <-]. by apply before_le. }
    case_decide as Hji.
    { subst j. rewrite decide_False by lia. intros [= <-] Hv.
      eapply (Hgrand s); eauto; lia. }
    case_decide as Hpi; [intros Hu [= <-]; by eapply Hmin|].
    intros Hu Hv. by eapply (Hedge j).
  - intros j u g _ Hj Hpj. rewrite !L, Hps. pose proof (parent_lt j Hj).
    rewrite (decide_False (P := i = s)), (decide_True (P := i = i)) by done.
    rewrite !decide_False by lia. intros Hu [= <-].
    eapply (Hedge j); [done|lia|done|by rewrite Hpj].
Qed.

Lemma heap_down_ok fuel h i :
  (i < length h)%nat → (length h - i ≤ fuel)%nat → down_ok h i → heap_ok (heap_down fuel h i).
Proof.
  revert h i. induction fuel as [|fuel IH]; intros h i Hi Hf Hok; simpl; [lia|].
  destruct (lookup_lt_is_Some_2 h i Hi) as [x Hx].
  destruct (heap_smallest_spec h i x _ Hx eq_refl) as (y & Hy & Hs & Hmin).
  destruct (Nat.eqb_spec (heap_smallest h i) i) as [He|Hne].
  - rewrite He in Hy. simplify_eq. intros j Hj.
    destruct (decide (parent j = i)) as [Hp|Hp]; [|by apply Hok].
    intros u v Hu Hv. rewrite Hp in Hv. simplify_eq. by eapply Hmin.
  - destruct Hs as [?|(Hp & H0 & Hb)]; [done|]. pose proof (parent_lt _ H0).
    apply IH; rewrite ?heap_swap_length.
    + by eapply lookup_lt_Some.
    + lia.
    + by eapply heap_down_step_ok.
Qed.

(** *** Heap order of the composite operations *)

Lemma heap_push_ok h x : heap_ok h → heap_ok (heap_push h x).
Proof.
  intros Hok. apply heap_up_ok; [done|]. split.
  - intros j Hj Hne u v Hu Hv. pose proof (parent_lt j Hj).
    apply lookup_lt_Some in Hu as Hlt. rewrite length_app in Hlt; simpl in Hlt.
    rewrite lookup_app_l in Hu, Hv by lia. by eapply Hok.
  - intros j u g H0 Hj Hp Hu _. pose proof (parent_lt j Hj).
    apply lookup_lt_Some in Hu as Hlt. rewrite length_app in Hlt; simpl in Hlt. lia.
Qed.

Lemma heap_fill_hole_ok h i : heap_ok h → hole_ok (swap_remove h i) i.
Proof.
  intros Hok. destruct h as [|z h _] using rev_ind.
  { split; intros j; intros; done. }
  assert (∀ k, k ≠ i → ∀ u, swap_remove (h ++ [z]) i !! k = Some u → (h ++ [z]) !! k = Some u) as L.
  { intros k Hk u. rewrite swap_remove_app. case_decide.
    - rewrite list_lookup_insert_ne by done. intros Hu.
      rewrite lookup_app_l; [done|]. by eapply lookup_lt_Some.
    - intros Hu. rewrite lookup_app_l; [done|]. by eapply lookup_lt_Some. }
  split.
  - intros j Hj Hji Hpi u v Hu%L Hv%L; [|done|done]. by eapply Hok.
  - intros j u g Hi Hj Hp Hu%L Hg%L.
    + destruct (lookup_lt_is_Some_2 (h ++ [z]) i) as [w Hw].
      { pose proof (parent_lt j Hj). apply lookup_lt_Some in Hu. lia. }
      eapply le_trans; [by eapply (Hok i)|]. eapply (Hok j Hj); [done|]. by rewrite Hp.
    + pose proof (parent_lt i Hi). lia.
    + pose proof (parent_lt j Hj). lia.
Qed.

Lemma heap_remove_at_ok h i : heap_ok h → heap_ok (heap_remove_at h i).
Proof.
  intros Hok. unfold heap_remove_at. destruct (heap_fill_hole_ok h i Hok) as [He Hg].
  set (h' := swap_remove h i) in *.
  destruct (Nat.ltb_spec i (length h')) as [Hi|Hi]; simpl.
  2:{ intros j Hj u v Hu Hv. pose proof (parent_lt j Hj).
      apply lookup_lt_Some in Hu as Hlt. apply (He j Hj); [lia|lia|done..]. }
  destruct (lookup_lt_is_Some_2 h' i Hi) as [x Hx].
  destruct ((0 <? i)%nat && before_at h' i (parent i)) eqn:Eb.
  - apply andb_prop in Eb as [H0%Nat.ltb_lt Eb]. unfold before_at in Eb. rewrite Hx in Eb.
    destruct (h' !! parent i) as [g|] eqn:Hgp; [|done].
    apply heap_up_ok; [done|]. split; [|done]. intros j Hj Hji u v Hu Hv.
    destruct (decide (parent j = i)) as [Hp|Hp]; [|by eapply (He j)].
    rewrite Hp in Hv. simplify_eq. eapply le_trans; [by apply before_le|]. by eapply Hg.
  - apply heap_down_ok; [done|done|]. split; [|done]. intros j Hj Hp u v Hu Hv.
    destruct (decide (j = i)) as [->|Hji]; [|by eapply (He j)].
    unfold before_at in Eb. rewrite Hu, Hv in Eb.
    destruct (Nat.ltb_spec 0 i); [done|lia].
Qed.

Lemma heap_root_min h m : heap_ok h → h !! O = Some m → is_min m h.
Proof.
  intros Hok Hm. split; [by eapply list_elem_of_lookup_2|].
  intros y [i Hy]%list_elem_of_lookup. revert y Hy.
  induction (lt_wf i) as [i _ IH]. intros y Hy.
  destruct (decide (i = O)) as [->|Hi]; [simplify_eq; apply le_refl|].
  pose proof (parent_lt i ltac:(lia)) as Hp.
  destruct (lookup_lt_is_Some_2 h (parent i)) as [p Hpv].
  { apply lookup_lt_Some in Hy. lia. }
  eapply le_trans; [by eapply IH|]. eapply (Hok i); [lia|done..].
Qed.
End Heap.

Arguments is_min {A} before x l.
Arguments heap_ok {A} before h.

#[export] Hint Resolve heap_push_ok heap_remove_at_ok heap_push_perm heap_remove_at_perm : clib.
