(* ===== verification/Queue.v ===== *)
(** The job queue of src/core/queue.c: a binary heap of jobs ordered by
    priority, submission time and identifier, its operations, and the abstract
    priority queue (a bag with a least-first order) that it implements. *)
From S2P Require Import Prelude Job Heap.

(** ** Order *)

Definition job_before (a b : Job) : bool :=
  if negb (j_priority a =? j_priority b) then j_priority a <? j_priority b
  else if negb (j_submitted_at a =? j_submitted_at b) then j_submitted_at a <? j_submitted_at b
  else strcmp_lt (j_id a) (j_id b).

Lemma strcmp_lt_cons c s d t :
  strcmp_lt (String c s) (String d t) =
  if (char_code c =? char_code d) then strcmp_lt s t else char_code c <? char_code d.
Proof.
  unfold strcmp_lt, char_code. simpl. unfold Ascii.compare.
  rewrite (Z.eqb_compare (Z.of_N _)), (Z.ltb_compare (Z.of_N _)), !N2Z.inj_compare.
  by destruct (N.compare (N_of_ascii c) (N_of_ascii d)).
Qed.

Lemma strcmp_lt_asym s t : strcmp_lt s t = true → strcmp_lt t s = false.
Proof.
  revert t; induction s as [|c s IH]; intros [|d t]; try done.
  rewrite !strcmp_lt_cons. intros; repeat case_match; bool_prop; try lia; eauto.
Qed.

Lemma strcmp_lt_negtrans s t u :
  strcmp_lt s t = false → strcmp_lt t u = false → strcmp_lt s u = false.
Proof.
  revert t u; induction s as [|c s IH]; intros [|d t] [|e u]; try done.
  rewrite !strcmp_lt_cons. intros; repeat case_match; bool_prop; try lia; eauto.
Qed.

#[export] Instance job_before_order : StrictWeakOrder job_before.
Proof.
  split; unfold job_before.
  - intros x y H. repeat case_match; bool_prop; try lia; by apply strcmp_lt_asym.
  - intros x y z H1 H2. repeat case_match; bool_prop; try lia; by eapply strcmp_lt_negtrans.
Qed.

(** ** State and operations

    [heap] lists the first [size] cells of the C array.  The mutex makes each
    function one atomic step, so each is a function on the state. *)
Record Queue := mkQueue { q_heap : list Job; q_capacity : Z; q_shutdown : bool }.

Definition q_size (q : Queue) : Z := Z.of_nat (length (q_heap q)).
Definition set_heap (h : list Job) (q : Queue) : Queue := mkQueue h (q_capacity q) (q_shutdown q).

Definition queue_create (initial_capacity : Z) : Queue :=
  mkQueue [] (if initial_capacity <? 8 then 8 else initial_capacity) false.

(** [realloc_ok]: whether the [realloc] that doubles the array succeeds. *)
Definition queue_push (realloc_ok : bool) (job : Job) : ST Queue Z := λ q,
  if q_shutdown q then (-1, q)
  else if (q_size q =? q_capacity q) && negb realloc_ok then (-1, q)
  else
    let cap := if q_size q =? q_capacity q then q_capacity q * 2 else q_capacity q in
    (0, mkQueue (heap_push job_before (q_heap q) job) cap (q_shutdown q)).

Definition queue_try_pop : ST Queue (option Job) := λ q,
  match q_heap q with
  | [] => (None, q)
  | job :: _ =>
      let h := swap_remove (q_heap q) 0 in
      let h := if (0 <? length h)%nat then sift_down job_before h 0 else h in
      (Some job, set_heap h q)
  end.

(** [queue_pop] waits on the condition variable while the queue is empty and
    open: [None] is that waiting state, [Some r] a return of [r]. *)
Definition queue_pop (q : Queue) : option (option Job) * Queue :=
  if (q_size q =? 0) && negb (q_shutdown q) then (None, q)
  else if q_shutdown q && (q_size q =? 0) then (Some None, q)
  else let '(job, q') := queue_try_pop q in (Some job, q').

(** The scan for the best matching index. *)
Fixpoint match_scan (predicate : Job → bool) (h : list Job) (l : list Job) (i : nat)
    (best : option nat) : option nat :=
  match l with
  | [] => best
  | x :: l =>
      let best :=
        if negb (predicate x) then best
        else match best with
             | None => Some i
             | Some b => if before_at job_before h i b then Some i else Some b
             end in
      match_scan predicate h l (S i) best
  end.

Definition queue_try_pop_matching (predicate : option (Job → bool)) : ST Queue (option Job) := λ q,
  match predicate with
  | None => queue_try_pop q
  | Some p =>
      match match_scan p (q_heap q) (q_heap q) 0 None with
      | None => (None, q)
      | Some best =>
          (q_heap q !! best, set_heap (heap_remove_at job_before (q_heap q) best) q)
      end
  end.

Definition queue_remove (job_id : string) : ST Queue (option Job) := λ q,
  match find_index (λ j, String.eqb (j_id j) job_id) (q_heap q) with
  | None => (None, q)
  | Some index =>
      (q_heap q !! index, set_heap (heap_remove_at job_before (q_heap q) index) q)
  end.

Definition queue_remove_by_id (job_id : string) : ST Queue (option Job) := queue_remove job_id.

Definition queue_size (q : Queue) : Z := q_size q.

Definition queue_shutdown (q : Queue) : Queue := mkQueue (q_heap q) (q_capacity q) true.

(** [while ((queued = queue_try_pop(q)) != NULL) job_free(queued);] as
    [scheduler_stop] runs it: the jobs in the order they come out. *)
Fixpoint queue_drain (fuel : nat) (q : Queue) : list Job * Queue :=
  match fuel with
  | O => ([], q)
  | S fuel =>
      match queue_try_pop q with
      | (None, q') => ([], q')
      | (Some job, q') => let '(js, q'') := queue_drain fuel q' in (job :: js, q'')
      end
  end.

(** ** Invariant and contents *)

Definition queue_ok (q : Queue) : Prop :=
  heap_ok job_before (q_heap q) ∧ q_size q ≤ q_capacity q ∧ 8 ≤ q_capacity q.

(** [job_le a b]: [b] is not served strictly before [a]. *)
Definition job_le (a b : Job) : Prop := job_before b a = false.

#[export] Instance job_le_preorder : PreOrder job_le.
Proof. split; [intros x; apply (le_refl job_before)|intros x y z; apply (le_trans job_before)]. Qed.

(** The contract a client relies on: a bag of jobs from which the least one
    in [job_before] is taken. *)
Module Spec.
Definition pq := list Job.
Definition push (x : Job) (b b' : pq) : Prop := b' ≡ₚ x :: b.
Definition pop_min (p : Job → bool) (b : pq) (r : option Job) (b' : pq) : Prop :=
  match r with
  | None => b' = b ∧ ∀ x, x ∈ b → p x = false
  | Some x => b ≡ₚ x :: b' ∧ p x = true ∧ ∀ y, y ∈ b → p y = true → job_le x y
  end.
Definition remove (job_id : string) (b : pq) (r : option Job) (b' : pq) : Prop :=
  match r with
  | None => b' = b ∧ ∀ x, x ∈ b → j_id x ≠ job_id
  | Some x => b ≡ₚ x :: b' ∧ j_id x = job_id
  end.
End Spec.

Lemma set_heap_ok h q :
  heap_ok job_before h → (length h ≤ length (q_heap q))%nat → queue_ok q → queue_ok (set_heap h q).
Proof. unfold queue_ok, q_size, set_heap; simpl. intros ? ? (_ & ? & ?). repeat split; [done|lia|done]. Qed.

Lemma remove_at_length (h : list Job) i x :
  h !! i = Some x → length h = S (length (heap_remove_at job_before h i)).
Proof. intros H. by rewrite (heap_remove_at_perm job_before h i x H) at 1. Qed.

(** [queue_try_pop] is removal at the root. *)
Lemma queue_try_pop_remove q :
  queue_try_pop q =
  match q_heap q with
  | [] => (None, q)
  | job :: _ => (Some job, set_heap (heap_remove_at job_before (q_heap q) 0) q)
  end.
Proof.
  unfold queue_try_pop. destruct (q_heap q) as [|job h]; [done|]. by unfold heap_remove_at.
Qed.

Lemma queue_try_pop_spec q r q' :
  queue_ok q → queue_try_pop q = (r, q') →
  queue_ok q' ∧ Spec.pop_min (λ _, true) (q_heap q) r (q_heap q').
Proof.
  intros Hok. rewrite queue_try_pop_remove.
  destruct (q_heap q) as [|job h] eqn:Eh; intros [= <- <-].
  { split; [done|]. rewrite Eh. split; [done|set_solver]. }
  rewrite <- Eh in *. assert (q_heap q !! O = Some job) as H0 by (by rewrite Eh).
  pose proof (remove_at_length _ _ _ H0). split.
  - apply set_heap_ok; [|lia|done]. apply heap_remove_at_ok; [apply _|apply Hok].
  - simpl. repeat split; [by apply heap_remove_at_perm|].
    intros y Hy _. by eapply (heap_root_min job_before _ job); [apply Hok|..].
Qed.

Lemma match_scan_spec p h l i best :
  (∀ k, l !! k = h !! (i + k)%nat) →
  (∀ b, best = Some b → ∃ x, h !! b = Some x ∧ p x = true ∧ (b < i)%nat) →
  (∀ k y, (k < i)%nat → h !! k = Some y → p y = true →
     ∃ b x, best = Some b ∧ h !! b = Some x ∧ job_le x y) →
  match match_scan p h l i best with
  | Some b => ∃ x, h !! b = Some x ∧ p x = true ∧ ∀ y, y ∈ h → p y = true → job_le x y
  | None => ∀ y, y ∈ h → p y = false
  end.
Proof.
  revert i best. induction l as [|x l IH]; intros i best Hl Hb Hmin; simpl.
  - assert (∀ k y, h !! k = Some y → (k < i)%nat) as Hlen.
    { intros k y Hk. destruct (decide (k < i)%nat); [done|].
      specialize (Hl (k - i)%nat). replace (i + (k - i))%nat with k in Hl by lia.
      rewrite Hk in Hl. by rewrite lookup_nil in Hl. }
    destruct best as [b|].
    + destruct (Hb b eq_refl) as (x & Hx & Hp & _). exists x. repeat split; [done..|].
      intros y [k Hk]%list_elem_of_lookup Hpy.
      destruct (Hmin k y) as (? & ? & [= <-] & ? & ?); eauto. by simplify_eq.
    + intros y [k Hk]%list_elem_of_lookup. destruct (p y) eqn:Hpy; [|done].
      destruct (Hmin k y) as (? & ? & ? & ?); eauto. done.
  - assert (h !! i = Some x) as Hx by (specialize (Hl O); by rewrite Nat.add_0_r in Hl).
    apply IH.
    + intros k. specialize (Hl (S k)). simpl in Hl. rewrite Hl. f_equal. lia.
    + destruct (p x) eqn:Hpx; simpl.
      * destruct best as [b|]; [unfold before_at; rewrite Hx; destruct (Hb b eq_refl) as (z & Hz & ? & ?);
          rewrite Hz; destruct (job_before x z)|]; intros ? [= <-]; eauto with lia.
      * intros b ->. destruct (Hb b eq_refl) as (z & ? & ? & ?). eauto with lia.
    + intros k y Hk Hy Hpy. destruct (decide (k = i)) as [->|Hki].
      * simplify_eq. rewrite Hpy; simpl. destruct best as [b|]; [|by eexists _, _].
        unfold before_at. rewrite Hx. destruct (Hb b eq_refl) as (z & Hz & ? & ?). rewrite Hz.
        destruct (job_before x z) eqn:Eb; eexists _, _; (split_and!; [done|done|]); [apply (le_refl job_before)|done].
      * destruct (Hmin k y) as (b & z & -> & Hz & Hle); [lia|done..|].
        destruct (p x); simpl; [|by eauto]. unfold before_at. rewrite Hx, Hz.
        destruct (job_before x z) eqn:Eb; [|by eauto]. eexists _, _. repeat split; [done|].
        transitivity z; [|done]. by apply (swo_asym x z).
Qed.

Lemma queue_try_pop_matching_ok p q r q' :
  queue_ok q → queue_try_pop_matching (Some p) q = (r, q') →
  queue_ok q' ∧ Spec.pop_min p (q_heap q) r (q_heap q').
Proof.
  intros Hok. unfold queue_try_pop_matching.
  pose proof (match_scan_spec p (q_heap q) (q_heap q) 0 None) as Hscan.
  destruct (match_scan p _ _ _ _) as [b|]; intros [= <- <-].
  - destruct Hscan as (x & Hx & Hp & Hmin); [done|done|intros; lia|]. rewrite Hx.
    pose proof (remove_at_length _ _ _ Hx). split.
    + apply set_heap_ok; [|lia|done]. apply heap_remove_at_ok; [apply _|apply Hok].
    + simpl. repeat split; [by apply heap_remove_at_perm|done|done].
  - split; [done|]. split; [done|]. apply Hscan; [done|done|intros; lia].
Qed.

Lemma queue_remove_ok job_id q r q' :
  queue_ok q → queue_remove job_id q = (r, q') →
  queue_ok q' ∧ Spec.remove job_id (q_heap q) r (q_heap q').
Proof.
  intros Hok. unfold queue_remove.
  destruct (find_index _ (q_heap q)) as [i|] eqn:E; intros [= <- <-].
  - apply find_index_Some in E as (x & Hx & Hp & _). rewrite Hx. bool_prop.
    pose proof (remove_at_length _ _ _ Hx). split.
    + apply set_heap_ok; [|lia|done]. apply heap_remove_at_ok; [apply _|apply Hok].
    + simpl. split; [by apply heap_remove_at_perm|done].
  - split; [done|]. split; [done|]. intros x Hx.
    apply String.eqb_neq, (find_index_None _ _ E x Hx).
Qed.

Lemma queue_push_ok m job q r q' :
  queue_ok q → queue_push m job q = (r, q') →
  queue_ok q' ∧ q_shutdown q' = q_shutdown q ∧
  (r = 0 ∧ Spec.push job (q_heap q) (q_heap q') ∨ r = -1 ∧ q' = q).
Proof.
  intros Hok. unfold queue_push.
  destruct (q_shutdown q) eqn:Es; [by intros [= <- <-]; auto|].
  destruct ((q_size q =? q_capacity q) && negb m); [by intros [= <- <-]; auto|].
  destruct Hok as (Hh & Hc & Hc0). intros [= <- <-]. assert (heap_push job_before (q_heap q) job ≡ₚ job :: q_heap q) as Hp
    by apply heap_push_perm. split_and!; [|done|left; split; [done|exact Hp]].
  apply Permutation_length in Hp; simpl in Hp.
  split; [by apply heap_push_ok; [apply _|]|]. unfold q_size in *; simpl. rewrite Hp.
  case_match; bool_prop; lia.
Qed.

Lemma queue_drain_sorted fuel q js q' :
  queue_ok q → (length (q_heap q) ≤ fuel)%nat → queue_drain fuel q = (js, q') →
  js ≡ₚ q_heap q ∧ Sorted job_le js ∧ q_heap q' = [].
Proof.
  revert q js q'. induction fuel as [|fuel IH]; intros q js q' Hok Hf; simpl.
  { intros [= <- <-]. destruct (q_heap q) eqn:E; simpl in *; [|lia].
    repeat constructor. }
  destruct (queue_try_pop q) as [[job|] q1] eqn:E;
    apply queue_try_pop_spec in E as [Hok1 Hpop]; try done; simpl in Hpop.
  - destruct (queue_drain fuel q1) as [js1 q2] eqn:E2. intros [= <- <-].
    destruct Hpop as (Hperm & _ & Hmin). pose proof (Permutation_length Hperm) as Hlen; simpl in Hlen.
    destruct (IH q1 js1 q2) as (Hp1 & Hs1 & He); [done|lia|done|].
    repeat split; [by rewrite Hp1, Hperm| |done].
    constructor; [done|]. destruct js1 as [|y js1]; [constructor|]. constructor.
    apply Hmin; [|done]. rewrite Hperm, <- Hp1. set_solver.
  - intros [= <- <-]. destruct Hpop as [-> Hnone].
    destruct (q_heap q) as [|x h] eqn:Eh; [|by specialize (Hnone x ltac:(set_solver))].
    repeat constructor.
Qed.

#[export] Hint Resolve queue_push_ok queue_remove_ok queue_try_pop_spec queue_try_pop_matching_ok : clib.

(** ** Properties *)

(** C9. On a queue that satisfies the heap invariant, [queue_push] either
    refuses (shut down, or the array could not be doubled) and changes
    nothing, or adds exactly the job; [queue_try_pop],
    [queue_try_pop_matching] and [queue_remove] take out exactly one job: the
    least in (priority, submission time, id), the least that satisfies the
    predicate, the one with the identifier; each returns NULL exactly when
    there is none and then changes nothing.  All keep the heap invariant. *)
Theorem queue_refines_priority_queue (q : Queue) (Hok : queue_ok q) :
  (∀ m job, let '(r, q') := queue_push m job q in
     queue_ok q' ∧ (r = 0 ∧ Spec.push job (q_heap q) (q_heap q') ∨ r = -1 ∧ q' = q)) ∧
  (let '(r, q') := queue_try_pop q in
     queue_ok q' ∧ Spec.pop_min (λ _, true) (q_heap q) r (q_heap q')) ∧
  (∀ p, let '(r, q') := queue_try_pop_matching (Some p) q in
     queue_ok q' ∧ Spec.pop_min p (q_heap q) r (q_heap q')) ∧
  (∀ job_id, let '(r, q') := queue_remove job_id q in
     queue_ok q' ∧ Spec.remove job_id (q_heap q) r (q_heap q')).
Proof.
  split_and!; intros.
  - destruct (queue_push m job q) eqn:E. apply queue_push_ok in E; naive_solver.
  - destruct (queue_try_pop q) eqn:E. by apply queue_try_pop_spec in E.
  - destruct (queue_try_pop_matching _ q) eqn:E. by apply queue_try_pop_matching_ok in E.
  - destruct (queue_remove job_id q) eqn:E. by apply queue_remove_ok in E.
Qed.

(** Popping until the queue is empty terminates within as many pops as
    there are jobs and yields every job exactly once, sorted by priority,
    then submission time, then identifier. *)
Theorem queue_drain_is_sort (q : Queue) (Hok : queue_ok q) :
  let '(js, q') := queue_drain (length (q_heap q)) q in
  js ≡ₚ q_heap q ∧ Sorted job_le js ∧ q_heap q' = [].
Proof. destruct (queue_drain _ q) eqn:E. by eapply queue_drain_sorted in E. Qed.

(** A queue built by pushes, for the witnesses. *)
Definition test_job (id : string) (prio submitted : Z) : Job :=
  mkJob id "run" "" "" JOB_STATUS_QUEUED prio 1 0 0 0 "" "" "" "" submitted 0 0 0 0 "" "" "" "" "".

Definition test_queue : Queue :=
  st_exec (queue_push true (test_job "b" 50 10) ;; queue_push true (test_job "a" 50 10) ;;
           queue_push true (test_job "c" 10 99) ;; queue_push true (test_job "d" 50 5))
    (queue_create 0).

Lemma queue_create_ok c : queue_ok (queue_create c).
Proof.
  split; [by intros j Hj x p Hx|]. unfold q_size, queue_create; simpl. case_match; bool_prop; lia.
Qed.

Lemma test_queue_ok : queue_ok test_queue.
Proof.
  unfold test_queue, st_exec, mbind, st_bind.
  repeat match goal with
  | |- context [queue_push ?m ?j ?q] =>
      let E := fresh in destruct (queue_push m j q) as [? ?] eqn:E;
      apply queue_push_ok in E as [? _]; [|first [apply queue_create_ok | done]]; simpl
  end. done.
Qed.

Lemma queue_refines_priority_queue_witness :
  queue_ok test_queue ∧
  (let '(r, q') := queue_try_pop test_queue in
     queue_ok q' ∧ Spec.pop_min (λ _, true) (q_heap test_queue) r (q_heap q')).
Proof. split; [exact test_queue_ok | exact (proj1 (proj2 (queue_refines_priority_queue test_queue test_queue_ok)))]. Defined.

Lemma queue_drain_is_sort_witness :
  (let '(js, q') := queue_drain (length (q_heap test_queue)) test_queue in
   js ≡ₚ q_heap test_queue ∧ Sorted job_le js ∧ q_heap q' = []) ∧
  j_id <$> (queue_drain 4 test_queue).1 = ["c"; "d"; "a"; "b"]%string.
Proof. split; [exact (queue_drain_is_sort test_queue test_queue_ok) | by vm_compute]. Defined.
