(* ===== verification/Events.v ===== *)
(** The event ring buffer of src/http/events.c, which hands job events from
    any thread to the HTTP thread, and the bounded FIFO that it implements. *)
From S2P Require Import Prelude.

Definition EVENTS_BUF_SIZE : Z := 64.
Definition EVENTS_JSON_MAX : nat := 512.
Definition EVENTS_USER_MAX : nat := 128.

Record EventMessage := mkEvent { ev_json : string; ev_user_id : string }.

Definition zero_event : EventMessage := mkEvent "" "".

(** [s_buf], [s_head], [s_tail] and [s_count]. *)
Record Ring := mkRing { s_buf : list EventMessage; s_head : Z; s_tail : Z; s_count : Z }.

Definition ring_init : Ring := mkRing (replicate 64 zero_event) 0 0 0.

(** [strncpy] into the slot and the explicit terminators. *)
Definition make_event (json user_id : string) : EventMessage :=
  mkEvent (cbuf EVENTS_JSON_MAX json) (cbuf EVENTS_USER_MAX user_id).

Definition events_push_user (json user_id : string) (r : Ring) : Ring :=
  let buf := <[Z.to_nat (s_head r) := make_event json user_id]> (s_buf r) in
  let head := (s_head r + 1) mod EVENTS_BUF_SIZE in
  if s_count r <? EVENTS_BUF_SIZE then mkRing buf head (s_tail r) (s_count r + 1)
  else mkRing buf head ((s_tail r + 1) mod EVENTS_BUF_SIZE) (s_count r).

Definition events_push (json : string) (r : Ring) : Ring := events_push_user json "" r.

(** The copy loop of [events_drain]: [n] messages from [s_tail] on. *)
Fixpoint drain_loop (n : nat) (buf : list EventMessage) (tail : Z) : list EventMessage * Z :=
  match n with
  | O => ([], tail)
  | S n =>
      let m := default zero_event (buf !! Z.to_nat tail) in
      let '(ms, tail') := drain_loop n buf ((tail + 1) mod EVENTS_BUF_SIZE) in
      (m :: ms, tail')
  end.

(** The messages written to [out] (their number is the return value). *)
Definition events_drain (max : Z) (r : Ring) : list EventMessage * Ring :=
  let n := if s_count r <? max then s_count r else max in
  let '(out, tail) := drain_loop (Z.to_nat n) (s_buf r) (s_tail r) in
  (out, mkRing (s_buf r) (s_head r) tail (s_count r - n)).

(** ** The abstract queue *)

Definition ring_ok (r : Ring) : Prop :=
  length (s_buf r) = 64%nat ∧ 0 ≤ s_head r < 64 ∧ 0 ≤ s_tail r < 64 ∧ 0 ≤ s_count r ≤ 64 ∧
  s_head r = (s_tail r + s_count r) mod 64.

(** The pending messages, oldest first. *)
Definition ring_view (r : Ring) : list EventMessage :=
  (drain_loop (Z.to_nat (s_count r)) (s_buf r) (s_tail r)).1.

Definition keep_last (n : nat) {A} (l : list A) : list A := drop (length l - n) l.

Lemma drain_loop_tail n buf tail :
  0 ≤ tail < 64 → (drain_loop n buf tail).2 = (tail + Z.of_nat n) mod 64.
Proof.
  revert tail; induction n as [|n IH]; intros tail Ht; simpl.
  { rewrite Z.add_0_r, Z.mod_small; lia. }
  destruct (drain_loop n buf _) as [ms t] eqn:E; simpl.
  assert (t = (drain_loop n buf ((tail + 1) mod EVENTS_BUF_SIZE)).2) as -> by (by rewrite E).
  unfold EVENTS_BUF_SIZE. rewrite IH by (apply Z.mod_pos_bound; lia).
  rewrite Zplus_mod_idemp_l. f_equal. lia.
Qed.

Lemma drain_loop_length n buf tail : length (drain_loop n buf tail).1 = n.
Proof.
  revert tail; induction n as [|n IH]; intros tail; simpl; [done|].
  specialize (IH ((tail + 1) mod EVENTS_BUF_SIZE)).
  destruct (drain_loop n buf _) as [ms t]; simpl in *. lia.
Qed.

Lemma mod64_range z : 0 ≤ z mod 64 < 64.
Proof. apply Z.mod_pos_bound. lia. Qed.

(** Slot [k] places after [tail]. *)
Definition slot (buf : list EventMessage) (tail : Z) (k : nat) : EventMessage :=
  default zero_event (buf !! Z.to_nat ((tail + Z.of_nat k) mod 64)).

Lemma slot_next buf tail k : slot buf ((tail + 1) mod 64) k = slot buf tail (S k).
Proof. unfold slot. rewrite Zplus_mod_idemp_l. do 4 f_equal. lia. Qed.

Lemma fmap_seq_shift {A} (f : nat → A) n : f <$> seq 1 n = (λ k, f (S k)) <$> seq 0 n.
Proof. by rewrite <- fmap_S_seq, <- list_fmap_compose. Qed.

Lemma drain_loop_slots n buf tail :
  0 ≤ tail < 64 → (drain_loop n buf tail).1 = slot buf tail <$> seq 0 n.
Proof.
  revert tail; induction n as [|n IH]; intros tail Ht; simpl; [done|].
  specialize (IH ((tail + 1) mod EVENTS_BUF_SIZE) (mod64_range _)).
  destruct (drain_loop n buf _) as [ms t]; simpl in *. subst ms. f_equal.
  - unfold slot. by rewrite Z.add_0_r, Z.mod_small by lia.
  - rewrite fmap_seq_shift. apply list_fmap_ext. intros _ k _. apply slot_next.
Qed.

Lemma ring_view_slots r :
  ring_ok r → ring_view r = slot (s_buf r) (s_tail r) <$> seq 0 (Z.to_nat (s_count r)).
Proof. intros (_ & _ & Ht & _). by apply drain_loop_slots. Qed.

Lemma ring_view_length r : ring_ok r → length (ring_view r) = Z.to_nat (s_count r).
Proof. intros _. apply drain_loop_length. Qed.

Lemma ring_init_ok : ring_ok ring_init.
Proof. unfold ring_ok. split_and!; by vm_compute. Qed.

Lemma events_push_ok json u r : ring_ok r → ring_ok (events_push_user json u r).
Proof.
  intros (Hl & Hh & Ht & Hc & He). unfold events_push_user, EVENTS_BUF_SIZE.
  pose proof (mod64_range (s_head r + 1)). pose proof (mod64_range (s_tail r + 1)).
  destruct (Z.ltb_spec (s_count r) 64); unfold ring_ok; simpl; rewrite length_insert;
    split_and!; try lia; rewrite He.
  - rewrite Zplus_mod_idemp_l. f_equal. lia.
  - rewrite !Zplus_mod_idemp_l. f_equal. lia.
Qed.

(** The slot that the push writes is [s_count] places after the oldest one. *)
Lemma push_slot m r (k : nat) :
  ring_ok r → (k < 64)%nat →
  slot (<[Z.to_nat (s_head r) := m]> (s_buf r)) (s_tail r) k =
  if decide (Z.of_nat k = s_count r mod 64) then m else slot (s_buf r) (s_tail r) k.
Proof.
  intros (Hl & Hh & Ht & Hc & He) Hk. unfold slot.
  pose proof (mod64_range (s_tail r + Z.of_nat k)). case_decide as Hd.
  - rewrite Hd, Zplus_mod_idemp_r, <- He. rewrite list_lookup_insert_eq by lia. done.
  - f_equal. apply list_lookup_insert_ne. intros Heq. apply Hd.
    assert (s_head r = (s_tail r + Z.of_nat k) mod 64) as Hhk by lia. rewrite He in Hhk.
    pose proof (Z.div_mod (s_tail r + Z.of_nat k) 64). pose proof (Z.div_mod (s_tail r + s_count r) 64).
    pose proof (Z.div_mod (s_count r) 64). pose proof (mod64_range (s_count r)). lia.
Qed.

Lemma events_push_view json u r :
  ring_ok r →
  ring_view (events_push_user json u r) = keep_last 64 (ring_view r ++ [make_event json u]).
Proof.
  intros Hok. rewrite ring_view_slots by (by apply events_push_ok).
  unfold keep_last. rewrite length_app, ring_view_length by done; simpl.
  rewrite ring_view_slots by done. pose proof Hok as (Hl & Hh & Ht & Hc & He).
  pose proof (λ k, push_slot (make_event json u) r k Hok) as Hslot.
  unfold events_push_user, EVENTS_BUF_SIZE. destruct (Z.ltb_spec (s_count r) 64) as [Hlt|Hge]; simpl.
  - replace (Z.to_nat (s_count r) + 1 - 64)%nat with O by lia. rewrite drop_0.
    replace (Z.to_nat (s_count r + 1)) with (Z.to_nat (s_count r) + 1)%nat by lia.
    rewrite seq_app, fmap_app. rewrite Z.mod_small in Hslot by lia. f_equal; simpl.
    + apply list_fmap_ext. intros i k Hk%lookup_seq. rewrite Hslot by lia. by rewrite decide_False by lia.
    + rewrite Hslot by lia. by rewrite decide_True by lia.
  - assert (s_count r = 64) as Hc64 by lia. rewrite Hc64 in *.
    change (Z.to_nat 64) with 64%nat. change (64 + 1 - 64)%nat with 1%nat.
    rewrite drop_app_le by (rewrite length_fmap, length_seq; lia).
    change (seq 0 64) with (0%nat :: seq 1 63) at 2. rewrite fmap_cons, skipn_cons, drop_0.
    change (seq 0 64) with (seq 0 63 ++ [63%nat]). rewrite fmap_app, fmap_seq_shift. f_equal.
    + apply list_fmap_ext. intros i k Hk%lookup_seq.
      rewrite slot_next, Hslot by lia. by rewrite decide_False by (change (64 mod 64) with 0; lia).
    + simpl. rewrite slot_next. f_equal. unfold slot.
      replace ((s_tail r + Z.of_nat 64) mod 64) with (s_head r) by (rewrite He; done).
      by rewrite list_lookup_insert_eq by lia.
Qed.

Lemma events_drain_spec max r out r' :
  ring_ok r → 0 ≤ max → events_drain max r = (out, r') →
  ring_ok r' ∧ out = take (Z.to_nat max) (ring_view r) ∧ ring_view r' = drop (Z.to_nat max) (ring_view r).
Proof.
  intros Hok Hmax. pose proof Hok as (Hl & Hh & Ht & Hc & He). unfold events_drain.
  set (n := if s_count r <? max then s_count r else max).
  assert (0 ≤ n ≤ s_count r ∧ Z.to_nat n = (Z.to_nat max `min` Z.to_nat (s_count r))%nat) as [Hn Hmin]
    by (subst n; destruct (Z.ltb_spec (s_count r) max); lia).
  pose proof (drain_loop_tail (Z.to_nat n) (s_buf r) (s_tail r) Ht) as Htail.
  pose proof (drain_loop_slots (Z.to_nat n) (s_buf r) (s_tail r) Ht) as Hout.
  destruct (drain_loop _ _ _) as [o t]; simpl in *. intros [= <- <-]. subst o t.
  pose proof (mod64_range (s_tail r + Z.of_nat (Z.to_nat n))) as Hr.
  assert (ring_ok (mkRing (s_buf r) (s_head r) ((s_tail r + Z.of_nat (Z.to_nat n)) mod 64) (s_count r - n))) as Hok'.
  { unfold ring_ok; simpl. split_and!; try lia. rewrite He, Zplus_mod_idemp_l. f_equal. lia. }
  split; [done|]. rewrite !ring_view_slots by done; simpl.
  rewrite <- fmap_take, <- fmap_drop. split.
  - rewrite take_seq. by rewrite Hmin.
  - rewrite drop_seq.
    apply list_eq_same_length with (n := Z.to_nat (s_count r - n)).
    { rewrite length_fmap, length_seq. lia. }
    { by rewrite length_fmap, length_seq. }
    intros i x y Hi. rewrite !list_lookup_fmap, !lookup_seq_lt by lia. simpl. intros [= <-] [= <-].
    unfold slot. rewrite Zplus_mod_idemp_l. do 4 f_equal. lia.
Qed.

(** ** Properties *)

(** The bounded FIFO that the HTTP thread sees. *)
Module Fifo.
Definition push (m : EventMessage) (l : list EventMessage) : list EventMessage :=
  keep_last 64 (l ++ [m]).
Definition drain (max : Z) (l : list EventMessage) : list EventMessage * list EventMessage :=
  (take (Z.to_nat max) l, drop (Z.to_nat max) l).
End Fifo.

(** One call on the ring, as the server issues them: a push with any message,
    or a drain with a non-negative bound (the caller passes its buffer size). *)
Inductive ring_call :=
  | CallPush (json user_id : string)
  | CallDrain (max : nat).

Definition ring_run (c : ring_call) (r : Ring) : list EventMessage * Ring :=
  match c with
  | CallPush json u => ([], events_push_user json u r)
  | CallDrain max => events_drain (Z.of_nat max) r
  end.

Definition fifo_run (c : ring_call) (l : list EventMessage) : list EventMessage * list EventMessage :=
  match c with
  | CallPush json u => ([], Fifo.push (make_event json u) l)
  | CallDrain max => Fifo.drain (Z.of_nat max) l
  end.

Fixpoint run_all {S} (step : ring_call → S → list EventMessage * S) (cs : list ring_call) (s : S) :
    list EventMessage * S :=
  match cs with
  | [] => ([], s)
  | c :: cs =>
      let '(out, s) := step c s in
      let '(outs, s) := run_all step cs s in (out ++ outs, s)
  end.

Lemma ring_run_refines c r :
  ring_ok r →
  let '(out, r') := ring_run c r in
  ring_ok r' ∧ fifo_run c (ring_view r) = (out, ring_view r').
Proof.
  intros Hok. destruct c as [json u|max]; simpl.
  - split; [by apply events_push_ok|]. by rewrite events_push_view.
  - destruct (events_drain _ r) as [out r'] eqn:E.
    apply events_drain_spec in E as (Hok' & -> & Hv); [|done|lia]. split; [done|].
    unfold Fifo.drain. by rewrite Hv.
Qed.

(** C39. For every sequence of pushes and drains from the initial ring, the
    array with its three cursors delivers exactly what a FIFO that keeps the
    newest 64 messages delivers: same messages, same order, and a message is
    lost only when 64 newer ones are pending. *)
Theorem events_ring_is_bounded_fifo (cs : list ring_call) :
  let '(out, r) := run_all ring_run cs ring_init in
  let '(out', l) := run_all fifo_run cs [] in
  out = out' ∧ ring_ok r ∧ ring_view r = l.
Proof.
  assert (∀ cs r, ring_ok r →
    let '(out, r') := run_all ring_run cs r in
    let '(out', l) := run_all fifo_run cs (ring_view r) in
    out = out' ∧ ring_ok r' ∧ ring_view r' = l) as Hgen.
  { clear cs. intros cs. induction cs as [|c cs IH]; intros r Hok; simpl; [done|].
    pose proof (ring_run_refines c r Hok) as Hstep.
    destruct (ring_run c r) as [out r1]. destruct Hstep as [Hok1 ->].
    specialize (IH r1 Hok1). destruct (run_all ring_run cs r1) as [outs r2].
    destruct (run_all fifo_run cs (ring_view r1)) as [outs' l]. naive_solver. }
  exact (Hgen cs ring_init ring_init_ok).
Qed.
