(* ===== verification/Httpd.v ===== *)
(** The server of src/http/httpd.c: the list of subscribers to the event
    stream and the loop of the HTTP thread.  mongoose owns the connections:
    they are a map from addresses to whether one is closing or draining, an
    absent one having been freed; one round of its event loop is a parameter. *)
From S2P Require Import Prelude Events.

Definition SSE_MAX_CONNS : nat := 32.

Record SseClient := mkSse { sc_conn : nat; sc_user_id : string; sc_role : string }.

Definition httpd_sse_add_user (c : nat) (user_id role : string) (s_sse : list SseClient) : list SseClient :=
  if (length s_sse <? SSE_MAX_CONNS)%nat then s_sse ++ [mkSse c (cbuf 128 user_id) (cbuf 16 role)] else s_sse.
Definition httpd_sse_add (c : nat) : list SseClient → list SseClient := httpd_sse_add_user c "" "admin".

(** The connections, and what was written to each, in order. *)
Notation Conns := (gmap nat bool).
Notation Sent := (list (nat * string)).

(** The loop of both functions from client [i]: a closing client is replaced
    by the last one, another gets [text]; [None] when a freed connection is
    read.  Every round either passes a client or drops one, so the number of
    clients is enough fuel. *)
Fixpoint sse_loop (text : SseClient → option string) (conns : Conns) (fuel : nat) (i : nat) (s_sse : list SseClient) :
    option (list SseClient * Sent) :=
  match fuel with
  | O => Some (s_sse, [])
  | S fuel =>
      match s_sse !! i with
      | None => Some (s_sse, [])
      | Some s =>
          closing ← conns !! sc_conn s;
          if closing : bool then sse_loop text conns fuel i (swap_remove s_sse i)
          else
            r ← sse_loop text conns fuel (S i) s_sse;
            Some (r.1, match text s with Some t => (sc_conn s, t) :: r.2 | None => r.2 end)
      end
  end.

Definition sse_run (text : SseClient → option string) (conns : Conns) (s_sse : list SseClient) : option (list SseClient * Sent) :=
  sse_loop text conns (length s_sse) 0 s_sse.

Definition sse_wanted (event : EventMessage) (s : SseClient) : bool :=
  String.eqb (sc_role s) "admin" || (str_nonempty (ev_user_id event) && String.eqb (ev_user_id event) (sc_user_id s)).

Definition sse_data (json : string) : string := "data: " +:+ json +:+ String NL (String NL "").

Definition sse_broadcast (event : EventMessage) : Conns → list SseClient → option (list SseClient * Sent) :=
  sse_run (λ s, if sse_wanted event s then Some (sse_data (ev_json event)) else None).

Definition sse_heartbeat : Conns → list SseClient → option (list SseClient * Sent) :=
  sse_run (λ _, Some (": keepalive" +:+ String NL (String NL ""))).

(** The events of one round. *)
Fixpoint sse_broadcasts (events : list EventMessage) (conns : Conns) (s_sse : list SseClient) : option (list SseClient * Sent) :=
  match events with
  | [] => Some (s_sse, [])
  | ev :: events =>
      r ← sse_broadcast ev conns s_sse;
      rest ← sse_broadcasts events conns r.1;
      Some (rest.1, r.2 ++ rest.2)
  end.

(** One round of the loop of [http_thread].  [poll] is mg_mgr_poll with the
    requests that it answers, on the connections, the subscribers and the
    ring; [due] says that 15 seconds have passed since the last keepalive. *)
Definition http_thread_round (poll : Conns * list SseClient * Ring → Conns * list SseClient * Ring) (due : bool)
    (conns : Conns) (s_sse : list SseClient) (ring : Ring) : option (Conns * list SseClient * Ring * Sent) :=
  let '(conns, s_sse, ring) := poll (conns, s_sse, ring) in
  let '(evts, ring) := events_drain EVENTS_BUF_SIZE ring in
  r ← sse_broadcasts evts conns s_sse;
  hb ← (if due then sse_heartbeat conns r.1 else Some (r.1, []));
  Some (conns, hb.1, ring, r.2 ++ hb.2).

(** ** The server's thread

    [http_thread_turn] is what the thread does until it next reads
    [s_running]: it binds the address, or runs a round of its loop. *)
Inductive HttpThread := NoHttpThread | HttpStarting | HttpLooping | HttpEnded.
Record HttpServer := mkHttpServer { s_running : bool; s_thread_started : bool; s_http_thread : HttpThread; hs_rounds : nat }.

Definition httpd_start (thread_ok : bool) (h : HttpServer) : Z * HttpServer :=
  if s_thread_started h then (0, h)
  else if thread_ok then (0, mkHttpServer true true HttpStarting (hs_rounds h))
  else (-1, mkHttpServer false false (s_http_thread h) (hs_rounds h)).

Definition http_thread_turn (bind_ok : bool) (h : HttpServer) : HttpServer :=
  match s_http_thread h with
  | HttpStarting =>
      if bind_ok then mkHttpServer (s_running h) (s_thread_started h) HttpLooping (hs_rounds h)
      else mkHttpServer false (s_thread_started h) HttpEnded (hs_rounds h)
  | HttpLooping =>
      if s_running h then mkHttpServer true (s_thread_started h) HttpLooping (S (hs_rounds h))
      else mkHttpServer false (s_thread_started h) HttpEnded (hs_rounds h)
  | _ => h
  end.

(** [httpd_stop] up to the join, which waits for the end of the thread. *)
Definition httpd_stop_request (h : HttpServer) : HttpServer := mkHttpServer false (s_thread_started h) (s_http_thread h) (hs_rounds h).
Definition httpd_stop_join (h : HttpServer) : option HttpServer :=
  if s_thread_started h then
    match s_http_thread h with HttpEnded => Some (mkHttpServer (s_running h) false NoHttpThread (hs_rounds h)) | _ => None end
  else Some h.

(** ** Properties *)

Section loop.
Context (text : SseClient → option string) (conns : Conns).

Definition conn_open (s : SseClient) : bool := match conns !! sc_conn s with Some closing => negb closing | None => false end.
Definition allocated (s : SseClient) : Prop := is_Some (conns !! sc_conn s).
Definition sent_to (l : list SseClient) : Sent := omap (λ s, pair (sc_conn s) <$> text s) l.

Lemma sse_loop_spec fuel i l :
  Forall allocated l → (i ≤ length l)%nat → (length l - i ≤ fuel)%nat →
  ∃ l' out, sse_loop text conns fuel i l = Some (take i l ++ l', out) ∧
    l' ≡ₚ filter (λ s, conn_open s = true) (drop i l) ∧ out = sent_to l'.
Proof.
  revert i l. induction fuel as [|fuel IH]; intros i l Hal Hi Hf; cbn [sse_loop].
  { exists [], []. assert (i = length l) as -> by lia. rewrite drop_all, firstn_all2, app_nil_r by lia. done. }
  destruct (l !! i) as [s|] eqn:Es.
  2: { apply lookup_ge_None in Es. exists [], []. rewrite drop_ge, firstn_all2, app_nil_r by lia. done. }
  pose proof (proj1 (Forall_lookup _ _) Hal i s Es) as [closing Hc]. rewrite Hc. cbn [mbind option_bind].
  rewrite (drop_S _ _ _ Es), filter_cons. apply lookup_lt_Some in Es as Hlt.
  destruct closing.
  - rewrite decide_False by (unfold conn_open; rewrite Hc; done).
    destruct l as [|z l _] using rev_ind; [done|]. rewrite length_app in *; cbn [length] in *.
    rewrite swap_remove_app. apply Forall_app in Hal as [Hal Hz]. case_decide as Hlast.
    + destruct (IH i (<[i:=z]> l)) as (l' & out & -> & Hp & ->); [|rewrite length_insert; lia..|].
      { apply Forall_insert; [done|by inversion Hz]. }
      exists l', (sent_to l'). rewrite take_insert_ge by lia. rewrite take_app_le by lia. split_and!; [done| |done].
      rewrite Hp. rewrite (drop_S _ z) by (by rewrite list_lookup_insert_eq). rewrite drop_insert_lt by lia.
      rewrite drop_app_le by lia. rewrite filter_app, filter_cons, filter_cons, filter_nil. case_decide; [|by rewrite app_nil_r].
      by rewrite Permutation_app_comm.
    + assert (i = length l) as -> by lia.
      destruct (IH (length l) l) as (l' & out & -> & Hp & ->); [done|lia..|].
      exists l', (sent_to l'). rewrite take_app_le by lia. split_and!; [done| |done].
      rewrite Hp, drop_all, drop_ge by (rewrite length_app; cbn; lia). done.
  - rewrite decide_True by (unfold conn_open; by rewrite Hc).
    destruct (IH (S i) l) as (l' & out & -> & Hp & ->); [done|lia..|]. cbn [mbind option_bind fst snd].
    exists (s :: l'), (sent_to (s :: l')). rewrite (take_S_r _ _ _ Es), <- app_assoc. split_and!; [|by rewrite Hp|done].
    unfold sent_to. cbn [omap list_omap]. by destruct (text s).
Qed.
End loop.

Lemma sse_run_spec text conns l : Forall (allocated conns) l →
  ∃ l' out, sse_run text conns l = Some (l', out) ∧ l' ≡ₚ filter (λ s, conn_open conns s = true) l ∧ out = sent_to text l'.
Proof. intros H. exact (sse_loop_spec text conns (length l) 0 l H ltac:(lia) ltac:(lia)). Qed.

(** A loop that returns has read no freed connection. *)
Lemma sse_loop_reads_all text conns fuel i l r :
  (length l - i ≤ fuel)%nat → sse_loop text conns fuel i l = Some r → Forall (allocated conns) (drop i l).
Proof.
  revert i l r. induction fuel as [|fuel IH]; intros i l r Hf; cbn [sse_loop].
  { intros _. by rewrite drop_ge by lia. }
  destruct (l !! i) as [s|] eqn:Es; [|intros _; apply lookup_ge_None in Es; by rewrite drop_ge by lia].
  intros (closing & Hc & H)%bind_Some. rewrite (drop_S _ _ _ Es). apply lookup_lt_Some in Es as Hlt.
  constructor; [by exists closing|]. destruct closing.
  - destruct l as [|z l _] using rev_ind; [done|]. rewrite length_app in *; cbn [length] in *.
    rewrite swap_remove_app in H. case_decide as Hlast.
    + apply IH in H; [|rewrite length_insert; lia].
      rewrite (drop_S _ z) in H by (by rewrite list_lookup_insert_eq). rewrite drop_insert_lt in H by lia.
      rewrite drop_app_le by lia. apply Forall_app. inversion H; subst. split; [done|by constructor].
    + by rewrite drop_ge by (rewrite length_app; cbn; lia).
  - apply bind_Some in H as (r1 & H & _). refine (IH (S i) l r1 _ H); lia.
Qed.

Lemma sse_run_reads_all text conns l r : sse_run text conns l = Some r → Forall (allocated conns) l.
Proof. intros H. exact (sse_loop_reads_all text conns (length l) 0 l r ltac:(lia) H). Qed.

(** C25. The event stream is private and complete: as long as the connections
    of the subscribers are allocated, a broadcast drops exactly the closing
    subscribers, and writes the event exactly once to each other one that is
    an administrator's or belongs to the event's user, and to nobody else. *)
Theorem event_stream_is_private_and_complete (event : EventMessage) (conns : Conns) (s_sse : list SseClient)
    (Hal : Forall (allocated conns) s_sse) :
  ∃ s_sse' out, sse_broadcast event conns s_sse = Some (s_sse', out) ∧
    s_sse' ≡ₚ filter (λ s, conn_open conns s = true) s_sse ∧
    out ≡ₚ (λ s, (sc_conn s, sse_data (ev_json event))) <$>
             filter (λ s, conn_open conns s = true ∧
               (sc_role s = "admin" ∨ ev_user_id event ≠ "" ∧ sc_user_id s = ev_user_id event)) s_sse.
Proof.
  destruct (sse_run_spec (λ s, if sse_wanted event s then Some (sse_data (ev_json event)) else None) conns s_sse Hal)
    as (l' & out & Hrun & Hp & ->).
  exists l'. eexists. split_and!; [exact Hrun|done|].
  assert (∀ l, sent_to (λ s, if sse_wanted event s then Some (sse_data (ev_json event)) else None) (filter (λ s, conn_open conns s = true) l)
    = (λ s, (sc_conn s, sse_data (ev_json event))) <$>
        filter (λ s, conn_open conns s = true ∧
               (sc_role s = "admin" ∨ ev_user_id event ≠ "" ∧ sc_user_id s = ev_user_id event)) l) as <-.
  2: { unfold sent_to. by rewrite Hp. }
  assert (∀ s, sse_wanted event s = true ↔ sc_role s = "admin" ∨ ev_user_id event ≠ "" ∧ sc_user_id s = ev_user_id event) as Hw.
  { intros s. unfold sse_wanted. rewrite orb_true_iff, andb_true_iff, !String.eqb_eq, str_nonempty_spec. naive_solver. }
  intros l. induction l as [|s l IH]; [done|]. rewrite !filter_cons. destruct (decide (conn_open conns s = true)) as [Ho|Ho].
  - unfold sent_to in *. cbn [omap list_omap]. destruct (sse_wanted event s) eqn:E; cbn [fmap option_fmap option_map].
    + rewrite decide_True by (by rewrite <- Hw). rewrite fmap_cons. by f_equal.
    + rewrite decide_False by (rewrite <- Hw, E; naive_solver). done.
  - rewrite decide_False by naive_solver. done.
Qed.

Definition demo_clients : list SseClient := [mkSse 1 "ann" "user"; mkSse 2 "bob" "user"; mkSse 3 "" "admin"; mkSse 4 "ann" "user"].
Definition demo_conns : Conns := {[ 1%nat := false; 2%nat := false; 3%nat := false; 4%nat := true ]}.

Lemma event_stream_is_private_and_complete_witness :
  sse_broadcast (mkEvent "{}" "ann") demo_conns demo_clients
    = Some ([mkSse 1 "ann" "user"; mkSse 2 "bob" "user"; mkSse 3 "" "admin"], [(1%nat, sse_data "{}"); (3%nat, sse_data "{}")]) ∧
  ∃ s_sse' out, sse_broadcast (mkEvent "{}" "ann") demo_conns demo_clients = Some (s_sse', out) ∧
    s_sse' ≡ₚ filter (λ s, conn_open demo_conns s = true) demo_clients.
Proof.
  split; [vm_compute; reflexivity|].
  destruct (event_stream_is_private_and_complete (mkEvent "{}" "ann") demo_conns demo_clients) as (l & out & H1 & H2 & _).
  - unfold demo_clients. repeat constructor; unfold allocated; eexists; vm_compute; reflexivity.
  - exists l, out. exact (conj H1 H2).
Defined.

(** What mg_mgr_poll does with a connection that is closing: it closes and
    frees it in the same round.  The requests that it answers can only add
    subscribers. *)
Definition frees_closing (poll : Conns * list SseClient * Ring → Conns * list SseClient * Ring) : Prop :=
  ∀ conns s_sse ring, let '(conns', s_sse', _) := poll (conns, s_sse, ring) in
    (∀ c, conns !! c = Some true → conns' !! c = None) ∧ ∃ added, s_sse' = s_sse ++ added.

(** A subscriber that disconnects is read after its connection is freed:
    the round in which mongoose closes it already reads [is_closing] of the
    freed connection, as soon as there is an event or a keepalive is due. *)
Theorem closed_subscriber_is_read_after_free poll (Hpoll : frees_closing poll) due conns s_sse ring s
    (Hs : s ∈ s_sse) (Hclosing : conns !! sc_conn s = Some true)
    (Hev : due = true ∨ (events_drain EVENTS_BUF_SIZE (poll (conns, s_sse, ring)).2).1 ≠ []) :
  http_thread_round poll due conns s_sse ring = None.
Proof.
  specialize (Hpoll conns s_sse ring). unfold http_thread_round.
  destruct (poll (conns, s_sse, ring)) as [[conns' s_sse'] ring'] eqn:E. destruct Hpoll as [Hfree [added ->]].
  apply Hfree in Hclosing. cbn [snd] in Hev. destruct (events_drain EVENTS_BUF_SIZE ring') as [evts ring''] eqn:Ed. cbn [fst] in Hev.
  assert (∀ text r, sse_run text conns' (s_sse ++ added) = Some r → False) as Hno.
  { intros text r H%sse_run_reads_all. rewrite Forall_forall in H. destruct (H s) as [closing Hc]; [set_solver|congruence]. }
  destruct evts as [|ev evts]; cbn [sse_broadcasts mbind option_bind fst snd].
  - destruct Hev as [->|]; [|done]. unfold sse_heartbeat. destruct (sse_run _ _ _) as [r|] eqn:Er; [|done]. by apply Hno in Er.
  - unfold sse_broadcast. destruct (sse_run _ _ _) as [r|] eqn:Er; [|done]. by apply Hno in Er.
Qed.

Definition demo_poll (x : Conns * list SseClient * Ring) : Conns * list SseClient * Ring :=
  (filter (λ c : nat * bool, c.2 = false) x.1.1, x.1.2, x.2).

Lemma closed_subscriber_is_read_after_free_witness :
  http_thread_round demo_poll false demo_conns demo_clients (events_push "{}" ring_init) = None.
Proof.
  assert (frees_closing demo_poll) as Hpoll.
  { intros conns l r. cbn. split; [|exists []; by rewrite app_nil_r].
    intros c Hc. apply map_lookup_filter_None. right. intros b Hb. cbn. congruence. }
  refine (closed_subscriber_is_read_after_free demo_poll Hpoll false demo_conns demo_clients _ (mkSse 4 "ann" "user") _ _ _).
  - unfold demo_clients. do 3 apply list_elem_of_further. apply list_elem_of_here.
  - vm_compute. reflexivity.
  - right. vm_compute. discriminate.
Defined.

(** *** The server's thread *)

(** A thread exists exactly while one is recorded as started. *)
Definition server_ok (h : HttpServer) : Prop := s_thread_started h = true ↔ s_http_thread h ≠ NoHttpThread.

Lemma server_kept thread_ok bind_ok h : server_ok h →
  server_ok (httpd_start thread_ok h).2 ∧ server_ok (http_thread_turn bind_ok h) ∧ server_ok (httpd_stop_request h) ∧
  ∀ h', httpd_stop_join h = Some h' → server_ok h'.
Proof.
  destruct h as [r st [| | |] n]; unfold server_ok; destruct st; cbn; intros [H1 H2]; split_and!; try done; try tauto;
    try (destruct thread_ok; cbn; naive_solver); try (destruct bind_ok; cbn; naive_solver); try (destruct r; cbn; naive_solver); naive_solver.
Qed.

(** After the request the thread ends within two turns, without a round of
    its loop; the join returns, and no thread is left. *)
Lemma httpd_stop_ends h b1 b2 : server_ok h →
  let h2 := http_thread_turn b2 (http_thread_turn b1 (httpd_stop_request h)) in
  hs_rounds h2 = hs_rounds h ∧ ∃ h', httpd_stop_join h2 = Some h' ∧ s_thread_started h' = false ∧ s_http_thread h' = NoHttpThread.
Proof. destruct h as [r st [| | |] n], st; unfold server_ok; cbn; intros [H1 H2]; destruct b1; cbn; naive_solver. Qed.

(** The start reports success before the address is bound. *)
Example failed_bind_is_not_reported :
  let '(rc, h) := httpd_start true (mkHttpServer false false NoHttpThread 0) in
  (rc, s_running (http_thread_turn false h), s_http_thread (http_thread_turn false h)) = (0, false, HttpEnded).
Proof. reflexivity. Qed.
