(* ===== verification/Json.v ===== *)
(** C doubles, as the binary64 numbers of the Standard Library's [SpecFloat]
    (every operation correctly rounded, no axioms), and the tree of a parsed
    JSON document with the cJSON accessors that the program calls.  The parser
    itself is a library: it is a parameter wherever text is parsed. *)
From S2P Require Import Prelude.
From Stdlib Require Export Floats.SpecFloat.

(** ** binary64 *)
Definition double : Type := spec_float.
Definition prec : Z := 53.
Definition emax : Z := 1024.

Definition dadd : double → double → double := SFadd prec emax.
Definition dmul : double → double → double := SFmul prec emax.
Definition ddiv : double → double → double := SFdiv prec emax.

(** A finite number is [d_man x * 2 ^ d_exp x]. *)
Definition d_man (x : double) : Z :=
  match x with S754_finite s m _ => if s then Zneg m else Zpos m | _ => 0 end.
Definition d_exp (x : double) : Z :=
  match x with S754_finite _ _ e => e | _ => 0 end.

Definition isfinite (x : double) : bool :=
  match x with
  | S754_zero _ | S754_finite _ _ _ => true
  | _ => false
  end.

(** The value times [2 ^ (- k)], an integer for [k] at most the exponent. *)
Definition d_scaled (k : Z) (x : double) : Z := d_man x * 2 ^ (d_exp x - k).

(** The order of the values; comparisons with a NaN are false. *)
Definition dlt (x y : double) : bool :=
  match x, y with
  | S754_nan, _ | _, S754_nan => false
  | S754_infinity sx, S754_infinity sy => sx && negb sy
  | S754_infinity sx, _ => sx
  | _, S754_infinity sy => negb sy
  | _, _ => let k := Z.min 0 (Z.min (d_exp x) (d_exp y)) in d_scaled k x <? d_scaled k y
  end.
Definition d_isnan (x : double) : bool := match x with S754_nan => true | _ => false end.
Definition dle (x y : double) : bool := negb (d_isnan x) && negb (d_isnan y) && negb (dlt y x).
Definition dgt (x y : double) : bool := dlt y x.
Definition dge (x y : double) : bool := dle y x.

(** [(double)z], correctly rounded. *)
Definition d_of_Z (z : Z) : double :=
  match z with
  | Z0 => S754_zero false
  | _ => binary_normalize prec emax z 0 false
  end.

(** The double nearest to the decimal literal [n / d], for [n] and [d]
    exactly representable: division rounds once, as the compiler does. *)
Definition d_lit (n d : Z) : double := ddiv (d_of_Z n) (d_of_Z d).

(** The integer part, rounding toward zero: the C conversion [(int)x] of a
    double whose integer part is in range. *)
Definition d_trunc (x : double) : Z :=
  if 0 <=? d_exp x then d_man x * 2 ^ d_exp x else Z.quot (d_man x) (2 ^ (- d_exp x)).

(** [(int)x] of any double: C leaves the conversion undefined out of the range
    of [int], and the x86-64 instruction gives the smallest one. *)
Definition d_to_int (x : double) : Z :=
  if isfinite x && (-2147483648 <=? d_trunc x) && (d_trunc x <=? 2147483647) then d_trunc x else -2147483648.

Lemma d_to_int_range x : -2147483648 ≤ d_to_int x ≤ 2147483647.
Proof. unfold d_to_int. destruct (_ && _) eqn:E; [|lia]. rewrite !andb_true_iff, !Z.leb_le in E. lia. Qed.

(** [floor(x) == x] *)
Definition d_integral (x : double) : bool :=
  isfinite x && ((0 <=? d_exp x) || (d_man x mod 2 ^ (- d_exp x) =? 0)).

Example d_of_Z_small : d_trunc (d_of_Z 12345) = 12345 ∧ d_trunc (d_of_Z (-7)) = -7.
Proof. done. Qed.
Example d_lit_half : d_trunc (dmul (d_lit 1 2) (d_of_Z 9)) = 4 ∧ d_integral (d_lit 1 2) = false.
Proof. done. Qed.

(** ** cJSON trees *)
#[warnings="-register-all"]
Inductive cJSON :=
  | JNull
  | JBool (b : bool)
  | JNumber (valuedouble : double)
  | JString (valuestring : string)
  | JArray (items : list cJSON)
  | JObject (members : list (string * cJSON)).

(** The first member with exactly this name; NULL on anything else. *)
Definition cJSON_GetObjectItemCaseSensitive (o : cJSON) (key : string) : option cJSON :=
  match o with
  | JObject ms => snd <$> head (filter (λ p, String.eqb (fst p) key = true) ms)
  | _ => None
  end.

Definition get_item (o : option cJSON) (key : string) : option cJSON :=
  match o with
  | Some o => cJSON_GetObjectItemCaseSensitive o key
  | None => None
  end.

Definition cJSON_IsNumber (o : option cJSON) : bool := match o with Some (JNumber _) => true | _ => false end.
Definition cJSON_IsString (o : option cJSON) : bool := match o with Some (JString _) => true | _ => false end.
Definition cJSON_IsArray (o : option cJSON) : bool := match o with Some (JArray _) => true | _ => false end.
Definition cJSON_IsObject (o : option cJSON) : bool := match o with Some (JObject _) => true | _ => false end.
Definition cJSON_IsBool (o : option cJSON) : bool := match o with Some (JBool _) => true | _ => false end.
Definition cJSON_IsTrue (o : option cJSON) : bool := match o with Some (JBool true) => true | _ => false end.

Definition array_items (o : option cJSON) : list cJSON :=
  match o with Some (JArray l) => l | _ => [] end.
Definition cJSON_GetArraySize (o : option cJSON) : Z := Z.of_nat (length (array_items o)).
Definition cJSON_GetArrayItem (o : option cJSON) (i : nat) : option cJSON := array_items o !! i.

Definition valuedouble (o : option cJSON) : double :=
  match o with Some (JNumber d) => d | _ => S754_zero false end.
Definition valuestring (o : option cJSON) : string :=
  match o with Some (JString s) => s | _ => "" end.

(** ** Facts about the integers read from JSON numbers *)

Lemma d_integral_scaled x k :
  d_integral x = true → k ≤ 0 → k ≤ d_exp x → d_scaled k x = d_trunc x * 2 ^ (- k).
Proof.
  unfold d_integral, d_scaled, d_trunc. intros H Hk Hke. apply andb_prop in H as [_ H].
  destruct (Z.leb_spec 0 (d_exp x)) as [He|He]; simpl in H.
  - rewrite <- Z.mul_assoc, <- Z.pow_add_r by lia. do 2 f_equal.
  - bool_prop. apply Z.mod_divide in H as [q Hq]; [|by apply Z.pow_nonzero; lia]. rewrite Hq.
    rewrite Z.quot_mul by (apply Z.pow_nonzero; lia).
    rewrite <- Z.mul_assoc, <- Z.pow_add_r by lia. do 2 f_equal. lia.
Qed.

Lemma dlt_integral x y :
  d_integral x = true → d_integral y = true → dlt x y = (d_trunc x <? d_trunc y).
Proof.
  intros Hx Hy. pose proof (andb_prop _ _ Hx) as [Fx _]. pose proof (andb_prop _ _ Hy) as [Fy _].
  set (k := Z.min 0 (Z.min (d_exp x) (d_exp y))).
  assert (dlt x y = (d_scaled k x <? d_scaled k y)) as -> by (by destruct x, y).
  rewrite !d_integral_scaled by (done || lia). assert (0 < 2 ^ (- k)) by (apply Z.pow_pos_nonneg; lia).
  apply eq_bool_prop_intro. rewrite !Is_true_true, !Z.ltb_lt. nia.
Qed.

(** [z] is one of the integer constants that the code compares doubles with. *)
Definition d_exact (z : Z) : bool := d_integral (d_of_Z z) && (d_trunc (d_of_Z z) =? z).

Lemma d_range x lo hi :
  d_integral x = true → d_exact lo = true → d_exact hi = true →
  dlt x (d_of_Z lo) = false → dgt x (d_of_Z hi) = false → lo ≤ d_trunc x ≤ hi.
Proof.
  unfold d_exact, dgt. intros Hx Hlo Hhi H1 H2. bool_prop.
  rewrite dlt_integral in H1, H2 by done. bool_prop. lia.
Qed.
