(* ===== verification/Registry.v ===== *)
(** The machine registry of src/resources/registry.c: the table of machines,
    loading it from provisioning.json (machines and pools), reservation and
    release of resources, probe updates and administration; its
    well-formedness invariant; and the interface that the allocator uses. *)
From S2P Require Import Prelude Json.

Definition MAX_MACHINES : Z := 1024.

Inductive MachineStatus := MACHINE_ONLINE | MACHINE_OFFLINE | MACHINE_PROBING.
Inductive MachineType := MACHINE_TYPE_STATIC | MACHINE_TYPE_CLOUD.

#[export] Instance MachineStatus_eq_dec : EqDecision MachineStatus.
Proof. solve_decision. Defined.
#[export] Instance MachineType_eq_dec : EqDecision MachineType.
Proof. solve_decision. Defined.

(** The four resources that every request, slot and machine counts. *)
Record Res := mkRes { r_cores : Z; r_gpu : Z; r_ram_mb : Z; r_disk_mb : Z }.

#[export] Instance Res_eq_dec : EqDecision Res.
Proof. solve_decision. Defined.

Definition res0 : Res := mkRes 0 0 0 0.
Definition res_map2 (f : Z → Z → Z) (a b : Res) : Res :=
  mkRes (f (r_cores a) (r_cores b)) (f (r_gpu a) (r_gpu b))
        (f (r_ram_mb a) (r_ram_mb b)) (f (r_disk_mb a) (r_disk_mb b)).
Definition res_add : Res → Res → Res := res_map2 Z.add.
Definition res_sub : Res → Res → Res := res_map2 Z.sub.
Definition res_all (p : Z → bool) (a : Res) : bool :=
  p (r_cores a) && p (r_gpu a) && p (r_ram_mb a) && p (r_disk_mb a).
Definition res_leb (a b : Res) : bool := res_all (λ z, 0 <=? z) (res_sub b a).

Definition res_le (a b : Res) : Prop :=
  r_cores a ≤ r_cores b ∧ r_gpu a ≤ r_gpu b ∧ r_ram_mb a ≤ r_ram_mb b ∧ r_disk_mb a ≤ r_disk_mb b.

(** [Machine] of include/resources.h.  The total, reserved and minimum
    quantities are grouped; there is no GPU minimum, so that one is 0. *)
Record Machine := mkMachine {
  m_id : string; m_hostname : string; m_ip : string; m_enabled : bool;
  m_total : Res; m_reserved : Res;
  m_probe_status : MachineStatus; m_last_probe_time : Z; m_probe_fail_count : Z;
  m_type : MachineType; m_cloud_provider : string; m_cloud_instance_id : string;
  m_cores_min : Z; m_ram_mb_min : Z; m_disk_mb_min : Z;
  m_mac_address : string;
}.

Definition m_min (m : Machine) : Res := mkRes (m_cores_min m) 0 (m_ram_mb_min m) (m_disk_mb_min m).

Definition with_reserved (r : Res) (m : Machine) : Machine :=
  let '(mkMachine a b c d t _ p l f y cp ci x1 x2 x3 mac) := m in
  mkMachine a b c d t r p l f y cp ci x1 x2 x3 mac.
Definition with_probe (st : MachineStatus) (time fails : Z) (m : Machine) : Machine :=
  let '(mkMachine a b c d t r _ _ _ y cp ci x1 x2 x3 mac) := m in
  mkMachine a b c d t r st time fails y cp ci x1 x2 x3 mac.

(** [total - reserved - min], before any clamping. *)
Definition m_free (m : Machine) : Res := res_sub (res_sub (m_total m) (m_reserved m)) (m_min m).

(** [s_machines\[0 .. s_count)] *)
Notation Registry := (list Machine).

(** ** Reading the provisioning document *)

Definition read_int (object : cJSON) (key : string) (default_value minimum maximum : Z) : option Z :=
  match cJSON_GetObjectItemCaseSensitive object key with
  | None => Some default_value
  | Some item =>
      let v := valuedouble (Some item) in
      if negb (cJSON_IsNumber (Some item)) || negb (isfinite v) || negb (d_integral v)
         || dlt v (d_of_Z minimum) || dgt v (d_of_Z maximum) then None
      else Some (d_trunc v)
  end.

Definition copy_string (object : cJSON) (key : string) (out_len : nat) : option string :=
  match cJSON_GetObjectItemCaseSensitive object key with
  | None => Some EmptyString
  | Some (JString s) => if (out_len <=? str_len s)%nat then None else Some s
  | Some _ => None
  end.

Definition machine_char (c : ascii) : bool :=
  is_lower c || is_upper c || is_digit c || Ascii.eqb c "." || Ascii.eqb c "_"
  || Ascii.eqb c "-" || Ascii.eqb c ":".

Definition safe_machine_text (value : string) : bool := str_forallb machine_char value.

(** The position of the scan of [valid_pool_format]: in plain text, just
    after a percent sign, or in the width of a conversion. *)
Inductive fmt_mode := FText | FPercent | FWidth (width_digits : nat).

Fixpoint pool_format_scan (mode : fmt_mode) (conversions : Z) (s : string) : bool :=
  let width k c s :=
    if is_digit c && (k <? 2)%nat then pool_format_scan (FWidth (S k)) conversions s
    else if is_digit c || negb (Ascii.eqb c "d") || (1 <? conversions + 1) then false
    else pool_format_scan FText (conversions + 1) s in
  match s with
  | EmptyString => match mode with FText => conversions =? 1 | _ => false end
  | String c s =>
      match mode with
      | FText => pool_format_scan (if Ascii.eqb c "%" then FPercent else FText) conversions s
      | FPercent =>
          if Ascii.eqb c "%" then pool_format_scan FText conversions s
          else if Ascii.eqb c "0" then pool_format_scan (FWidth 0) conversions s
          else width 0%nat c s
      | FWidth k => width k c s
      end
  end.

Definition valid_pool_format (format : string) : bool :=
  str_nonempty format && (str_len format <? 256)%nat && pool_format_scan FText 0 format.

(** [%0*d] and [%*d] of a non-negative number. *)
Fixpoint str_repeat (n : nat) (c : ascii) : string :=
  match n with O => EmptyString | S n => String c (str_repeat n c) end.
Definition pad (zero : bool) (width : nat) (i : Z) : string :=
  let s := dec i in str_repeat (width - str_len s) (if zero then "0" else " ") +:+ s.

(** [snprintf] of a validated pool format with its one integer. *)
Inductive conv_mode := CText | CConv (start zero : bool) (width : nat).

Fixpoint pool_format_expand (mode : conv_mode) (i : Z) (s : string) : string :=
  match s with
  | EmptyString => EmptyString
  | String c s =>
      match mode with
      | CText =>
          if Ascii.eqb c "%" then pool_format_expand (CConv true false 0) i s
          else String c (pool_format_expand CText i s)
      | CConv start zero width =>
          if start && Ascii.eqb c "%" then String c (pool_format_expand CText i s)
          else if Ascii.eqb c "d" then pad zero width i +:+ pool_format_expand CText i s
          else if Ascii.eqb c "0" && (width =? 0)%nat then pool_format_expand (CConv false true 0) i s
          else pool_format_expand
                 (CConv false zero (10 * width + Z.to_nat (char_code c - 48))) i s
      end
  end.

Definition registry_contains (machine_id : string) (l : Registry) : bool :=
  existsb (λ m, String.eqb (m_id m) machine_id) l.

Definition or_empty (o : option string) : string := default EmptyString o.
Definition or_zero (o : option Z) : Z := default 0 o.

(** One entry of the [machines] array: the record it fills and whether the
    entry is skipped. *)
Definition load_machine (l : Registry) (m : cJSON) : Machine * bool :=
  let id := copy_string m "id" 64 in
  let hostname := copy_string m "hostname" 256 in
  let ip := copy_string m "ip" 46 in
  let mac := copy_string m "mac_address" 18 in
  let provider := copy_string m "cloud_provider" 32 in
  let instance := copy_string m "cloud_instance_id" 128 in
  let cores := read_int m "cores" 0 1 10000 in
  let gpu := read_int m "gpu_count" 0 0 1000 in
  let ram := read_int m "ram_mb" 0 0 10000000 in
  let disk := read_int m "disk_mb" 0 0 10000000 in
  let cores_min := read_int m "cores_min" 0 0 10000 in
  let ram_min := read_int m "ram_mb_min" 0 0 10000000 in
  let disk_min := read_int m "disk_mb_min" 0 0 10000000 in
  let invalid :=
    negb (forallb (λ o, bool_decide (is_Some o)) [id; hostname; ip; mac; provider; instance])
    || negb (forallb (λ o, bool_decide (is_Some o)) [cores; gpu; ram; disk; cores_min; ram_min; disk_min]) in
  let type :=
    match cJSON_GetObjectItemCaseSensitive m "type" with
    | Some (JString s) => if String.eqb s "cloud" then MACHINE_TYPE_CLOUD else MACHINE_TYPE_STATIC
    | _ => MACHINE_TYPE_STATIC
    end in
  let enabled :=
    match cJSON_GetObjectItemCaseSensitive m "enabled" with Some (JBool b) => b | _ => true end in
  let M := mkMachine (or_empty id) (or_empty hostname) (or_empty ip) enabled
             (mkRes (or_zero cores) (or_zero gpu) (or_zero ram) (or_zero disk)) res0
             MACHINE_PROBING 0 0 type (or_empty provider) (or_empty instance)
             (or_zero cores_min) (or_zero ram_min) (or_zero disk_min) (or_empty mac) in
  let skip :=
    invalid || negb (str_nonempty (m_id M)) || (r_cores (m_total M) <? 1)
    || registry_contains (m_id M) l || negb (safe_machine_text (m_id M))
    || negb (safe_machine_text (m_hostname M)) || negb (safe_machine_text (m_ip M))
    || (r_cores (m_total M) <? m_cores_min M) || (r_ram_mb (m_total M) <? m_ram_mb_min M)
    || (r_disk_mb (m_total M) <? m_disk_mb_min M)
    || (bool_decide (type = MACHINE_TYPE_CLOUD)
        && (negb (String.eqb (m_cloud_provider M) "aws" || String.eqb (m_cloud_provider M) "gcp"
                  || String.eqb (m_cloud_provider M) "azure")
            || negb (str_nonempty (m_cloud_instance_id M))
            || negb (safe_machine_text (m_cloud_instance_id M)))) in
  (M, skip).

Fixpoint load_machines (ms : list cJSON) (l : Registry) : Registry :=
  match ms with
  | [] => l
  | m :: ms =>
      if MAX_MACHINES <=? Z.of_nat (length l) then l
      else let '(M, skip) := load_machine l m in
           load_machines ms (if skip then l else l ++ [M])
  end.

(** [while (tmp >= 10) { width++; tmp /= 10; }] on at most nine digits. *)
Fixpoint decimal_width (fuel : nat) (width : nat) (tmp : Z) : nat :=
  match fuel with
  | O => width
  | S fuel => if 10 <=? tmp then decimal_width fuel (S width) (tmp / 10) else width
  end.

Record Pool := mkPool {
  p_prefix : string; p_start : Z; p_end : Z; p_hostname_fmt : option string;
  p_ip_fmt : option string; p_res : Res; p_enabled : bool
}.

(** The checks at the head of the pool loop; [None] is its [continue]. *)
Definition parse_pool (p : cJSON) : option Pool :=
  let j_prefix := cJSON_GetObjectItemCaseSensitive p "id_prefix" in
  let j_start := cJSON_GetObjectItemCaseSensitive p "range_start" in
  let j_end := cJSON_GetObjectItemCaseSensitive p "range_end" in
  if negb (cJSON_IsString j_prefix) || negb (cJSON_IsNumber j_start) || negb (cJSON_IsNumber j_end)
  then None else
  let prefix := valuestring j_prefix in
  let s := valuedouble j_start in
  let e := valuedouble j_end in
  if negb (safe_machine_text prefix) || negb (str_nonempty prefix) || (48 <? str_len prefix)%nat
     || negb (isfinite s) || negb (isfinite e) || negb (d_integral s) || negb (d_integral e)
     || dlt s (d_of_Z 0) || dgt e (d_of_Z 100000000) || dgt s e then None else
  let fmt key :=
    match cJSON_GetObjectItemCaseSensitive p key with Some (JString f) => Some f | _ => None end in
  let hostname_fmt := fmt "hostname_format" in
  let ip_fmt := fmt "ip_format" in
  let bad o := match o with Some f => negb (valid_pool_format f) | None => false end in
  if bad hostname_fmt || bad ip_fmt then None else
  match read_int p "cores" 0 1 10000, read_int p "gpu_count" 0 0 1000,
        read_int p "ram_mb" 0 0 10000000, read_int p "disk_mb" 0 0 10000000 with
  | Some cores, Some gpu, Some ram, Some disk =>
      if cores <? 1 then None else
      match cJSON_GetObjectItemCaseSensitive p "enabled" with
      | Some (JBool b) =>
          Some (mkPool prefix (d_trunc s) (d_trunc e) hostname_fmt ip_fmt (mkRes cores gpu ram disk) b)
      | Some _ => None
      | None =>
          Some (mkPool prefix (d_trunc s) (d_trunc e) hostname_fmt ip_fmt (mkRes cores gpu ram disk) true)
      end
  | _, _, _, _ => None
  end.

Definition pool_machine (p : Pool) (width : nat) (i : Z) : Machine :=
  let id := cbuf 64 (p_prefix p +:+ pad true width i) in
  let hostname :=
    match p_hostname_fmt p with
    | Some f => cbuf 256 (pool_format_expand CText i f)
    | None => cbuf 256 (p_prefix p +:+ pad true width i)
    end in
  let ip := match p_ip_fmt p with Some f => cbuf 46 (pool_format_expand CText i f) | None => EmptyString end in
  mkMachine id hostname ip (p_enabled p) (p_res p) res0 MACHINE_PROBING 0 0
    MACHINE_TYPE_STATIC EmptyString EmptyString 0 0 0 EmptyString.

(** [for (i = range_start; i <= range_end && s_count < MAX_MACHINES; i++)],
    [n] being the number of indices left. *)
Fixpoint expand_pool (p : Pool) (width : nat) (n : nat) (i : Z) (l : Registry) : Registry :=
  match n with
  | O => l
  | S n =>
      if MAX_MACHINES <=? Z.of_nat (length l) then l else
      let M := pool_machine p width i in
      let skip := negb (safe_machine_text (m_id M)) || negb (safe_machine_text (m_hostname M))
                  || negb (safe_machine_text (m_ip M)) || registry_contains (m_id M) l in
      expand_pool p width n (i + 1) (if skip then l else l ++ [M])
  end.

Fixpoint load_pools (ps : list cJSON) (l : Registry) : Registry :=
  match ps with
  | [] => l
  | p :: ps =>
      if MAX_MACHINES <=? Z.of_nat (length l) then l else
      match parse_pool p with
      | None => load_pools ps l
      | Some pool =>
          let width := decimal_width 9 1 (p_end pool) in
          let n := Z.to_nat (p_end pool - p_start pool + 1) in
          load_pools ps (expand_pool pool width n (p_start pool) l)
      end
  end.

(** [file]: the bytes of the file, or [None] when it cannot be opened or
    read; [parse] is cJSON_Parse. *)
Definition registry_load (parse : string → option cJSON) (file : option string) : ST Registry Z := λ l,
  match file with
  | None => (-1, l)
  | Some buf =>
      let sz := Z.of_nat (str_len buf) in
      if (sz <=? 0) || (4 * 1024 * 1024 <? sz) then (-1, l) else
      match parse buf with
      | None => (-1, l)
      | Some root =>
          let machines := cJSON_GetObjectItemCaseSensitive root "machines" in
          if negb (cJSON_IsArray machines) then (-1, l) else
          let l1 := load_machines (array_items machines) [] in
          let l2 := load_pools (array_items (cJSON_GetObjectItemCaseSensitive root "pools")) l1 in
          (Z.of_nat (length l2), l2)
      end
  end.

(** ** Operations (each runs under the registry lock: one atomic step) *)

Definition find_machine (machine_id : string) (l : Registry) : option nat :=
  find_index (λ m, String.eqb (m_id m) machine_id) l.

(** [None]: -1. *)
Definition registry_get_copy (machine_id : string) (l : Registry) : option Machine :=
  find_machine machine_id l ≫= λ i, l !! i.

(** The copied table, or [None] when its [malloc] fails (-1).  An empty
    registry allocates nothing. *)
Definition registry_snapshot (malloc_ok : bool) (l : Registry) : option (list Machine) :=
  if (0 <? Z.of_nat (length l)) && negb malloc_ok then None else Some l.

Definition upsert_invalid (m : Machine) : bool :=
  negb (str_nonempty (m_id m)) || negb (safe_machine_text (m_id m))
  || (r_cores (m_total m) <? 1) || (r_gpu (m_total m) <? 0)
  || (r_ram_mb (m_total m) <? 0) || (r_disk_mb (m_total m) <? 0)
  || (m_cores_min m <? 0) || (m_ram_mb_min m <? 0) || (m_disk_mb_min m <? 0)
  || (r_cores (m_total m) <? m_cores_min m) || (r_ram_mb (m_total m) <? m_ram_mb_min m)
  || (r_disk_mb (m_total m) <? m_disk_mb_min m).

Definition registry_upsert (m : Machine) : ST Registry Z := λ l,
  if upsert_invalid m then (-1, l) else
  match find_machine (m_id m) l with
  | Some i =>
      match l !! i with
      | Some old =>
          let res := m_reserved old in
          if (r_cores (m_total m) <? r_cores res + m_cores_min m)
             || (r_gpu (m_total m) <? r_gpu res)
             || (r_ram_mb (m_total m) <? r_ram_mb res + m_ram_mb_min m)
             || (r_disk_mb (m_total m) <? r_disk_mb res + m_disk_mb_min m) then (-2, l)
          else
            (0, <[i := with_probe (m_probe_status old) (m_last_probe_time old) (m_probe_fail_count old)
                         (with_reserved res m)]> l)
      | None => (-1, l)
      end
  | None =>
      if MAX_MACHINES <=? Z.of_nat (length l) then (-1, l) else (0, l ++ [m])
  end.

Definition registry_remove (machine_id : string) : ST Registry Z := λ l,
  match find_machine machine_id l with
  | Some i =>
      match l !! i with
      | Some m =>
          let res := m_reserved m in
          if (0 <? r_cores res) || (0 <? r_gpu res) || (0 <? r_ram_mb res) || (0 <? r_disk_mb res)
          then (-2, l) else (0, swap_remove l i)
      | None => (-1, l)
      end
  | None => (-1, l)
  end.

Definition res_negative (r : Res) : bool :=
  (r_cores r <? 0) || (r_gpu r <? 0) || (r_ram_mb r <? 0) || (r_disk_mb r <? 0).

Definition registry_reserve (machine_id : string) (req : Res) : ST Registry Z := λ l,
  if res_negative req then (-1, l) else
  match find_machine machine_id l with
  | Some i =>
      match l !! i with
      | Some m =>
          let free := m_free m in
          if m_enabled m && bool_decide (m_probe_status m = MACHINE_ONLINE)
             && (r_cores req <=? r_cores free) && (r_gpu req <=? r_gpu free)
             && (r_ram_mb req <=? r_ram_mb free) && (r_disk_mb req <=? r_disk_mb free)
          then (0, <[i := with_reserved (res_add (m_reserved m) req) m]> l)
          else (-1, l)
      | None => (-1, l)
      end
  | None => (-1, l)
  end.

Definition clamp0 (r : Res) : Res :=
  mkRes (Z.max 0 (r_cores r)) (Z.max 0 (r_gpu r)) (Z.max 0 (r_ram_mb r)) (Z.max 0 (r_disk_mb r)).

Definition registry_release (machine_id : string) (req : Res) : ST Registry Z := λ l,
  if res_negative req then (-1, l) else
  match find_machine machine_id l with
  | Some i =>
      match l !! i with
      | Some m => (0, <[i := with_reserved (clamp0 (res_sub (m_reserved m) req)) m]> l)
      | None => (-1, l)
      end
  | None => (-1, l)
  end.

Definition registry_update_probe (machine_id : string) (status : MachineStatus)
    (probe_time reachable : Z) : ST Registry Z := λ l,
  match find_machine machine_id l with
  | Some i =>
      match l !! i with
      | Some m =>
          let fails :=
            if 0 <? reachable then 0
            else if reachable =? 0 then m_probe_fail_count m + 1 else m_probe_fail_count m in
          (0, <[i := with_probe status probe_time fails m]> l)
      | None => (-1, l)
      end
  | None => (-1, l)
  end.

(** ** The invariant *)

Definition res_bounded (r : Res) : Prop := res_le res0 r ∧ res_le r (mkRes INT_MAX INT_MAX INT_MAX INT_MAX).

(** Reserved and protected quantities never exceed the totals, and all of
    them are C [int]s. *)
Record machine_wf (m : Machine) : Prop := {
  wf_id : m_id m ≠ EmptyString;
  wf_id_len : (str_len (m_id m) < 64)%nat;
  wf_cores : 1 ≤ r_cores (m_total m);
  wf_total : res_bounded (m_total m);
  wf_reserved : res_le res0 (m_reserved m);
  wf_min : res_le res0 (m_min m);
  wf_fits : res_le (res_add (m_reserved m) (m_min m)) (m_total m);
}.

Record reg_ok (l : Registry) : Prop := {
  ro_machines : ∀ m, m ∈ l → machine_wf m;
  ro_ids : NoDup (m_id <$> l);
  ro_count : Z.of_nat (length l) ≤ MAX_MACHINES;
}.

(** What is reserved on a machine; [None] if there is no such machine. *)
Definition reserved_on (l : Registry) (machine_id : string) : option Res :=
  m_reserved <$> registry_get_copy machine_id l.

Ltac res_solve :=
  unfold res_bounded, res_le, res_add, res_sub, res_map2, clamp0, m_min, m_free, res0,
    res_negative, INT_MAX in *; simpl in *; intuition lia.

Lemma find_machine_Some l id i :
  find_machine id l = Some i → ∃ m, l !! i = Some m ∧ m_id m = id.
Proof.
  intros H. apply find_index_Some in H as (m & Hm & Hid & _). exists m. by bool_prop.
Qed.

Lemma find_machine_None l id : find_machine id l = None → id ∉ m_id <$> l.
Proof.
  intros H [m [-> Hm]]%list_elem_of_fmap.
  pose proof (find_index_None _ _ H m Hm) as E. simpl in E. by rewrite String.eqb_refl in E.
Qed.

Lemma find_machine_lookup l i m :
  NoDup (m_id <$> l) → l !! i = Some m → find_machine (m_id m) l = Some i.
Proof.
  intros Hnd Hm. destruct (find_machine (m_id m) l) as [k|] eqn:E.
  - apply find_machine_Some in E as (m' & Hk & Hid). f_equal.
    apply (NoDup_lookup (m_id <$> l) k i (m_id m)); [done|..]; rewrite list_lookup_fmap.
    + by rewrite Hk, <- Hid.
    + by rewrite Hm.
  - apply find_machine_None in E. destruct E. apply list_elem_of_fmap. eexists. split; [done|].
    by eapply list_elem_of_lookup_2.
Qed.

Lemma get_copy_Some l id m :
  registry_get_copy id l = Some m → ∃ i, find_machine id l = Some i ∧ l !! i = Some m ∧ m_id m = id.
Proof.
  unfold registry_get_copy. destruct (find_machine id l) as [i|] eqn:E; simpl; [|done].
  intros Hm. exists i. apply find_machine_Some in E as (m' & ? & ?). by simplify_eq.
Qed.

Lemma get_copy_elem l m : NoDup (m_id <$> l) → m ∈ l → registry_get_copy (m_id m) l = Some m.
Proof.
  intros Hnd [i Hi]%list_elem_of_lookup. unfold registry_get_copy.
  by rewrite (find_machine_lookup l i m).
Qed.

Lemma get_copy_wf l id m : reg_ok l → registry_get_copy id l = Some m → machine_wf m.
Proof. intros Hok (i & _ & Hm & _)%get_copy_Some. apply Hok. by eapply list_elem_of_lookup_2. Qed.

(** Replacing a machine by one with the same identifier. *)
Lemma replace_get_copy l i m m' id :
  find_machine (m_id m) l = Some i → l !! i = Some m → m_id m' = m_id m →
  registry_get_copy id (<[i:=m']> l) = if decide (id = m_id m) then Some m' else registry_get_copy id l.
Proof.
  intros Hf Hm Hid. pose proof (lookup_lt_Some _ _ _ Hm).
  assert (∀ id, find_machine id (<[i:=m']> l) = find_machine id l) as Hsame.
  { intros id'. unfold find_machine. clear Hf. revert l Hm H. induction i as [|i IH]; intros [|x l] Hm Hl; simplify_eq/=.
    - by rewrite Hid.
    - case_match; [done|]. rewrite IH; [done|done|lia]. }
  unfold registry_get_copy. rewrite Hsame. case_decide as Hd.
  - subst id. rewrite Hf; simpl. by apply list_lookup_insert_eq.
  - destruct (find_machine id l) as [k|] eqn:Ek; simpl; [|done].
    rewrite list_lookup_insert_ne; [done|]. intros ->.
    apply find_machine_Some in Ek as (m'' & Hk & ?). simplify_eq.
Qed.

Lemma replace_ok l i m m' :
  reg_ok l → l !! i = Some m → m_id m' = m_id m → machine_wf m' → reg_ok (<[i:=m']> l).
Proof.
  intros [Hm Hn Hc] Hi Hid Hwf. split.
  - intros x [k Hk]%list_elem_of_lookup. destruct (decide (k = i)) as [->|Hne].
    + rewrite list_lookup_insert_eq in Hk by (by eapply lookup_lt_Some). by simplify_eq.
    + rewrite list_lookup_insert_ne in Hk by done. apply Hm. by eapply list_elem_of_lookup_2.
  - by rewrite (fmap_insert_same m_id l i m m') by done.
  - by rewrite length_insert.
Qed.

Lemma with_reserved_id r m : m_id (with_reserved r m) = m_id m.
Proof. by destruct m. Qed.
Lemma with_reserved_reserved r m : m_reserved (with_reserved r m) = r.
Proof. by destruct m. Qed.
Lemma with_probe_id a b c m : m_id (with_probe a b c m) = m_id m.
Proof. by destruct m. Qed.
Lemma with_probe_reserved a b c m : m_reserved (with_probe a b c m) = m_reserved m.
Proof. by destruct m. Qed.
#[export] Hint Rewrite with_reserved_id with_reserved_reserved with_probe_id with_probe_reserved : clib.

Lemma with_probe_wf a b c m : machine_wf m → machine_wf (with_probe a b c m).
Proof. destruct m. intros []; split; done. Qed.

Lemma with_reserved_wf r m :
  machine_wf m → res_le res0 r → res_le (res_add r (m_min m)) (m_total m) → machine_wf (with_reserved r m).
Proof. destruct m. intros [] ? ?; split; done. Qed.

Lemma res_ext (a b : Res) :
  r_cores a = r_cores b → r_gpu a = r_gpu b → r_ram_mb a = r_ram_mb b → r_disk_mb a = r_disk_mb b → a = b.
Proof. destruct a, b; simpl; congruence. Qed.

Lemma reserved_on_Some l id x :
  reserved_on l id = Some x → ∃ i m, find_machine id l = Some i ∧ l !! i = Some m ∧ m_id m = id ∧ m_reserved m = x.
Proof.
  unfold reserved_on. destruct (registry_get_copy id l) as [m|] eqn:E; simpl; [|done].
  intros [= <-]. apply get_copy_Some in E as (i & ? & ? & ?). by exists i, m.
Qed.

Lemma replace_reserved_on l i m m' id :
  find_machine (m_id m) l = Some i → l !! i = Some m → m_id m' = m_id m →
  reserved_on (<[i:=m']> l) id = if decide (id = m_id m) then Some (m_reserved m') else reserved_on l id.
Proof.
  intros. unfold reserved_on. rewrite (replace_get_copy l i m m') by done. by case_decide.
Qed.

Lemma res_negative_false r : res_negative r = false ↔ res_le res0 r.
Proof. unfold res_negative. rewrite !orb_false_iff, !Z.ltb_ge. res_solve. Qed.

(** *** Reservation *)

Lemma registry_reserve_spec l id req rc l' :
  reg_ok l → registry_reserve id req l = (rc, l') →
  reg_ok l' ∧
  (rc = -1 ∧ l' = l ∨
   rc = 0 ∧ ∃ m, registry_get_copy id l = Some m ∧ m_enabled m = true ∧ m_probe_status m = MACHINE_ONLINE ∧
     res_le res0 req ∧ res_le req (m_free m) ∧
     registry_get_copy id l' = Some (with_reserved (res_add (m_reserved m) req) m) ∧
     ∀ id', id' ≠ id → registry_get_copy id' l' = registry_get_copy id' l).
Proof.
  intros Hok. unfold registry_reserve.
  destruct (res_negative req) eqn:Hneg; [intros [= <- <-]; auto|]. apply res_negative_false in Hneg.
  destruct (find_machine id l) as [i|] eqn:Hf; [|intros [= <- <-]; auto].
  pose proof (find_machine_Some l id i Hf) as (m & Hm & Hid). rewrite Hm.
  case_match eqn:Hc; [|intros [= <- <-]; auto].
  rewrite !andb_true_iff, !Z.leb_le, bool_decide_eq_true in Hc. destruct Hc as (((((He & Hon) & ?) & ?) & ?) & ?).
  intros [= <- <-]. pose proof (ro_machines l Hok m ltac:(by eapply list_elem_of_lookup_2)) as Hwf. split.
  - apply (replace_ok l i m); [done|done|by destruct m|].
    apply with_reserved_wf; [done|..]; destruct Hwf; res_solve.
  - right. split; [done|]. exists m. subst id. pose proof Hf as Hf'.
    assert (registry_get_copy (m_id m) l = Some m) as Hget by (unfold registry_get_copy; by rewrite Hf).
    split_and!; try done.
    + rewrite (replace_get_copy l i m) by (done || by destruct m). by rewrite decide_True.
    + intros id' Hne. rewrite (replace_get_copy l i m) by (done || by destruct m). by rewrite decide_False.
Qed.

Lemma registry_reserve_succeeds l id req m :
  registry_get_copy id l = Some m → m_enabled m = true → m_probe_status m = MACHINE_ONLINE →
  res_le res0 req → res_le req (m_free m) → (registry_reserve id req l).1 = 0.
Proof.
  intros (i & Hf & Hm & Hid)%get_copy_Some He Hp H0 Hle. unfold registry_reserve.
  rewrite (proj2 (res_negative_false req) H0), Hf, Hm, He, Hp. unfold res_le in Hle.
  rewrite bool_decide_eq_true_2 by done. simpl.
  rewrite !(proj2 (Z.leb_le _ _)) by tauto. done.
Qed.

Lemma registry_release_spec l id req m :
  reg_ok l → registry_get_copy id l = Some m → res_le res0 req → res_le req (m_reserved m) →
  ∃ l', registry_release id req l = (0, l') ∧ reg_ok l' ∧
    registry_get_copy id l' = Some (with_reserved (res_sub (m_reserved m) req) m) ∧
    ∀ id', id' ≠ id → registry_get_copy id' l' = registry_get_copy id' l.
Proof.
  intros Hok (i & Hf & Hm & Hid)%get_copy_Some H0 Hle. unfold registry_release.
  rewrite (proj2 (res_negative_false req) H0), Hf, Hm. eexists. split; [done|].
  assert (clamp0 (res_sub (m_reserved m) req) = res_sub (m_reserved m) req) as ->.
  { apply res_ext; unfold res_le in Hle; simpl; lia. }
  pose proof (ro_machines l Hok m ltac:(by eapply list_elem_of_lookup_2)) as Hwf. subst id. split_and!.
  - apply (replace_ok l i m); [done|done|by destruct m|].
    apply with_reserved_wf; [done|..]; destruct Hwf; res_solve.
  - rewrite (replace_get_copy l i m) by (done || by destruct m). by rewrite decide_True.
  - intros id' Hne. rewrite (replace_get_copy l i m) by (done || by destruct m). by rewrite decide_False.
Qed.

(** Releasing what was just reserved restores the table itself. *)
Lemma registry_reserve_release l id req l' :
  reg_ok l → registry_reserve id req l = (0, l') → registry_release id req l' = (0, l).
Proof.
  intros Hok. unfold registry_reserve.
  destruct (res_negative req) eqn:Hneg; [done|].
  destruct (find_machine id l) as [i|] eqn:Hf; [|done].
  pose proof (find_machine_Some l id i Hf) as (m & Hm & Hid). rewrite Hm.
  case_match eqn:Hc; [|done]. intros [= <-]. unfold registry_release. rewrite Hneg.
  pose proof (lookup_lt_Some _ _ _ Hm) as Hlt. pose proof Hf as Hf'. rewrite <- Hid in Hf'.
  assert (find_machine id (<[i:=with_reserved (res_add (m_reserved m) req) m]> l) = Some i) as ->.
  { rewrite <- Hid. pose proof (find_machine_lookup (<[i:=with_reserved (res_add (m_reserved m) req) m]> l) i
      (with_reserved (res_add (m_reserved m) req) m)) as HL. rewrite with_reserved_id in HL. apply HL.
    - rewrite (fmap_insert_same m_id l i m) by (done || by destruct m). apply Hok.
    - by apply list_lookup_insert_eq. }
  rewrite list_lookup_insert_eq by done. rewrite list_insert_insert_eq. f_equal.
  rewrite <- (list_insert_id l i m Hm) at 2. f_equal.
  pose proof (wf_reserved m (ro_machines l Hok m ltac:(by eapply list_elem_of_lookup_2))) as H0.
  destruct m; simpl in *. f_equal. apply res_ext; unfold res_le in H0; simpl in *; lia.
Qed.

(** *** Administration and probes *)

Lemma registry_update_probe_spec id st t k l rc l' :
  reg_ok l → registry_update_probe id st t k l = (rc, l') →
  reg_ok l' ∧ ∀ id', reserved_on l' id' = reserved_on l id'.
Proof.
  intros Hok. unfold registry_update_probe.
  destruct (find_machine id l) as [i|] eqn:Hf; [|by intros [= <- <-]].
  pose proof (find_machine_Some l id i Hf) as (m & Hm & <-). rewrite Hm. intros [= <- <-].
  pose proof (ro_machines l Hok m ltac:(by eapply list_elem_of_lookup_2)) as Hwf. split.
  - apply (replace_ok l i m); [done|done|by destruct m|by apply with_probe_wf].
  - intros id'. rewrite (replace_reserved_on l i m) by (done || by destruct m). case_decide; [|done].
    subst id'. unfold reserved_on, registry_get_copy. rewrite Hf; simpl. rewrite Hm. by destruct m.
Qed.

(** What an administrator's new machine is besides the checks of
    [registry_upsert]: nothing reserved, and the C types. *)
Definition fresh_machine (m : Machine) : Prop :=
  m_reserved m = res0 ∧ res_le (m_total m) (mkRes INT_MAX INT_MAX INT_MAX INT_MAX) ∧ (str_len (m_id m) < 64)%nat.

Lemma upsert_invalid_false m :
  upsert_invalid m = false → fresh_machine m → machine_wf m.
Proof.
  unfold upsert_invalid, fresh_machine. rewrite !orb_false_iff, !negb_false_iff, !Z.ltb_ge.
  intros H (H0 & Hmax & Hlen). split.
  - apply str_nonempty_spec. tauto.
  - done.
  - tauto.
  - res_solve.
  - rewrite H0. res_solve.
  - res_solve.
  - rewrite H0. res_solve.
Qed.

Lemma get_copy_app l m id :
  registry_get_copy id (l ++ [m]) =
  match registry_get_copy id l with
  | Some x => Some x
  | None => if String.eqb (m_id m) id then Some m else None
  end.
Proof.
  unfold registry_get_copy, find_machine. induction l as [|x l IH]; simpl.
  - by case_match.
  - destruct (String.eqb (m_id x) id) eqn:E; simpl; [done|].
    destruct (find_index _ (l ++ [m])) as [k|] eqn:E1, (find_index _ l) as [k2|] eqn:E2; simpl in *; done.
Qed.

Lemma append_ok l m :
  reg_ok l → machine_wf m → m_id m ∉ m_id <$> l → Z.of_nat (length l) < MAX_MACHINES → reg_ok (l ++ [m]).
Proof.
  intros [Hm Hn Hc] Hwf Hid Hlt. split.
  - intros x [Hx| ->%list_elem_of_singleton]%elem_of_app; auto.
  - rewrite fmap_app. apply NoDup_app. split; [done|]. split; [set_solver|apply NoDup_singleton].
  - rewrite length_app; simpl. lia.
Qed.

Lemma get_copy_None l id : id ∉ m_id <$> l → registry_get_copy id l = None.
Proof.
  intros H. destruct (registry_get_copy id l) as [m|] eqn:E; [|done].
  apply get_copy_Some in E as (i & _ & Hm & <-). destruct H.
  eapply list_elem_of_fmap_2'; [by eapply list_elem_of_lookup_2|done].
Qed.

(** An upsert never changes what is reserved, on any machine: it keeps the
    counters of a known machine, and a new one starts with none. *)
Lemma registry_upsert_spec m l rc l' :
  reg_ok l → fresh_machine m → registry_upsert m l = (rc, l') →
  reg_ok l' ∧ (∀ id, default res0 (reserved_on l' id) = default res0 (reserved_on l id)) ∧
  (∀ id, is_Some (reserved_on l id) → is_Some (reserved_on l' id)) ∧ (rc ≠ 0 → l' = l).
Proof.
  intros Hok Hfresh. unfold registry_upsert.
  destruct (upsert_invalid m) eqn:Hinv; [by intros [= <- <-]|].
  pose proof (upsert_invalid_false m Hinv Hfresh) as Hwf.
  destruct (find_machine (m_id m) l) as [i|] eqn:Hf.
  - pose proof (find_machine_Some l _ i Hf) as (old & Hm & Hid). rewrite Hm.
    case_match eqn:Hc; [by intros [= <- <-]|]. rewrite !orb_false_iff, !Z.ltb_ge in Hc. intros [= <- <-].
    pose proof (ro_machines l Hok old ltac:(by eapply list_elem_of_lookup_2)) as Hwo.
    rewrite <- Hid in Hf. set (m' := with_probe _ _ _ _).
    assert (m_id m' = m_id old) as Hid' by (by destruct m).
    assert (m_reserved m' = m_reserved old) as Hr' by (by destruct m).
    assert (∀ id, reserved_on (<[i:=m']> l) id = reserved_on l id) as Hsame.
    { intros id. rewrite (replace_reserved_on l i old) by done. case_decide; [|done]. subst id.
      unfold reserved_on, registry_get_copy. rewrite Hf; simpl. by rewrite Hm, Hr'. }
    split_and!; [|by intros; rewrite Hsame|by intros id; rewrite Hsame|done].
    apply (replace_ok l i old); [done..|].
    apply with_probe_wf, with_reserved_wf; [done|by destruct Hwo|]. destruct Hwf, Hwo. res_solve.
  - destruct (MAX_MACHINES <=? Z.of_nat (length l)) eqn:Hmax; [by intros [= <- <-]|]. bool_prop.
    apply find_machine_None in Hf. intros [= <- <-]. split_and!; [by apply append_ok| | |done].
    + intros id. unfold reserved_on. rewrite get_copy_app.
      destruct (registry_get_copy id l); [done|]. case_match; [|done]. simpl. by destruct Hfresh.
    + intros id. unfold reserved_on. rewrite get_copy_app. destruct (registry_get_copy id l); [done|by intros [? [=]]].
Qed.

Lemma get_copy_iff l id m :
  NoDup (m_id <$> l) → registry_get_copy id l = Some m ↔ m ∈ l ∧ m_id m = id.
Proof.
  intros Hnd. split.
  - intros (i & _ & Hm & Hid)%get_copy_Some. split; [by eapply list_elem_of_lookup_2|done].
  - intros [Hm <-]. by apply get_copy_elem.
Qed.

Lemma reserved_on_zero m :
  machine_wf m → r_cores (m_reserved m) ≤ 0 → r_gpu (m_reserved m) ≤ 0 →
  r_ram_mb (m_reserved m) ≤ 0 → r_disk_mb (m_reserved m) ≤ 0 → m_reserved m = res0.
Proof. intros [_ _ _ _ H _ _] ????. apply res_ext; unfold res_le in H; simpl in *; lia. Qed.

(** Only an idle machine is removed, so an administrator's removal never
    changes what is reserved either. *)
Lemma registry_remove_spec id l rc l' :
  reg_ok l → registry_remove id l = (rc, l') →
  reg_ok l' ∧ (∀ id', default res0 (reserved_on l' id') = default res0 (reserved_on l id')) ∧
  (rc ≠ 0 → l' = l) ∧ (rc = 0 → reserved_on l id = Some res0 ∧ reserved_on l' id = None).
Proof.
  intros Hok. unfold registry_remove.
  destruct (find_machine id l) as [i|] eqn:Hf; [|by intros [= <- <-]].
  pose proof (find_machine_Some l _ i Hf) as (m & Hm & Hid). rewrite Hm.
  case_match eqn:Hc; [by intros [= <- <-]|]. rewrite !orb_false_iff, !Z.ltb_ge in Hc. intros [= <- <-].
  pose proof (ro_machines l Hok m ltac:(by eapply list_elem_of_lookup_2)) as Hwf.
  assert (m_reserved m = res0) as H0 by (apply reserved_on_zero; tauto).
  pose proof (swap_remove_perm l i m Hm) as Hp. set (l' := swap_remove l i) in *.
  pose proof (ro_ids l Hok) as Hnd. rewrite Hp in Hnd. simpl in Hnd. apply NoDup_cons in Hnd as [Hni Hnd'].
  assert (reg_ok l') as Hok'.
  { split; [|done|].
    - intros x Hx. apply (ro_machines l Hok). rewrite Hp. set_solver.
    - pose proof (ro_count l Hok) as Hc'. rewrite Hp in Hc'. simpl in Hc'. lia. }
  assert (reserved_on l id = Some res0) as Hl.
  { unfold reserved_on, registry_get_copy. rewrite Hf; simpl. by rewrite Hm, <- H0. }
  assert (reserved_on l' id = None) as Hl' by (unfold reserved_on; by rewrite get_copy_None by (by rewrite <- Hid)).
  split_and!; try done. intros id'. destruct (decide (id' = id)) as [->|Hne]; [by rewrite Hl, Hl'|].
  assert (∀ x, registry_get_copy id' l' = Some x ↔ registry_get_copy id' l = Some x) as Hsame.
  { intros x. rewrite !get_copy_iff by (done || apply Hok). rewrite Hp. set_solver. }
  unfold reserved_on. do 2 f_equal. by apply option_eq.
Qed.

(** *** The machine store interface

    What the allocator needs from the registry, and the laws it relies on. *)
Class MachineStore (S : Type) := {
  ms_ok : S → Prop;
  ms_snapshot : bool → S → option (list Machine);
  ms_get_copy : string → S → option Machine;
  ms_reserve : string → Res → ST S Z;
  ms_release : string → Res → ST S Z;
}.

Class MachineStoreLaws (S : Type) `{MachineStore S} : Prop := {
  ms_snapshot_get b (s : S) l m :
    ms_ok s → ms_snapshot b s = Some l → m ∈ l → ms_get_copy (m_id m) s = Some m;
  ms_snapshot_ids b (s : S) l : ms_ok s → ms_snapshot b s = Some l → NoDup (m_id <$> l);
  ms_get_wf (s : S) id m : ms_ok s → ms_get_copy id s = Some m → machine_wf m ∧ m_id m = id;
  ms_reserve_spec (s : S) id req rc s' :
    ms_ok s → ms_reserve id req s = (rc, s') →
    ms_ok s' ∧
    (rc = -1 ∧ s' = s ∨
     rc = 0 ∧ ∃ m, ms_get_copy id s = Some m ∧ m_enabled m = true ∧ m_probe_status m = MACHINE_ONLINE ∧
       res_le res0 req ∧ res_le req (m_free m) ∧
       ms_get_copy id s' = Some (with_reserved (res_add (m_reserved m) req) m) ∧
       ∀ id', id' ≠ id → ms_get_copy id' s' = ms_get_copy id' s);
  ms_reserve_succeeds (s : S) id req m :
    ms_get_copy id s = Some m → m_enabled m = true → m_probe_status m = MACHINE_ONLINE →
    res_le res0 req → res_le req (m_free m) → (ms_reserve id req s).1 = 0;
  ms_release_spec (s : S) id req m :
    ms_ok s → ms_get_copy id s = Some m → res_le res0 req → res_le req (m_reserved m) →
    ∃ s', ms_release id req s = (0, s') ∧ ms_ok s' ∧
      ms_get_copy id s' = Some (with_reserved (res_sub (m_reserved m) req) m) ∧
      ∀ id', id' ≠ id → ms_get_copy id' s' = ms_get_copy id' s;
}.

#[export] Instance registry_store : MachineStore Registry := {
  ms_ok := reg_ok;
  ms_snapshot := registry_snapshot;
  ms_get_copy := registry_get_copy;
  ms_reserve := registry_reserve;
  ms_release := registry_release;
}.

#[export] Instance registry_store_laws : MachineStoreLaws Registry.
Proof.
  split.
  - intros b s l m Hok Hs Hm. simpl in *. unfold registry_snapshot in Hs. case_match; simplify_eq.
    apply get_copy_elem; [apply Hok|done].
  - intros b s l Hok Hs. simpl in *. unfold registry_snapshot in Hs. case_match; simplify_eq. apply Hok.
  - intros s id m Hok Hm. split; [by eapply get_copy_wf|]. by apply get_copy_Some in Hm as (i & _ & _ & ?).
  - intros s id req rc s' Hok Hr. by apply registry_reserve_spec.
  - intros s id req m. apply registry_reserve_succeeds.
  - intros s id req m Hok Hm H0 Hle. by apply registry_release_spec.
Qed.
