(* ===== verification/Sql.v ===== *)
(** The SQLite connection that src/persistence/db.c drives: the tables of
    its schema as lists of rows (in rowid order, NULL text read as the empty
    string and NULL numbers as 0, which is how the code reads them), the
    transaction state, and the effect of preparing and stepping a statement.
    SQLite itself is not modelled: whether each statement succeeds is decided
    by a stream of outcomes that every theorem quantifies over. *)
From S2P Require Import Prelude Job Registry.

(** ** Rows *)

Record BatchRecord := mkBatch { b_id : string; b_name : string; b_user_id : string; b_created_at : Z }.

Record ArtifactRecord := mkArtifact {
  a_id : Z; a_job_id : string; a_type : string; a_uri : string;
  a_size_bytes : Z; a_checksum : string; a_created_at : Z
}.

Record ApiKeyInfo := mkApiKey {
  k_key_hash : string; k_label : string; k_role : string; k_user_id : string;
  k_created_at : Z; k_expires_at : Z; k_revoked : Z
}.

Record Allocation := mkAllocation {
  al_job_id : string; al_machine_id : string; al_res : Res;
  al_allocated_at : Z; al_released_at : option Z
}.

Record Quota := mkQuota {
  qt_user_id : string; qt_app_id : string;
  qt_max_jobs : Z; qt_max_ram_mb : Z; qt_max_cores : Z; qt_max_concurrent : Z
}.

(** [UserRecord] with the password hash column. *)
Record User := mkUser {
  u_user_id : string; u_display_name : string; u_email : string;
  u_password_hash : string; u_enabled : Z; u_created_at : Z
}.

Record WorkflowDef := mkWorkflow {
  w_id : string; w_name : string; w_owner_id : string; w_is_global : Z;
  w_steps_json : string; w_created_at : Z; w_updated_at : Z
}.

Record EventRecord := mkEvent {
  e_id : Z; e_category : string; e_event_type : string; e_detail : string;
  e_user_id : string; e_job_id : string; e_machine_id : string; e_created_at : Z
}.

Record SubmissionKey := mkSubmissionKey {
  sk_user_id : string; sk_key : string; sk_job_id : string; sk_created_at : Z
}.

(** ** The tables and the connection *)

Record Tables := mkTables {
  t_jobs : list Job;
  t_api_keys : list ApiKeyInfo;
  t_allocations : list Allocation;
  t_batches : list BatchRecord;
  t_artifacts : list ArtifactRecord;
  t_artifact_seq : Z;
  t_audit_log : list (string * string * Z);
  t_quotas : list Quota;
  t_users : list User;
  t_workflows : list WorkflowDef;
  t_workflow_favorites : list (string * string);
  t_events : list EventRecord;
  t_event_seq : Z;
  t_submission_keys : list SubmissionKey
}.

Definition set_t_jobs (v : list Job) (t : Tables) : Tables :=
  let '(mkTables _ x1 x2 x3 x4 x5 x6 x7 x8 x9 x10 x11 x12 x13) := t in mkTables v x1 x2 x3 x4 x5 x6 x7 x8 x9 x10 x11 x12 x13.
Definition set_t_api_keys (v : list ApiKeyInfo) (t : Tables) : Tables :=
  let '(mkTables x0 _ x2 x3 x4 x5 x6 x7 x8 x9 x10 x11 x12 x13) := t in mkTables x0 v x2 x3 x4 x5 x6 x7 x8 x9 x10 x11 x12 x13.
Definition set_t_allocations (v : list Allocation) (t : Tables) : Tables :=
  let '(mkTables x0 x1 _ x3 x4 x5 x6 x7 x8 x9 x10 x11 x12 x13) := t in mkTables x0 x1 v x3 x4 x5 x6 x7 x8 x9 x10 x11 x12 x13.
Definition set_t_batches (v : list BatchRecord) (t : Tables) : Tables :=
  let '(mkTables x0 x1 x2 _ x4 x5 x6 x7 x8 x9 x10 x11 x12 x13) := t in mkTables x0 x1 x2 v x4 x5 x6 x7 x8 x9 x10 x11 x12 x13.
Definition set_t_artifacts (v : list ArtifactRecord) (t : Tables) : Tables :=
  let '(mkTables x0 x1 x2 x3 _ x5 x6 x7 x8 x9 x10 x11 x12 x13) := t in mkTables x0 x1 x2 x3 v x5 x6 x7 x8 x9 x10 x11 x12 x13.
Definition set_t_artifact_seq (v : Z) (t : Tables) : Tables :=
  let '(mkTables x0 x1 x2 x3 x4 _ x6 x7 x8 x9 x10 x11 x12 x13) := t in mkTables x0 x1 x2 x3 x4 v x6 x7 x8 x9 x10 x11 x12 x13.
Definition set_t_audit_log (v : list (string * string * Z)) (t : Tables) : Tables :=
  let '(mkTables x0 x1 x2 x3 x4 x5 _ x7 x8 x9 x10 x11 x12 x13) := t in mkTables x0 x1 x2 x3 x4 x5 v x7 x8 x9 x10 x11 x12 x13.
Definition set_t_quotas (v : list Quota) (t : Tables) : Tables :=
  let '(mkTables x0 x1 x2 x3 x4 x5 x6 _ x8 x9 x10 x11 x12 x13) := t in mkTables x0 x1 x2 x3 x4 x5 x6 v x8 x9 x10 x11 x12 x13.
Definition set_t_users (v : list User) (t : Tables) : Tables :=
  let '(mkTables x0 x1 x2 x3 x4 x5 x6 x7 _ x9 x10 x11 x12 x13) := t in mkTables x0 x1 x2 x3 x4 x5 x6 x7 v x9 x10 x11 x12 x13.
Definition set_t_workflows (v : list WorkflowDef) (t : Tables) : Tables :=
  let '(mkTables x0 x1 x2 x3 x4 x5 x6 x7 x8 _ x10 x11 x12 x13) := t in mkTables x0 x1 x2 x3 x4 x5 x6 x7 x8 v x10 x11 x12 x13.
Definition set_t_workflow_favorites (v : list (string * string)) (t : Tables) : Tables :=
  let '(mkTables x0 x1 x2 x3 x4 x5 x6 x7 x8 x9 _ x11 x12 x13) := t in mkTables x0 x1 x2 x3 x4 x5 x6 x7 x8 x9 v x11 x12 x13.
Definition set_t_events (v : list EventRecord) (t : Tables) : Tables :=
  let '(mkTables x0 x1 x2 x3 x4 x5 x6 x7 x8 x9 x10 _ x12 x13) := t in mkTables x0 x1 x2 x3 x4 x5 x6 x7 x8 x9 x10 v x12 x13.
Definition set_t_event_seq (v : Z) (t : Tables) : Tables :=
  let '(mkTables x0 x1 x2 x3 x4 x5 x6 x7 x8 x9 x10 x11 _ x13) := t in mkTables x0 x1 x2 x3 x4 x5 x6 x7 x8 x9 x10 x11 v x13.
Definition set_t_submission_keys (v : list SubmissionKey) (t : Tables) : Tables :=
  let '(mkTables x0 x1 x2 x3 x4 x5 x6 x7 x8 x9 x10 x11 x12 _) := t in mkTables x0 x1 x2 x3 x4 x5 x6 x7 x8 x9 x10 x11 x12 v.

(** How the next statement ends: executed; refused by sqlite3_prepare;
    stopped by an error after some rows; stopped by an error that also rolls
    the transaction back. *)
Inductive Outcome := StmtOk | PrepareFails | StepFails (rows : nat) | StmtAborts.

(** [s_db != NULL], [s_transaction_active], and of the connection itself the
    tables to restore when a transaction is open, the tables, the last
    sqlite3_changes, the wall clock, and the outcomes to come. *)
Record Db := mkDb {
  s_open : bool;
  s_transaction_active : bool;
  sq_saved : option Tables;
  tables : Tables;
  changes : Z;
  clock : Z;
  outcomes : list Outcome
}.

Definition set_s_open (v : bool) (d : Db) : Db :=
  let '(mkDb _ x1 x2 x3 x4 x5 x6) := d in mkDb v x1 x2 x3 x4 x5 x6.
Definition set_s_transaction_active (v : bool) (d : Db) : Db :=
  let '(mkDb x0 _ x2 x3 x4 x5 x6) := d in mkDb x0 v x2 x3 x4 x5 x6.
Definition set_sq_saved (v : option Tables) (d : Db) : Db :=
  let '(mkDb x0 x1 _ x3 x4 x5 x6) := d in mkDb x0 x1 v x3 x4 x5 x6.
Definition set_tables (v : Tables) (d : Db) : Db :=
  let '(mkDb x0 x1 x2 _ x4 x5 x6) := d in mkDb x0 x1 x2 v x4 x5 x6.
Definition set_changes (v : Z) (d : Db) : Db :=
  let '(mkDb x0 x1 x2 x3 _ x5 x6) := d in mkDb x0 x1 x2 x3 v x5 x6.
Definition set_clock (v : Z) (d : Db) : Db :=
  let '(mkDb x0 x1 x2 x3 x4 _ x6) := d in mkDb x0 x1 x2 x3 x4 v x6.
Definition set_outcomes (v : list Outcome) (d : Db) : Db :=
  let '(mkDb x0 x1 x2 x3 x4 x5 _) := d in mkDb x0 x1 x2 x3 x4 x5 v.

Definition no_tables : Tables := mkTables [] [] [] [] [] 0 [] [] [] [] [] [] 0 [].

(** ** Statements *)

(** Take the next outcome; past the end of the stream everything succeeds. *)
Definition next_outcome : ST Db Outcome := λ d,
  match outcomes d with
  | [] => (StmtOk, d)
  | o :: os => (o, set_outcomes os d)
  end.

(** A failing statement changes nothing itself; some errors (disk full, I/O)
    also make SQLite roll the open transaction back. *)
Definition sq_abort (d : Db) : Db :=
  match sq_saved d with
  | Some t => set_sq_saved None (set_tables t d)
  | None => d
  end.

(** An INSERT, UPDATE or DELETE run to SQLITE_DONE: [f] maps the clock and
    the tables to the new tables and the number of rows changed, [None] being
    a constraint violation.  True when it was executed. *)
Definition dml (f : Z → Tables → option (Tables * Z)) : ST Db bool := λ d,
  if negb (s_open d) then (false, d) else
  let '(o, d) := next_outcome d in
  match o with
  | StmtOk =>
      match f (clock d) (tables d) with
      | Some (t, n) => (true, set_changes n (set_tables t d))
      | None => (false, d)
      end
  | StmtAborts => (false, sq_abort d)
  | _ => (false, d)
  end.

(** The 0 / -1 result of most functions. *)
Definition rc_of (ok : bool) : Z := if ok then 0 else -1.
Definition dml_rc (f : Z → Tables → option (Tables * Z)) : ST Db Z :=
  ok ← dml f; mret (rc_of ok).

(** A SELECT: [None] if it could not be prepared, otherwise the rows stepped
    through and whether the last step was SQLITE_DONE. *)
Definition query {R} (f : Z → Tables → list R) : ST Db (option (list R * bool)) := λ d,
  if negb (s_open d) then (None, d) else
  let '(o, d) := next_outcome d in
  let rows := f (clock d) (tables d) in
  match o with
  | StmtOk => (Some (rows, true), d)
  | PrepareFails => (None, d)
  | StepFails n => (Some (take n rows, false), d)
  | StmtAborts => (Some ([], false), sq_abort d)
  end.

(** BEGIN IMMEDIATE fails inside a transaction. *)
Definition sq_begin : ST Db bool := λ d,
  if negb (s_open d) then (false, d) else
  let '(o, d) := next_outcome d in
  match o, sq_saved d with
  | StmtOk, None => (true, set_sq_saved (Some (tables d)) d)
  | _, _ => (false, d)
  end.

(** A failing COMMIT leaves the transaction open. *)
Definition sq_commit : ST Db bool := λ d,
  if negb (s_open d) then (false, d) else
  let '(o, d) := next_outcome d in
  match o, sq_saved d with
  | StmtOk, Some _ => (true, set_sq_saved None d)
  | StmtAborts, _ => (false, sq_abort d)
  | _, _ => (false, d)
  end.

(** ROLLBACK of an open transaction succeeds; without one it is an error. *)
Definition sq_rollback : ST Db bool := λ d,
  match sq_saved d with
  | Some t => (s_open d, sq_abort d)
  | None => (false, d)
  end.

(** ** The relational operations of the statements *)

Definition update_where {A} (p : A → bool) (f : A → A) (l : list A) : list A :=
  map (λ x, if p x then f x else x) l.
Definition where_ {A} (p : A → bool) (l : list A) : list A := filter (λ x, p x = true) l.
Definition delete_where {A} (p : A → bool) (l : list A) : list A := where_ (λ x, negb (p x)) l.
Definition count_where {A} (p : A → bool) (l : list A) : Z := Z.of_nat (length (where_ p l)).

(** A negative LIMIT is no limit. *)
Definition limit {A} (n : Z) (l : list A) : list A := if n <? 0 then l else take (Z.to_nat n) l.
Definition offset {A} (n : Z) (l : list A) : list A := drop (Z.to_nat n) l.

(** ORDER BY numeric keys.  Rows that compare equal keep their rowid order. *)
Fixpoint lex_leb (a b : list Z) : bool :=
  match a, b with
  | x :: a, y :: b => if x =? y then lex_leb a b else x <? y
  | _, _ => true
  end.

Fixpoint insert_by {A} (le : A → A → bool) (x : A) (l : list A) : list A :=
  match l with
  | [] => [x]
  | y :: l => if le x y then x :: y :: l else y :: insert_by le x l
  end.
Definition order_by {A} (le : A → A → bool) (l : list A) : list A := foldr (insert_by le) [] l.
Definition order_by_keys {A} (keys : A → list Z) : list A → list A :=
  order_by (λ x y, lex_leb (keys x) (keys y)).

(** The first [n] rows of a result, as [while (count < n && step == ROW)]
    reads them; no rows if the statement could not be prepared. *)
Definition rows_of {R} (max_count : Z) (r : option (list R * bool)) : list R :=
  match r with Some (rows, _) => take (Z.to_nat max_count) rows | None => [] end.

(** ** Lemmas *)

Lemma insert_by_perm {A} (le : A → A → bool) x l : insert_by le x l ≡ₚ x :: l.
Proof.
  induction l as [|y l IH]; simpl; [done|]. destruct (le x y); [done|]. rewrite IH. apply Permutation_swap.
Qed.

Lemma order_by_perm {A} (le : A → A → bool) l : order_by le l ≡ₚ l.
Proof. induction l as [|x l IH]; simpl; [done|]. by rewrite insert_by_perm, IH. Qed.

Lemma order_by_sorted {A} (le : A → A → bool) l :
  (∀ x y, le x y = false → le y x = true) → Sorted (λ x y, le x y = true) (order_by le l).
Proof.
  intros Htot. induction l as [|x l IH]; simpl; [constructor|].
  induction IH as [|y k Hs IH Hhd]; simpl; [repeat constructor|].
  destruct (le x y) eqn:E; [repeat constructor; done|]. constructor; [done|].
  destruct k as [|z k]; simpl; [constructor; by apply Htot|].
  destruct (le x z); constructor; [by apply Htot|by inversion Hhd].
Qed.

Lemma where_elem {A} (p : A → bool) l x : x ∈ where_ p l ↔ p x = true ∧ x ∈ l.
Proof. unfold where_. by rewrite list_elem_of_filter. Qed.

Lemma where_and {A} (p q : A → bool) l : where_ (λ x, p x && q x) l = where_ q (where_ p l).
Proof.
  unfold where_. induction l as [|x l IH]; [done|]. rewrite !filter_cons.
  destruct (p x) eqn:Ep; simpl; [|done]. rewrite filter_cons. by case_decide; rewrite IH.
Qed.

Lemma order_by_elem {A} (le : A → A → bool) l x : x ∈ order_by le l ↔ x ∈ l.
Proof. by rewrite order_by_perm. Qed.

Lemma update_where_elem {A} (p : A → bool) f (l : list A) y :
  y ∈ update_where p f l ↔ ∃ x, x ∈ l ∧ y = (if p x then f x else x).
Proof. unfold update_where. rewrite list_elem_of_fmap. naive_solver. Qed.

Lemma update_where_none {A} (p : A → bool) f (l : list A) :
  (∀ x, x ∈ l → p x = false) → update_where p f l = l.
Proof.
  intros H. unfold update_where. induction l as [|x l IH]; simpl; [done|].
  rewrite (H x ltac:(set_solver)), IH; [done|set_solver].
Qed.

Lemma update_where_fmap {A B} (g : A → B) (p : A → bool) f (l : list A) :
  (∀ x, g (f x) = g x) → g <$> update_where p f l = g <$> l.
Proof.
  intros H. unfold update_where. induction l as [|x l IH]; csimpl; [done|]. rewrite IH.
  destruct (p x); by rewrite ?H.
Qed.

(** What a statement can do to the connection.  [db_frame t t' d d']: from
    [d] to [d'] only the outcome stream, the change counter and, from [t] to
    [t'], the tables moved; no transaction was opened or closed. *)
Definition same_conn (d d' : Db) : Prop :=
  s_open d' = s_open d ∧ s_transaction_active d' = s_transaction_active d ∧ clock d' = clock d.

#[export] Instance same_conn_preorder : PreOrder same_conn.
Proof. split; [by intros d|]. intros d1 d2 d3 (?&?&?) (?&?&?). split_and!; congruence. Qed.

Lemma next_outcome_frame d o d' :
  next_outcome d = (o, d') → same_conn d d' ∧ tables d' = tables d ∧ sq_saved d' = sq_saved d.
Proof. unfold next_outcome. destruct d as [? ? ? ? ? ? [|]]; intros [= <- <-]; done. Qed.

Lemma sq_abort_conn d : same_conn d (sq_abort d).
Proof. destruct d as [? ? [] ? ? ? ?]; done. Qed.

Lemma dml_spec f d ok d' :
  dml f d = (ok, d') →
  same_conn d d' ∧
  (ok = true ∧ sq_saved d' = sq_saved d ∧ (∃ n, f (clock d) (tables d) = Some (tables d', n) ∧ changes d' = n) ∨
   ok = false ∧ (tables d' = tables d ∧ sq_saved d' = sq_saved d ∨
                 sq_saved d = Some (tables d') ∧ sq_saved d' = None)).
Proof.
  unfold dml. destruct (s_open d) eqn:Ho; simpl; [|intros [= <- <-]; split; [done|auto]].
  destruct (next_outcome d) as [o d1] eqn:E. apply next_outcome_frame in E as (Hc & Ht & Hs).
  assert (clock d1 = clock d) as Hclk by apply Hc.
  destruct o as [| |n|].
  - rewrite Ht, Hclk. destruct (f (clock d) (tables d)) as [[t n]|] eqn:Ef; intros [= <- <-].
    + destruct d1; split; [done|]. left. split; [done|]. split; [done|]. by exists n.
    + split; [done|]. right. split; [done|]. by left.
  - intros [= <- <-]. split; [done|]. right. split; [done|]. by left.
  - intros [= <- <-]. split; [done|]. right. split; [done|]. by left.
  - intros [= <- <-]. split; [transitivity d1; [done|apply sq_abort_conn]|]. right. split; [done|].
    unfold sq_abort. rewrite <- Hs, <- Ht. destruct d1 as [? ? [] ? ? ? ?]; simpl; auto.
Qed.

Lemma query_spec {R} (f : Z → Tables → list R) d r d' :
  query f d = (r, d') →
  same_conn d d' ∧
  (tables d' = tables d ∧ sq_saved d' = sq_saved d ∨ sq_saved d = Some (tables d') ∧ sq_saved d' = None) ∧
  match r with
  | None => True
  | Some (rows, true) => rows = f (clock d) (tables d)
  | Some (rows, false) => ∃ n, rows = take n (f (clock d) (tables d))
  end.
Proof.
  unfold query. destruct (s_open d) eqn:Ho; simpl; [|intros [= <- <-]; split; [done|]; split; [by left|done]].
  destruct (next_outcome d) as [o d1] eqn:E. apply next_outcome_frame in E as (Hc & Ht & Hs).
  assert (clock d1 = clock d) as Hclk by apply Hc.
  destruct o as [| |n|]; intros [= <- <-]; rewrite ?Ht, ?Hclk.
  - split; [done|]. split; [by left|done].
  - split; [done|]. split; [by left|done].
  - split; [done|]. split; [by left|by exists n].
  - split; [transitivity d1; [done|apply sq_abort_conn]|]. split; [|by exists O; rewrite take_0].
    unfold sq_abort. rewrite <- Hs, <- Ht. destruct d1 as [? ? [] ? ? ? ?]; simpl; auto.
Qed.
