(* ===== verification/Db.v ===== *)
(** src/persistence/db.c over the connection of Sql.v: transactions, the job,
    batch, artifact, submission-key and allocation operations, restart
    recovery, retry, dependency checks and the purge of finished jobs. *)
From S2P Require Import Prelude Job Registry Sql.

(** ** Transactions *)

Definition db_close : ST Db unit := λ d, (tt, set_s_open false d).

Definition db_begin : ST Db Z := λ d,
  if negb (s_open d) then (-1, d)
  else if s_transaction_active d then (-1, d)
  else let '(ok, d) := sq_begin d in
       if ok then (0, set_s_transaction_active true d) else (-1, d).

Definition db_commit : ST Db Z := λ d,
  if negb (s_open d) || negb (s_transaction_active d) then (-1, d) else
  let '(ok, d) := sq_commit d in
  let d := if ok then d else (sq_rollback d).2 in
  (rc_of ok, set_s_transaction_active false d).

Definition db_rollback : ST Db Z := λ d,
  if negb (s_open d) || negb (s_transaction_active d) then (-1, d) else
  let '(ok, d) := sq_rollback d in
  (rc_of ok, set_s_transaction_active false d).

(** ** Jobs *)

(** Statements on the jobs table. *)
Definition job_is (job_id : string) (j : Job) : bool := String.eqb (j_id j) job_id.
Definition status_in (l : list JobStatus) (j : Job) : bool := bool_decide (j_status j ∈ l).

Definition update_jobs (p : Job → bool) (f : Job → Job) (t : Tables) : option (Tables * Z) :=
  Some (set_t_jobs (update_where p f (t_jobs t)) t, count_where p (t_jobs t)).

(** The row that the INSERT writes: the columns it does not name are NULL or
    have their default. *)
Definition job_row (j : Job) : Job :=
  with_machine_id "" (with_exit_code 0 (with_started_at 0 (with_ended_at 0 (with_status_reason "" j)))).

Definition db_insert_job (job : Job) : ST Db Z :=
  dml_rc (λ _ t,
    if existsb (job_is (j_id job)) (t_jobs t) then None
    else Some (set_t_jobs (t_jobs t ++ [job_row job]) t, 1)).

Definition db_update_job_status (job_id : string) (status : JobStatus) (exit_code ended_at : Z) : ST Db Z :=
  dml_rc (λ _, update_jobs (job_is job_id)
                 (λ j, with_ended_at ended_at (with_exit_code exit_code (with_status status j)))).

(** [db_retry_job] in its steps: it does not use [db_begin], so it does not
    hold the connection mutex between them. *)
Definition retry_update (job_id : string) : ST Db bool :=
  dml (λ _, update_jobs
         (λ j, job_is job_id j && status_in [JOB_STATUS_FAILED; JOB_STATUS_CANCELLED] j)
         (λ j, with_status_reason "Retry requested" (with_ended_at 0 (with_started_at 0
                 (with_exit_code 0 (with_machine_id "" (with_status JOB_STATUS_QUEUED j))))))).

Definition retry_delete_artifacts (job_id : string) : ST Db bool :=
  dml (λ _ t,
    let p a := String.eqb (a_job_id a) job_id in
    Some (set_t_artifacts (delete_where p (t_artifacts t)) t, count_where p (t_artifacts t))).

Definition retry_rollback : ST Db Z := sq_rollback ;; mret (-1).

(** After BEGIN. *)
Definition retry_body (job_id : string) : ST Db Z :=
  updated ← retry_update job_id;
  if negb updated then retry_rollback else
  n ← st_gets changes;
  if negb (n =? 1) then retry_rollback else
  deleted ← retry_delete_artifacts job_id;
  if negb deleted then retry_rollback else
  committed ← sq_commit;
  if negb committed then retry_rollback else mret 0.

Definition db_retry_job (job_id : string) : ST Db Z :=
  began ← sq_begin;
  if negb began then mret (-1) else retry_body job_id.

Definition db_update_job_started (job_id machine_id : string) (started_at : Z) : ST Db Z :=
  dml_rc (λ _, update_jobs (job_is job_id)
                 (λ j, with_status JOB_STATUS_RUNNING (with_started_at started_at (with_machine_id machine_id j)))).

(** The struct is filled through [strncpy] into its zeroed buffers. *)
Definition row_to_job (r : Job) : Job :=
  mkJob (cbuf JOB_ID_LEN (j_id r)) (cbuf JOB_CMD_LEN (j_command r)) (cbuf JOB_USER_LEN (j_user_id r))
    (cbuf JOB_APP_LEN (j_app_id r)) (j_status r) (j_priority r) (j_req_cores r) (j_req_gpu r)
    (j_req_ram_mb r) (j_req_disk_mb r) (cbuf 64 (j_machine_id r)) (cbuf 512 (j_input_dir r))
    (cbuf 512 (j_output_dir r)) (cbuf 2048 (j_input_files r)) (j_submitted_at r) (j_started_at r)
    (j_ended_at r) (j_exit_code r) (j_timeout_seconds r) (cbuf 256 (j_status_reason r))
    (cbuf 2048 (j_depends_on r)) (cbuf 64 (j_workflow_id r)) (cbuf 64 (j_batch_id r))
    (cbuf JOB_ID_LEN (j_same_machine_as r)).

(** The SELECT of this function has no [batch_id] column. *)
Definition db_load_jobs_by_status (status : JobStatus) : ST Db (Z * list Job) :=
  let p j := status_in [status] j in
  counted ← query (λ _ t, [count_where p (t_jobs t)]);
  match counted with
  | None => mret (-1, [])
  | Some (rows, _) =>
      let expected := default 0 (head rows) in
      if expected <=? 0 then mret (0, []) else
      r ← query (λ _ t, order_by_keys (λ j, [j_priority j; j_submitted_at j]) (where_ p (t_jobs t)));
      match r with
      | None => mret (-1, [])
      | Some _ =>
          let jobs := map (λ j, with_batch_id "" (row_to_job j)) (rows_of expected r) in
          mret (Z.of_nat (length jobs), jobs)
      end
  end.

Definition interrupted : Job → bool := status_in [JOB_STATUS_STARTING_legacy; JOB_STATUS_RUNNING].

Definition fail_interrupted (reason : string) (now : Z) (t : Tables) : option (Tables * Z) :=
  update_jobs interrupted
    (λ j, with_status_reason reason (with_ended_at now (with_exit_code (-1) (with_status JOB_STATUS_FAILED j)))) t.

Definition is_none {A} (o : option A) : bool := match o with None => true | _ => false end.

Definition release_open_allocations (now : Z) (t : Tables) : option (Tables * Z) :=
  let p a := is_none (al_released_at a) in
  Some (set_t_allocations
          (update_where p (λ a, mkAllocation (al_job_id a) (al_machine_id a) (al_res a) (al_allocated_at a) (Some now))
             (t_allocations t)) t, count_where p (t_allocations t)).

Definition db_recover_after_restart : ST Db Z :=
  began ← db_begin;
  if negb (began =? 0) then mret (-1) else
  ok ← dml (fail_interrupted "Interrupted by orchestrator restart");
  if negb ok then db_rollback ;; mret (-1) else
  n ← st_gets changes;
  ok ← dml release_open_allocations;
  if negb ok then db_rollback ;; mret (-1) else
  committed ← db_commit;
  if negb (committed =? 0) then mret (-1) else mret n.

Definition db_get_job (job_id : string) : ST Db (option Job) :=
  r ← query (λ _ t, where_ (job_is job_id) (t_jobs t));
  mret (row_to_job <$> head (rows_of 1 r)).

Definition db_list_jobs (max_count : Z) : ST Db (list Job) :=
  r ← query (λ _ t, limit max_count (order_by_keys (λ j, [- j_submitted_at j]) (t_jobs t)));
  mret (map row_to_job (rows_of max_count r)).

(** The result code and the jobs.  Unlike the other listings it reports a
    failing step. *)
Definition db_query_jobs (user_id : string) (status : Z) (app_id : string) (lim off : Z) : ST Db (Z * list Job) :=
  if (lim <? 1) || (off <? 0) then mret (-1, []) else
  let p j := (String.eqb user_id "" || String.eqb (j_user_id j) user_id)
             && ((status <? 0) || (status_code (j_status j) =? status))
             && (String.eqb app_id "" || String.eqb (j_app_id j) app_id) in
  r ← query (λ _ t, limit lim (offset off (order_by_keys (λ j, [- j_submitted_at j]) (where_ p (t_jobs t)))));
  match r with
  | None => mret (-1, [])
  | Some (rows, ended) =>
      let jobs := map row_to_job (rows_of lim r) in
      let count := Z.of_nat (length jobs) in
      if negb ended && (count <? lim) then mret (-1, []) else mret (count, jobs)
  end.

(** The result and [out_job_id]. *)
Definition db_get_submission_job (user_id idempotency_key : string) (out_len : nat) : ST Db (Z * string) :=
  if (out_len <? 1)%nat then mret (-1, "") else
  r ← query (λ _ t,
        s ← where_ (λ s, String.eqb (sk_user_id s) user_id && String.eqb (sk_key s) idempotency_key)
              (t_submission_keys t);
        j ← where_ (job_is (sk_job_id s)) (t_jobs t);
        [sk_job_id s]);
  match r with
  | None => mret (-1, "")
  | Some (job_id :: _, _) => mret (1, cbuf out_len job_id)
  | Some ([], true) => mret (0, "")
  | Some ([], false) => mret (-1, "")
  end.

Definition db_store_submission_key (user_id idempotency_key job_id : string) : ST Db Z :=
  dml_rc (λ now t,
    let same s := String.eqb (sk_user_id s) user_id && String.eqb (sk_key s) idempotency_key in
    Some (set_t_submission_keys
            (delete_where same (t_submission_keys t) ++ [mkSubmissionKey user_id idempotency_key job_id now]) t, 1)).

Definition db_list_held_jobs (max_count : Z) : ST Db (list Job) :=
  r ← query (λ _ t, limit max_count
        (order_by_keys (λ j, [j_submitted_at j]) (where_ (status_in [JOB_STATUS_CREATED]) (t_jobs t))));
  mret (map row_to_job (rows_of max_count r)).

Definition db_list_running_jobs (max_count : Z) : ST Db (list Job) :=
  r ← query (λ _ t, limit max_count
        (order_by_keys (λ j, [j_started_at j]) (where_ interrupted (t_jobs t))));
  mret (map row_to_job (rows_of max_count r)).

(** Ordered by priority, submission time and id. *)
Definition queued_leb (a b : Job) : bool :=
  lex_leb [j_priority a; j_submitted_at a] [j_priority b; j_submitted_at b]
  && negb (bool_decide ([j_priority a; j_submitted_at a] = [j_priority b; j_submitted_at b])
           && strcmp_lt (j_id b) (j_id a)).

Definition db_list_queued_jobs (max_count off : Z) : ST Db (list Job) :=
  r ← query (λ _ t, limit max_count (offset off
        (order_by queued_leb (where_ (status_in [JOB_STATUS_QUEUED]) (t_jobs t)))));
  mret (map row_to_job (rows_of max_count r)).

Definition db_recover_incomplete_jobs : ST Db Z :=
  began ← sq_begin;
  if negb began then mret (-1) else
  ok ← dml (fail_interrupted "Scheduler restarted while job was active");
  if negb ok then sq_rollback ;; mret (-1) else
  recovered ← st_gets changes;
  ok ← dml release_open_allocations;
  if negb ok then sq_rollback ;; mret (-1) else
  committed ← sq_commit;
  if negb committed then sq_rollback ;; mret (-1) else mret recovered.

(** ** Batches *)

Definition db_update_job_batch_id (job_id batch_id : string) : ST Db Z :=
  dml_rc (λ _, update_jobs (job_is job_id) (with_batch_id batch_id)).

Definition db_insert_batch (batch : BatchRecord) : ST Db Z :=
  dml_rc (λ _ t,
    if existsb (λ b, String.eqb (b_id b) (b_id batch)) (t_batches t) then None
    else Some (set_t_batches (t_batches t ++ [batch]) t, 1)).

Definition db_get_batch (batch_id : string) : ST Db (option BatchRecord) :=
  r ← query (λ _ t, where_ (λ b, String.eqb (b_id b) batch_id) (t_batches t));
  mret ((λ b, mkBatch (cbuf 64 (b_id b)) (cbuf 256 (b_name b)) (cbuf 128 (b_user_id b)) (b_created_at b))
        <$> head (rows_of 1 r)).

(** The counters of [BatchStats] and [JobStats]. *)
Record JobStats := mkJobStats {
  js_total : Z; js_created : Z; js_queued : Z; js_running : Z;
  js_succeeded : Z; js_failed : Z; js_cancelled : Z
}.

Definition all_statuses : list JobStatus :=
  [JOB_STATUS_QUEUED; JOB_STATUS_STARTING_legacy; JOB_STATUS_RUNNING; JOB_STATUS_SUCCEEDED;
   JOB_STATUS_CANCELLED; JOB_STATUS_FAILED; JOB_STATUS_CREATED].

(** [SELECT status, COUNT... FROM jobs WHERE p GROUP BY status] *)
Definition count_by_status (p : Job → bool) (t : Tables) : list (JobStatus * Z) :=
  filter (λ r, 0 < snd r)
    (map (λ s, (s, count_where (λ j, p j && status_in [s] j) (t_jobs t))) all_statuses).

(** [legacy_runs]: whether the legacy status counts as running. *)
Definition add_status (legacy_runs : bool) (o : JobStats) (row : JobStatus * Z) : JobStats :=
  let '(s, n) := row in
  let '(mkJobStats tot c q r ok f x) := o in
  match s with
  | JOB_STATUS_CREATED => mkJobStats (tot + n) (c + n) q r ok f x
  | JOB_STATUS_QUEUED => mkJobStats (tot + n) c (q + n) r ok f x
  | JOB_STATUS_RUNNING => mkJobStats (tot + n) c q (r + n) ok f x
  | JOB_STATUS_SUCCEEDED => mkJobStats (tot + n) c q r (ok + n) f x
  | JOB_STATUS_FAILED => mkJobStats (tot + n) c q r ok (f + n) x
  | JOB_STATUS_CANCELLED => mkJobStats (tot + n) c q r ok f (x + n)
  | JOB_STATUS_STARTING_legacy => mkJobStats (tot + n) c q (if legacy_runs then r + n else r) ok f x
  end.

Definition no_stats : JobStats := mkJobStats 0 0 0 0 0 0 0.

Definition db_get_batch_stats (batch_id : string) : ST Db (Z * JobStats) :=
  r ← query (λ _, count_by_status (λ j, String.eqb (j_batch_id j) batch_id));
  match r with
  | None => mret (-1, no_stats)
  | Some (rows, _) => mret (0, foldl (add_status false) no_stats rows)
  end.

Definition db_job_stats : ST Db (Z * JobStats) :=
  r ← query (λ _, count_by_status (λ _, true));
  match r with
  | None => mret (-1, no_stats)
  | Some (rows, _) => mret (0, foldl (add_status true) no_stats rows)
  end.

(** ** Artifacts *)

Definition artifact_key (job_id type uri : string) (a : ArtifactRecord) : bool :=
  String.eqb (a_job_id a) job_id && String.eqb (a_type a) type && String.eqb (a_uri a) uri.

(** The result code and the completed record. *)
Definition db_upsert_artifact (a : ArtifactRecord) : ST Db (Z * ArtifactRecord) :=
  let same := artifact_key (a_job_id a) (a_type a) (a_uri a) in
  ok ← dml (λ _ t,
    if existsb same (t_artifacts t) then
      Some (set_t_artifacts (update_where same
              (λ o, mkArtifact (a_id o) (a_job_id o) (a_type o) (a_uri o) (a_size_bytes a) (a_checksum a)
                      (a_created_at o)) (t_artifacts t)) t, 1)
    else
      let id := t_artifact_seq t + 1 in
      Some (set_t_artifact_seq id
              (set_t_artifacts (t_artifacts t ++
                 [mkArtifact id (a_job_id a) (a_type a) (a_uri a) (a_size_bytes a) (a_checksum a) (a_created_at a)]) t), 1));
  if negb ok then mret (-1, a) else
  r ← query (λ _ t, where_ same (t_artifacts t));
  match head (rows_of 1 r) with
  | None => mret (-1, a)
  | Some row =>
      mret (0, mkArtifact (a_id row) (a_job_id a) (a_type a) (a_uri a) (a_size_bytes a) (a_checksum a) (a_created_at row))
  end.

Definition db_list_artifacts (job_id : string) (max_count : Z) : ST Db (option (list ArtifactRecord)) :=
  if max_count <=? 0 then mret None else
  r ← query (λ _ t, order_by_keys (λ a, [a_id a]) (where_ (λ a, String.eqb (a_job_id a) job_id) (t_artifacts t)));
  match r with
  | None => mret None
  | Some _ =>
      mret (Some (map (λ a, mkArtifact (a_id a) (cbuf 37 (a_job_id a)) (cbuf 32 (a_type a)) (cbuf 1024 (a_uri a))
                              (a_size_bytes a) (cbuf 65 (a_checksum a)) (a_created_at a))
                    (rows_of max_count r)))
  end.

(** ** Allocations *)

Definition db_insert_allocation (job_id machine_id : string) (req : Res) : ST Db Z :=
  dml_rc (λ now t,
    let same a := String.eqb (al_job_id a) job_id && String.eqb (al_machine_id a) machine_id in
    Some (set_t_allocations
            (delete_where same (t_allocations t) ++ [mkAllocation job_id machine_id req now None]) t, 1)).

Definition db_release_allocation (job_id : string) : ST Db Z :=
  dml_rc (λ now t,
    let p a := String.eqb (al_job_id a) job_id in
    Some (set_t_allocations
            (update_where p (λ a, mkAllocation (al_job_id a) (al_machine_id a) (al_res a) (al_allocated_at a) (Some now))
               (t_allocations t)) t, count_where p (t_allocations t))).

(** ** Single-column updates *)

Definition db_update_input_files (job_id input_files : string) : ST Db Z :=
  dml_rc (λ _, update_jobs (job_is job_id) (with_input_files input_files)).
Definition db_update_job_timeout (job_id : string) (timeout_seconds : Z) : ST Db Z :=
  dml_rc (λ _, update_jobs (job_is job_id) (with_timeout_seconds timeout_seconds)).
Definition db_update_depends_on (job_id depends_on : string) : ST Db Z :=
  dml_rc (λ _, update_jobs (job_is job_id) (with_depends_on depends_on)).
Definition db_update_workflow_id (job_id workflow_id : string) : ST Db Z :=
  dml_rc (λ _, update_jobs (job_is job_id) (with_workflow_id workflow_id)).
Definition db_update_same_machine_as (job_id ref_id : string) : ST Db Z :=
  dml_rc (λ _, update_jobs (job_is job_id) (with_same_machine_as ref_id)).
Definition db_update_status_reason (job_id reason : string) : ST Db Z :=
  dml_rc (λ _, update_jobs (job_is job_id) (with_status_reason reason)).

Definition db_update_job_submission (job : Job) : ST Db Z :=
  ok ← dml (λ _, update_jobs (job_is (j_id job))
         (λ r, with_status (j_status job) (with_input_dir (j_input_dir job) (with_output_dir (j_output_dir job)
                (with_input_files (j_input_files job) (with_timeout_seconds (j_timeout_seconds job)
                (with_status_reason (j_status_reason job) (with_depends_on (j_depends_on job)
                (with_workflow_id (j_workflow_id job) (with_same_machine_as (j_same_machine_as job) r))))))))));
  n ← st_gets changes;
  mret (rc_of (ok && (n =? 1))).

(** ** Dependencies *)

(** 0: every dependency SUCCEEDED; 1: still waiting; -1: one is missing,
    FAILED or CANCELLED. *)
Fixpoint check_deps (tokens : list string) : ST Db Z :=
  match tokens with
  | [] => mret 0
  | tok :: tokens =>
      if negb (str_nonempty tok) then check_deps tokens else
      r ← query (λ _ t, map j_status (where_ (job_is tok) (t_jobs t)));
      match r with
      | None => mret 1
      | Some ([], _) => mret (-1)
      | Some (status :: _, _) =>
          if status_is status JOB_STATUS_FAILED || status_is status JOB_STATUS_CANCELLED then mret (-1)
          else if negb (status_is status JOB_STATUS_SUCCEEDED) then mret 1
          else check_deps tokens
      end
  end.

Definition db_check_deps_status (depends_on_csv : string) : ST Db Z :=
  check_deps (csv_tokens (cbuf 2048 depends_on_csv)).

(** ** Audit and purge *)

Definition db_audit (event detail : string) : ST Db Z :=
  dml_rc (λ now t, Some (set_t_audit_log (t_audit_log t ++ [(event, detail, now)]) t, 1)).

Definition finished : Job → bool :=
  status_in [JOB_STATUS_SUCCEEDED; JOB_STATUS_CANCELLED; JOB_STATUS_FAILED].

Definition db_purge_jobs : ST Db Z :=
  began ← db_begin;
  if negb (began =? 0) then mret (-1) else
  ok ← dml (λ _ t,
    let p s := existsb (λ j, finished j && job_is (sk_job_id s) j) (t_jobs t) in
    Some (set_t_submission_keys (delete_where p (t_submission_keys t)) t, count_where p (t_submission_keys t)));
  if negb ok then db_rollback ;; mret (-1) else
  ok ← dml (λ _ t, Some (set_t_jobs (delete_where finished (t_jobs t)) t, count_where finished (t_jobs t)));
  deleted ← st_gets (λ d, if negb ok then -1 else changes d);
  if deleted <? 0 then db_rollback ;; mret (-1) else
  committed ← db_commit;
  if negb (committed =? 0) then db_rollback ;; mret (-1) else mret deleted.

(** ** Transactions are atomic *)

(** No transaction is open. *)
Definition idle (d : Db) : Prop := s_transaction_active d = false ∧ sq_saved d = None.

(** Inside [db_begin] ... : [t0] is what a rollback restores. *)
Definition in_txn (t0 : Tables) (d : Db) : Prop :=
  s_open d = true ∧ s_transaction_active d = true ∧ sq_saved d = Some t0.

(** After a statement failed inside it, SQLite may have rolled back already. *)
Definition in_failed_txn (t0 : Tables) (d : Db) : Prop :=
  s_open d = true ∧ s_transaction_active d = true ∧
  (sq_saved d = Some t0 ∨ sq_saved d = None ∧ tables d = t0).

(** The relation between the states around a whole function that leaves no
    transaction behind. *)
Definition idle_step (d d' : Db) : Prop := idle d' ∧ s_open d' = s_open d ∧ clock d' = clock d.

Lemma dml_idle f d ok d' :
  idle d → dml f d = (ok, d') →
  idle_step d d' ∧
  (ok = true ∧ (∃ n, f (clock d) (tables d) = Some (tables d', n) ∧ changes d' = n) ∨
   ok = false ∧ tables d' = tables d).
Proof.
  intros [Ha Hs] ((Ho & Hta & Hc) & H)%dml_spec. unfold idle_step, idle.
  rewrite Ho, Hc, Hta. destruct H as [(-> & -> & H)|(-> & [[-> ->]|[E ->]])]; [| |congruence]; auto 10.
Qed.

Lemma dml_rc_idle f d rc d' :
  idle d → dml_rc f d = (rc, d') →
  idle_step d d' ∧
  (rc = 0 ∧ (∃ n, f (clock d) (tables d) = Some (tables d', n)) ∨ rc = -1 ∧ tables d' = tables d).
Proof.
  intros Hi. unfold dml_rc. st_unfold. destruct (dml f d) as [ok d1] eqn:E. intros [= <- <-].
  apply dml_idle in E as [Hst [[-> (n & H & _)]|[-> H]]]; eauto 10.
Qed.

Lemma query_idle {R} (f : Z → Tables → list R) d r d' :
  idle d → query f d = (r, d') →
  idle_step d d' ∧ tables d' = tables d ∧
  match r with
  | None => True
  | Some (rows, true) => rows = f (clock d) (tables d)
  | Some (rows, false) => ∃ n, rows = take n (f (clock d) (tables d))
  end.
Proof.
  intros [Ha Hs] ((Ho & Hta & Hc) & [[Ht Hs']|[E _]] & H)%query_spec; [|congruence].
  unfold idle_step, idle. rewrite Ho, Hta, Hc, Hs'. auto.
Qed.

Lemma dml_in_txn t0 f d ok d' :
  in_txn t0 d → dml f d = (ok, d') →
  clock d' = clock d ∧
  (ok = true ∧ in_txn t0 d' ∧ (∃ n, f (clock d) (tables d) = Some (tables d', n) ∧ changes d' = n) ∨
   ok = false ∧ in_failed_txn t0 d').
Proof.
  intros (Hop & Ha & Hs) ((Ho & Hta & Hc) & H)%dml_spec. split; [done|]. unfold in_txn, in_failed_txn.
  rewrite Ho, Hta. destruct H as [(-> & -> & H)|(-> & [[-> ->]|[E ->]])].
  - left. auto 10.
  - right. auto 10.
  - right. split_and!; auto. right. by simplify_eq.
Qed.

Lemma db_begin_spec d rc d' :
  idle d → db_begin d = (rc, d') →
  clock d' = clock d ∧ tables d' = tables d ∧ s_open d' = s_open d ∧
  (rc = 0 ∧ in_txn (tables d) d' ∨ rc = -1 ∧ idle d').
Proof.
  intros [Ha Hs]. unfold db_begin, sq_begin. rewrite Ha.
  destruct (s_open d) eqn:Ho; simpl; [|intros [= <- <-]; split_and!; auto; right; by split].
  destruct (next_outcome d) as [o d1] eqn:E. apply next_outcome_frame in E as ((Ho1 & Ha1 & Hc1) & Ht & Hs1).
  unfold in_txn, idle. destruct d1 as [? ? sv ? ? ? ?]; simpl in *. subst.
  rewrite Hs. destruct o; intros [= <- <-]; simpl; auto 10.
Qed.

Lemma db_rollback_restores t0 d :
  in_failed_txn t0 d → let d' := (db_rollback d).2 in
  idle d' ∧ tables d' = t0 ∧ s_open d' = s_open d ∧ clock d' = clock d.
Proof.
  intros (Ho & Ha & Hs). unfold db_rollback, sq_rollback, sq_abort, idle. rewrite Ho, Ha; simpl.
  destruct d as [? ? sv ? ? ? ?]; simpl in *. destruct Hs as [->|[-> <-]]; simpl; auto.
Qed.

Lemma db_commit_spec t0 d rc d' :
  in_txn t0 d → db_commit d = (rc, d') →
  idle d' ∧ clock d' = clock d ∧ s_open d' = s_open d ∧
  (rc = 0 ∧ tables d' = tables d ∨ rc = -1 ∧ tables d' = t0).
Proof.
  intros (Ho & Ha & Hs). unfold db_commit, sq_commit. rewrite Ho, Ha; simpl.
  destruct (next_outcome d) as [o d1] eqn:E. apply next_outcome_frame in E as ((Ho1 & Ha1 & Hc1) & Ht & Hs1).
  unfold sq_rollback, sq_abort, idle. destruct d1 as [? ? sv ? ? ? ?]; simpl in *. subst.
  rewrite Hs. destruct o; intros [= <- <-]; simpl; auto 10.
Qed.

Lemma in_txn_failed t0 d : in_txn t0 d → in_failed_txn t0 d.
Proof. intros (? & ? & ?). split_and!; auto. Qed.

(** Undo after a failure: what remains is [-1] and the old tables. *)
Lemma rollback_fails {A} t0 (x : A) d :
  in_failed_txn t0 d →
  ∃ d', (db_rollback ;; mret x) d = (x, d') ∧ idle d' ∧ tables d' = t0 ∧ s_open d' = s_open d ∧ clock d' = clock d.
Proof.
  intros H%db_rollback_restores. st_unfold. destruct (db_rollback d) as [rc d'] eqn:E; simpl in *.
  exists d'. tauto.
Qed.
#[export] Hint Resolve in_txn_failed : clib.

(** ** Restart recovery *)

(** The rows and allocations after a crash has been accounted for. *)
Definition recovered (reason : string) (now : Z) (t : Tables) : Tables :=
  default t (fst <$> (fail_interrupted reason now t ≫= λ '(t, _), release_open_allocations now t)).

Lemma db_recover_after_restart_spec d rc d' :
  idle d → db_recover_after_restart d = (rc, d') →
  idle d' ∧ s_open d' = s_open d ∧
  (rc = count_where interrupted (t_jobs (tables d)) ∧
   tables d' = recovered "Interrupted by orchestrator restart" (clock d) (tables d) ∨
   rc = -1 ∧ tables d' = tables d).
Proof.
  intros Hi. unfold db_recover_after_restart. rewrite bind_step.
  destruct (db_begin d) as [rc1 d1] eqn:E1; simpl. apply db_begin_spec in E1 as (Hc1 & Ht1 & Ho1 & E1); [|done].
  destruct E1 as [[-> Htx]|[-> Hi1]]; simpl; [|intros [= <- <-]; auto].
  rewrite bind_step. destruct (dml _ d1) as [ok d2] eqn:E2; simpl.
  apply (dml_in_txn (tables d)) in E2 as [Hc2 E2]; [|done].
  destruct E2 as [(-> & Htx2 & n & Hf & Hn)|[-> Hfail]]; simpl.
  2:{ destruct (rollback_fails (tables d) (-1) d2 Hfail) as (d3 & -> & ? & ? & ? & ?). intros [= <- <-].
      destruct Hfail as (? & _). destruct Htx as (? & _). split_and!; [done|congruence|auto]. }
  rewrite bind_step. simpl. rewrite bind_step. destruct (dml _ d2) as [ok d3] eqn:E3; simpl.
  apply (dml_in_txn (tables d)) in E3 as [Hc3 E3]; [|done].
  destruct E3 as [(-> & Htx3 & m & Hg & Hm)|[-> Hfail]]; simpl.
  2:{ destruct (rollback_fails (tables d) (-1) d3 Hfail) as (d4 & -> & ? & ? & ? & ?). intros [= <- <-].
      destruct Hfail as (? & _). destruct Htx as (? & _). split_and!; [done|congruence|auto]. }
  rewrite bind_step. destruct (db_commit d3) as [rc4 d4] eqn:E4; simpl.
  apply (db_commit_spec (tables d)) in E4 as (Hi4 & Hc4 & Ho4 & E4); [|done].
  destruct Htx as (? & _), Htx3 as (? & _).
  destruct E4 as [[-> Ht4]|[-> Ht4]]; simpl; intros [= <- <-]; (split_and!; [done|congruence|]); [left|by right].
  rewrite Ht1, Hc1 in Hf. rewrite Hc2, Hc1 in Hg. unfold recovered, mbind, option_bind.
  rewrite Hf. cbv beta iota. rewrite Hg. split; [|done]. unfold fail_interrupted, update_jobs in Hf. simplify_eq. done.
Qed.
