(* ===== verification/DbAdmin.v ===== *)
(** The rest of src/persistence/db.c: API keys, users, quotas and the quota
    check of the scheduler, workflows and favourites, persistent events. *)
From S2P Require Import Prelude Job Registry Sql Db.

(** ** API keys *)

Definition key_is (key_hash : string) (k : ApiKeyInfo) : bool := String.eqb (k_key_hash k) key_hash.

(** [role] and [user_id]: [None] is a NULL argument. *)
Definition role_or_user (role : option string) : string :=
  match role with Some r => if str_nonempty r then r else "user" | None => "user" end.

Definition db_insert_api_key_full (key_hash label : string) (role user_id : option string) (expires_at : Z) : ST Db Z :=
  dml_rc (λ now t,
    if existsb (key_is key_hash) (t_api_keys t) then None
    else Some (set_t_api_keys (t_api_keys t ++
                 [mkApiKey key_hash label (role_or_user role) (default "" user_id) now expires_at 0]) t, 1)).

Definition db_insert_api_key_ex (key_hash label : string) (role : option string) (expires_at : Z) : ST Db Z :=
  db_insert_api_key_full key_hash label role (Some "") expires_at.

Definition db_insert_api_key (key_hash label : string) : ST Db Z :=
  db_insert_api_key_ex key_hash label (Some "admin") 0.

(** [Some (role, user_id)]: 1 with the outputs; [None]: 0.  [uid_len] is the
    size of the caller's buffer. *)
Definition db_resolve_api_key_full (key_hash : string) (uid_len : nat) : ST Db (option (string * string)) :=
  r ← query (λ _ t, limit 1 (where_ (λ k, key_is key_hash k && (k_revoked k =? 0)) (t_api_keys t)));
  now ← st_gets clock;
  mret (match head (rows_of 1 r) with
        | Some k =>
            if (0 <? k_expires_at k) && (k_expires_at k <? now) then None
            else Some (cbuf 16 (k_role k), cbuf uid_len (k_user_id k))
        | None => None
        end).

Definition db_resolve_api_key_role (key_hash : string) : ST Db (option string) :=
  r ← db_resolve_api_key_full key_hash 128; mret (fst <$> r).

Definition db_validate_api_key (key_hash : string) : ST Db bool :=
  r ← db_resolve_api_key_role key_hash; mret (negb (is_none r)).

Definition db_list_api_keys (max_count : Z) : ST Db (list ApiKeyInfo) :=
  r ← query (λ _ t, limit max_count (order_by_keys (λ k, [- k_created_at k]) (t_api_keys t)));
  mret (map (λ k, mkApiKey (cbuf 65 (k_key_hash k)) (cbuf 128 (k_label k)) (cbuf 16 (k_role k))
                    (cbuf 128 (k_user_id k)) (k_created_at k) (k_expires_at k) (k_revoked k))
          (rows_of max_count r)).

Definition db_revoke_api_key (key_hash : string) : ST Db Z :=
  dml_rc (λ _ t,
    Some (set_t_api_keys (update_where (key_is key_hash)
            (λ k, mkApiKey (k_key_hash k) (k_label k) (k_role k) (k_user_id k) (k_created_at k) (k_expires_at k) 1)
            (t_api_keys t)) t, count_where (key_is key_hash) (t_api_keys t))).

(** ** Users *)

Definition user_is (user_id : string) (u : User) : bool := String.eqb (u_user_id u) user_id.

Definition db_create_user (u : User) : ST Db Z :=
  dml_rc (λ now t,
    if existsb (user_is (u_user_id u)) (t_users t) then None
    else Some (set_t_users (t_users t ++
           [mkUser (u_user_id u) (u_display_name u) (u_email u) "" (u_enabled u) now]) t, 1)).

(** An UPDATE or DELETE that must have changed a row. *)
Definition dml_changed (f : Z → Tables → option (Tables * Z)) : ST Db Z :=
  ok ← dml f;
  n ← st_gets changes;
  mret (if negb ok then -1 else if 0 <? n then 0 else -1).

Definition update_users (p : User → bool) (f : User → User) (t : Tables) : option (Tables * Z) :=
  Some (set_t_users (update_where p f (t_users t)) t, count_where p (t_users t)).

Definition db_set_user_password (user_id password_hash : string) : ST Db Z :=
  dml_changed (λ _, update_users (user_is user_id)
    (λ u, mkUser (u_user_id u) (u_display_name u) (u_email u) password_hash (u_enabled u) (u_created_at u))).

Definition db_check_user_password (user_id password_hash : string) : ST Db Z :=
  r ← query (λ _ t, where_ (λ u, user_is user_id u && String.eqb (u_password_hash u) password_hash) (t_users t));
  mret (match head (rows_of 1 r) with
        | Some u => if u_enabled u =? 0 then -2 else 0
        | None => -1
        end).

(** The stored hash and the enabled flag. *)
Definition db_get_user_auth (user_id : string) (hash_len : nat) : ST Db (option (string * Z)) :=
  r ← query (λ _ t, where_ (user_is user_id) (t_users t));
  mret ((λ u, (cbuf hash_len (u_password_hash u), u_enabled u)) <$> head (rows_of 1 r)).

Definition db_find_user_key (user_id : string) (hash_len : nat) : ST Db (option string) :=
  r ← query (λ now t, limit 1 (where_ (λ k,
        String.eqb (k_user_id k) user_id && (k_revoked k =? 0)
        && ((k_expires_at k =? 0) || (now <? k_expires_at k))) (t_api_keys t)));
  mret ((λ k, cbuf hash_len (k_key_hash k)) <$> head (rows_of 1 r)).

Definition db_update_user (u : User) : ST Db Z :=
  dml_changed (λ _, update_users (user_is (u_user_id u))
    (λ o, mkUser (u_user_id o) (u_display_name u) (u_email u) (u_password_hash o) (u_enabled u) (u_created_at o))).

Definition db_delete_user (user_id : string) : ST Db Z :=
  dml_changed (λ _ t, Some (set_t_users (delete_where (user_is user_id) (t_users t)) t,
                            count_where (user_is user_id) (t_users t))).

(** The password hash is not part of a [UserRecord]. *)
Definition user_record (u : User) : User :=
  mkUser (cbuf 128 (u_user_id u)) (cbuf 256 (u_display_name u)) (cbuf 256 (u_email u)) "" (u_enabled u) (u_created_at u).

Definition db_get_user (user_id : string) : ST Db (option User) :=
  r ← query (λ _ t, where_ (user_is user_id) (t_users t)); mret (user_record <$> head (rows_of 1 r)).

Definition user_leb (a b : User) : bool := negb (strcmp_lt (u_user_id b) (u_user_id a)).

Definition db_list_user_records (max_count : Z) : ST Db (list User) :=
  r ← query (λ _ t, limit max_count (order_by user_leb (t_users t)));
  mret (map user_record (rows_of max_count r)).

(** ** Quotas *)

Definition quota_is (user_id app_id : string) (q : Quota) : bool :=
  String.eqb (qt_user_id q) user_id && String.eqb (qt_app_id q) app_id.

Definition db_insert_quota (q : Quota) : ST Db Z :=
  dml_rc (λ _ t,
    if existsb (quota_is (qt_user_id q) (qt_app_id q)) (t_quotas t) then None
    else Some (set_t_quotas (t_quotas t ++ [q]) t, 1)).

Definition db_update_quota (q : Quota) : ST Db Z :=
  let p := quota_is (qt_user_id q) (qt_app_id q) in
  dml_changed (λ _ t, Some (set_t_quotas (update_where p
      (λ o, mkQuota (qt_user_id o) (qt_app_id o) (qt_max_jobs q) (qt_max_ram_mb q) (qt_max_cores q) (qt_max_concurrent q))
      (t_quotas t)) t, count_where p (t_quotas t))).

Definition db_delete_quota (user_id app_id : string) : ST Db Z :=
  let p := quota_is user_id app_id in
  dml_changed (λ _ t, Some (set_t_quotas (delete_where p (t_quotas t)) t, count_where p (t_quotas t))).

Definition quota_of_row (q : Quota) : Quota :=
  mkQuota (cbuf 128 (qt_user_id q)) (cbuf 128 (qt_app_id q)) (qt_max_jobs q) (qt_max_ram_mb q)
    (qt_max_cores q) (qt_max_concurrent q).

Definition db_get_quota (user_id app_id : string) : ST Db (option Quota) :=
  r ← query (λ _ t, where_ (quota_is user_id app_id) (t_quotas t));
  mret (quota_of_row <$> head (rows_of 1 r)).

Definition quota_leb (a b : Quota) : bool :=
  if String.eqb (qt_user_id a) (qt_user_id b) then negb (strcmp_lt (qt_app_id b) (qt_app_id a))
  else strcmp_lt (qt_user_id a) (qt_user_id b).

Definition db_list_quotas (max_count : Z) : ST Db (list Quota) :=
  r ← query (λ _ t, limit max_count (order_by quota_leb (t_quotas t)));
  mret (map quota_of_row (rows_of max_count r)).

(** The first lookup of the list that finds a quota. *)
Fixpoint first_quota (lookups : list (string * string)) : ST Db (option Quota) :=
  match lookups with
  | [] => mret None
  | (user_id, app_id) :: lookups =>
      q ← db_get_quota user_id app_id;
      match q with Some q => mret (Some q) | None => first_quota lookups end
  end.

Definition quota_lookups (user_id app_id : string) : list (string * string) :=
  (if str_nonempty user_id && str_nonempty app_id then [(user_id, app_id)] else [])
  ++ (if str_nonempty user_id then [(user_id, "")] else [])
  ++ (if str_nonempty app_id then [("", app_id)] else [])
  ++ [("", "")].

Definition resolve_quota (user_id app_id : string) : ST Db (option Quota) :=
  first_quota (quota_lookups user_id app_id).

(** The low 32 bits as an [int]: [sqlite3_column_int]. *)
Definition column_int (z : Z) : Z := (z + 2147483648) mod 4294967296 - 2147483648.

(** The active jobs that the check counts for a user and an application; an
    empty name matches every job. *)
Definition quota_scope (user_id app_id : string) (j : Job) : bool :=
  interrupted j
  && (String.eqb user_id "" || String.eqb (j_user_id j) user_id)
  && (String.eqb app_id "" || String.eqb (j_app_id j) app_id).

Definition quota_usage (user_id app_id : string) (t : Tables) : Z * Z * Z :=
  let l := where_ (quota_scope user_id app_id) (t_jobs t) in
  (Z.of_nat (length l), sumZ (map j_req_cores l), sumZ (map j_req_ram_mb l)).

Definition quota_who (uid aid : string) : string :=
  " — waiting in queue (user=" +:+ uid +:+ ", app=" +:+ aid +:+ ")".

(** The result, and the reason written when it is -1. *)
Definition quota_verdict (q : Quota) (uid aid : string) (usage : Z * Z * Z) (req_cores req_ram_mb : Z)
    (reason_len : nat) : Z * string :=
  let '(running_jobs, used_cores, used_ram) := usage in
  if (0 <? qt_max_jobs q) && (qt_max_jobs q <? running_jobs + 1) then
    (-1, cbuf reason_len ("Quota: max_jobs=" +:+ dec (qt_max_jobs q) +:+ ", running=" +:+ dec running_jobs
                          +:+ quota_who uid aid))
  else if (0 <? qt_max_concurrent q) && (qt_max_concurrent q <? running_jobs + 1) then
    (-1, cbuf reason_len ("Quota: max_concurrent=" +:+ dec (qt_max_concurrent q) +:+ ", running=" +:+ dec running_jobs
                          +:+ quota_who uid aid))
  else if (0 <? qt_max_cores q) && (qt_max_cores q <? used_cores + req_cores) then
    (-1, cbuf reason_len ("Quota: max_cores=" +:+ dec (qt_max_cores q) +:+ ", used=" +:+ dec used_cores
                          +:+ ", requested=" +:+ dec req_cores +:+ quota_who uid aid))
  else if (0 <? qt_max_ram_mb q) && (qt_max_ram_mb q <? used_ram + req_ram_mb) then
    (-1, cbuf reason_len ("Quota: max_ram_mb=" +:+ dec (qt_max_ram_mb q) +:+ ", used=" +:+ dec used_ram
                          +:+ ", requested=" +:+ dec req_ram_mb +:+ quota_who uid aid))
  else (0, "").

Definition db_quota_check (user_id app_id : string) (req_cores req_ram_mb : Z) (reason_len : nat) : ST Db (Z * string) :=
  q ← resolve_quota user_id app_id;
  match q with
  | None => mret (0, "")
  | Some q =>
      r ← query (λ _ t, [quota_usage user_id app_id t]);
      match r with
      | None => mret (0, "")
      | Some _ =>
          let usage :=
            match head (rows_of 1 r) with
            | Some (n, c, m) => (column_int n, column_int c, column_int m)
            | None => (0, 0, 0)
            end in
          mret (quota_verdict q user_id app_id usage req_cores req_ram_mb reason_len)
      end
  end.

(** ** Workflows *)

Definition workflow_is (wf_id : string) (w : WorkflowDef) : bool := String.eqb (w_id w) wf_id.

Definition db_insert_workflow (w : WorkflowDef) : ST Db Z :=
  dml_rc (λ _ t,
    if existsb (workflow_is (w_id w)) (t_workflows t) then None
    else Some (set_t_workflows (t_workflows t ++ [w]) t, 1)).

Definition db_update_workflow (w : WorkflowDef) : ST Db Z :=
  dml_rc (λ _ t,
    Some (set_t_workflows (update_where (workflow_is (w_id w))
            (λ o, mkWorkflow (w_id o) (w_name w) (w_owner_id o) (w_is_global w) (w_steps_json w)
                    (w_created_at o) (w_updated_at w)) (t_workflows t)) t,
          count_where (workflow_is (w_id w)) (t_workflows t))).

Definition db_delete_workflow (wf_id : string) : ST Db Z :=
  ok ← dml_rc (λ _ t, Some (set_t_workflows (delete_where (workflow_is wf_id) (t_workflows t)) t,
                            count_where (workflow_is wf_id) (t_workflows t)));
  dml_rc (λ _ t,
    let p f := String.eqb (snd f) wf_id in
    Some (set_t_workflow_favorites (delete_where p (t_workflow_favorites t)) t,
          count_where p (t_workflow_favorites t))) ;;
  mret ok.

Definition workflow_of_row (w : WorkflowDef) : WorkflowDef :=
  mkWorkflow (cbuf 64 (w_id w)) (cbuf 256 (w_name w)) (cbuf 128 (w_owner_id w)) (w_is_global w)
    (cbuf 16384 (w_steps_json w)) (w_created_at w) (w_updated_at w).

Definition db_get_workflow (wf_id : string) : ST Db (option WorkflowDef) :=
  r ← query (λ _ t, where_ (workflow_is wf_id) (t_workflows t));
  mret (workflow_of_row <$> head (rows_of 1 r)).

(** An empty [user_id] lists everything. *)
Definition workflow_visible (user_id : string) (w : WorkflowDef) : bool :=
  negb (str_nonempty user_id) || String.eqb (w_owner_id w) user_id || (w_is_global w =? 1).

Definition db_list_workflows (user_id : string) (max_count : Z) : ST Db (list WorkflowDef) :=
  r ← query (λ _ t, order_by_keys (λ w, [- w_updated_at w]) (where_ (workflow_visible user_id) (t_workflows t)));
  mret (map workflow_of_row (rows_of max_count r)).

Definition favorite_is (user_id wf_id : string) (f : string * string) : bool :=
  String.eqb (fst f) user_id && String.eqb (snd f) wf_id.

Definition db_add_workflow_favorite (user_id wf_id : string) : ST Db Z :=
  dml_rc (λ _ t,
    if existsb (favorite_is user_id wf_id) (t_workflow_favorites t) then Some (t, 0)
    else Some (set_t_workflow_favorites (t_workflow_favorites t ++ [(user_id, wf_id)]) t, 1)).

Definition db_remove_workflow_favorite (user_id wf_id : string) : ST Db Z :=
  dml_rc (λ _ t,
    Some (set_t_workflow_favorites (delete_where (favorite_is user_id wf_id) (t_workflow_favorites t)) t,
          count_where (favorite_is user_id wf_id) (t_workflow_favorites t))).

Definition db_is_workflow_favorite (user_id wf_id : string) : ST Db bool :=
  r ← query (λ _ t, where_ (favorite_is user_id wf_id) (t_workflow_favorites t));
  mret (negb (is_none (head (rows_of 1 r)))).

(** ** Persistent events *)

Definition db_insert_event (category event_type detail user_id job_id machine_id : string) : ST Db Z :=
  dml_rc (λ now t,
    let id := t_event_seq t + 1 in
    Some (set_t_event_seq id (set_t_events (t_events t ++
            [mkEvent id category event_type detail user_id job_id machine_id now]) t), 1)).

Definition event_in_range (from_ts to_ts : Z) (e : EventRecord) : bool :=
  (from_ts <=? e_created_at e) && ((to_ts =? 0) || (e_created_at e <=? to_ts)).

Definition event_of_row (e : EventRecord) : EventRecord :=
  mkEvent (column_int (e_id e)) (cbuf 64 (e_category e)) (cbuf 64 (e_event_type e)) (cbuf 1024 (e_detail e))
    (cbuf 128 (e_user_id e)) (cbuf 37 (e_job_id e)) (cbuf 64 (e_machine_id e)) (e_created_at e).

Definition db_list_events (max_count : Z) (category_filter : string) (from_ts to_ts : Z) : ST Db (list EventRecord) :=
  let p e := (negb (str_nonempty category_filter) || String.eqb (e_category e) category_filter)
             && event_in_range from_ts to_ts e in
  r ← query (λ _ t, limit max_count (order_by_keys (λ e, [- e_created_at e]) (where_ p (t_events t))));
  mret (map event_of_row (rows_of max_count r)).
