(* ===== verification/DbOpen.v ===== *)
(** [db_open] of src/persistence/db.c: the schema script, the columns that
    later versions added, and the two rebuilds of the allocations table.  The
    statements act on a catalog of tables with their columns and rows; as in
    Sql.v the outcome of each statement is taken from a stream that the
    theorems quantify over. *)
From S2P Require Import Prelude Sql.

(** ** The catalog *)

Inductive Value := VNull | VInt (z : Z) | VText (s : string).
#[export] Instance value_eq_dec : EqDecision Value.
Proof. solve_decision. Defined.

(** [c_pk] is the position in the primary key, 0 outside of it, as
    PRAGMA table_info reports it. *)
Record Column := mkColumn { c_name : string; c_type : string; c_not_null : bool; c_default : Value; c_pk : Z }.
Record Table := mkTable { tb_columns : list Column; tb_rows : list (list Value) }.

(** An index belongs to a table and names columns of it. *)
Record Catalog := mkCatalog { ct_tables : gmap string Table; ct_indexes : gmap string (string * list string) }.

Definition set_table (name : string) (t : Table) (c : Catalog) : Catalog := mkCatalog (<[name := t]> (ct_tables c)) (ct_indexes c).

(** The cell of a row in a named column. *)
Definition col_index (name : string) (cs : list Column) : option nat := find_index (λ c, String.eqb (c_name c) name) cs.
Definition cell (cs : list Column) (row : list Value) (name : string) : option Value := i ← col_index name cs; row !! i.
Definition project (cs : list Column) (cols : list string) (row : list Value) : option (list Value) := mapM (cell cs row) cols.

Definition has_columns (cs : list Column) (cols : list string) : bool := forallb (λ n, bool_decide (is_Some (col_index n cs))) cols.

(** [SELECT cols FROM name]: an error where a table or a column is missing. *)
Definition select (c : Catalog) (name : string) (cols : list string) : option (list (list Value)) :=
  t ← ct_tables c !! name;
  if has_columns (tb_columns t) cols then mapM (project (tb_columns t) cols) (tb_rows t) else None.

(** ** Statements *)

Inductive Stmt :=
  | CreateTable (if_not_exists : bool) (name : string) (columns : list Column)
  | CreateIndex (name table : string) (columns : list string)            (* IF NOT EXISTS *)
  | DropIndex (name : string)                                            (* IF EXISTS *)
  | DropTable (if_exists : bool) (name : string)
  | RenameTable (from to_ : string)
  | AddColumn (table : string) (column : Column)
  | InsertOrReplace (into : string) (columns : list string) (from : string)  (* ... SELECT columns FROM from *)
  | BeginImmediate
  | Commit.

(** A value for a column: REPLACE puts the default for NULL where that is
    not allowed, and fails without one. *)
Definition stored (c : Column) (v : Value) : option Value :=
  if c_not_null c && bool_decide (v = VNull) then if bool_decide (c_default c = VNull) then None else Some (c_default c)
  else Some v.

(** The row for a table from the values of the named columns. *)
Definition full_row (cs : list Column) (cols : list string) (values : list Value) : option (list Value) :=
  mapM (λ c, stored c (default (c_default c) (i ← find_index (String.eqb (c_name c)) cols; values !! i))) cs.

Definition primary_key (cs : list Column) (row : list Value) : list Value :=
  snd <$> filter (λ p, (0 <? c_pk p.1) = true) (zip cs row).

Definition replace_row (cs : list Column) (rows : list (list Value)) (row : list Value) : list (list Value) :=
  filter (λ r, primary_key cs r ≠ primary_key cs row) rows ++ [row].

Definition insert_rows (t : Table) (cols : list string) (new : list (list Value)) : option Table :=
  new ← mapM (full_row (tb_columns t) cols) new;
  Some (mkTable (tb_columns t) (foldl (replace_row (tb_columns t)) (tb_rows t) new)).

(** What a statement that is executed makes of the catalog; [None]: it is an
    error. *)
Definition effect (s : Stmt) (c : Catalog) : option Catalog :=
  match s with
  | CreateTable if_not_exists name columns =>
      match ct_tables c !! name with
      | Some _ => if if_not_exists then Some c else None
      | None => Some (set_table name (mkTable columns []) c)
      end
  | CreateIndex name table columns =>
      match ct_indexes c !! name with
      | Some _ => Some c
      | None =>
          t ← ct_tables c !! table;
          if has_columns (tb_columns t) columns
          then Some (mkCatalog (ct_tables c) (<[name := (table, columns)]> (ct_indexes c))) else None
      end
  | DropIndex name => Some (mkCatalog (ct_tables c) (delete name (ct_indexes c)))
  | DropTable if_exists name =>
      match ct_tables c !! name with
      | Some _ => Some (mkCatalog (delete name (ct_tables c)) (filter (λ i, i.2.1 ≠ name) (ct_indexes c)))
      | None => if if_exists then Some c else None
      end
  | RenameTable from to_ =>
      t ← ct_tables c !! from;
      match ct_tables c !! to_ with
      | Some _ => None
      | None => Some (mkCatalog (<[to_ := t]> (delete from (ct_tables c)))
                        ((λ i, if String.eqb i.1 from then (to_, i.2) else i) <$> ct_indexes c))
      end
  | AddColumn table column =>
      t ← ct_tables c !! table;
      match col_index (c_name column) (tb_columns t) with
      | Some _ => None
      | None => Some (set_table table (mkTable (tb_columns t ++ [column]) ((λ r, r ++ [c_default column]) <$> tb_rows t)) c)
      end
  | InsertOrReplace into cols from =>
      rows ← select c from cols;
      t ← ct_tables c !! into;
      t ← insert_rows t cols rows;
      Some (set_table into t c)
  | BeginImmediate | Commit => Some c
  end.

(** ** The connection *)

(** The catalog to restore when a transaction is open, the catalog, and the
    outcomes to come. *)
Record Conn := mkConn { cn_saved : option Catalog; cn_catalog : Catalog; cn_outcomes : list Outcome }.

Definition conn_outcome : ST Conn Outcome := λ k,
  match cn_outcomes k with
  | [] => (StmtOk, k)
  | o :: os => (o, mkConn (cn_saved k) (cn_catalog k) os)
  end.

Definition conn_abort (k : Conn) : Conn :=
  match cn_saved k with Some c => mkConn None c (cn_outcomes k) | None => k end.

Definition run_stmt (s : Stmt) : ST Conn bool := λ k,
  let '(o, k) := conn_outcome k in
  match o with
  | StmtOk =>
      match s, cn_saved k with
      | BeginImmediate, None => (true, mkConn (Some (cn_catalog k)) (cn_catalog k) (cn_outcomes k))
      | BeginImmediate, Some _ => (false, k)
      | Commit, Some _ => (true, mkConn None (cn_catalog k) (cn_outcomes k))
      | Commit, None => (false, k)
      | _, _ =>
          match effect s (cn_catalog k) with
          | Some c => (true, mkConn (cn_saved k) c (cn_outcomes k))
          | None => (false, k)
          end
      end
  | StmtAborts => (false, conn_abort k)
  | _ => (false, k)
  end.

(** [sqlite3_exec] of a script: it stops at the first error. *)
Fixpoint sqlite3_exec (script : list Stmt) : ST Conn bool :=
  match script with
  | [] => mret true
  | s :: script => ok ← run_stmt s; if negb ok then mret false else sqlite3_exec script
  end.

(** [sqlite3_exec(s_db, "ROLLBACK;", ...)] *)
Definition exec_rollback : ST Conn unit := λ k, (tt, conn_abort k).

(** [PRAGMA table_info(table)]: the columns that are stepped through; [None]
    when the statement is not prepared. *)
Definition table_info (table : string) : ST Conn (option (list Column)) := λ k,
  let '(o, k) := conn_outcome k in
  let columns := match ct_tables (cn_catalog k) !! table with Some t => tb_columns t | None => [] end in
  match o with
  | StmtOk => (Some columns, k)
  | PrepareFails => (None, k)
  | StepFails n => (Some (take n columns), k)
  | StmtAborts => (Some [], conn_abort k)
  end.

(** ** The schema *)

Definition col (type name : string) : Column := mkColumn name type false VNull 0.
Definition required (type name : string) : Column := mkColumn name type true VNull 0.
Definition text_default (name d : string) : Column := mkColumn name "TEXT" true (VText d) 0.
Definition int_default (name : string) (d : Z) : Column := mkColumn name "INTEGER" true (VInt d) 0.
Definition keyed (position : Z) (c : Column) : Column := mkColumn (c_name c) (c_type c) (c_not_null c) (c_default c) position.

Definition jobs_columns : list Column :=
  [keyed 1 (col "TEXT" "id"); required "TEXT" "command"; int_default "status" 0; int_default "priority" 50;
   int_default "req_cores" 1; int_default "req_gpu" 0; int_default "req_ram_mb" 0; int_default "req_disk_mb" 0;
   col "TEXT" "machine_id"; col "TEXT" "input_dir"; col "TEXT" "output_dir"; col "INTEGER" "exit_code";
   col "INTEGER" "submitted_at"; col "INTEGER" "started_at"; col "INTEGER" "ended_at";
   text_default "input_files" ""; int_default "timeout_seconds" 0; text_default "status_reason" ""].

Definition api_keys_columns : list Column :=
  [keyed 1 (col "TEXT" "key_hash"); required "TEXT" "label"; text_default "role" "user"; text_default "user_id" "";
   required "INTEGER" "created_at"; int_default "expires_at" 0; int_default "revoked" 0].

Definition allocations_columns : list Column :=
  [keyed 1 (required "TEXT" "job_id"); keyed 2 (required "TEXT" "machine_id"); int_default "cores" 0; int_default "gpu" 0;
   int_default "ram_mb" 0; int_default "disk_mb" 0; col "INTEGER" "allocated_at"; col "INTEGER" "released_at"].

Definition SCHEMA : list Stmt :=
  [CreateTable true "jobs" jobs_columns;
   CreateTable true "api_keys" api_keys_columns;
   CreateTable true "allocations" allocations_columns;
   CreateIndex "idx_allocations_active" "allocations" ["released_at"];
   CreateTable true "batches"
     [keyed 1 (col "TEXT" "id"); text_default "name" ""; text_default "user_id" ""; required "INTEGER" "created_at"];
   CreateTable true "artifacts"
     [keyed 1 (col "INTEGER" "id"); required "TEXT" "job_id"; required "TEXT" "type"; required "TEXT" "uri";
      int_default "size_bytes" 0; text_default "checksum" ""; required "INTEGER" "created_at"];
   CreateIndex "idx_artifacts_job" "artifacts" ["job_id"; "id"];
   CreateTable true "audit_log"
     [keyed 1 (col "INTEGER" "id"); required "TEXT" "event"; col "TEXT" "detail"; required "INTEGER" "ts"];
   CreateTable true "quotas"
     [keyed 1 (text_default "user_id" ""); keyed 2 (text_default "app_id" ""); int_default "max_jobs" 0;
      int_default "max_ram_mb" 0; int_default "max_cores" 0; int_default "max_concurrent" 0];
   CreateTable true "users"
     [keyed 1 (col "TEXT" "user_id"); text_default "display_name" ""; text_default "email" "";
      text_default "password_hash" ""; int_default "enabled" 1; int_default "created_at" 0];
   CreateTable true "workflows"
     [keyed 1 (col "TEXT" "id"); text_default "name" ""; text_default "owner_id" ""; int_default "is_global" 0;
      text_default "steps_json" "[]"; int_default "created_at" 0; int_default "updated_at" 0];
   CreateTable true "workflow_favorites" [keyed 1 (required "TEXT" "user_id"); keyed 2 (required "TEXT" "workflow_id")];
   CreateTable true "events"
     [keyed 1 (col "INTEGER" "id"); text_default "category" ""; text_default "event_type" ""; text_default "detail" "";
      text_default "user_id" ""; text_default "job_id" ""; text_default "machine_id" ""; int_default "created_at" 0];
   CreateIndex "idx_events_cat" "events" ["category"; "created_at"];
   CreateIndex "idx_events_ts" "events" ["created_at"];
   CreateTable true "submission_keys"
     [keyed 1 (required "TEXT" "user_id"); keyed 2 (required "TEXT" "idempotency_key"); required "TEXT" "job_id";
      int_default "created_at" 0]].

(** ** Migrations *)

Definition pk_position (columns : list Column) (name : string) : Z :=
  foldl (λ pk c, if String.eqb (c_name c) name then c_pk c else pk) 0 columns.

Definition ALLOC_COLS : list string := ["job_id"; "machine_id"; "cores"; "gpu"; "ram_mb"; "disk_mb"; "allocated_at"; "released_at"].

Definition rebuild_with_primary_key : list Stmt :=
  [BeginImmediate; DropTable true "allocations_new"; CreateTable false "allocations_new" allocations_columns;
   InsertOrReplace "allocations_new" ALLOC_COLS "allocations"; DropTable false "allocations";
   RenameTable "allocations_new" "allocations"; Commit].

Definition rebuild_from_legacy : list Stmt :=
  [BeginImmediate; RenameTable "allocations" "allocations_legacy"; DropIndex "idx_allocations_active";
   CreateTable false "allocations" allocations_columns; InsertOrReplace "allocations" ALLOC_COLS "allocations_legacy";
   DropTable false "allocations_legacy"; CreateIndex "idx_allocations_active" "allocations" ["released_at"]; Commit].

(** A script that rolls back when it fails: 0 or -1. *)
Definition exec_migration (script : list Stmt) : ST Conn Z :=
  ok ← sqlite3_exec script;
  if negb ok then exec_rollback ;; mret (-1) else mret 0.

Definition migrate_allocations_primary_key : ST Conn Z :=
  columns ← table_info "allocations";
  match columns with
  | None => mret (-1)
  | Some columns =>
      if (pk_position columns "job_id" =? 1) && (pk_position columns "machine_id" =? 2) then mret 0
      else exec_migration rebuild_with_primary_key
  end.

Definition migrate_allocations_schema : ST Conn Z :=
  columns ← table_info "allocations";
  match columns with
  | None => mret (-1)
  | Some columns =>
      if existsb (λ c, String.eqb (c_name c) "machine_id" && (0 <? c_pk c)) columns then mret 0
      else exec_migration rebuild_from_legacy
  end.

(** The ALTER TABLE statements, each by itself with its error ignored. *)
Definition added_columns : list (string * Column) :=
  [("jobs", text_default "input_files" ""); ("jobs", int_default "timeout_seconds" 0); ("jobs", text_default "status_reason" "");
   ("jobs", text_default "user_id" ""); ("jobs", text_default "app_id" "");
   ("api_keys", text_default "role" "admin"); ("api_keys", int_default "expires_at" 0); ("api_keys", text_default "user_id" "");
   ("users", text_default "password_hash" "");
   ("jobs", text_default "depends_on" ""); ("jobs", text_default "workflow_id" ""); ("jobs", text_default "same_machine_as" "");
   ("jobs", text_default "batch_id" "")].

Definition idx_jobs_batch : Stmt := CreateIndex "idx_jobs_batch" "jobs" ["batch_id"; "status"].
Definition tolerated : list Stmt := ((λ p, AddColumn p.1 p.2) <$> added_columns) ++ [idx_jobs_batch].

(** [open_ok]: whether sqlite3_open_v2 opens the file. *)
Definition db_open (open_ok : bool) : ST Conn Z :=
  if negb open_ok then mret (-1) else
  ok ← sqlite3_exec SCHEMA;
  if negb ok then mret (-1) else
  rc ← migrate_allocations_primary_key;
  if negb (rc =? 0) then mret (-1) else
  st_iter (λ s, run_stmt s ;; mret tt) tolerated ;;
  rc ← migrate_allocations_schema;
  if negb (rc =? 0) then mret (-1) else mret 0.

