(* ===== verification/DbOpenProps.v ===== *)
(** Properties of [db_open]: no row is lost whatever statement fails, and a
    database of an earlier version is brought up to date. *)
From S2P Require Import Prelude Sql DbOpen.

(** ** What opening must not change *)

(** The rows of a table in some of its columns; of the allocations table,
    which is rebuilt, in the columns the program knows. *)
Definition watched (name : string) (cols : list string) : Prop :=
  name ≠ "allocations_new" ∧ name ≠ "allocations_legacy" ∧ (name = "allocations" → cols ⊆ ALLOC_COLS).

Definition kept (a b : Catalog) : Prop :=
  ∀ name cols rows, watched name cols → select a name cols = Some rows → select b name cols = Some rows.

#[export] Instance kept_preorder : PreOrder kept.
Proof. split; [by intros c name cols rows|]. intros a b c H1 H2 name cols rows Hw Ha. by apply H2, H1. Qed.

(** An allocations table that fits the new key: one row per job and machine,
    and no NULL where that is not allowed. *)
Definition clean_rows (rows : list (list Value)) : Prop :=
  NoDup (take 2 <$> rows) ∧ Forall (λ r, Forall (λ v, v ≠ VNull) (take 6 r)) rows.
Definition clean (c : Catalog) : Prop := ∀ rows, select c "allocations" ALLOC_COLS = Some rows → clean_rows rows.

Lemma kept_lookup a b :
  (∀ name t, ct_tables a !! name = Some t → ct_tables b !! name = Some t) → kept a b.
Proof.
  intros H name cols rows _. unfold select. destruct (ct_tables a !! name) as [t|] eqn:E; [|done]. by rewrite (H _ _ E).
Qed.

Lemma select_Some c name cols rows : select c name cols = Some rows ↔
  ∃ t, ct_tables c !! name = Some t ∧ has_columns (tb_columns t) cols = true ∧
       Forall2 (λ r x, project (tb_columns t) cols r = Some x) (tb_rows t) rows.
Proof.
  unfold select. rewrite bind_Some. split; intros (t & Ht & H); exists t; (split; [done|]).
  - destruct (has_columns _ _); [|done]. split; [done|]. by apply mapM_Some.
  - destruct H as [-> H]. by apply mapM_Some.
Qed.

Lemma has_columns_spec cs cols : has_columns cs cols = true ↔ ∀ n, n ∈ cols → is_Some (col_index n cs).
Proof.
  unfold has_columns. rewrite forallb_forall. setoid_rewrite <- list_elem_of_In. by setoid_rewrite bool_decide_eq_true.
Qed.

(** *** Statements that only add *)

Definition additive (s : Stmt) : bool :=
  match s with CreateTable _ _ _ | CreateIndex _ _ _ => true | AddColumn table _ => negb (String.eqb table "allocations") | _ => false end.

Lemma find_index_app {A} (p : A → bool) l k i : find_index p l = Some i → find_index p (l ++ k) = Some i.
Proof.
  revert i. induction l as [|x l IH]; intros i; cbn [find_index app]; [done|]. destruct (p x); [done|].
  destruct (find_index p l) as [j|]; cbn; [|done]. by rewrite (IH j eq_refl).
Qed.

Lemma project_added cs c0 row v cols values : project cs cols row = Some values → project (cs ++ [c0]) cols (row ++ [v]) = Some values.
Proof.
  unfold project. intros H%mapM_Some. apply mapM_Some. eapply Forall2_impl; [exact H|]. intros name x.
  unfold cell, col_index. intros (i & Hi & Hx)%bind_Some. rewrite (find_index_app _ _ _ _ Hi). cbn. by rewrite (lookup_app_l_Some _ _ _ _ Hx).
Qed.

Lemma has_columns_app cs more cols : has_columns cs cols = true → has_columns (cs ++ more) cols = true.
Proof.
  rewrite !has_columns_spec. intros H n [i Hi]%H. exists i. by apply find_index_app.
Qed.

Lemma add_column_kept c table column t : ct_tables c !! table = Some t →
  kept c (set_table table (mkTable (tb_columns t ++ [column]) ((λ r, r ++ [c_default column]) <$> tb_rows t)) c).
Proof.
  intros Ht name cols rows _. rewrite !select_Some. intros (t0 & Ht0 & Hcs & H). unfold set_table. cbn [ct_tables].
  destruct (decide (name = table)) as [->|Hne].
  - simplify_eq. rewrite lookup_insert_eq. eexists. split; [done|]. cbn [tb_columns tb_rows]. split; [by apply has_columns_app|].
    apply Forall2_fmap_l. eapply Forall2_impl; [exact H|]. intros r x. apply project_added.
  - rewrite lookup_insert_ne by done. eauto.
Qed.

Lemma additive_alloc s c c' : additive s = true → effect s c = Some c' →
  kept c c' ∧ (ct_tables c' !! "allocations" = ct_tables c !! "allocations" ∨
               ∃ cs, ct_tables c' !! "allocations" = Some (mkTable cs [])).
Proof.
  destruct s as [ine name cs|name table cols| | | |table column| | |]; cbn [additive effect]; try done.
  - intros _. destruct (ct_tables c !! name) as [t|] eqn:E; [destruct ine; [intros [= <-]; by split; [|left]|done]|].
    intros [= <-]. split.
    + apply kept_lookup. intros n t Ht. cbn. rewrite lookup_insert_ne; [done|congruence].
    + cbn. destruct (decide (name = "allocations")) as [->|]; [right; exists cs; by rewrite lookup_insert_eq|left; by rewrite lookup_insert_ne].
  - intros _. destruct (ct_indexes c !! name); [intros [= <-]; by split; [|left]|].
    intros (t & _ & H)%bind_Some. destruct (has_columns _ _); [|done]. injection H as <-. by split; [apply kept_lookup|left].
  - intros Hn%negb_true_iff. intros (t & Ht & H)%bind_Some. destruct (col_index _ _); [done|]. injection H as <-.
    split; [by apply add_column_kept|]. left. cbn. apply lookup_insert_ne. intros ->. done.
Qed.

Lemma additive_clean s c c' : additive s = true → effect s c = Some c' → clean c → clean c'.
Proof.
  intros Ha He Hc. destruct (additive_alloc s c c' Ha He) as [_ [Hl|[cs Hl]]]; intros rows; unfold select; rewrite Hl.
  - apply Hc.
  - cbn [mbind option_bind tb_columns tb_rows]. destruct (has_columns _ _); [|done]. cbn. intros [= <-]. split; constructor.
Qed.

(** *** The rebuilt table *)

(** Whatever the script, the allocations table is new with the same rows. *)
Definition rebuilt (c c' : Catalog) : Prop :=
  (∀ name, name ∉ ["allocations"; "allocations_new"; "allocations_legacy"] → ct_tables c' !! name = ct_tables c !! name) ∧
  ∃ rows, select c "allocations" ALLOC_COLS = Some rows ∧ ct_tables c' !! "allocations" = Some (mkTable allocations_columns rows).

(** A row of the eight columns, read back from the new table. *)
Lemma cell_rebuilt cs row values : project cs ALLOC_COLS row = Some values →
  length values = 8%nat ∧ ∀ name, name ∈ ALLOC_COLS → cell allocations_columns values name = cell cs row name.
Proof.
  unfold project. intros H%mapM_Some. unfold ALLOC_COLS in *.
  repeat match goal with H : Forall2 _ (_ :: _) _ |- _ => inversion H; clear H; subst end.
  match goal with H : Forall2 _ [] _ |- _ => inversion H; clear H; subst end.
  split; [done|]. cbv beta in *. intros name Hn. repeat (apply elem_of_cons in Hn as [->|Hn]; [symmetry; etransitivity; [eassumption|reflexivity]|]).
  by apply elem_of_nil in Hn.
Qed.

Lemma rebuilt_kept c c' : rebuilt c c' → kept c c'.
Proof.
  intros [Hother (rows & Hsel & Hnew)] name cols rs (Hn1 & Hn2 & Hcols). rewrite !select_Some.
  apply select_Some in Hsel as (t & Ht & _ & Hproj). intros (t0 & Ht0 & Hcs & Hrs).
  destruct (decide (name = "allocations")) as [->|Hne]; [|exists t0; rewrite Hother; [done|set_solver]].
  simplify_eq. specialize (Hcols eq_refl). eexists. split; [done|]. cbn [tb_columns tb_rows]. split.
  { apply has_columns_spec. intros n Hn%Hcols. unfold ALLOC_COLS in Hn.
    repeat (apply elem_of_cons in Hn as [->|Hn]; [vm_compute; eauto|]). by apply elem_of_nil in Hn. }
  clear Hother Hnew Ht. revert rs Hrs. induction Hproj as [|row values rest vs Hrow _ IH]; intros rs H.
  - inversion H. constructor.
  - apply Forall2_cons_inv_l in H as (r & rs' & Hr & Hrs & ->). constructor; [|by apply IH].
    apply cell_rebuilt in Hrow as [_ Hc]. rewrite <- Hr. unfold project. apply Forall_mapM_ext, Forall_forall.
    intros n Hn. by apply Hc, Hcols.
Qed.

Lemma rebuilt_clean c c' : clean c → rebuilt c c' → clean c'.
Proof.
  intros Hc Hre rows. destruct Hre as [? (rows0 & Hsel & ?)] eqn:E. assert (select c' "allocations" ALLOC_COLS = Some rows0) as ->.
  { apply (rebuilt_kept c c' Hre); [by repeat split|done]. }
  intros [= <-]. by apply Hc.
Qed.

(** What the INSERT writes. *)
Lemma clean_row_is_stored r : length r = 8%nat → Forall (λ v, v ≠ VNull) (take 6 r) →
  full_row allocations_columns ALLOC_COLS r = Some r ∧ primary_key allocations_columns r = take 2 r.
Proof.
  intros Hl Hnn. do 8 (destruct r as [|? r]; [done|]). destruct r; [|done]. cbn [take] in Hnn.
  repeat match goal with H : Forall _ (_ :: _) |- _ => apply Forall_cons in H as [? H] end.
  assert (∀ c x, c_not_null c = false ∨ x ≠ VNull → stored c x = Some x) as Hst.
  { intros c x Hx. unfold stored. destruct Hx as [->|Hx]; [done|].
    rewrite (bool_decide_eq_false_2 (x = VNull)) by done. by rewrite andb_false_r. }
  split; [|reflexivity]. match goal with |- full_row _ _ ?r = _ =>
    transitivity (mapM (λ p, stored p.1 p.2) (zip allocations_columns r)); [reflexivity|] end.
  unfold allocations_columns. cbn [mapM zip zip_with fst snd]. rewrite !Hst by first [by left|by right]. reflexivity.
Qed.

Lemma filter_every {A} (P : A → Prop) `{∀ x, Decision (P x)} (l : list A) : (∀ x, x ∈ l → P x) → filter P l = l.
Proof.
  induction l as [|x l IH]; intros Hl; [done|]. rewrite filter_cons_True by (apply Hl, list_elem_of_here).
  f_equal. apply IH. intros y Hy. by apply Hl, list_elem_of_further.
Qed.

Lemma replace_fresh cs acc rows : NoDup (primary_key cs <$> acc ++ rows) → foldl (replace_row cs) acc rows = acc ++ rows.
Proof.
  revert acc. induction rows as [|row rows IH]; intros acc H; cbn [foldl]; [by rewrite app_nil_r|].
  assert (replace_row cs acc row = acc ++ [row]) as ->.
  { unfold replace_row. f_equal. rewrite fmap_app, fmap_cons in H. apply NoDup_app in H as (_ & H & _).
    apply filter_every. intros r Hr Hk. apply (H (primary_key cs r)); [by apply list_elem_of_fmap_2|].
    rewrite Hk. by apply list_elem_of_here. }
  rewrite IH; rewrite <- app_assoc; done.
Qed.

Lemma insert_clean rows : Forall (λ r, length r = 8%nat) rows → clean_rows rows →
  insert_rows (mkTable allocations_columns []) ALLOC_COLS rows = Some (mkTable allocations_columns rows).
Proof.
  intros Hlen [Hnd Hnn]. unfold insert_rows. cbn [tb_columns tb_rows].
  assert (∀ r, r ∈ rows → full_row allocations_columns ALLOC_COLS r = Some r ∧ primary_key allocations_columns r = take 2 r) as Hrow.
  { intros r Hr. rewrite Forall_forall in Hlen, Hnn. apply clean_row_is_stored; auto. }
  assert (mapM (full_row allocations_columns ALLOC_COLS) rows = Some rows) as ->.
  { apply mapM_Some, Forall_Forall2_diag, Forall_forall. intros r Hr. by apply Hrow. }
  cbn [mbind option_bind]. rewrite replace_fresh; [done|]. cbn [app].
  replace (primary_key allocations_columns <$> rows) with (take 2 <$> rows); [done|].
  apply list_fmap_ext. intros i r Hr. symmetry. apply Hrow. by eapply list_elem_of_lookup_2.
Qed.

(** *** The two scripts *)

Fixpoint effects (script : list Stmt) (c : Catalog) : option Catalog :=
  match script with [] => Some c | s :: script => c ← effect s c; effects script c end.

Lemma selected_length c name rows : select c name ALLOC_COLS = Some rows → Forall (λ r, length r = 8%nat) rows.
Proof.
  intros (t & _ & _ & H)%select_Some. apply Forall_forall. intros r Hr. apply list_elem_of_lookup in Hr as [i Hi].
  destruct (Forall2_lookup_r _ _ _ _ _ H Hi) as (r0 & _ & Hp). by apply cell_rebuilt in Hp as [Hp _].
Qed.

Definition with_primary_key_body : list Stmt :=
  [DropTable true "allocations_new"; CreateTable false "allocations_new" allocations_columns;
   InsertOrReplace "allocations_new" ALLOC_COLS "allocations"; DropTable false "allocations";
   RenameTable "allocations_new" "allocations"].
Definition from_legacy_body : list Stmt :=
  [RenameTable "allocations" "allocations_legacy"; DropIndex "idx_allocations_active";
   CreateTable false "allocations" allocations_columns; InsertOrReplace "allocations" ALLOC_COLS "allocations_legacy";
   DropTable false "allocations_legacy"; CreateIndex "idx_allocations_active" "allocations" ["released_at"]].

Lemma drop_table_others c c' name ine : effect (DropTable ine name) c = Some c' →
  ct_tables c' !! name = None ∧ ∀ n, n ≠ name → ct_tables c' !! n = ct_tables c !! n.
Proof.
  cbn [effect]. destruct (ct_tables c !! name) eqn:E.
  - intros [= <-]. cbn [ct_tables]. split; [apply lookup_delete_eq|]. intros n Hn. by apply lookup_delete_ne.
  - destruct ine; [|done]. by intros [= <-].
Qed.

Lemma rename_table_spec c c' from to_ : from ≠ to_ → effect (RenameTable from to_) c = Some c' →
  ct_tables c !! to_ = None ∧ ct_tables c' !! from = None ∧ ct_tables c' !! to_ = ct_tables c !! from ∧
  ∀ n, n ≠ from → n ≠ to_ → ct_tables c' !! n = ct_tables c !! n.
Proof.
  cbn [effect]. intros Hne (t & Ht & H)%bind_Some. destruct (ct_tables c !! to_) eqn:E; [done|]. injection H as <-. cbn [ct_tables].
  repeat split; intros; simplify_map_eq; done.
Qed.

Lemma create_table_spec c c' name cs : effect (CreateTable false name cs) c = Some c' →
  ct_tables c !! name = None ∧ c' = set_table name (mkTable cs []) c.
Proof. cbn [effect]. destruct (ct_tables c !! name); [done|]. by intros [= <-]. Qed.

Lemma insert_spec c c' into from : effect (InsertOrReplace into ALLOC_COLS from) c = Some c' →
  ct_tables c !! into = Some (mkTable allocations_columns []) → (∀ rows, select c from ALLOC_COLS = Some rows → clean_rows rows) →
  ∃ rows, select c from ALLOC_COLS = Some rows ∧ c' = set_table into (mkTable allocations_columns rows) c.
Proof.
  cbn [effect]. intros (rows & Hsel & H)%bind_Some Hinto Hclean. rewrite Hinto in H. cbn [mbind option_bind] in H.
  rewrite insert_clean in H; [|by eapply selected_length|by apply Hclean]. injection H as <-. eauto.
Qed.

Lemma select_same a b name name' cols : ct_tables a !! name = ct_tables b !! name' → select a name cols = select b name' cols.
Proof. unfold select. by intros ->. Qed.

Lemma with_primary_key_rebuilds c c' : clean c → effects with_primary_key_body c = Some c' → rebuilt c c'.
Proof.
  intros Hc. unfold with_primary_key_body. cbn [effects].
  intros (c1 & [Hd1 Ho1]%drop_table_others & (c2 & [_ ->]%create_table_spec & (c3 & H3 & (c4 & [Hd4 Ho4]%drop_table_others &
    (c5 & (_ & Hf5 & Ht5 & Ho5)%rename_table_spec & [= <-])%bind_Some)%bind_Some)%bind_Some)%bind_Some)%bind_Some; [|done].
  apply insert_spec in H3 as (rows & Hsel & ->).
  - assert (select c "allocations" ALLOC_COLS = Some rows) as Hsel'.
    { rewrite <- Hsel. apply select_same. cbn. rewrite lookup_insert_ne by done. by rewrite Ho1. }
    split; [|exists rows; split; [done|]].
    + intros n Hn. rewrite Ho5, Ho4 by set_solver. cbn. rewrite !lookup_insert_ne by set_solver. apply Ho1. set_solver.
    + rewrite Ht5, Ho4 by done. cbn. by rewrite lookup_insert_eq.
  - cbn. by rewrite lookup_insert_eq.
  - intros rows Hsel. apply Hc. rewrite <- Hsel. apply select_same. cbn. rewrite lookup_insert_ne by done. by rewrite Ho1.
Qed.

Lemma from_legacy_rebuilds c c' : clean c → effects from_legacy_body c = Some c' → rebuilt c c'.
Proof.
  intros Hc. unfold from_legacy_body. cbn [effects].
  intros (c1 & (_ & Hf1 & Ht1 & Ho1)%rename_table_spec & (c2 & H2 & (c3 & [_ ->]%create_table_spec & (c4 & H4 &
    (c5 & [Hd5 Ho5]%drop_table_others & (c6 & H6 & [= <-])%bind_Some)%bind_Some)%bind_Some)%bind_Some)%bind_Some)%bind_Some; [|done].
  assert (ct_tables c2 = ct_tables c1) as E2 by (by injection H2 as <-).
  assert (ct_tables c6 = ct_tables c5) as E6.
  { cbn [effect] in H6. destruct (ct_indexes c5 !! _); [by injection H6 as <-|].
    apply bind_Some in H6 as (t & _ & H6). destruct (has_columns _ _); [|done]. by injection H6 as <-. }
  assert (∀ rows, select c "allocations" ALLOC_COLS = Some rows ↔
    select (set_table "allocations" (mkTable allocations_columns []) c2) "allocations_legacy" ALLOC_COLS = Some rows) as Hs.
  { intros rows. rewrite (select_same _ c "allocations_legacy" "allocations"); [done|]. cbn. rewrite lookup_insert_ne by done. by rewrite E2, Ht1. }
  apply insert_spec in H4 as (rows & Hsel & ->).
  - split; [|exists rows; split; [by apply Hs|]].
    + intros n Hn. rewrite E6, Ho5 by set_solver. cbn. rewrite !lookup_insert_ne by set_solver. rewrite E2. apply Ho1; set_solver.
    + rewrite E6, Ho5 by done. cbn. by rewrite lookup_insert_eq.
  - cbn. by rewrite lookup_insert_eq.
  - intros rows Hsel. by apply Hc, Hs.
Qed.

(** ** Transactions *)

Definition plain (s : Stmt) : bool := match s with BeginImmediate | Commit => false | _ => true end.

(** A script that failed inside a transaction: it is open, or was rolled back. *)
Definition undoable (c0 : Catalog) (k : Conn) : Prop := cn_saved k = Some c0 ∨ (cn_saved k = None ∧ cn_catalog k = c0).

Lemma undoable_abort c0 k : undoable c0 k → cn_saved (conn_abort k) = None ∧ cn_catalog (conn_abort k) = c0.
Proof. unfold conn_abort. by intros [H|[H <-]]; rewrite H. Qed.

Lemma outcome_state k : cn_saved (conn_outcome k).2 = cn_saved k ∧ cn_catalog (conn_outcome k).2 = cn_catalog k.
Proof. unfold conn_outcome. by destruct (cn_outcomes k). Qed.

(** One statement, whatever becomes of it. *)
Lemma run_stmt_cases s k ok k' : run_stmt s k = (ok, k') →
  ∃ o k1, cn_saved k1 = cn_saved k ∧ cn_catalog k1 = cn_catalog k ∧
    match o with
    | StmtOk =>
        match s, cn_saved k with
        | BeginImmediate, None => ok = true ∧ cn_saved k' = Some (cn_catalog k) ∧ cn_catalog k' = cn_catalog k
        | Commit, Some _ => ok = true ∧ cn_saved k' = None ∧ cn_catalog k' = cn_catalog k
        | BeginImmediate, Some _ | Commit, None => ok = false ∧ k' = k1
        | _, _ => match effect s (cn_catalog k) with
                  | Some c => ok = true ∧ cn_saved k' = cn_saved k ∧ cn_catalog k' = c
                  | None => ok = false ∧ k' = k1
                  end
        end
    | StmtAborts => ok = false ∧ k' = conn_abort k1
    | _ => ok = false ∧ k' = k1
    end.
Proof.
  unfold run_stmt. destruct (outcome_state k) as [Hs Hc]. destruct (conn_outcome k) as [o k1]. cbn [snd] in *. intros H.
  exists o, k1. split; [done|]. split; [done|]. rewrite <- Hs, <- Hc.
  destruct o; [|by injection H as <- <-..]. destruct s, (cn_saved k1) eqn:E;
    try (match type of H with context [effect ?s ?c] => destruct (effect s c) end); injection H as <- <-; cbn [cn_saved cn_catalog]; auto.
Qed.

Lemma run_inside s k c0 ok k' : plain s = true → cn_saved k = Some c0 → run_stmt s k = (ok, k') →
  if ok then cn_saved k' = Some c0 ∧ effect s (cn_catalog k) = Some (cn_catalog k') else undoable c0 k'.
Proof.
  intros Hp Hs (o & k1 & H1 & H2 & H)%run_stmt_cases. rewrite Hs in *.
  destruct o.
  - assert (match effect s (cn_catalog k) with
            | Some c => ok = true ∧ cn_saved k' = Some c0 ∧ cn_catalog k' = c | None => ok = false ∧ k' = k1 end) as H' by (by destruct s).
    clear H. destruct (effect s (cn_catalog k)); [by destruct H' as (-> & ? & <-)|]. destruct H' as [-> ->]. by left.
  - destruct H as [-> ->]. by left.
  - destruct H as [-> ->]. by left.
  - destruct H as [-> ->]. right. unfold conn_abort. by rewrite H1.
Qed.

Lemma exec_inside body k c0 ok k' : forallb plain body = true → cn_saved k = Some c0 → sqlite3_exec (body ++ [Commit]) k = (ok, k') →
  if ok then cn_saved k' = None ∧ effects body (cn_catalog k) = Some (cn_catalog k') else undoable c0 k'.
Proof.
  revert k. induction body as [|s body IH]; intros k Hp Hs Hrun; cbn [app sqlite3_exec] in Hrun; rewrite bind_step in Hrun;
    destruct (run_stmt _ k) as [o k1] eqn:E; cbn [fst snd] in Hrun.
  - apply run_stmt_cases in E as (o' & k2 & H1 & H2 & H). rewrite Hs in *. destruct o'; destruct H as [-> H]; injection Hrun as <- <-.
    + by destruct H as [? ->].
    + subst. by left.
    + subst. by left.
    + subst. right. unfold conn_abort. by rewrite H1.
  - apply andb_true_iff in Hp as [Hp Hps]. apply (run_inside s k c0) in E; [|done..]. destruct o; cbn [negb] in Hrun.
    + destruct E as [E1 E2]. cbn [effects]. rewrite E2. by apply IH.
    + by injection Hrun as <- <-.
Qed.

Lemma exec_migration_spec body k rc k' : forallb plain body = true → cn_saved k = None →
  exec_migration (BeginImmediate :: body ++ [Commit]) k = (rc, k') →
  cn_saved k' = None ∧ ((rc = -1 ∧ cn_catalog k' = cn_catalog k) ∨ (rc = 0 ∧ effects body (cn_catalog k) = Some (cn_catalog k'))).
Proof.
  intros Hp Hs. unfold exec_migration. rewrite bind_step. destruct (sqlite3_exec _ k) as [ok k2] eqn:E. cbn [fst snd].
  assert (if ok then cn_saved k2 = None ∧ effects body (cn_catalog k) = Some (cn_catalog k2) else undoable (cn_catalog k) k2) as H.
  { cbn [sqlite3_exec] in E. rewrite bind_step in E. destruct (run_stmt _ k) as [o k1] eqn:E1. cbn [fst snd] in E.
    apply run_stmt_cases in E1 as (o' & k3 & H1 & H2 & H). rewrite Hs in *. destruct o'.
    - destruct H as (-> & H3 & H4). cbn [negb] in E. rewrite <- H4 in H3 |- *. by eapply exec_inside.
    - destruct H as [-> ->]. injection E as <- <-. by right.
    - destruct H as [-> ->]. injection E as <- <-. by right.
    - destruct H as [-> ->]. injection E as <- <-. right. unfold conn_abort. by rewrite H1. }
  destruct ok; cbn [negb].
  - intros [= <- <-]. destruct H. auto.
  - unfold exec_rollback. rewrite bind_step. cbn [fst snd]. intros [= <- <-]. apply undoable_abort in H as [? ?]. auto.
Qed.

(** ** Opening loses no row *)

Lemma keeps_iter_in {S A} (R : S → S → Prop) `{!PreOrder R} (f : A → ST S unit) l :
  (∀ x, x ∈ l → keeps R (f x)) → keeps R (st_iter f l).
Proof.
  intros Hf. induction l as [|x l IH]; [apply keeps_ret, _|]. apply keeps_bind; [apply _|apply Hf, list_elem_of_here|].
  intros _. apply IH. intros y Hy. by apply Hf, list_elem_of_further.
Qed.

(** What takes effect on the catalog. *)
Inductive migrates (c c' : Catalog) : Prop :=
  | MigratesAdds s : s ∈ SCHEMA ++ tolerated → effect s c = Some c' → migrates c c'
  | MigratesRebuilds : rebuilt c c' → migrates c c'.

Lemma migration_additive s : s ∈ SCHEMA ++ tolerated → additive s = true.
Proof. assert (forallb additive (SCHEMA ++ tolerated) = true) as H by done. rewrite forallb_forall in H. intros Hs. by apply H, list_elem_of_In. Qed.

Lemma migrates_kept c c' : migrates c c' → kept c c'.
Proof. intros [s Hs He|Hr]; [by apply additive_alloc in He as [? _]; [|apply migration_additive]|by apply rebuilt_kept]. Qed.

Definition safe_step (k k' : Conn) : Prop :=
  cn_saved k = None → clean (cn_catalog k) →
  cn_saved k' = None ∧ rtc migrates (cn_catalog k) (cn_catalog k') ∧ clean (cn_catalog k').

#[export] Instance safe_step_preorder : PreOrder safe_step.
Proof.
  split; [by intros k ? ?|]. intros a b c H1 H2 Hs Hc. destruct (H1 Hs Hc) as (Hs' & Hk & Hc'). destruct (H2 Hs' Hc') as (? & Hk' & ?).
  split; [done|]. split; [by transitivity (cn_catalog b)|done].
Qed.

Lemma safe_same k k' : cn_saved k' = cn_saved k → cn_catalog k' = cn_catalog k → safe_step k k'.
Proof. intros H1 H2 Hs Hc. by rewrite H1, H2. Qed.

Lemma abort_outside k : cn_saved k = None → conn_abort k = k.
Proof. unfold conn_abort. by intros ->. Qed.

Lemma run_additive s : s ∈ SCHEMA ++ tolerated → keeps safe_step (run_stmt s).
Proof.
  intros Hin k ok k' (o & k1 & H1 & H2 & H)%run_stmt_cases Hs Hc.
  pose proof (migration_additive s Hin) as Ha. assert (k' = k1 ∨ (cn_saved k' = cn_saved k ∧ effect s (cn_catalog k) = Some (cn_catalog k'))) as [->|[H3 H4]].
  { destruct o; try (destruct H as [_ ->]; rewrite ?abort_outside by congruence; auto; fail).
    destruct s; try discriminate Ha; (destruct (effect _ _); [destruct H as (_ & ? & ->); auto|destruct H as [_ ->]; auto]). }
  - by apply safe_same.
  - split; [congruence|]. split; [by apply rtc_once, (MigratesAdds _ _ s)|by eapply additive_clean].
Qed.

Lemma exec_additive script : script ⊆ SCHEMA ++ tolerated → keeps safe_step (sqlite3_exec script).
Proof.
  induction script as [|s script IH]; cbn [sqlite3_exec]; intros H; [apply keeps_ret, _|].
  apply keeps_bind; [apply _|apply run_additive, H, list_elem_of_here|].
  intros [|]; [apply IH; intros x Hx; by apply H, list_elem_of_further|apply keeps_ret, _].
Qed.

Lemma schema_safe : keeps safe_step (sqlite3_exec SCHEMA).
Proof. apply exec_additive. intros s Hs. apply elem_of_app. by left. Qed.

Lemma table_info_safe table : keeps safe_step (table_info table).
Proof.
  intros k columns k'. unfold table_info. destruct (outcome_state k) as [Hs Hc]. destruct (conn_outcome k) as [o k1]. cbn [snd] in *.
  intros H Hs0. assert (k' = k1) as ->; [|by apply safe_same].
  destruct o; injection H as _ <-; try done. apply abort_outside. congruence.
Qed.

Lemma exec_migration_safe body : forallb plain body = true → (∀ c c', clean c → effects body c = Some c' → rebuilt c c') →
  keeps safe_step (exec_migration (BeginImmediate :: body ++ [Commit])).
Proof.
  intros Hp Hb k rc k' Hrun Hs Hc. apply exec_migration_spec in Hrun as [Hs' [[_ Heq]|[_ Heff]]]; [rewrite Heq; by split| |done..].
  apply Hb in Heff as Hre; [|done]. split; [done|]. split; [by apply rtc_once, MigratesRebuilds|]. by eapply rebuilt_clean.
Qed.

Lemma migrate_primary_key_safe : keeps safe_step migrate_allocations_primary_key.
Proof.
  unfold migrate_allocations_primary_key. apply keeps_bind; [apply _|apply table_info_safe|]. intros [columns|]; [|apply keeps_ret, _].
  destruct (_ && _); [apply keeps_ret, _|]. apply (exec_migration_safe with_primary_key_body); [done|apply with_primary_key_rebuilds].
Qed.

Lemma migrate_schema_safe : keeps safe_step migrate_allocations_schema.
Proof.
  unfold migrate_allocations_schema. apply keeps_bind; [apply _|apply table_info_safe|]. intros [columns|]; [|apply keeps_ret, _].
  destruct (existsb _ _); [apply keeps_ret, _|]. apply (exec_migration_safe from_legacy_body); [done|apply from_legacy_rebuilds].
Qed.

Lemma db_open_safe open_ok : keeps safe_step (db_open open_ok).
Proof.
  unfold db_open. destruct open_ok; cbn [negb]; [|apply keeps_ret, _].
  apply keeps_bind; [apply _|apply schema_safe|]. intros [|]; cbn [negb]; [|apply keeps_ret, _].
  apply keeps_bind; [apply _|apply migrate_primary_key_safe|]. intros rc. destruct (negb _); [apply keeps_ret, _|].
  apply keeps_bind; [apply _| |].
  - apply keeps_iter_in; [apply _|]. intros s Hin. apply keeps_bind; [apply _| |intros ?; apply keeps_ret, _]. apply run_additive.
    apply elem_of_app. by right.
  - intros _. apply keeps_bind; [apply _|apply migrate_schema_safe|]. intros rc'. destruct (negb _); apply keeps_ret, _.
Qed.


(** ** Opening brings the database up to date *)

Definition has_col (c : Catalog) (table name : string) : Prop := ∃ t, ct_tables c !! table = Some t ∧ is_Some (col_index name (tb_columns t)).
Definition all_tables (c : Catalog) : Prop := ∀ ine name cs, CreateTable ine name cs ∈ SCHEMA → is_Some (ct_tables c !! name).
Definition keyed_allocations (c : Catalog) : Prop :=
  ∃ t, ct_tables c !! "allocations" = Some t ∧ pk_position (tb_columns t) "job_id" = 1 ∧ pk_position (tb_columns t) "machine_id" = 2.

(** Every table the statements name is there, every column that was added
    since, and the key of the allocations is the pair. *)
Definition up_to_date (c : Catalog) : Prop :=
  all_tables c ∧ (∀ p, p ∈ added_columns → has_col c p.1 (c_name p.2)) ∧ keyed_allocations c.

(** No statement fails from here on. *)
Definition healthy (k : Conn) : Prop := cn_outcomes k = [] ∧ cn_saved k = None.

Lemma run_healthy s k : plain s = true → healthy k →
  run_stmt s k = match effect s (cn_catalog k) with Some c => (true, mkConn None c []) | None => (false, k) end.
Proof.
  intros Hp [Ho Hs]. unfold run_stmt, conn_outcome. rewrite Ho, Hs. destruct s; try discriminate Hp; cbv beta iota;
    destruct (effect _ _); by rewrite ?Ho.
Qed.

Lemma exec_healthy script k k' : forallb plain script = true → healthy k → sqlite3_exec script k = (true, k') →
  healthy k' ∧ effects script (cn_catalog k) = Some (cn_catalog k').
Proof.
  revert k. induction script as [|s script IH]; intros k Hp Hk; cbn [sqlite3_exec effects]; [by intros [= <-]|].
  apply andb_true_iff in Hp as [Hp Hps]. rewrite bind_step, run_healthy by done.
  destruct (effect s (cn_catalog k)) as [c|]; cbn [fst snd negb]; [|done]. intros H. by apply (IH (mkConn None c [])).
Qed.

Lemma table_info_healthy table k : healthy k →
  table_info table k = (Some match ct_tables (cn_catalog k) !! table with Some t => tb_columns t | None => [] end, k).
Proof. intros [Ho _]. unfold table_info, conn_outcome. by rewrite Ho. Qed.

(** *** What the added statements leave alone *)

Definition grows (a b : Catalog) : Prop :=
  ∀ name t, ct_tables a !! name = Some t → ∃ t', ct_tables b !! name = Some t' ∧ ∃ more, tb_columns t' = tb_columns t ++ more.

#[export] Instance grows_preorder : PreOrder grows.
Proof.
  split; [intros c name t Ht; exists t; split; [done|]; exists []; by rewrite app_nil_r|].
  intros a b c H1 H2 name t (t1 & Ht1 & m1 & E1)%H1. apply H2 in Ht1 as (t2 & Ht2 & m2 & E2). exists t2. split; [done|].
  exists (m1 ++ m2). by rewrite E2, E1, app_assoc.
Qed.

Lemma additive_grows s c c' : additive s = true → effect s c = Some c' → grows c c'.
Proof.
  assert (∀ name t, ct_tables c !! name = Some t → ∃ t', ct_tables c !! name = Some t' ∧ ∃ more, tb_columns t' = tb_columns t ++ more) as Hrefl.
  { intros n t Ht. by apply (PreOrder_Reflexive (R := grows)). }
  destruct s as [ine name cs|name table cols| | | |table column| | |]; cbn [additive effect]; try done; intros _.
  - destruct (ct_tables c !! name) as [t0|] eqn:E; [destruct ine; [by intros [= <-]|done]|]. intros [= <-] n t Ht. cbn.
    rewrite lookup_insert_ne by congruence. by apply Hrefl.
  - destruct (ct_indexes c !! name); [by intros [= <-]|]. intros (t & _ & H)%bind_Some. destruct (has_columns _ _); by simplify_eq.
  - intros (t & Ht & H)%bind_Some. destruct (col_index _ _); [done|]. injection H as <-. intros n t' Ht'. cbn.
    destruct (decide (n = table)) as [->|]; [|rewrite lookup_insert_ne by done; by apply Hrefl].
    rewrite lookup_insert_eq. simplify_eq. eexists. split; [done|]. cbn. eauto.
Qed.

Lemma additive_allocations s c c' t : additive s = true → effect s c = Some c' →
  ct_tables c !! "allocations" = Some t → ct_tables c' !! "allocations" = Some t.
Proof.
  intros Ha He Ht. destruct s as [ine name cs|name table cols| | | |table column| | |]; cbn [additive effect] in *; try done.
  - destruct (ct_tables c !! name) eqn:E; [destruct ine; by simplify_eq|]. injection He as <-. cbn. rewrite lookup_insert_ne; [done|congruence].
  - destruct (ct_indexes c !! name); [by simplify_eq|]. apply bind_Some in He as (? & _ & He). destruct (has_columns _ _); by simplify_eq.
  - apply bind_Some in He as (? & _ & He). destruct (col_index _ _); [done|]. injection He as <-. cbn. rewrite lookup_insert_ne; [done|].
    intros ->. by rewrite String.eqb_refl in Ha.
Qed.

Lemma grows_has_col a b table name : grows a b → has_col a table name → has_col b table name.
Proof.
  intros Hg (t & (t' & Ht' & more & E)%Hg & [i Hi]). exists t'. split; [done|]. rewrite E. exists i. by apply find_index_app.
Qed.

Lemma grows_table a b name : grows a b → is_Some (ct_tables a !! name) → is_Some (ct_tables b !! name).
Proof. intros Hg [t (t' & Ht' & _)%Hg]. eauto. Qed.

Lemma effects_grow script c c' : forallb additive script = true → effects script c = Some c' → grows c c'.
Proof.
  revert c. induction script as [|s script IH]; intros c; cbn [forallb effects]; [by intros _ [= <-]|].
  intros [Hs H]%andb_true_iff (c1 & H1 & H2)%bind_Some. transitivity c1; [by eapply additive_grows|by apply IH].
Qed.

Lemma schema_makes_tables c c' : effects SCHEMA c = Some c' → all_tables c'.
Proof.
  assert (forallb additive SCHEMA = true) as Ha by done. unfold all_tables. revert c Ha. induction SCHEMA as [|s script IH]; intros c Ha He ine name cs Hin.
  - by apply elem_of_nil in Hin.
  - cbn [forallb effects] in *. apply andb_true_iff in Ha as [Hs Ha]. apply bind_Some in He as (c1 & H1 & H2).
    apply elem_of_cons in Hin as [<-|Hin]; [|by eapply IH]. apply (grows_table c1); [by eapply effects_grow|].
    cbn [effect] in H1. destruct (ct_tables c !! name) eqn:E; [destruct ine; [by injection H1 as <-; rewrite E|done]|].
    injection H1 as <-. cbn. rewrite lookup_insert_eq. eauto.
Qed.

(** *** The steps of a healthy opening *)

Definition stays_quiet (k k' : Conn) : Prop := cn_outcomes k = [] → cn_outcomes k' = [].

#[export] Instance stays_quiet_preorder : PreOrder stays_quiet.
Proof. split; [intros k; exact id|]. intros a b c H1 H2 H. auto. Qed.

Lemma abort_quiet k : cn_outcomes k = [] → cn_outcomes (conn_abort k) = [].
Proof. unfold conn_abort. by destruct (cn_saved k). Qed.

Lemma exec_quiet script : keeps stays_quiet (sqlite3_exec script).
Proof.
  induction script as [|s script IH]; cbn [sqlite3_exec]; [apply keeps_ret, _|]. apply keeps_bind; [apply _| |intros [|]; [done|apply keeps_ret, _]].
  intros k ok k' Hrun Ho. unfold run_stmt, conn_outcome in Hrun. rewrite Ho in Hrun.
  destruct s, (cn_saved k); try (match type of Hrun with context [effect ?s ?c] => destruct (effect s c) end); by injection Hrun as _ <-.
Qed.

Lemma migration_quiet script : keeps stays_quiet (exec_migration script).
Proof.
  unfold exec_migration. apply keeps_bind; [apply _|apply exec_quiet|]. intros ok. destruct (negb ok); [|apply keeps_ret, _].
  apply keeps_bind; [apply _| |intros ?; apply keeps_ret, _]. intros k ? k' [= <- <-]. exact (abort_quiet k).
Qed.

Lemma migrate_primary_key_healthy k rc k' : healthy k → clean (cn_catalog k) → all_tables (cn_catalog k) →
  migrate_allocations_primary_key k = (rc, k') → rc = 0 → healthy k' ∧ all_tables (cn_catalog k') ∧ keyed_allocations (cn_catalog k').
Proof.
  intros Hk Hc Ht. unfold migrate_allocations_primary_key. rewrite bind_step, table_info_healthy by done. cbn [fst snd].
  destruct (Ht true "allocations" allocations_columns) as [t Hal]; [unfold SCHEMA; set_solver|]. rewrite Hal.
  destruct ((pk_position _ _ =? 1) && _) eqn:E.
  - intros [= <- <-] _. apply andb_true_iff in E as [E1%Z.eqb_eq E2%Z.eqb_eq]. split; [done|]. split; [done|]. by exists t.
  - intros Hrun ->. assert (cn_outcomes k' = []) as Ho by (eapply migration_quiet; [exact Hrun|by apply Hk]).
    apply (exec_migration_spec with_primary_key_body) in Hrun as [Hs [[? _]|[_ Heff]]]; [done| |done|by apply Hk].
    split; [done|]. apply with_primary_key_rebuilds in Heff as [Hother (rows & _ & Hnew)]; [|done]. split.
    + intros ine name cs Hin. destruct (decide (name = "allocations")) as [->|Hne]; [by rewrite Hnew|].
      rewrite Hother; [by eapply Ht|]. intros Hn. unfold SCHEMA in Hin. set_solver.
    + eexists. split; [exact Hnew|]. by vm_compute.
Qed.

Lemma find_index_last {A} (p : A → bool) l x : p x = true → is_Some (find_index p (l ++ [x])).
Proof.
  intros Hx. induction l as [|y l IH]; cbn [find_index app]; [rewrite Hx; eauto|]. destruct (p y); [eauto|].
  destruct IH as [i ->]. cbn. eauto.
Qed.

(** A statement whose error is ignored. *)
Lemma ignored s k : (run_stmt s ;; mret tt) k = (tt, (run_stmt s k).2).
Proof. by rewrite bind_step. Qed.

Lemma tolerated_healthy script k : forallb additive script = true → healthy k →
  ∃ c, st_iter (λ s, run_stmt s ;; mret tt) script k = (tt, mkConn None c []) ∧ grows (cn_catalog k) c ∧
    (∀ t, ct_tables (cn_catalog k) !! "allocations" = Some t → ct_tables c !! "allocations" = Some t) ∧
    (∀ table column, AddColumn table column ∈ script → is_Some (ct_tables (cn_catalog k) !! table) → has_col c table (c_name column)).
Proof.
  revert k. induction script as [|s script IH]; intros k Ha Hk; cbn [st_iter forallb] in *.
  - exists (cn_catalog k). split; [destruct k, Hk; by simplify_eq/=|]. split; [done|]. split; [done|]. by intros ? ? ?%elem_of_nil.
  - apply andb_true_iff in Ha as [Hs Ha]. rewrite bind_step, ignored by done. cbn [fst snd].
    rewrite run_healthy by (done || by destruct s). set (k1 := snd _).
    assert (healthy k1 ∧ grows (cn_catalog k) (cn_catalog k1) ∧
      (∀ t, ct_tables (cn_catalog k) !! "allocations" = Some t → ct_tables (cn_catalog k1) !! "allocations" = Some t) ∧
      ∀ table column, s = AddColumn table column →
      is_Some (ct_tables (cn_catalog k) !! table) → has_col (cn_catalog k1) table (c_name column)) as (Hk1 & Hg & Hal & Hcol).
    { subst k1. destruct (effect s (cn_catalog k)) as [c|] eqn:E; cbn; (split; [done|]); (split; [first [reflexivity|by eapply additive_grows]|]);
        (split; [first [done|intros t Ht; by eapply additive_allocations]|]); intros table column -> [t Ht]; cbn [effect] in E; rewrite Ht in E; cbn [mbind option_bind] in E;
        destruct (col_index (c_name column) (tb_columns t)) eqn:Ei; simplify_eq.
      - eexists. cbn. rewrite lookup_insert_eq. split; [done|]. by apply find_index_last, String.eqb_refl.
      - exists t. split; [done|]. by rewrite Ei. }
    destruct (IH k1 Ha Hk1) as (c & -> & Hg' & Hal' & Hcols). exists c. split; [done|]. split; [by transitivity (cn_catalog k1)|].
    split; [by auto|].
    intros table column [Heq|Hin]%elem_of_cons Ht; [by eapply grows_has_col, Hcol|]. apply Hcols; [done|]. by eapply grows_table.
Qed.

(** The position that is read last is the position of one of the columns. *)
Lemma pk_position_column cs name : 0 < pk_position cs name → ∃ c, c ∈ cs ∧ String.eqb (c_name c) name && (0 <? c_pk c) = true.
Proof.
  unfold pk_position. enough (∀ pk, 0 < foldl (λ pk c, if String.eqb (c_name c) name then c_pk c else pk) pk cs →
    0 < pk ∨ ∃ c, c ∈ cs ∧ String.eqb (c_name c) name && (0 <? c_pk c) = true) as H by (intros [?|?]%H; [lia|done]).
  induction cs as [|c cs IH]; intros pk; cbn [foldl]; [auto|]. intros [H|(c' & Hin & H)]%IH.
  - destruct (String.eqb (c_name c) name) eqn:E; [|auto]. right. exists c. split; [apply list_elem_of_here|].
    rewrite E. by apply Z.ltb_lt.
  - right. exists c'. split; [by apply list_elem_of_further|done].
Qed.

(** With the key in place the second rebuild never runs. *)
Lemma migrate_schema_idle k : healthy k → keyed_allocations (cn_catalog k) → migrate_allocations_schema k = (0, k).
Proof.
  intros Hk (t & Ht & _ & Hpk). unfold migrate_allocations_schema. rewrite bind_step, table_info_healthy by done. cbn [fst snd].
  rewrite Ht. destruct (pk_position_column (tb_columns t) "machine_id") as (c & Hin & Hc); [lia|].
  replace (existsb _ _) with true; [done|]. symmetry. apply existsb_exists. exists c. split; [by apply list_elem_of_In|done].
Qed.

Lemma healthy_opening k k' : healthy k → clean (cn_catalog k) → db_open true k = (0, k') → healthy k' ∧ up_to_date (cn_catalog k').
Proof.
  intros Hk Hc. unfold db_open. cbn [negb]. rewrite bind_step. destruct (sqlite3_exec SCHEMA k) as [[|] k1] eqn:E1; cbn [fst snd negb]; [|done].
  assert (clean (cn_catalog k1)) as Hc1 by (eapply schema_safe; [exact E1|apply Hk|done]).
  apply exec_healthy in E1 as [Hk1 E1]; [|done..]. apply schema_makes_tables in E1.
  rewrite bind_step. destruct (migrate_allocations_primary_key k1) as [rc k2] eqn:E2. cbn [fst snd].
  destruct (Z.eqb_spec rc 0) as [->|]; cbn [negb]; [|done].
  apply migrate_primary_key_healthy in E2 as (Hk2 & Ht2 & t & Hal & Hpk); [|done..].
  rewrite bind_step. destruct (tolerated_healthy tolerated k2) as (c & -> & Hg & Hkeep & Hcols); [done..|]. cbn [fst snd].
  assert (keyed_allocations c) as Hpk' by (exists t; auto).
  rewrite bind_step, migrate_schema_idle by done. cbn [fst snd Z.eqb negb]. intros [= <-]. split; [done|]. split; [|split; [|done]].
  - intros ine name cs Hin. eapply grows_table; [exact Hg|]. by eapply Ht2.
  - intros p Hp. apply Hcols.
    + unfold tolerated. apply elem_of_app. left. apply list_elem_of_fmap. by exists p.
    + assert (∃ ine cs, CreateTable ine p.1 cs ∈ SCHEMA) as (ine & cs & Hin); [|by eapply Ht2].
      revert p Hp. apply Forall_forall. unfold added_columns.
      repeat (apply Forall_cons; split); try apply Forall_nil_2; eexists true, _; unfold SCHEMA; cbn [fst];
        repeat first [apply list_elem_of_here|apply list_elem_of_further].
Qed.

(** Nothing is left to do for a statement on a database that is up to date. *)
Definition same_tables (k k' : Conn) : Prop :=
  healthy k → up_to_date (cn_catalog k) → healthy k' ∧ ct_tables (cn_catalog k') = ct_tables (cn_catalog k).

Lemma up_to_date_tables a b : ct_tables b = ct_tables a → up_to_date a → up_to_date b.
Proof. destruct a, b. simpl. by intros ->. Qed.

#[export] Instance same_tables_preorder : PreOrder same_tables.
Proof.
  split; [by intros k|]. intros a b c H1 H2 Hh Hu. destruct (H1 Hh Hu) as [Hh' E]. destruct (H2 Hh') as [? E'].
  - by eapply up_to_date_tables.
  - split; [done|]. by rewrite E'.
Qed.

Lemma in_forallb {A} (p : A → bool) l x : x ∈ l → forallb p l = true → p x = true.
Proof. rewrite list_elem_of_In, forallb_forall. auto. Qed.

Definition creates_table (s : Stmt) : bool := match s with CreateTable _ _ _ => true | _ => false end.
Definition adds_column (s : Stmt) : bool := match s with AddColumn _ _ => true | _ => false end.

Lemma idle_statement s c c' : s ∈ SCHEMA ++ tolerated → up_to_date c → effect s c = Some c' → ct_tables c' = ct_tables c.
Proof.
  intros Hs (Ht & Ha & _) He. destruct s as [ine name cs|name table cols| | | |table column| | |]; cbn [effect] in He;
    try (by apply (in_forallb additive) in Hs).
  - apply elem_of_app in Hs as [Hs|Hs]; [|by apply (in_forallb (λ s, negb (creates_table s))) in Hs].
    destruct (Ht _ _ _ Hs) as [t E]. rewrite E in He. destruct ine; by simplify_eq.
  - destruct (ct_indexes c !! name); [by simplify_eq|]. apply bind_Some in He as (t & _ & He). destruct (has_columns _ _); by simplify_eq.
  - apply elem_of_app in Hs as [Hs|Hs]; [by apply (in_forallb (λ s, negb (adds_column s))) in Hs|].
    assert ((table, column) ∈ added_columns) as Hin.
    { unfold tolerated in Hs. apply elem_of_app in Hs as [Hs|Hs]; [|set_solver]. apply list_elem_of_fmap in Hs as ([? ?] & [= -> ->] & Hs). done. }
    destruct (Ha _ Hin) as (t & E & [i Hi]). cbn [fst snd] in *. rewrite E in He. cbn [mbind option_bind] in He. by rewrite Hi in He.
Qed.

Lemma run_idle s : s ∈ SCHEMA ++ tolerated → plain s = true → keeps same_tables (run_stmt s).
Proof.
  intros Hs Hp k ok k' Hrun Hh Hu. rewrite run_healthy in Hrun by done. destruct (effect s (cn_catalog k)) as [c|] eqn:E; simplify_eq; [|done].
  split; [done|]. by eapply idle_statement.
Qed.

Lemma exec_idle script : (∀ s, s ∈ script → s ∈ SCHEMA ++ tolerated) → forallb plain script = true → keeps same_tables (sqlite3_exec script).
Proof.
  induction script as [|s script IH]; cbn [sqlite3_exec forallb]; intros Hs Hp; [apply keeps_ret, _|]. apply andb_true_iff in Hp as [Hp Hps].
  apply keeps_bind; [apply _|apply run_idle; [apply Hs, list_elem_of_here|done]|]. intros [|]; [|apply keeps_ret, _].
  apply IH; [|done]. intros s' Hs'. by apply Hs, list_elem_of_further.
Qed.

(** C14. Opening brings a database up to date: when no statement fails and
    the opening succeeds, every table the program uses exists, every column
    added since the first version is there, and the allocations are keyed by
    job and machine; and opening the database again changes no table. *)
Theorem db_open_brings_up_to_date k k' :
  cn_outcomes k = [] → cn_saved k = None → clean (cn_catalog k) → db_open true k = (0, k') →
  up_to_date (cn_catalog k') ∧ ∀ rc k'', db_open true k' = (rc, k'') → ct_tables (cn_catalog k'') = ct_tables (cn_catalog k').
Proof.
  intros Ho Hs Hc Hrun. destruct (healthy_opening k k') as [Hk' Hu]; [done..|]. split; [done|]. intros rc k'' Hagain.
  enough (keeps same_tables (db_open true)) as Hsame by (by eapply Hsame). clear. unfold db_open. cbn [negb].
  apply keeps_bind; [apply _|apply exec_idle; [intros s Hs; apply elem_of_app; by left|done]|]. intros [|]; cbn [negb]; [|apply keeps_ret, _].
  apply keeps_bind; [apply _| |].
  - intros k rc k' Hrun Hk Hu. unfold migrate_allocations_primary_key in Hrun. rewrite bind_step, table_info_healthy in Hrun by done.
    destruct Hu as (_ & _ & t & Ht & E1 & E2). cbn [fst snd] in Hrun. rewrite Ht, E1, E2 in Hrun. by injection Hrun as _ <-.
  - intros rc. destruct (negb _); [apply keeps_ret, _|]. apply keeps_bind; [apply _| |].
    + apply keeps_iter_in; [apply _|]. intros s Hin. apply keeps_bind; [apply _| |intros ?; apply keeps_ret, _].
      apply run_idle; [apply elem_of_app; by right|]. by apply (in_forallb plain tolerated).
    + intros _. apply keeps_bind; [apply _| |intros rc'; destruct (negb _); apply keeps_ret, _].
      intros k rc' k' Hrun Hk Hu. rewrite migrate_schema_idle in Hrun; [by injection Hrun as _ <-|done|apply Hu].
Qed.

(** *** A database of an early version *)

Definition legacy_allocations : Table :=
  mkTable [keyed 1 (col "TEXT" "job_id"); required "TEXT" "machine_id"; int_default "cores" 0; int_default "gpu" 0;
           int_default "ram_mb" 0; int_default "disk_mb" 0; col "INTEGER" "allocated_at"; col "INTEGER" "released_at"]
    [[VText "j1"; VText "m1"; VInt 2; VInt 0; VInt 512; VInt 0; VInt 10; VNull];
     [VText "j2"; VText "m1"; VInt 1; VInt 1; VInt 256; VInt 0; VInt 11; VInt 20]].
Definition legacy_keys : Table :=
  mkTable [keyed 1 (col "TEXT" "key_hash"); required "TEXT" "label"; required "INTEGER" "created_at"; int_default "revoked" 0]
    [[VText "k"; VText "admin"; VInt 5; VInt 0]].
Definition legacy : Catalog :=
  mkCatalog (<["allocations" := legacy_allocations]> (<["api_keys" := legacy_keys]> ∅)) {["idx_allocations_active" := ("allocations", ["released_at"])]}.

Lemma legacy_clean : clean legacy.
Proof.
  intros rows H. vm_compute in H. injection H as <-. split.
  - apply (bool_decide_unpack (NoDup _)). by vm_compute.
  - repeat constructor; discriminate.
Qed.


Lemma db_open_brings_up_to_date_witness :
  let after := (db_open true (mkConn None legacy [])).2 in
  up_to_date (cn_catalog after) ∧ select (cn_catalog after) "api_keys" ["key_hash"; "role"] = Some [[VText "k"; VText "admin"]].
Proof.
  split; [|vm_compute; reflexivity].
  assert ((db_open true (mkConn None legacy [])).1 = 0) as H0 by (vm_compute; reflexivity).
  destruct (db_open true (mkConn None legacy [])) as [rc k'] eqn:E. cbn [fst snd] in *. subst rc.
  apply db_open_brings_up_to_date in E as [Hu _]; [exact Hu|reflexivity|reflexivity|exact legacy_clean].
Defined.

(** The rebuilt table has lost its index until the next opening. *)
Example rebuild_loses_index :
  let once := (db_open true (mkConn None legacy [])).2 in let twice := (db_open true once).2 in
  (ct_indexes (cn_catalog once) !! "idx_allocations_active", ct_indexes (cn_catalog twice) !! "idx_allocations_active") =
  (None, Some ("allocations", ["released_at"])).
Proof. vm_compute. reflexivity. Qed.

(** A column that could not be added is not reported. *)
Example failed_column_is_not_reported :
  let r := db_open true (mkConn None legacy (replicate 27 StmtOk ++ [PrepareFails])) in
  (r.1, bool_decide (is_Some (select (cn_catalog r.2) "jobs" ["user_id"]))) = (0, false).
Proof. vm_compute. reflexivity. Qed.

(** Keys of the first version become administrators' keys. *)
Example early_keys_are_admin_keys :
  select (cn_catalog (db_open true (mkConn None legacy [])).2) "api_keys" ["role"; "user_id"; "expires_at"] =
  Some [[VText "admin"; VText ""; VInt 0]].
Proof. vm_compute. reflexivity. Qed.
