(* ===== verification/DbInv.v ===== *)
(** The integrity of the database across every operation of
    src/persistence/db.c: the primary keys of the schema stay unique, whatever
    statements fail and whatever transactions are rolled back. *)
From S2P Require Import Prelude Job Registry Sql Db DbAdmin.

(** ** The keys of the schema *)

Definition alloc_key (a : Allocation) : string * string := (al_job_id a, al_machine_id a).
Definition artifact_triple (a : ArtifactRecord) : string * string * string := (a_job_id a, a_type a, a_uri a).
Definition quota_key (q : Quota) : string * string := (qt_user_id q, qt_app_id q).
Definition submission_key (s : SubmissionKey) : string * string := (sk_user_id s, sk_key s).

Record tables_ok (t : Tables) : Prop := {
  pk_jobs : NoDup (j_id <$> t_jobs t);
  pk_api_keys : NoDup (k_key_hash <$> t_api_keys t);
  pk_allocations : NoDup (alloc_key <$> t_allocations t);
  pk_batches : NoDup (b_id <$> t_batches t);
  pk_artifacts : NoDup (artifact_triple <$> t_artifacts t);
  pk_artifact_ids : NoDup (a_id <$> t_artifacts t) ∧ ∀ a, a ∈ t_artifacts t → a_id a ≤ t_artifact_seq t;
  pk_quotas : NoDup (quota_key <$> t_quotas t);
  pk_users : NoDup (u_user_id <$> t_users t);
  pk_workflows : NoDup (w_id <$> t_workflows t);
  pk_favorites : NoDup (t_workflow_favorites t);
  pk_events : NoDup (e_id <$> t_events t) ∧ ∀ e, e ∈ t_events t → e_id e ≤ t_event_seq t;
  pk_submission_keys : NoDup (submission_key <$> t_submission_keys t);
}.

(** A property of the tables, and of those that a rollback would restore. *)
Section db_inv.
Context (I : Tables → Prop).

Definition db_inv (d : Db) : Prop := I (tables d) ∧ ∀ t, sq_saved d = Some t → I t.
Definition db_inv_kept (d d' : Db) : Prop := db_inv d → db_inv d'.

#[export] Instance db_inv_kept_preorder : PreOrder db_inv_kept.
Proof. split; [by intros d H|]. intros a b c; unfold db_inv_kept; auto. Qed.

Lemma dml_inv f : (∀ now t t' n, I t → f now t = Some (t', n) → I t') → keeps db_inv_kept (dml f).
Proof.
  intros Hf d ok d' (_ & H)%dml_spec [Ht Hs]. unfold db_inv.
  destruct H as [(_ & -> & n & Hn & _)|(_ & [[-> ->]|[E ->]])]; [|done|].
  - split; [by eapply Hf|done].
  - split; [by apply Hs|done].
Qed.

Lemma query_inv {R} (f : Z → Tables → list R) : keeps db_inv_kept (query f).
Proof.
  intros d r d' (_ & [[Ht Hs]|[E1 E2]] & _)%query_spec [H1 H2]; unfold db_inv.
  - by rewrite Ht, Hs.
  - rewrite E2. split; [by apply H2|done].
Qed.
Lemma sq_begin_inv : keeps db_inv_kept sq_begin.
Proof.
  intros d r d'. unfold sq_begin. destruct (s_open d); simpl; [|by intros [= <- <-]].
  destruct (next_outcome d) as [o d1] eqn:E. apply next_outcome_frame in E as (_ & Ht & Hs).
  destruct d1 as [? ? sv ? ? ? ?]; simpl in *; subst.
  destruct o, (sq_saved d) eqn:Es; intros [= <- <-] [H1 H2]; split; simpl; auto; try done.
  all: intros ? [= <-]; auto.
Qed.

Lemma sq_abort_inv d : db_inv d → db_inv (sq_abort d).
Proof. destruct d as [? ? [t|] ? ? ? ?]; intros [H1 H2]; split; simpl in *; auto; done. Qed.

Lemma sq_commit_inv : keeps db_inv_kept sq_commit.
Proof.
  intros d r d'. unfold sq_commit. destruct (s_open d); simpl; [|by intros [= <- <-]].
  destruct (next_outcome d) as [o d1] eqn:E. apply next_outcome_frame in E as (_ & Ht & Hs).
  intros Hrun Hok. assert (db_inv d1) as Hok1 by (unfold db_inv; by rewrite Ht, Hs).
  destruct o, (sq_saved d1) eqn:Es; simplify_eq; try done; try by apply sq_abort_inv.
  split; [|by destruct d1]. destruct Hok1. by destruct d1.
Qed.

Lemma sq_rollback_inv : keeps db_inv_kept sq_rollback.
Proof.
  intros d r d'. unfold sq_rollback. destruct (sq_saved d) eqn:E; intros [= <- <-]; [|done].
  intros H. by apply sq_abort_inv.
Qed.

Lemma flag_inv b d : db_inv (set_s_transaction_active b d) ↔ db_inv d.
Proof. by destruct d. Qed.

Lemma db_begin_inv : keeps db_inv_kept db_begin.
Proof.
  intros d r d'. unfold db_begin. repeat case_match; intros [= <- <-]; try done;
    intros Hok; rewrite ?flag_inv; by eapply sq_begin_inv.
Qed.

Lemma db_commit_inv : keeps db_inv_kept db_commit.
Proof.
  intros d r d'. unfold db_commit. case_match; [by intros [= <- <-]|].
  destruct (sq_commit d) as [ok d1] eqn:E. intros [= <- <-] Hok. rewrite flag_inv.
  pose proof (sq_commit_inv d ok d1 E Hok) as H1. destruct ok; [done|].
  destruct (sq_rollback d1) as [r d2] eqn:E2. by eapply sq_rollback_inv.
Qed.

Lemma db_rollback_inv : keeps db_inv_kept db_rollback.
Proof.
  intros d r d'. unfold db_rollback. case_match; [by intros [= <- <-]|].
  destruct (sq_rollback d) as [ok d1] eqn:E. intros [= <- <-] Hok. rewrite flag_inv.
  by eapply sq_rollback_inv.
Qed.
End db_inv.

Definition db_ok (d : Db) : Prop := tables_ok (tables d) ∧ ∀ t, sq_saved d = Some t → tables_ok t.

Definition db_ok_kept (d d' : Db) : Prop := db_ok d → db_ok d'.

#[export] Instance db_ok_kept_preorder : PreOrder db_ok_kept.
Proof. split; [by intros d H|]. intros a b c; unfold db_ok_kept; auto. Qed.

(** ** Statements that keep them *)

Definition preserves (f : Z → Tables → option (Tables * Z)) : Prop :=
  ∀ now t t' n, tables_ok t → f now t = Some (t', n) → tables_ok t'.

Lemma dml_keeps f : preserves f → keeps db_ok_kept (dml f).
Proof. exact (dml_inv tables_ok f). Qed.

Lemma dml_rc_keeps f : preserves f → keeps db_ok_kept (dml_rc f).
Proof. intros H. apply keeps_bind; [apply _|by apply dml_keeps|intros; apply keeps_ret, _]. Qed.

Lemma dml_changed_keeps f : preserves f → keeps db_ok_kept (dml_changed f).
Proof.
  intros H. apply keeps_bind; [apply _|by apply dml_keeps|]. intros ok.
  apply keeps_bind; [apply _|apply keeps_gets, _|intros; apply keeps_ret, _].
Qed.

Lemma query_keeps {R} (f : Z → Tables → list R) : keeps db_ok_kept (query f).
Proof. exact (query_inv tables_ok f). Qed.

Lemma sq_begin_keeps : keeps db_ok_kept sq_begin.
Proof. exact (sq_begin_inv tables_ok). Qed.
Lemma sq_commit_keeps : keeps db_ok_kept sq_commit.
Proof. exact (sq_commit_inv tables_ok). Qed.
Lemma sq_rollback_keeps : keeps db_ok_kept sq_rollback.
Proof. exact (sq_rollback_inv tables_ok). Qed.
Lemma db_begin_keeps : keeps db_ok_kept db_begin.
Proof. exact (db_begin_inv tables_ok). Qed.
Lemma db_commit_keeps : keeps db_ok_kept db_commit.
Proof. exact (db_commit_inv tables_ok). Qed.
Lemma db_rollback_keeps : keeps db_ok_kept db_rollback.
Proof. exact (db_rollback_inv tables_ok). Qed.

Lemma db_keeps_ret {A} (x : A) : keeps db_ok_kept (mret x).
Proof. apply keeps_ret, _. Qed.
Lemma db_keeps_gets {A} (f : Db → A) : keeps db_ok_kept (st_gets f).
Proof. apply keeps_gets, _. Qed.
Lemma db_keeps_bind {A B} (m : ST Db A) (f : A → ST Db B) :
  keeps db_ok_kept m → (∀ a, keeps db_ok_kept (f a)) → keeps db_ok_kept (m ≫= f).
Proof. apply keeps_bind, _. Qed.

Create HintDb dbk.
#[export] Hint Resolve dml_keeps dml_rc_keeps dml_changed_keeps query_keeps sq_begin_keeps sq_commit_keeps
  sq_rollback_keeps db_begin_keeps db_commit_keeps db_rollback_keeps db_keeps_ret db_keeps_gets : dbk.

(** *** Keys under the relational operations *)

Lemma NoDup_update {A B} (g : A → B) p f (l : list A) :
  (∀ x, g (f x) = g x) → NoDup (g <$> l) → NoDup (g <$> update_where p f l).
Proof. intros H. by rewrite update_where_fmap. Qed.

Lemma where_sublist {A} (p : A → bool) l : where_ p l `sublist_of` l.
Proof. apply sublist_filter. Qed.

Lemma NoDup_delete {A B} (g : A → B) p (l : list A) : NoDup (g <$> l) → NoDup (g <$> delete_where p l).
Proof. intros H. eapply sublist_NoDup; [done|]. apply fmap_sublist, where_sublist. Qed.

Lemma NoDup_snoc {A B} (g : A → B) (l : list A) x :
  (∀ y, y ∈ l → g y ≠ g x) → NoDup (g <$> l) → NoDup (g <$> l ++ [x]).
Proof.
  intros Hx H. rewrite fmap_app. apply NoDup_app. split; [done|]. split; [|apply NoDup_singleton].
  intros y (z & -> & Hz)%list_elem_of_fmap Hy%list_elem_of_singleton. by apply (Hx z).
Qed.

Lemma NoDup_insert_new {A B} (g : A → B) (p : A → bool) (l : list A) x :
  (∀ y, g y = g x → p y = true) → existsb p l = false → NoDup (g <$> l) → NoDup (g <$> l ++ [x]).
Proof.
  intros Hp Hex. apply NoDup_snoc. intros y Hy Hg. specialize (Hp y Hg).
  assert (existsb p l = true) by (apply existsb_exists; exists y; by rewrite <- list_elem_of_In). congruence.
Qed.

Lemma NoDup_replace {A B} (g : A → B) (p : A → bool) (l : list A) x :
  (∀ y, g y = g x → p y = true) → NoDup (g <$> l) → NoDup (g <$> delete_where p l ++ [x]).
Proof.
  intros Hp H. apply NoDup_snoc; [|by apply NoDup_delete].
  intros y [Hy _]%where_elem Hg. rewrite (Hp y Hg) in Hy. done.
Qed.

(** Split the invariant of the new tables; all but the changed one are as before. *)
Ltac tables_split :=
  intros now t t' n ?; simpl; intros; repeat (case_match; try done); simplify_eq; try done;
  match goal with H : tables_ok ?u |- _ => destruct u, H; split; simpl in *; try done end.

Ltac key_eq := intros; unfold alloc_key, quota_key, submission_key, artifact_triple in *; simplify_eq/=;
  unfold job_is, key_is, user_is, quota_is, workflow_is, artifact_key; 
  repeat match goal with E : _ =@{string} _ |- _ => rewrite E; clear E end; by rewrite ?String.eqb_refl.

Lemma update_jobs_preserves p f : (∀ j, j_id (f j) = j_id j) → preserves (λ _, update_jobs p f).
Proof. intros Hf. unfold update_jobs. tables_split. by apply NoDup_update. Qed.
Lemma update_jobs_preserves' p f : (∀ now j, j_id (f now j) = j_id j) → preserves (λ now, update_jobs p (f now)).
Proof. intros Hf. unfold update_jobs. tables_split. by apply NoDup_update. Qed.
Lemma update_users_preserves p f : (∀ j, u_user_id (f j) = u_user_id j) → preserves (λ _, update_users p f).
Proof. intros Hf. unfold update_users. tables_split. by apply NoDup_update. Qed.

Ltac jobs_update := first [apply update_jobs_preserves | apply update_jobs_preserves']; intros; match goal with |- context [j_id ?x] => idtac end; by match goal with j : Job |- _ => destruct j end.
#[export] Hint Extern 5 (preserves (λ _, update_jobs _ _)) => jobs_update : dbk.
#[export] Hint Extern 5 (preserves (λ _, update_users _ _)) => by apply update_users_preserves; intros [] : dbk.

Ltac keep_step :=
  match goal with
  | |- keeps _ (mbind _ _) => apply db_keeps_bind; [|intros]
  | |- keeps _ (if ?b then _ else _) => destruct b
  | |- keeps _ (match ?x with _ => _ end) => destruct x
  | |- keeps _ _ => progress eauto 3 with dbk
  end.
Ltac keep := repeat keep_step.

(** ** Every operation keeps them *)

Ltac by_update := tables_split; eapply NoDup_update; [by intros []|done].
Ltac by_delete := tables_split; by apply NoDup_delete.

Lemma insert_job_preserves job : preserves (λ _ t,
  if existsb (job_is (j_id job)) (t_jobs t) then None
  else Some (set_t_jobs (t_jobs t ++ [job_row job]) t, 1)).
Proof.
  tables_split. eapply NoDup_insert_new; [|done|done]. intros y Hy.
  unfold job_is. rewrite Hy. destruct job. by apply String.eqb_eq.
Qed.

Lemma release_open_preserves : preserves release_open_allocations.
Proof. unfold release_open_allocations. by_update. Qed.

Lemma fail_interrupted_preserves reason : preserves (fail_interrupted reason).
Proof. unfold fail_interrupted. apply (update_jobs_preserves' interrupted). by intros ? []. Qed.

Lemma artifact_insert_preserves (a : ArtifactRecord) :
  let same := artifact_key (a_job_id a) (a_type a) (a_uri a) in
  preserves (λ _ t,
    if existsb same (t_artifacts t) then
      Some (set_t_artifacts (update_where same
              (λ o, mkArtifact (a_id o) (a_job_id o) (a_type o) (a_uri o) (a_size_bytes a) (a_checksum a)
                      (a_created_at o)) (t_artifacts t)) t, 1)
    else
      let id := t_artifact_seq t + 1 in
      Some (set_t_artifact_seq id
              (set_t_artifacts (t_artifacts t ++
                 [mkArtifact id (a_job_id a) (a_type a) (a_uri a) (a_size_bytes a) (a_checksum a) (a_created_at a)]) t), 1)).
Proof.
  intros same. tables_split.
  - by apply NoDup_update.
  - destruct pk_artifact_ids0 as [Ha1 Ha2]. split; [by apply NoDup_update|].
    intros x (y & Hy & ->)%update_where_elem. case_match; simpl; auto.
  - eapply NoDup_insert_new; [|done|done]. subst same. key_eq.
  - destruct pk_artifact_ids0 as [Ha1 Ha2]. split.
    + apply NoDup_snoc; [|done]. intros y Hy%Ha2; simpl. lia.
    + intros x [Hx%Ha2| ->%list_elem_of_singleton]%elem_of_app; simpl; lia.
Qed.

Lemma event_insert_preserves c ty de u j m : preserves (λ now t,
  let id := t_event_seq t + 1 in
  Some (set_t_event_seq id (set_t_events (t_events t ++ [mkEvent id c ty de u j m now]) t), 1)).
Proof.
  tables_split. destruct pk_events0 as [Ha1 Ha2]. split.
  - apply NoDup_snoc; [|done]. intros y Hy%Ha2; simpl. lia.
  - intros x [Hx%Ha2| ->%list_elem_of_singleton]%elem_of_app; simpl; lia.
Qed.

Lemma retry_delete_preserves job_id : preserves (λ _ t,
  let p a := String.eqb (a_job_id a) job_id in
  Some (set_t_artifacts (delete_where p (t_artifacts t)) t, count_where p (t_artifacts t))).
Proof.
  tables_split.
  - by apply NoDup_delete.
  - destruct pk_artifact_ids0 as [Ha1 Ha2]. split; [by apply NoDup_delete|].
    intros x [_ Hx]%where_elem. by apply Ha2.
Qed.

Lemma favorite_add_preserves user_id wf_id : preserves (λ _ t,
  if existsb (favorite_is user_id wf_id) (t_workflow_favorites t) then Some (t, 0)
  else Some (set_t_workflow_favorites (t_workflow_favorites t ++ [(user_id, wf_id)]) t, 1)).
Proof.
  tables_split. rewrite <- (list_fmap_id (t_workflow_favorites ++ _)).
  eapply (NoDup_insert_new id); [|done|by rewrite list_fmap_id].
  intros y Hy. unfold id in Hy. subst y. unfold favorite_is; simpl. by rewrite !String.eqb_refl.
Qed.

Lemma favorite_delete_preserves p : preserves (λ _ t,
  Some (set_t_workflow_favorites (delete_where p (t_workflow_favorites t)) t, count_where p (t_workflow_favorites t))).
Proof. tables_split. exact (sublist_NoDup _ _ pk_favorites0 (where_sublist _ _)). Qed.

#[export] Hint Resolve insert_job_preserves release_open_preserves fail_interrupted_preserves
  artifact_insert_preserves event_insert_preserves retry_delete_preserves favorite_add_preserves
  favorite_delete_preserves : dbk.

(** A row appended under a key that is absent, or that was just deleted. *)
Ltac by_insert := tables_split; eapply NoDup_insert_new; [|done|done]; key_eq.
Ltac by_replace := tables_split; apply NoDup_replace; [|done]; key_eq.
#[export] Hint Extern 6 (preserves _) => solve [by_update | by_delete | by_insert | by_replace] : dbk.

Lemma retry_keeps job_id : keeps db_ok_kept (db_retry_job job_id).
Proof. unfold db_retry_job, retry_body, retry_update, retry_delete_artifacts, retry_rollback. keep. Qed.

(** The calls a client can make, in any order; each is one uninterrupted
    call. *)
Inductive db_op : ∀ {A : Type}, ST Db A → Prop :=
  | op_close : db_op db_close
  | op_begin : db_op db_begin
  | op_commit : db_op db_commit
  | op_rollback : db_op db_rollback
  | op_insert_job j : db_op (db_insert_job j)
  | op_update_job_status i s c e : db_op (db_update_job_status i s c e)
  | op_retry_job i : db_op (db_retry_job i)
  | op_update_job_started i m t : db_op (db_update_job_started i m t)
  | op_load_jobs_by_status s : db_op (db_load_jobs_by_status s)
  | op_recover_after_restart : db_op db_recover_after_restart
  | op_recover_incomplete_jobs : db_op db_recover_incomplete_jobs
  | op_get_job i : db_op (db_get_job i)
  | op_list_jobs n : db_op (db_list_jobs n)
  | op_query_jobs u s a l o : db_op (db_query_jobs u s a l o)
  | op_list_held_jobs n : db_op (db_list_held_jobs n)
  | op_list_running_jobs n : db_op (db_list_running_jobs n)
  | op_list_queued_jobs n o : db_op (db_list_queued_jobs n o)
  | op_get_submission_job u k n : db_op (db_get_submission_job u k n)
  | op_store_submission_key u k i : db_op (db_store_submission_key u k i)
  | op_update_job_batch_id i b : db_op (db_update_job_batch_id i b)
  | op_insert_batch b : db_op (db_insert_batch b)
  | op_get_batch b : db_op (db_get_batch b)
  | op_get_batch_stats b : db_op (db_get_batch_stats b)
  | op_job_stats : db_op db_job_stats
  | op_upsert_artifact a : db_op (db_upsert_artifact a)
  | op_list_artifacts i n : db_op (db_list_artifacts i n)
  | op_insert_allocation i m r : db_op (db_insert_allocation i m r)
  | op_release_allocation i : db_op (db_release_allocation i)
  | op_update_input_files i f : db_op (db_update_input_files i f)
  | op_update_job_timeout i n : db_op (db_update_job_timeout i n)
  | op_update_depends_on i s : db_op (db_update_depends_on i s)
  | op_update_workflow_id i s : db_op (db_update_workflow_id i s)
  | op_update_same_machine_as i s : db_op (db_update_same_machine_as i s)
  | op_update_status_reason i s : db_op (db_update_status_reason i s)
  | op_update_job_submission j : db_op (db_update_job_submission j)
  | op_check_deps_status s : db_op (db_check_deps_status s)
  | op_audit e s : db_op (db_audit e s)
  | op_purge_jobs : db_op db_purge_jobs
  | op_insert_api_key_full h l r u e : db_op (db_insert_api_key_full h l r u e)
  | op_resolve_api_key_full h n : db_op (db_resolve_api_key_full h n)
  | op_list_api_keys n : db_op (db_list_api_keys n)
  | op_revoke_api_key h : db_op (db_revoke_api_key h)
  | op_create_user u : db_op (db_create_user u)
  | op_set_user_password u h : db_op (db_set_user_password u h)
  | op_check_user_password u h : db_op (db_check_user_password u h)
  | op_get_user_auth u n : db_op (db_get_user_auth u n)
  | op_find_user_key u n : db_op (db_find_user_key u n)
  | op_update_user u : db_op (db_update_user u)
  | op_delete_user u : db_op (db_delete_user u)
  | op_get_user u : db_op (db_get_user u)
  | op_list_user_records n : db_op (db_list_user_records n)
  | op_insert_quota q : db_op (db_insert_quota q)
  | op_update_quota q : db_op (db_update_quota q)
  | op_delete_quota u a : db_op (db_delete_quota u a)
  | op_list_quotas n : db_op (db_list_quotas n)
  | op_quota_check u a c m n : db_op (db_quota_check u a c m n)
  | op_insert_workflow w : db_op (db_insert_workflow w)
  | op_update_workflow w : db_op (db_update_workflow w)
  | op_delete_workflow w : db_op (db_delete_workflow w)
  | op_get_workflow w : db_op (db_get_workflow w)
  | op_list_workflows u n : db_op (db_list_workflows u n)
  | op_add_favorite u w : db_op (db_add_workflow_favorite u w)
  | op_remove_favorite u w : db_op (db_remove_workflow_favorite u w)
  | op_is_favorite u w : db_op (db_is_workflow_favorite u w)
  | op_insert_event c t s u j m : db_op (db_insert_event c t s u j m)
  | op_list_events n c f t : db_op (db_list_events n c f t).

(** One call, or time passing. *)
Inductive db_step : Db → Db → Prop :=
  | step_call {A} (m : ST Db A) a d d' : db_op m → m d = (a, d') → db_step d d'
  | step_tick d now : clock d ≤ now → db_step d (set_clock now d).

Definition fresh_db (os : list Outcome) (now : Z) : Db := mkDb true false None no_tables 0 now os.

Lemma check_deps_keeps tokens : keeps db_ok_kept (check_deps tokens).
Proof.
  induction tokens as [|tok tokens IH]; simpl; [keep|]. destruct (str_nonempty tok); simpl; [|done].
  apply db_keeps_bind; [apply query_keeps|]. intros [[[|s l] b]|]; [keep| |keep]. do 2 (case_match; [keep|]). done.
Qed.

Lemma first_quota_keeps l : keeps db_ok_kept (first_quota l).
Proof.
  induction l as [|[u a] l IH]; simpl; [keep|]. apply db_keeps_bind; [unfold db_get_quota; keep|].
  intros [q|]; [keep|done].
Qed.
#[export] Hint Resolve check_deps_keeps first_quota_keeps retry_keeps : dbk.

Lemma db_op_keeps {A} (m : ST Db A) : db_op m → keeps db_ok_kept m.
Proof.
  intros Hop. destruct Hop; try (eauto 3 with dbk; fail).
  all: lazymatch goal with |- keeps _ ?m => let h := eval red in m in change m with h end.
  all: try (keep; fail).
  intros d a d' [= <- <-]. intros H. by destruct d.
Qed.

(** Every state reachable from a new database file has unique keys. *)
Lemma db_reachable_ok os now d : rtc db_step (fresh_db os now) d → db_ok d.
Proof.
  intros Hrtc. refine (rtc_invariant _ db_ok _ _ _ Hrtc _).
  - intros x y Hstep Hok. destruct Hstep as [A m a x y Hop Hrun|x t _].
    + by eapply db_op_keeps.
    + by destruct x.
  - split; [|done]. split; simpl; try apply NoDup_nil_2; (split; [apply NoDup_nil_2|set_solver]).
Qed.
