(* ===== verification/Rows.v ===== *)
(** The rows of the database file as the records of the typed tables: how each
    table's cells are read and written, and what [db_open] makes of a file
    whose tables an earlier version created. *)
From S2P Require Import Prelude Job Registry Sql DbInv DbOpen DbOpenProps.

(** ** Cells *)

(** [sqlite3_column_text] and [sqlite3_column_int64]: NULL is the empty
    string or 0.  The columns' affinities keep the other values apart. *)
Definition text_of (v : Value) : option string := match v with VNull => Some "" | VText s => Some s | VInt _ => None end.
Definition int_of (v : Value) : option Z := match v with VNull => Some 0 | VInt z => Some z | VText _ => None end.
Definition time_of (v : Value) : option (option Z) := match v with VNull => Some None | VInt z => Some (Some z) | VText _ => None end.
Definition from_time (t : option Z) : Value := match t with Some z => VInt z | None => VNull end.

Definition job_statuses : list JobStatus :=
  [JOB_STATUS_QUEUED; JOB_STATUS_STARTING_legacy; JOB_STATUS_RUNNING; JOB_STATUS_SUCCEEDED; JOB_STATUS_CANCELLED; JOB_STATUS_FAILED; JOB_STATUS_CREATED].
Definition job_status_of (v : Value) : option JobStatus := z ← int_of v; head (filter (λ s, status_code s = z) job_statuses).

(** ** Rows *)

(** A kind of row: its table, its columns in their order, and the row as
    cells and back. *)
Class SqlRow (R : Type) := {
  row_table : string;
  row_columns : list string;
  row_write : R → list Value;
  row_read : list Value → option R;
  row_read_write r : row_read (row_write r) = Some r;
  row_write_length r : length (row_write r) = length row_columns
}.
Arguments row_table R {_}.
Arguments row_columns R {_}.

Definition read_job (v : list Value) : option Job :=
  match v with
  | [v0; v1; v2; v3; v4; v5; v6; v7; v8; v9; v10; v11; v12; v13; v14; v15; v16; v17; v18; v19; v20; v21; v22; v23] =>
      id ← text_of v0; command ← text_of v1; status ← job_status_of v2; priority ← int_of v3;
      cores ← int_of v4; gpu ← int_of v5; ram ← int_of v6; disk ← int_of v7;
      machine ← text_of v8; input_dir ← text_of v9; output_dir ← text_of v10; exit_code ← int_of v11;
      submitted ← int_of v12; started ← int_of v13; ended ← int_of v14; input_files ← text_of v15; timeout ← int_of v16;
      reason ← text_of v17; user ← text_of v18; app ← text_of v19; depends ← text_of v20; workflow ← text_of v21;
      same_machine ← text_of v22; batch ← text_of v23;
      Some (mkJob id command user app status priority cores gpu ram disk machine input_dir output_dir input_files submitted started ended
              exit_code timeout reason depends workflow batch same_machine)
  | _ => None
  end.
Definition write_job (j : Job) : list Value :=
  [VText (j_id j); VText (j_command j); VInt (status_code (j_status j)); VInt (j_priority j); VInt (j_req_cores j); VInt (j_req_gpu j);
   VInt (j_req_ram_mb j); VInt (j_req_disk_mb j); VText (j_machine_id j); VText (j_input_dir j); VText (j_output_dir j);
   VInt (j_exit_code j); VInt (j_submitted_at j); VInt (j_started_at j); VInt (j_ended_at j); VText (j_input_files j);
   VInt (j_timeout_seconds j); VText (j_status_reason j); VText (j_user_id j); VText (j_app_id j); VText (j_depends_on j);
   VText (j_workflow_id j); VText (j_same_machine_as j); VText (j_batch_id j)].

#[export, refine] Instance job_row_format : SqlRow Job := {|
  row_table := "jobs";
  row_columns := ["id"; "command"; "status"; "priority"; "req_cores"; "req_gpu"; "req_ram_mb"; "req_disk_mb"; "machine_id"; "input_dir";
                  "output_dir"; "exit_code"; "submitted_at"; "started_at"; "ended_at"; "input_files"; "timeout_seconds"; "status_reason";
                  "user_id"; "app_id"; "depends_on"; "workflow_id"; "same_machine_as"; "batch_id"];
  row_write := write_job; row_read := read_job;
  row_read_write := _; row_write_length := _
|}.
Proof. { intros j. unfold read_job, write_job. cbn [text_of int_of mbind option_bind]. by destruct j as [? ? ? ? []]. } done. Defined.

#[export, refine] Instance api_key_row : SqlRow ApiKeyInfo := {|
  row_table := "api_keys";
  row_columns := ["key_hash"; "label"; "role"; "user_id"; "created_at"; "expires_at"; "revoked"];
  row_write k := [VText (k_key_hash k); VText (k_label k); VText (k_role k); VText (k_user_id k); VInt (k_created_at k); VInt (k_expires_at k);
                  VInt (k_revoked k)];
  row_read v := match v with
    | [v0; v1; v2; v3; v4; v5; v6] =>
        hash ← text_of v0; label ← text_of v1; role ← text_of v2; user ← text_of v3; created ← int_of v4; expires ← int_of v5; revoked ← int_of v6;
        Some (mkApiKey hash label role user created expires revoked)
    | _ => None
    end;
  row_read_write := _; row_write_length := _
|}.
Proof. { by intros []. } done. Defined.

#[export, refine] Instance allocation_row : SqlRow Allocation := {|
  row_table := "allocations";
  row_columns := ALLOC_COLS;
  row_write a := [VText (al_job_id a); VText (al_machine_id a); VInt (r_cores (al_res a)); VInt (r_gpu (al_res a)); VInt (r_ram_mb (al_res a));
                  VInt (r_disk_mb (al_res a)); VInt (al_allocated_at a); from_time (al_released_at a)];
  row_read v := match v with
    | [v0; v1; v2; v3; v4; v5; v6; v7] =>
        job ← text_of v0; machine ← text_of v1; cores ← int_of v2; gpu ← int_of v3; ram ← int_of v4; disk ← int_of v5; since ← int_of v6;
        released ← time_of v7; Some (mkAllocation job machine (mkRes cores gpu ram disk) since released)
    | _ => None
    end;
  row_read_write := _; row_write_length := _
|}.
Proof. { by intros [? ? [] ? []]. } done. Defined.

#[export, refine] Instance batch_row : SqlRow BatchRecord := {|
  row_table := "batches";
  row_columns := ["id"; "name"; "user_id"; "created_at"];
  row_write r := [VText (b_id r); VText (b_name r); VText (b_user_id r); VInt (b_created_at r)];
  row_read v := match v with
    | [v0; v1; v2; v3] =>
        x0 ← text_of v0; x1 ← text_of v1; x2 ← text_of v2; x3 ← int_of v3;
        Some (mkBatch x0 x1 x2 x3)
    | _ => None
    end;
  row_read_write := _; row_write_length := _
|}.
Proof. { by intros []. } done. Defined.

#[export, refine] Instance artifact_row : SqlRow ArtifactRecord := {|
  row_table := "artifacts";
  row_columns := ["id"; "job_id"; "type"; "uri"; "size_bytes"; "checksum"; "created_at"];
  row_write r := [VInt (a_id r); VText (a_job_id r); VText (a_type r); VText (a_uri r); VInt (a_size_bytes r); VText (a_checksum r); VInt (a_created_at r)];
  row_read v := match v with
    | [v0; v1; v2; v3; v4; v5; v6] =>
        x0 ← int_of v0; x1 ← text_of v1; x2 ← text_of v2; x3 ← text_of v3; x4 ← int_of v4; x5 ← text_of v5; x6 ← int_of v6;
        Some (mkArtifact x0 x1 x2 x3 x4 x5 x6)
    | _ => None
    end;
  row_read_write := _; row_write_length := _
|}.
Proof. { by intros []. } done. Defined.

(** An entry of the audit log with its row id, which the program never reads. *)
Definition AuditRow : Type := Z * (string * string * Z).

#[export, refine] Instance audit_row : SqlRow AuditRow := {|
  row_table := "audit_log";
  row_columns := ["id"; "event"; "detail"; "ts"];
  row_write r := [VInt r.1; VText r.2.1.1; VText r.2.1.2; VInt r.2.2];
  row_read v := match v with
    | [v0; v1; v2; v3] =>
        x0 ← int_of v0; x1 ← text_of v1; x2 ← text_of v2; x3 ← int_of v3;
        Some (x0, (x1, x2, x3))
    | _ => None
    end;
  row_read_write := _; row_write_length := _
|}.
Proof. { by intros [? [[]]]. } done. Defined.

#[export, refine] Instance quota_row : SqlRow Quota := {|
  row_table := "quotas";
  row_columns := ["user_id"; "app_id"; "max_jobs"; "max_ram_mb"; "max_cores"; "max_concurrent"];
  row_write r := [VText (qt_user_id r); VText (qt_app_id r); VInt (qt_max_jobs r); VInt (qt_max_ram_mb r); VInt (qt_max_cores r); VInt (qt_max_concurrent r)];
  row_read v := match v with
    | [v0; v1; v2; v3; v4; v5] =>
        x0 ← text_of v0; x1 ← text_of v1; x2 ← int_of v2; x3 ← int_of v3; x4 ← int_of v4; x5 ← int_of v5;
        Some (mkQuota x0 x1 x2 x3 x4 x5)
    | _ => None
    end;
  row_read_write := _; row_write_length := _
|}.
Proof. { by intros []. } done. Defined.

#[export, refine] Instance user_row : SqlRow User := {|
  row_table := "users";
  row_columns := ["user_id"; "display_name"; "email"; "password_hash"; "enabled"; "created_at"];
  row_write r := [VText (u_user_id r); VText (u_display_name r); VText (u_email r); VText (u_password_hash r); VInt (u_enabled r); VInt (u_created_at r)];
  row_read v := match v with
    | [v0; v1; v2; v3; v4; v5] =>
        x0 ← text_of v0; x1 ← text_of v1; x2 ← text_of v2; x3 ← text_of v3; x4 ← int_of v4; x5 ← int_of v5;
        Some (mkUser x0 x1 x2 x3 x4 x5)
    | _ => None
    end;
  row_read_write := _; row_write_length := _
|}.
Proof. { by intros []. } done. Defined.

#[export, refine] Instance workflow_row : SqlRow WorkflowDef := {|
  row_table := "workflows";
  row_columns := ["id"; "name"; "owner_id"; "is_global"; "steps_json"; "created_at"; "updated_at"];
  row_write r := [VText (w_id r); VText (w_name r); VText (w_owner_id r); VInt (w_is_global r); VText (w_steps_json r); VInt (w_created_at r); VInt (w_updated_at r)];
  row_read v := match v with
    | [v0; v1; v2; v3; v4; v5; v6] =>
        x0 ← text_of v0; x1 ← text_of v1; x2 ← text_of v2; x3 ← int_of v3; x4 ← text_of v4; x5 ← int_of v5; x6 ← int_of v6;
        Some (mkWorkflow x0 x1 x2 x3 x4 x5 x6)
    | _ => None
    end;
  row_read_write := _; row_write_length := _
|}.
Proof. { by intros []. } done. Defined.

#[export, refine] Instance favorite_row : SqlRow (string * string) := {|
  row_table := "workflow_favorites";
  row_columns := ["user_id"; "workflow_id"];
  row_write r := [VText r.1; VText r.2];
  row_read v := match v with
    | [v0; v1] =>
        x0 ← text_of v0; x1 ← text_of v1;
        Some (x0, x1)
    | _ => None
    end;
  row_read_write := _; row_write_length := _
|}.
Proof. { by intros []. } done. Defined.

#[export, refine] Instance event_row : SqlRow EventRecord := {|
  row_table := "events";
  row_columns := ["id"; "category"; "event_type"; "detail"; "user_id"; "job_id"; "machine_id"; "created_at"];
  row_write r := [VInt (e_id r); VText (e_category r); VText (e_event_type r); VText (e_detail r); VText (e_user_id r); VText (e_job_id r); VText (e_machine_id r); VInt (e_created_at r)];
  row_read v := match v with
    | [v0; v1; v2; v3; v4; v5; v6; v7] =>
        x0 ← int_of v0; x1 ← text_of v1; x2 ← text_of v2; x3 ← text_of v3; x4 ← text_of v4; x5 ← text_of v5; x6 ← text_of v6; x7 ← int_of v7;
        Some (mkEvent x0 x1 x2 x3 x4 x5 x6 x7)
    | _ => None
    end;
  row_read_write := _; row_write_length := _
|}.
Proof. { by intros []. } done. Defined.

#[export, refine] Instance submission_key_row : SqlRow SubmissionKey := {|
  row_table := "submission_keys";
  row_columns := ["user_id"; "idempotency_key"; "job_id"; "created_at"];
  row_write r := [VText (sk_user_id r); VText (sk_key r); VText (sk_job_id r); VInt (sk_created_at r)];
  row_read v := match v with
    | [v0; v1; v2; v3] =>
        x0 ← text_of v0; x1 ← text_of v1; x2 ← text_of v2; x3 ← int_of v3;
        Some (mkSubmissionKey x0 x1 x2 x3)
    | _ => None
    end;
  row_read_write := _; row_write_length := _
|}.
Proof. { by intros []. } done. Defined.

(** ** Tables *)

(** The columns that each kind of row reads. *)
Definition formats : list (string * list string) :=
  [(row_table Job, row_columns Job); (row_table ApiKeyInfo, row_columns ApiKeyInfo); (row_table Allocation, row_columns Allocation);
   (row_table BatchRecord, row_columns BatchRecord); (row_table ArtifactRecord, row_columns ArtifactRecord);
   (row_table AuditRow, row_columns AuditRow); (row_table Quota, row_columns Quota); (row_table User, row_columns User);
   (row_table WorkflowDef, row_columns WorkflowDef); (row_table (string * string), row_columns (string * string));
   (row_table EventRecord, row_columns EventRecord); (row_table SubmissionKey, row_columns SubmissionKey)].

(** What a SELECT of columns of a table gives. *)
Definition Look : Type := string → list string → option (list (list Value)).

Definition read_rows {R} `{SqlRow R} (look : Look) : option (list R) := rows ← look (row_table R) (row_columns R); mapM row_read rows.

(** All tables; the last ids that AUTOINCREMENT gave are kept by SQLite in a
    table of its own. *)
Definition read_tables (look : Look) (seqs : Z * Z) : option Tables :=
  jobs ← read_rows look; keys ← read_rows look; allocations ← read_rows look; batches ← read_rows look; artifacts ← read_rows look;
  audit ← read_rows look; quotas ← read_rows look; users ← read_rows look; workflows ← read_rows look; favorites ← read_rows look;
  events ← read_rows look; submissions ← read_rows look;
  Some (mkTables jobs keys allocations batches artifacts seqs.1 (snd <$> (audit : list AuditRow)) quotas users workflows favorites events seqs.2
          submissions).

(** The catalog answers the program's statements with these tables. *)
Definition stores (c : Catalog) (seqs : Z * Z) (t : Tables) : Prop := read_tables (select c) seqs = Some t.

(** *** A file of an earlier version *)

(** The value that a column added since takes in the rows that are there. *)
Definition added_default (table name : string) : option Value :=
  head (omap (λ p, if String.eqb p.1 table && String.eqb (c_name p.2) name then Some (c_default p.2) else None) added_columns).

Definition old_cell (table : string) (cs : list Column) (row : list Value) (name : string) : option Value :=
  match col_index name cs with Some i => row !! i | None => added_default table name end.
Definition covered (table : string) (cs : list Column) (cols : list string) : bool :=
  forallb (λ n, bool_decide (is_Some (col_index n cs)) || bool_decide (is_Some (added_default table n))) cols.

(** The rows that a file means: of a table that is not there yet, none. *)
Definition view (c : Catalog) : Look := λ table cols,
  match ct_tables c !! table with
  | None => Some []
  | Some t =>
      if covered table (tb_columns t) cols then mapM (λ row, mapM (old_cell table (tb_columns t) row) cols) (tb_rows t) else None
  end.

Definition holds (c : Catalog) (seqs : Z * Z) (t : Tables) : Prop := read_tables (view c) seqs = Some t.

(** *** Writing *)

(** The columns of a table in a file that was created today. *)
Definition current_columns (table : string) : list Column :=
  let created := default [] (head (omap (λ s, match s with CreateTable _ name cs => if String.eqb name table then Some cs else None | _ => None end) SCHEMA)) in
  created ++ filter (λ c, col_index (c_name c) created = None) (omap (λ p, if String.eqb p.1 table then Some p.2 else None) added_columns).

Definition write_rows {R} `{SqlRow R} (rows : list R) : string * Table := (row_table R, mkTable (current_columns (row_table R)) (row_write <$> rows)).

Definition numbered (entries : list (string * string * Z)) : list AuditRow := imap (λ i e, (Z.of_nat i + 1, e)) entries.

Definition write_tables (t : Tables) : list (string * Table) :=
  [write_rows (t_jobs t); write_rows (t_api_keys t); write_rows (t_allocations t); write_rows (t_batches t); write_rows (t_artifacts t);
   write_rows (numbered (t_audit_log t)); write_rows (t_quotas t); write_rows (t_users t); write_rows (t_workflows t);
   write_rows (t_workflow_favorites t); write_rows (t_events t); write_rows (t_submission_keys t)].
Definition catalog_of (t : Tables) : Catalog := mkCatalog (list_to_map (write_tables t)) ∅.
Definition seqs_of (t : Tables) : Z * Z := (t_artifact_seq t, t_event_seq t).

(** ** Reading what is stored *)

Lemma read_rows_mono {R} `{SqlRow R} (look look' : Look) (rows : list R) :
  (∀ vs, look (row_table R) (row_columns R) = Some vs → look' (row_table R) (row_columns R) = Some vs) →
  read_rows look = Some rows → read_rows look' = Some rows.
Proof. unfold read_rows. intros Hl (vs & Hv & Hr)%bind_Some. by rewrite (Hl _ Hv). Qed.

Lemma bind_mono {A B} (m m' : option A) (k k' : A → option B) y :
  (∀ x, m = Some x → m' = Some x) → (∀ x, k x = Some y → k' x = Some y) → m ≫= k = Some y → m' ≫= k' = Some y.
Proof. intros Hm Hk (x & Hx & Hy)%bind_Some. rewrite (Hm _ Hx). by apply Hk. Qed.

Lemma read_tables_mono (look look' : Look) seqs t :
  (∀ p vs, p ∈ formats → look p.1 p.2 = Some vs → look' p.1 p.2 = Some vs) → read_tables look seqs = Some t → read_tables look' seqs = Some t.
Proof.
  intros Hl. unfold read_tables.
  assert (∀ R (HR : SqlRow R) (rows : list R), (row_table R, row_columns R) ∈ formats → read_rows look = Some rows → read_rows look' = Some rows) as Hm.
  { intros R HR rows Hin. apply read_rows_mono. intros vs. by apply (Hl (_, _)). }
  repeat (refine (bind_mono _ _ _ _ _ _ _); [intros ?; apply Hm; unfold formats; repeat first [apply list_elem_of_here|apply list_elem_of_further]|intros ?]). done.
Qed.

Lemma mapM_read_write {R} `{SqlRow R} (rows : list R) : mapM row_read (row_write <$> rows) = Some rows.
Proof.
  apply mapM_Some, Forall2_fmap_l, Forall_Forall2_diag, Forall_forall. intros r _. apply row_read_write.
Qed.

(** *** A file that was written whole *)

(** The cells of a row in all the columns of its table are the row. *)
Lemma project_all cs row : NoDup (c_name <$> cs) → length row = length cs → project cs (c_name <$> cs) row = Some row.
Proof.
  intros Hnd Hl. unfold project. apply mapM_Some, Forall2_fmap_l, Forall2_same_length_lookup_2; [done|]. intros i c v Hc Hv.
  change (find_index (λ x, String.eqb (c_name x) (c_name c)) cs ≫= (λ i, row !! i) = Some v). destruct (find_index_is_Some (λ x, String.eqb (c_name x) (c_name c)) cs c) as [k Hk];
    [by eapply list_elem_of_lookup_2|apply String.eqb_refl|]. rewrite Hk. cbn [mbind option_bind].
  apply find_index_Some in Hk as (x & Hx & Hn%String.eqb_eq & _). assert (k = i) as ->; [|done].
  apply (NoDup_lookup (c_name <$> cs) _ _ (c_name c)); [done| |by rewrite list_lookup_fmap, Hc]; rewrite list_lookup_fmap, Hx; cbn; by rewrite Hn.
Qed.

(** The columns of a row are those of its table, in order and once. *)
Definition format_ok (p : string * list string) : bool :=
  bool_decide (c_name <$> current_columns p.1 = p.2) && bool_decide (NoDup p.2).
Lemma formats_ok p : p ∈ formats → c_name <$> current_columns p.1 = p.2 ∧ NoDup p.2.
Proof.
  assert (forallb format_ok formats = true) as H by (vm_compute; reflexivity). intros Hp%list_elem_of_In.
  rewrite forallb_forall in H. apply H in Hp. unfold format_ok in Hp. by rewrite andb_true_iff, !bool_decide_eq_true in Hp.
Qed.

Lemma read_written {R} `{SqlRow R} (rows : list R) c :
  (row_table R, row_columns R) ∈ formats → ct_tables c !! row_table R = Some (write_rows rows).2 → read_rows (select c) = Some rows.
Proof.
  intros [Hc Hnd]%formats_ok Ht. cbn [fst snd] in *. unfold read_rows. assert (select c (row_table R) (row_columns R) = Some (row_write <$> rows)) as ->;
    [|apply mapM_read_write].
  apply select_Some. eexists. split; [exact Ht|]. cbn [tb_columns tb_rows write_rows snd]. rewrite <- Hc in Hnd |- *. split.
  - apply has_columns_spec. intros n (x & -> & Hx)%list_elem_of_fmap. eapply find_index_is_Some; [done|apply String.eqb_refl].
  - apply Forall_Forall2_diag, Forall_forall. intros r (x & -> & _)%list_elem_of_fmap. apply project_all; [done|].
    rewrite row_write_length, <- (length_fmap c_name), Hc. done.
Qed.

Lemma numbered_snd l : snd <$> numbered l = l.
Proof.
  unfold numbered. enough (∀ n : nat, snd <$> imap (λ i e, (Z.of_nat (n + i) + 1, e)) l = l) as H by apply (H 0%nat).
  induction l as [|e l IH]; intros n; [done|]. cbn. f_equal. etransitivity; [|apply (IH (S n))]. f_equal. apply imap_ext. intros i x _. cbn. f_equal. lia.
Qed.

(** What is written is what is stored. *)
Lemma written_is_stored t : stores (catalog_of t) (seqs_of t) t.
Proof.
  assert (∀ R (HR : SqlRow R) (rows : list R), (row_table R, row_columns R) ∈ formats → write_rows rows ∈ write_tables t →
    read_rows (select (catalog_of t)) = Some rows) as Hr.
  { intros R HR rows Hf Hin. apply read_written; [done|]. unfold catalog_of. cbn [ct_tables]. apply elem_of_list_to_map; [|done].
    apply (bool_decide_unpack (NoDup _)). vm_compute. reflexivity. }
  assert (∀ {R} (rows : list R) {B} (k : list R → option B) {HR : SqlRow R} y, (row_table R, row_columns R) ∈ formats → write_rows rows ∈ write_tables t →
    k rows = Some y → read_rows (select (catalog_of t)) ≫= k = Some y) as Hb by (intros R rows B k HR y Hf Hin Hk; by rewrite (Hr _ _ _ Hf Hin)).
  unfold stores, read_tables.
  repeat (eapply Hb; [unfold formats|unfold write_tables|]; [repeat first [apply list_elem_of_here|apply list_elem_of_further]..|]).
  rewrite numbered_snd. by destruct t.
Qed.

(** ** What a file means stays the same *)

(** Every row has the cells of its table's columns. *)
Definition rectangular (c : Catalog) : Prop :=
  ∀ p t, p ∈ formats → ct_tables c !! p.1 = Some t → Forall (λ r, length r = length (tb_columns t)) (tb_rows t).

Definition means (c c' : Catalog) : Prop :=
  rectangular c → rectangular c' ∧ ∀ p vs, p ∈ formats → view c p.1 p.2 = Some vs → view c' p.1 p.2 = Some vs.

#[export] Instance means_preorder : PreOrder means.
Proof.
  split; [by intros c|]. intros a b c H1 H2 Ha. destruct (H1 Ha) as [Hb Hab]. destruct (H2 Hb) as [Hc Hbc]. split; [done|]. eauto.
Qed.

Lemma means_same c c' : (∀ p, p ∈ formats → ct_tables c' !! p.1 = ct_tables c !! p.1) → means c c'.
Proof.
  intros Hs Hr. split; [intros p t Hp; rewrite Hs by done; by apply Hr|]. intros p vs Hp. unfold view. by rewrite Hs by done.
Qed.

(** The tables of the schema have every column that is not added later. *)
Definition schema_covers (p : string * list string) (s : Stmt) : bool :=
  match s with CreateTable _ name cs => negb (String.eqb name p.1) || covered p.1 cs p.2 | _ => true end.
Lemma created_covered p ine cs : p ∈ formats → CreateTable ine p.1 cs ∈ SCHEMA ++ tolerated → covered p.1 cs p.2 = true.
Proof.
  assert (forallb (λ p, forallb (schema_covers p) (SCHEMA ++ tolerated)) formats = true) as H by (vm_compute; reflexivity).
  rewrite forallb_forall in H. intros Hp%list_elem_of_In Hs%list_elem_of_In. apply H in Hp. rewrite forallb_forall in Hp.
  apply Hp in Hs. cbn [schema_covers] in Hs. by rewrite String.eqb_refl in Hs.
Qed.

Lemma added_is_default table column : AddColumn table column ∈ SCHEMA ++ tolerated →
  table ≠ "allocations" ∧ added_default table (c_name column) = Some (c_default column).
Proof.
  set (good := λ s, match s with AddColumn t c => negb (String.eqb t "allocations") && bool_decide (added_default t (c_name c) = Some (c_default c)) | _ => true end).
  assert (forallb good (SCHEMA ++ tolerated) = true) as H by (vm_compute; reflexivity).
  rewrite forallb_forall in H. intros Hs%list_elem_of_In%H. cbn in Hs. apply andb_true_iff in Hs as [Ht Hd%bool_decide_eq_true].
  split; [|done]. intros ->. done.
Qed.

Lemma create_means ine name cs c c' : CreateTable ine name cs ∈ SCHEMA ++ tolerated → effect (CreateTable ine name cs) c = Some c' → means c c'.
Proof.
  intros Hs He. cbn [effect] in He. destruct (ct_tables c !! name) as [t|] eqn:E; [destruct ine; by simplify_eq|]. injection He as <-.
  intros Hr. split.
  - intros p t Hp. cbn. destruct (decide (p.1 = name)) as [->|Hne]; [rewrite lookup_insert_eq; by intros [= <-]; constructor|].
    rewrite lookup_insert_ne by done. by apply Hr.
  - intros p vs Hp. unfold view. cbn [ct_tables set_table]. destruct (decide (p.1 = name)) as [Hn|Hne]; [|by rewrite lookup_insert_ne by done].
    subst name. rewrite E, lookup_insert_eq. cbn [tb_columns tb_rows]. by rewrite (created_covered p ine cs).
Qed.

Lemma find_index_append {A} (q : A → bool) l x :
  find_index q (l ++ [x]) = match find_index q l with Some i => Some i | None => if q x then Some (length l) else None end.
Proof.
  induction l as [|y l IH]; cbn [find_index app length]; [by destruct (q x)|]. destruct (q y); [done|]. rewrite IH.
  destruct (find_index q l); cbn; [done|]. by destruct (q x).
Qed.

Lemma mapM_fmap_compose {A B D} (f : A → B) (g : B → option D) (l : list A) : mapM g (f <$> l) = mapM (g ∘ f) l.
Proof. induction l as [|x l IH]; [done|]. cbn. by rewrite IH. Qed.

Lemma add_column_means table column c c' : AddColumn table column ∈ SCHEMA ++ tolerated → effect (AddColumn table column) c = Some c' → means c c'.
Proof.
  intros [_ Hd]%added_is_default He. cbn [effect] in He. apply bind_Some in He as (t & Ht & He).
  destruct (col_index (c_name column) (tb_columns t)) eqn:Ei; [done|]. injection He as <-. intros Hr. split.
  - intros p t' Hp. cbn. destruct (decide (p.1 = table)) as [Hn|Hne]; [|rewrite lookup_insert_ne by done; by apply Hr].
    subst table. rewrite lookup_insert_eq. intros [= <-]. cbn [tb_columns tb_rows]. pose proof (Hr p t Hp Ht) as Hw. rewrite Forall_fmap.
    eapply Forall_impl; [exact Hw|]. intros r Hl. cbn. by rewrite !length_app, Hl.
  - intros p vs Hp. unfold view. cbn [ct_tables set_table]. destruct (decide (p.1 = table)) as [Hn|Hne]; [|by rewrite lookup_insert_ne by done].
    subst table. rewrite Ht, lookup_insert_eq. cbn [tb_columns tb_rows].
    assert (∀ n, col_index n (tb_columns t ++ [column]) = match col_index n (tb_columns t) with
      | Some i => Some i | None => if String.eqb (c_name column) n then Some (length (tb_columns t)) else None end) as Hci by (intros n; unfold col_index; by rewrite find_index_append).
    destruct (covered p.1 (tb_columns t) p.2) eqn:Ec; [|done].
    assert (covered p.1 (tb_columns t ++ [column]) p.2 = true) as ->.
    { unfold covered in *. rewrite forallb_forall in *. intros n Hn. specialize (Ec n Hn). rewrite Hci.
      destruct (col_index n _) as [i|]; [done|]. destruct (String.eqb _ _); [done|exact Ec]. }
    intros <-. pose proof (Hr p t Hp Ht) as Hw. clear - Hw Hci Hd. rewrite mapM_fmap_compose. eapply Forall_mapM_ext, Forall_impl; [exact Hw|].
    intros r Hl. cbv beta in Hl. cbn [compose].
    apply Forall_mapM_ext, Forall_forall. intros n _. unfold old_cell. rewrite Hci.
    destruct (col_index n (tb_columns t)) as [i|] eqn:En.
    + apply lookup_app_l. rewrite Hl. apply find_index_Some in En as (x & Hx & _). by eapply lookup_lt_Some.
    + destruct (String.eqb_spec (c_name column) n) as [<-|]; [|done]. rewrite Hd, <- Hl. by apply list_lookup_middle.
Qed.

(** Where every column is there, the file means what a SELECT gives. *)
Lemma view_is_select c table cols t : ct_tables c !! table = Some t → has_columns (tb_columns t) cols = true → view c table cols = select c table cols.
Proof.
  intros Ht Hc. unfold view, select. rewrite Ht. cbn [mbind option_bind]. rewrite Hc.
  rewrite has_columns_spec in Hc. assert (covered table (tb_columns t) cols = true) as ->.
  { unfold covered. rewrite forallb_forall. intros n Hn%list_elem_of_In%Hc. by rewrite bool_decide_eq_true_2. }
  apply Forall_mapM_ext, Forall_forall. intros r _. apply Forall_mapM_ext, Forall_forall. intros n Hn. unfold old_cell, cell.
  by destruct (Hc n Hn) as [i ->].
Qed.

Lemma select_is_view c table cols vs : select c table cols = Some vs → view c table cols = Some vs.
Proof. intros Hv. pose proof Hv as (t & Ht & Hc & _)%select_Some. by erewrite view_is_select. Qed.

Lemma stores_holds c seqs t : stores c seqs t → holds c seqs t.
Proof. apply read_tables_mono. intros p vs _. apply select_is_view. Qed.

Lemma formats_tables p : p ∈ formats →
  p.1 ≠ "allocations_new" ∧ p.1 ≠ "allocations_legacy" ∧ (p.1 = "allocations" → p.2 = ALLOC_COLS) ∧ ∃ ine cs, CreateTable ine p.1 cs ∈ SCHEMA.
Proof.
  set (good := λ p : string * list string,
    negb (String.eqb p.1 "allocations_new") && negb (String.eqb p.1 "allocations_legacy")
    && (negb (String.eqb p.1 "allocations") || bool_decide (p.2 = ALLOC_COLS))
    && existsb (λ s, match s with CreateTable _ name _ => String.eqb name p.1 | _ => false end) SCHEMA).
  assert (forallb good formats = true) as H by (vm_compute; reflexivity). rewrite forallb_forall in H. intros Hp%list_elem_of_In%H.
  unfold good in Hp. apply andb_true_iff in Hp as [[[H1 H2]%andb_true_iff H3]%andb_true_iff (s & Hs & He)%existsb_exists].
  split_and!.
  - intros E. by rewrite E in H1.
  - intros E. by rewrite E in H2.
  - intros E. rewrite E in H3. by apply bool_decide_eq_true in H3.
  - destruct s; try done. apply String.eqb_eq in He as <-. eexists _, _. by apply list_elem_of_In.
Qed.

Lemma rebuilt_means c c' : rebuilt c c' → means c c'.
Proof.
  intros Hre Hr. pose proof Hre as [Hother (rows & Hsel & Hnew)].
  assert (∀ p, p ∈ formats → p.1 ≠ "allocations" → ct_tables c' !! p.1 = ct_tables c !! p.1) as Hsame.
  { intros p (H1 & H2 & _)%formats_tables Hne. apply Hother. set_solver. }
  split.
  - intros p t Hp. destruct (decide (p.1 = "allocations")) as [->|Hne]; [|rewrite Hsame by done; by apply Hr].
    rewrite Hnew. intros [= <-]. by eapply selected_length.
  - intros p vs Hp. destruct (decide (p.1 = "allocations")) as [E|Hne]; [|unfold view; by rewrite Hsame by done].
    pose proof Hp as (_ & _ & Hcols & _)%formats_tables. rewrite E, (Hcols E). rewrite (select_is_view _ _ _ _ Hsel). intros [= <-].
    apply select_is_view. apply (rebuilt_kept c c' Hre); [|done]. by repeat split.
Qed.

Lemma migrates_means c c' : migrates c c' → means c c'.
Proof.
  intros [s Hs He|Hre]; [|by apply rebuilt_means]. pose proof (migration_additive s Hs) as Ha. destruct s; try discriminate Ha.
  - by eapply create_means.
  - apply means_same. intros p _. cbn [effect] in He. destruct (ct_indexes c !! name); [by injection He as <-|].
    apply bind_Some in He as (t & _ & He). destruct (has_columns _ _); by simplify_eq.
  - by eapply add_column_means.
Qed.

(** A file that is up to date stores what it means. *)
Lemma up_to_date_stores c seqs t : up_to_date c → holds c seqs t → stores c seqs t.
Proof.
  intros (Ht & Ha & _). apply read_tables_mono. intros p vs Hp Hv. pose proof Hp as (_ & _ & _ & ine & cs & Hin)%formats_tables.
  destruct (Ht _ _ _ Hin) as [tb Htb]. rewrite <- (view_is_select _ _ _ _ Htb); [done|]. apply has_columns_spec. intros n Hn.
  unfold view in Hv. rewrite Htb in Hv. destruct (covered _ _ _) eqn:Ec; [|done]. unfold covered in Ec. rewrite forallb_forall in Ec.
  apply list_elem_of_In, Ec, orb_true_iff in Hn as [H|H]; apply bool_decide_eq_true in H; [done|].
  destruct H as [v H]. unfold added_default in H. apply head_Some_elem_of, list_elem_of_omap in H as (q & Hq & H).
  destruct (_ && _) eqn:E; [|done]. apply andb_true_iff in E as [E1%String.eqb_eq E2%String.eqb_eq].
  destruct (Ha q Hq) as (tb' & Htb' & Hi). rewrite E1, Htb in Htb'. injection Htb' as <-. by rewrite <- E2.
Qed.

(** A file that the program wrote, and the file before the first start. *)
Lemma written_rectangular t : rectangular (catalog_of t).
Proof.
  assert (∀ R (HR : SqlRow R) (rows : list R), (row_table R, row_columns R) ∈ formats →
    Forall (λ r, length r = length (tb_columns (write_rows rows).2)) (tb_rows (write_rows rows).2)) as Hw.
  { intros R HR rows [Hf _]%formats_ok. cbn [fst snd] in Hf. cbn [write_rows snd tb_columns tb_rows]. apply Forall_fmap, Forall_forall. intros r _. cbn.
    by rewrite row_write_length, <- (length_fmap c_name (current_columns _)), Hf. }
  intros p tb _ Htb. unfold catalog_of in Htb. cbn [ct_tables] in Htb. apply elem_of_list_to_map_2 in Htb. unfold write_tables in Htb.
  assert (∀ x, x ∈ write_tables t → Forall (λ r, length r = length (tb_columns x.2)) (tb_rows x.2)) as Hall; [|by apply (Hall (p.1, tb))].
  apply Forall_forall. unfold write_tables.
  repeat (apply Forall_cons; split; [apply Hw; unfold formats; repeat first [apply list_elem_of_here|apply list_elem_of_further]|]). constructor.
Qed.

Lemma written_clean t : tables_ok t → clean (catalog_of t).
Proof.
  intros Hok vs Hv. pose proof (written_is_stored t) as Hst. unfold stores, read_tables in Hst.
  assert (select (catalog_of t) "allocations" ALLOC_COLS = Some (row_write <$> t_allocations t)) as E.
  { apply select_Some. eexists. split; [vm_compute; reflexivity|]. split; [vm_compute; reflexivity|]. cbn [tb_columns tb_rows].
    apply Forall2_fmap, Forall_Forall2_diag, Forall_forall. intros a _. by destruct a as [? ? [] ? ?]. }
  rewrite E in Hv. injection Hv as <-. split.
  - pose proof (pk_allocations t Hok) as Hnd. rewrite <- list_fmap_compose. apply (NoDup_fmap_1 (λ v, match v with [VText a; VText b] => (a, b) | _ => ("", "") end)).
    rewrite <- list_fmap_compose. exact Hnd.
  - apply Forall_fmap, Forall_forall. intros a _. repeat constructor; done.
Qed.

Lemma new_file_holds_nothing : let c := mkCatalog ∅ ∅ in holds c (0, 0) no_tables ∧ rectangular c ∧ clean c.
Proof. split; [vm_compute; reflexivity|]. split; [by intros p t _|]. by intros rows. Qed.

(** C15. Opening a file gives the program the rows that the file means.  Take
    a file whose tables, created by any earlier version, mean some typed
    tables: a table or column that a later version added counts as empty or
    as its default, NULL as the empty text or 0.  Whatever statement fails,
    the file means the same tables afterwards; and when no statement fails
    and the opening succeeds, the SELECTs of the program read exactly these
    tables. *)
Theorem db_open_refines_typed_tables open_ok k rc k' seqs t
    (Hs : cn_saved k = None) (Hc : clean (cn_catalog k)) (Hr : rectangular (cn_catalog k)) (Ht : holds (cn_catalog k) seqs t)
    (Hrun : db_open open_ok k = (rc, k')) :
  holds (cn_catalog k') seqs t ∧ rectangular (cn_catalog k') ∧ clean (cn_catalog k') ∧ cn_saved k' = None ∧
  (cn_outcomes k = [] → rc = 0 → stores (cn_catalog k') seqs t).
Proof.
  destruct (db_open_safe open_ok k rc k' Hrun Hs Hc) as (Hs' & Hm & Hc').
  assert (means (cn_catalog k) (cn_catalog k')) as Hmean by (clear - Hm; induction Hm as [|a b c Hab _ IH]; [done|]; etransitivity; [by apply migrates_means|done]).
  destruct (Hmean Hr) as [Hr' Hv]. assert (holds (cn_catalog k') seqs t) as Ht' by (by eapply read_tables_mono).
  split_and!; try done. intros Ho ->. apply up_to_date_stores; [|done].
  destruct open_ok; [|done]. by apply (healthy_opening k k').
Qed.

(** The file of an early version, with its keys and allocations. *)
Definition legacy_tables : Tables :=
  set_t_allocations [mkAllocation "j1" "m1" (mkRes 2 0 512 0) 10 None; mkAllocation "j2" "m1" (mkRes 1 1 256 0) 11 (Some 20)]
    (set_t_api_keys [mkApiKey "k" "admin" "admin" "" 5 0 0] no_tables).

Lemma legacy_holds : holds legacy (0, 0) legacy_tables ∧ rectangular legacy.
Proof.
  split; [vm_compute; reflexivity|].
  enough (Forall (λ p, ∀ t, ct_tables legacy !! p.1 = Some t → Forall (λ r, length r = length (tb_columns t)) (tb_rows t)) formats) as H.
  { intros p t Hp. rewrite Forall_forall in H. by apply H. }
  unfold formats.
  repeat (apply Forall_cons; split; [intros t Ht; vm_compute in Ht; first [discriminate Ht|injection Ht as <-; repeat constructor]|]). constructor.
Qed.

Lemma db_open_refines_typed_tables_witness :
  let after := (db_open true (mkConn None legacy [])).2 in
  stores (cn_catalog after) (0, 0) legacy_tables ∧ stores (cn_catalog (db_open true after).2) (0, 0) legacy_tables.
Proof.
  assert (∀ k, cn_outcomes k = [] → cn_saved k = None → clean (cn_catalog k) → rectangular (cn_catalog k) → holds (cn_catalog k) (0, 0) legacy_tables →
    (db_open true k).1 = 0 →
    stores (cn_catalog (db_open true k).2) (0, 0) legacy_tables ∧ clean (cn_catalog (db_open true k).2) ∧
    rectangular (cn_catalog (db_open true k).2) ∧ holds (cn_catalog (db_open true k).2) (0, 0) legacy_tables) as Hopen.
  { intros k Ho Hs Hc Hr Hh H0. destruct (db_open true k) as [rc k'] eqn:E. cbn [fst snd] in *. subst rc.
    apply db_open_refines_typed_tables with (seqs := (0, 0)) (t := legacy_tables) in E as (H1 & H2 & H3 & _ & H4); [|assumption..].
    split; [by apply H4|]. by split. }
  destruct legacy_holds as [Hh Hr]. destruct (Hopen (mkConn None legacy [])) as (H1 & H2 & H3 & H4);
    [reflexivity|reflexivity|exact legacy_clean|exact Hr|exact Hh|vm_compute; reflexivity|].
  split; [exact H1|]. destruct (Hopen (db_open true (mkConn None legacy [])).2) as [H5 _];
    [vm_compute; reflexivity|vm_compute; reflexivity|exact H2|exact H3|exact H4|vm_compute; reflexivity|exact H5].
Defined.
