(* ===== verification/Allocator.v ===== *)
(** The allocator of src/resources/allocator.c: the ledger of reservations
    per job, single-machine and multi-machine reservation with their roll
    back, and release.  It is written against the [MachineStore] interface of
    the registry and uses the database for persistence. *)
From S2P Require Import Prelude Job Registry Sql Db.

Definition ALLOC_MAX_MACHINES_PER_JOB : nat := 16.

Record AllocSlot := mkSlot { sl_machine_id : string; sl_res : Res }.
Record AllocRecord := mkAlloc { ar_job_id : string; ar_slots : list AllocSlot; ar_active : bool }.

Definition zero_record : AllocRecord := mkAlloc "" [] false.

(** [s_allocs\[0 .. s_alloc_count)] and [s_alloc_capacity]. *)
Record Ledger := mkLedger { l_allocs : list AllocRecord; l_capacity : Z }.
Definition set_allocs (a : list AllocRecord) (L : Ledger) : Ledger := mkLedger a (l_capacity L).
Definition no_ledger : Ledger := mkLedger [] 0.

(** ** Free quantities of a machine *)

Definition non_negative (value : Z) : Z := if 0 <? value then value else 0.
Definition free_cores (m : Machine) : Z := non_negative (r_cores (m_total m) - r_cores (m_reserved m) - m_cores_min m).
Definition free_gpu (m : Machine) : Z := non_negative (r_gpu (m_total m) - r_gpu (m_reserved m)).
Definition free_ram (m : Machine) : Z := non_negative (r_ram_mb (m_total m) - r_ram_mb (m_reserved m) - m_ram_mb_min m).
Definition free_disk (m : Machine) : Z := non_negative (r_disk_mb (m_total m) - r_disk_mb (m_reserved m) - m_disk_mb_min m).

Definition is_online (m : Machine) : bool := bool_decide (m_probe_status m = MACHINE_ONLINE).

Definition machine_can_fit (m : Machine) (req : Res) : bool :=
  m_enabled m && is_online m
  && (r_cores req <=? free_cores m) && (r_gpu req <=? free_gpu m)
  && (r_ram_mb req <=? free_ram m) && (r_disk_mb req <=? free_disk m).

(** ** Ledger records *)

Definition fresh_record (job_id : string) : AllocRecord := mkAlloc (cbuf JOB_ID_LEN job_id) [] true.

(** The index of a record just initialised for the job; [None]: NULL.
    [grow_ok]: whether the [realloc] that grows the array succeeds. *)
Definition alloc_record_acquire (grow_ok : bool) (job_id : string) : ST Ledger (option nat) := λ L,
  if existsb (λ r, ar_active r && String.eqb (ar_job_id r) job_id) (l_allocs L) then (None, L) else
  match find_index (λ r, negb (ar_active r)) (l_allocs L) with
  | Some i => (Some i, set_allocs (<[i := fresh_record job_id]> (l_allocs L)) L)
  | None =>
      let n := Z.of_nat (length (l_allocs L)) in
      let full := n =? l_capacity L in
      if full && negb grow_ok then (None, L) else
      let cap := if full then (if l_capacity L =? 0 then 64 else l_capacity L * 2) else l_capacity L in
      (Some (length (l_allocs L)), mkLedger (l_allocs L ++ [fresh_record job_id]) cap)
  end.

Definition set_record (i : nat) (r : AllocRecord) (L : Ledger) : Ledger := set_allocs (<[i := r]> (l_allocs L)) L.

(** The same [malloc] failures for every operation of one call. *)
Record AllocEnv := mkAllocEnv { snapshot_ok : bool; grow_ok : bool }.

Section allocator.
Context {S : Type} `{MachineStore S}.

Record AllocState := mkAllocState { a_store : S; a_ledger : Ledger; a_db : Db }.

Definition on_store {A} (m : ST S A) : ST AllocState A := λ s,
  let '(a, x) := m (a_store s) in (a, mkAllocState x (a_ledger s) (a_db s)).
Definition on_ledger {A} (m : ST Ledger A) : ST AllocState A := λ s,
  let '(a, x) := m (a_ledger s) in (a, mkAllocState (a_store s) x (a_db s)).
Definition on_db {A} (m : ST Db A) : ST AllocState A := λ s,
  let '(a, x) := m (a_db s) in (a, mkAllocState (a_store s) (a_ledger s) x).

Lemma bind_on_store {A B} (m : ST S A) (f : A → ST AllocState B) s :
  (on_store m ≫= f) s = f (m (a_store s)).1 (mkAllocState (m (a_store s)).2 (a_ledger s) (a_db s)).
Proof. unfold mbind, st_bind, on_store. by destruct (m (a_store s)). Qed.
Lemma bind_on_ledger {A B} (m : ST Ledger A) (f : A → ST AllocState B) s :
  (on_ledger m ≫= f) s = f (m (a_ledger s)).1 (mkAllocState (a_store s) (m (a_ledger s)).2 (a_db s)).
Proof. unfold mbind, st_bind, on_ledger. by destruct (m (a_ledger s)). Qed.
Lemma bind_on_db {A B} (m : ST Db A) (f : A → ST AllocState B) s :
  (on_db m ≫= f) s = f (m (a_db s)).1 (mkAllocState (a_store s) (a_ledger s) (m (a_db s)).2).
Proof. unfold mbind, st_bind, on_db. by destruct (m (a_db s)). Qed.

(** [direction > 0]: reserve; otherwise release. *)
Definition apply_slot (slot : AllocSlot) (up : bool) : ST S Z :=
  if up then ms_reserve (sl_machine_id slot) (sl_res slot) else ms_release (sl_machine_id slot) (sl_res slot).

Fixpoint persist_slots (job_id : string) (slots : list AllocSlot) : ST Db Z :=
  match slots with
  | [] => db_commit
  | slot :: slots =>
      rc ← db_insert_allocation job_id (sl_machine_id slot) (sl_res slot);
      if negb (rc =? 0) then db_rollback ;; mret (-1) else persist_slots job_id slots
  end.

Definition persist_record (record : AllocRecord) : ST Db Z :=
  rc ← db_begin;
  if negb (rc =? 0) then mret (-1) else persist_slots (ar_job_id record) (ar_slots record).

Definition release_slots (slots : list AllocSlot) : ST S unit :=
  st_iter (λ slot, apply_slot slot false ;; mret tt) slots.

(** Clear the record at an index: [memset]. *)
Definition clear_record (i : nat) : ST AllocState unit := on_ledger (st_modify (set_record i zero_record)).

Definition discard_record (i : nat) (slots : list AllocSlot) : ST AllocState unit :=
  on_store (release_slots slots) ;; clear_record i.

Lemma discard_run {A} (x : A) i slots s st :
  release_slots slots (a_store s) = (tt, st) →
  (discard_record i slots ;; mret x) s = (x, mkAllocState st (set_record i zero_record (a_ledger s)) (a_db s)).
Proof.
  intros Hrel. rewrite bind_step. unfold discard_record. rewrite bind_on_store, Hrel. done.
Qed.

(** *** Queries *)

(** A failed snapshot (-1) counts as no machines. *)
Definition machines (env : AllocEnv) (s : S) : list Machine := default [] (ms_snapshot (snapshot_ok env) s).

Definition alloc_can_fit (env : AllocEnv) (req : Res) (s : S) : bool :=
  existsb (λ m, machine_can_fit m req) (machines env s).

(** One machine of the loop of [alloc_diagnose]: the counters of enabled
    and online machines and the best free quantities so far. *)
Definition diagnose_step (acc : Z * Z * Res) (m : Machine) : Z * Z * Res :=
  let '(enabled, online, best) := acc in
  if negb (m_enabled m) then acc
  else if negb (is_online m) then (enabled + 1, online, best)
  else (enabled + 1, online + 1,
        res_map2 (λ f b, if b <? f then f else b)
          (mkRes (free_cores m) (free_gpu m) (free_ram m) (free_disk m)) best).

Definition alloc_diagnose (env : AllocEnv) (req : Res) (out_len : nat) (s : S) : string :=
  let ms := machines env s in
  let count := Z.of_nat (length ms) in
  if count <=? 0 then cbuf out_len "No machines registered (check provisioning.json)" else
  let '(enabled, online, best) := foldl diagnose_step (0, 0, res0) ms in
  cbuf out_len
    (if enabled =? 0 then "All " +:+ dec count +:+ " registered machine(s) are disabled"
     else if online =? 0 then "No enabled machine is online"
     else "No online machine fits: need cores=" +:+ dec (r_cores req) +:+ " gpu=" +:+ dec (r_gpu req)
          +:+ " ram=" +:+ dec (r_ram_mb req) +:+ "MB disk=" +:+ dec (r_disk_mb req)
          +:+ "MB; best free cores=" +:+ dec (r_cores best) +:+ " gpu=" +:+ dec (r_gpu best)
          +:+ " ram=" +:+ dec (r_ram_mb best) +:+ "MB disk=" +:+ dec (r_disk_mb best) +:+ "MB").

(** The candidate scan of [alloc_can_fit_multi]: the chosen machines, in
    order, and their free cores. *)
Fixpoint fit_multi_scan (ms : list Machine) (req_cores : Z) (candidates : list Machine) (available : Z)
    : list Machine * Z :=
  match ms with
  | [] => (candidates, available)
  | m :: ms =>
      if negb (length candidates <? ALLOC_MAX_MACHINES_PER_JOB)%nat then (candidates, available)
      else if negb (m_enabled m) || negb (is_online m) || (free_cores m <=? 0)
      then fit_multi_scan ms req_cores candidates available
      else
        let candidates := candidates ++ [m] in
        let available := available + free_cores m in
        if req_cores <=? available then (candidates, available)
        else fit_multi_scan ms req_cores candidates available
  end.

(** Rounded up, on [int]s. *)
Definition share (amount : Z) (n : nat) : Z := Z.quot (amount + Z.of_nat n - 1) (Z.of_nat n).

Definition alloc_can_fit_multi (env : AllocEnv) (req : Res) (s : S) : Z :=
  if 0 <? r_gpu req then 0 else
  let '(candidates, available) := fit_multi_scan (machines env s) (r_cores req) [] 0 in
  let n := length candidates in
  if (available <? r_cores req) || (n =? 0)%nat then 0 else
  if existsb (λ m, (free_ram m <? share (r_ram_mb req) n) || (free_disk m <? share (r_disk_mb req) n)) candidates
  then 0 else Z.of_nat n.

(** *** Reservation *)

(** The slots that the multi-machine loop fills, and the cores left over. *)
Fixpoint multi_slots (ms : list Machine) (slots : list AllocSlot) (remaining : Z) : list AllocSlot * Z :=
  match ms with
  | [] => (slots, remaining)
  | m :: ms =>
      if negb (length slots <? ALLOC_MAX_MACHINES_PER_JOB)%nat || (remaining <=? 0) then (slots, remaining)
      else
        let available := free_cores m in
        if negb (m_enabled m) || negb (is_online m) || (available <=? 0) then multi_slots ms slots remaining
        else
          let cores := if available <? remaining then available else remaining in
          multi_slots ms (slots ++ [mkSlot (cbuf 64 (m_id m)) (mkRes cores 0 0 0)]) (remaining - cores)
  end.

(** Give every slot its share of memory and disk, checking its machine. *)
Fixpoint share_slots (ms : list Machine) (ram_per disk_per : Z) (slots : list AllocSlot) : option (list AllocSlot) :=
  match slots with
  | [] => Some []
  | slot :: slots =>
      match head (filter (λ m, String.eqb (m_id m) (sl_machine_id slot) = true) ms) with
      | None => None
      | Some m =>
          if (free_ram m <? ram_per) || (free_disk m <? disk_per) then None
          else cons (mkSlot (sl_machine_id slot) (mkRes (r_cores (sl_res slot)) (r_gpu (sl_res slot)) ram_per disk_per))
                 <$> share_slots ms ram_per disk_per slots
      end
  end.

(** Reserve slot by slot; on a failure release the ones already applied. *)
Fixpoint apply_slots (applied slots : list AllocSlot) : ST S bool :=
  match slots with
  | [] => mret true
  | slot :: slots =>
      rc ← apply_slot slot true;
      if negb (rc =? 0) then release_slots applied ;; mret false
      else apply_slots (applied ++ [slot]) slots
  end.

(** The [snprintf] loop over the machine names; [None] when one does not
    fit in the 1024 bytes. *)
Fixpoint join_ids (first : bool) (slots : list AllocSlot) (out : string) : option string :=
  match slots with
  | [] => Some out
  | slot :: slots =>
      let piece := (if first then "" else ",") +:+ sl_machine_id slot in
      if (1024 - str_len out <=? str_len piece)%nat then None else join_ids false slots (out +:+ piece)
  end.

(** The result, [out_machine_ids] and [out_n_machines]. *)
Definition alloc_reserve_multi (env : AllocEnv) (job_id : string) (req : Res) : ST AllocState (Z * string * Z) :=
  if (0 <? r_gpu req) || (r_cores req <=? 0) then mret (-1, "", 0) else
  snapshot ← st_gets (λ s, ms_snapshot (snapshot_ok env) (a_store s));
  record ← on_ledger (alloc_record_acquire (grow_ok env) job_id);
  match record, snapshot with
  | None, _ => mret (-1, "", 0)
  | Some i, None => clear_record i ;; mret (-1, "", 0)
  | Some i, Some ms =>
      let '(slots, remaining) := multi_slots ms [] (r_cores req) in
      let n := length slots in
      if (0 <? remaining) || (n =? 0)%nat then clear_record i ;; mret (-1, "", 0) else
      match share_slots ms (share (r_ram_mb req) n) (share (r_disk_mb req) n) slots with
      | None => clear_record i ;; mret (-1, "", 0)
      | Some slots =>
          let record := mkAlloc (cbuf JOB_ID_LEN job_id) slots true in
          on_ledger (st_modify (set_record i record)) ;;
          ok ← on_store (apply_slots [] slots);
          if negb ok then clear_record i ;; mret (-1, "", 0) else
          rc ← on_db (persist_record record);
          if negb (rc =? 0) then discard_record i slots ;; mret (-1, "", 0) else
          match join_ids true slots "" with
          | None =>
              discard_record i slots ;; on_db (db_release_allocation job_id) ;; mret (-1, "", 0)
          | Some ids => mret (0, ids, Z.of_nat n)
          end
      end
  end.

Definition reserve_single (env : AllocEnv) (job_id : string) (m : Machine) (req : Res) : ST AllocState Z :=
  record ← on_ledger (alloc_record_acquire (grow_ok env) job_id);
  match record with
  | None => mret (-1)
  | Some i =>
      let slot := mkSlot (cbuf 64 (m_id m)) req in
      let record := mkAlloc (cbuf JOB_ID_LEN job_id) [slot] true in
      on_ledger (st_modify (set_record i record)) ;;
      rc ← on_store (apply_slot slot true);
      if negb (rc =? 0) then clear_record i ;; mret (-1) else
      rc ← on_db (persist_record record);
      if negb (rc =? 0) then discard_record i [slot] ;; mret (-1) else mret 0
  end.

(** The result and [out_machine_id]. *)
Definition alloc_reserve (env : AllocEnv) (job_id : string) (req : Res) : ST AllocState (Z * string) :=
  if r_cores req <=? 0 then mret (-1, "") else
  ms ← st_gets (λ s, machines env (a_store s));
  match find_index (λ m, machine_can_fit m req) ms ≫= (ms !!.) with
  | None => mret (-1, "")
  | Some chosen =>
      rc ← reserve_single env job_id chosen req;
      if negb (rc =? 0) then mret (-1, "") else mret (0, cbuf 64 (m_id chosen))
  end.

Definition alloc_reserve_on (env : AllocEnv) (job_id target_machine_id : string) (req : Res) : ST AllocState Z :=
  if r_cores req <=? 0 then mret (-1) else
  m ← st_gets (λ s, ms_get_copy target_machine_id (a_store s));
  match m with
  | None => mret (-1)
  | Some m => if machine_can_fit m req then reserve_single env job_id m req else mret (-1)
  end.

Definition alloc_release (job_id : string) : ST AllocState Z :=
  L ← st_gets a_ledger;
  released_slots ←
    match find_index (λ r, ar_active r && String.eqb (ar_job_id r) job_id) (l_allocs L) with
    | Some i =>
        let slots := default [] (ar_slots <$> l_allocs L !! i) in
        discard_record i slots ;; mret (Z.of_nat (length slots))
    | None => mret 0
    end;
  db_result ← on_db (db_release_allocation job_id);
  mret (if 0 <? released_slots then 0 else if db_result =? 0 then 0 else -1).

Definition alloc_shutdown : ST AllocState unit := on_ledger (st_put no_ledger).
End allocator.
Arguments AllocState : clear implicits.
