(* ===== verification/AllocatorSpec.v ===== *)
(** The accounting of the allocator: what the active records of the ledger
    book on each machine is what the machine store has reserved there.  The
    proofs use the laws of the [MachineStore] interface only. *)
From S2P Require Import Prelude Job Registry Sql Db Allocator.

(** ** Sums of resources *)

Definition res_sum (l : list Res) : Res := foldr res_add res0 l.

Lemma res_add_comm a b : res_add a b = res_add b a.
Proof. apply res_ext; simpl; lia. Qed.
Lemma res_add_assoc a b c : res_add a (res_add b c) = res_add (res_add a b) c.
Proof. apply res_ext; simpl; lia. Qed.
Lemma res_add_0_l a : res_add res0 a = a.
Proof. apply res_ext; simpl; lia. Qed.
Lemma res_add_0_r a : res_add a res0 = a.
Proof. apply res_ext; simpl; lia. Qed.
Lemma res_sub_add a b : res_sub (res_add a b) b = a.
Proof. apply res_ext; simpl; lia. Qed.
Lemma res_add_cancel a b c : res_add a c = res_add b c → a = b.
Proof. intros E. rewrite <- (res_sub_add a c), E. apply res_sub_add. Qed.

Lemma res_sum_app l k : res_sum (l ++ k) = res_add (res_sum l) (res_sum k).
Proof. induction l as [|x l IH]; simpl; [by rewrite res_add_0_l|]. by rewrite IH, res_add_assoc. Qed.

#[export] Instance res_sum_perm : Proper ((≡ₚ) ==> (=)) res_sum.
Proof.
  intros l k Hp. induction Hp as [|x l k Hp IH|x y l|l k m Hp IH Hp' IH']; simpl; [done|congruence| |congruence].
  by rewrite !res_add_assoc, (res_add_comm y).
Qed.

Lemma res_le_refl a : res_le a a.
Proof. res_solve. Qed.
Lemma res_le_add a b : res_le res0 a → res_le b (res_add a b).
Proof. res_solve. Qed.
Lemma res_add_nonneg a b : res_le res0 a → res_le res0 b → res_le res0 (res_add a b).
Proof. res_solve. Qed.

Lemma res_sum_nonneg l : Forall (res_le res0) l → res_le res0 (res_sum l).
Proof. induction 1; simpl; [apply res_le_refl|by apply res_add_nonneg]. Qed.

(** ** What the active records of the ledger book *)

Definition slot_on (id : string) (slot : AllocSlot) : Res :=
  if String.eqb (sl_machine_id slot) id then sl_res slot else res0.
Definition slots_on (id : string) (slots : list AllocSlot) : Res := res_sum (map (slot_on id) slots).

Definition active_records (l : list AllocRecord) : list AllocRecord := filter (λ r, ar_active r = true) l.
Definition active_jobs (l : list AllocRecord) : list string := map ar_job_id (active_records l).

(** The total that some records take on one machine. *)
Definition booked (id : string) (l : list AllocRecord) : Res := res_sum (map (λ r, slots_on id (ar_slots r)) l).

#[export] Instance booked_perm id : Proper ((≡ₚ) ==> (=)) (booked id).
Proof. intros l k Hp. unfold booked. by rewrite Hp. Qed.

Lemma active_insert l i r r' :
  l !! i = Some r →
  active_records (<[i:=r']> l) ++ (if ar_active r then [r] else []) ≡ₚ
  (if ar_active r' then [r'] else []) ++ active_records l.
Proof.
  unfold active_records. revert i. induction l as [|x l IH]; intros [|i] Hr; simplify_eq/=.
  - rewrite !filter_cons. destruct (ar_active r), (ar_active r'); simpl; solve_Permutation.
  - rewrite !filter_cons. specialize (IH i Hr). case_decide; [|done]. simpl. rewrite IH.
    by destruct (ar_active r'); simpl; [apply Permutation_swap|].
Qed.

(** ** Acquiring a record *)

(** [l1] with any record put at [i] is [l] with that record added. *)
Definition acquired (l : list AllocRecord) (i : nat) (l1 : list AllocRecord) : Prop :=
  (i < length l1)%nat ∧ ∀ r,
    active_records (<[i:=r]> l1) ≡ₚ (if ar_active r then [r] else []) ++ active_records l.

Lemma acquire_spec g job_id L o L' :
  alloc_record_acquire g job_id L = (o, L') →
  match o with
  | None => L' = L
  | Some i => acquired (l_allocs L) i (l_allocs L') ∧ job_id ∉ active_jobs (l_allocs L)
  end.
Proof.
  unfold alloc_record_acquire. destruct (existsb _ _) eqn:Hex; [by intros [= <- <-]|].
  assert (job_id ∉ active_jobs (l_allocs L)) as Hno.
  { intros (r & -> & [Ha Hr]%list_elem_of_filter)%list_elem_of_fmap.
    assert (existsb (λ r', ar_active r' && String.eqb (ar_job_id r') (ar_job_id r)) (l_allocs L) = true); [|congruence].
    apply existsb_exists. exists r. rewrite <- list_elem_of_In, Ha, String.eqb_refl. done. }
  destruct (find_index _ (l_allocs L)) as [i|] eqn:Hf.
  - apply find_index_Some in Hf as (r0 & Hr0 & Ha & _). apply negb_true_iff in Ha.
    pose proof (lookup_lt_Some _ _ _ Hr0). intros [= <- <-]; simpl. split; [|done].
    split; [by rewrite length_insert|]. intros r. rewrite list_insert_insert_eq.
    pose proof (active_insert (l_allocs L) i r0 r Hr0) as E. by rewrite Ha, app_nil_r in E.
  - case_match; [by intros [= <- <-]|]. intros [= <- <-]; simpl. split; [|done].
    split; [rewrite length_app; simpl; lia|]. intros r.
    rewrite insert_app_r_alt by lia. rewrite Nat.sub_diag; simpl.
    unfold active_records. rewrite filter_app. rewrite Permutation_app_comm. f_equiv.
    rewrite filter_cons, filter_nil. by case_decide; destruct (ar_active r).
Qed.

(** ** Reservation against any lawful machine store *)

Definition slot_ok (slot : AllocSlot) : Prop := 1 ≤ r_cores (sl_res slot) ∧ res_le res0 (sl_res slot).

Lemma slot_on_nonneg id slot : slot_ok slot → res_le res0 (slot_on id slot).
Proof. intros [_ H]. unfold slot_on. case_match; [done|apply res_le_refl]. Qed.

Lemma slots_on_nonneg id slots : Forall slot_ok slots → res_le res0 (slots_on id slots).
Proof.
  intros H. apply res_sum_nonneg, Forall_forall. intros x (y & -> & Hy)%list_elem_of_fmap.
  apply slot_on_nonneg. by eapply Forall_forall in H.
Qed.

Lemma slots_on_app id a b : slots_on id (a ++ b) = res_add (slots_on id a) (slots_on id b).
Proof. unfold slots_on. by rewrite map_app, res_sum_app. Qed.

Section store.
Context {S : Type} `{MachineStoreLaws S}.
Implicit Types s : S.

(** The two stores hold the same machines. *)
Definition store_eq s s' : Prop := ∀ id, ms_get_copy id s' = ms_get_copy id s.

(** [s'] is [s] with [f id] more reserved on each machine [id]. *)
Definition store_plus (f : string → Res) s s' : Prop :=
  ∀ id, match ms_get_copy id s with
        | Some m => ms_get_copy id s' = Some (with_reserved (res_add (m_reserved m) (f id)) m)
        | None => ms_get_copy id s' = None ∧ f id = res0
        end.

Definition store_reserved s id : Res := default res0 (m_reserved <$> ms_get_copy id s).

#[export] Instance store_eq_equivalence : Equivalence store_eq.
Proof. split; [by intros s id|by intros s s' E id|]. intros s1 s2 s3 E1 E2 id. by rewrite E2. Qed.

Lemma with_reserved_same m : with_reserved (m_reserved m) m = m.
Proof. by destruct m. Qed.
Lemma with_reserved_twice a b m : with_reserved a (with_reserved b m) = with_reserved a m.
Proof. by destruct m. Qed.
Lemma with_reserved_inj a b m m' : with_reserved a m = with_reserved b m' → a = b.
Proof. intros E. by rewrite <- (with_reserved_reserved a m), E, with_reserved_reserved. Qed.

Lemma store_plus_eq f s s' : (∀ id, f id = res0) → store_plus f s s' ↔ store_eq s s'.
Proof.
  intros Hf. split; intros E id; specialize (E id).
  - rewrite Hf, ?res_add_0_r in E. destruct (ms_get_copy id s) as [m|]; [|tauto].
    rewrite E, res_add_0_r. by rewrite with_reserved_same.
  - rewrite Hf. destruct (ms_get_copy id s) as [m|]; [|done]. by rewrite res_add_0_r, with_reserved_same.
Qed.

Lemma store_plus_refl s : store_plus (λ _, res0) s s.
Proof. by apply store_plus_eq. Qed.

Lemma store_plus_trans f g s1 s2 s3 :
  store_plus f s1 s2 → store_plus g s2 s3 → store_plus (λ id, res_add (f id) (g id)) s1 s3.
Proof.
  intros E1 E2 id. specialize (E1 id). specialize (E2 id). destruct (ms_get_copy id s1) as [m|].
  - rewrite E1 in E2. by rewrite E2, with_reserved_twice, with_reserved_reserved, res_add_assoc.
  - destruct E1 as [E1 ->]. rewrite E1 in E2. destruct E2 as [-> ->]. done.
Qed.

Lemma store_plus_ext f g s s' : (∀ id, f id = g id) → store_plus f s s' → store_plus g s s'.
Proof. intros Hfg E id. specialize (E id). by rewrite <- Hfg. Qed.

(** Two stores that the same addition makes equal hold the same machines. *)
Lemma store_plus_cancel f s1 s2 s : store_plus f s1 s → store_plus f s2 s → store_eq s1 s2.
Proof.
  intros E1 E2 id. specialize (E1 id). specialize (E2 id).
  destruct (ms_get_copy id s1) as [m1|], (ms_get_copy id s2) as [m2|]; [|naive_solver..].
  rewrite E1 in E2. injection E2 as E2. f_equal. pose proof (with_reserved_inj _ _ _ _ E2) as Er.
  apply res_add_cancel in Er.
  rewrite <- (with_reserved_same m2), <- (with_reserved_twice _ (res_add (m_reserved m2) (f id)) m2), <- E2.
  by rewrite with_reserved_twice, <- Er, with_reserved_same.
Qed.

Lemma store_plus_reserved f s s' id : store_plus f s s' → store_reserved s' id = res_add (store_reserved s id) (f id).
Proof.
  intros E. specialize (E id). unfold store_reserved. destruct (ms_get_copy id s) as [m|]; simpl.
  - rewrite E. simpl. by rewrite with_reserved_reserved.
  - destruct E as [-> ->]. done.
Qed.

Lemma store_eq_reserved s s' id : store_eq s s' → store_reserved s' id = store_reserved s id.
Proof. intros E. unfold store_reserved. by rewrite E. Qed.

(** *** One slot *)

Lemma apply_up s slot rc s' :
  ms_ok s → apply_slot slot true s = (rc, s') →
  ms_ok s' ∧
  (rc ≠ 0 ∧ s' = s ∨
   rc = 0 ∧ res_le res0 (sl_res slot) ∧ is_Some (ms_get_copy (sl_machine_id slot) s) ∧
     store_plus (λ id, slot_on id slot) s s').
Proof.
  intros Hok Hrun. apply ms_reserve_spec in Hrun as [Hok' [[-> ->]|(-> & m & Hm & He & Hon & Hn & Hle & Hget & Hoth)]];
    [split; [done|by left]|split; [done|right]|done].
  split_and!; [done|done|done|]. intros id. unfold slot_on.
  destruct (String.eqb_spec (sl_machine_id slot) id) as [<-|Hne].
  - by rewrite Hm.
  - rewrite Hoth by done. destruct (ms_get_copy id s); [|done]. by rewrite res_add_0_r, with_reserved_same.
Qed.

Lemma apply_down s slot :
  ms_ok s → slot_ok slot → res_le (sl_res slot) (store_reserved s (sl_machine_id slot)) →
  ∃ rc s', apply_slot slot false s = (rc, s') ∧ ms_ok s' ∧ store_plus (λ id, slot_on id slot) s' s.
Proof.
  intros Hok [Hc Hn] Hle. unfold store_reserved in Hle.
  destruct (ms_get_copy (sl_machine_id slot) s) as [m|] eqn:Hm; simpl in Hle; [|destruct Hle; simpl in *; lia].
  destruct (ms_release_spec s (sl_machine_id slot) (sl_res slot) m) as (s' & Hrun & Hok' & Hget & Hoth); [done..|].
  exists 0, s'. split_and!; [done|done|]. intros id. unfold slot_on.
  destruct (String.eqb_spec (sl_machine_id slot) id) as [<-|Hne].
  - rewrite Hget, Hm. f_equal. rewrite with_reserved_twice, with_reserved_reserved.
    rewrite <- (with_reserved_same m) at 1. f_equal. apply res_ext; simpl; lia.
  - rewrite (Hoth id) by done. destruct (ms_get_copy id s); [|done]. by rewrite res_add_0_r, with_reserved_same.
Qed.

(** *** All slots of a record *)

Lemma release_slots_spec slots s :
  ms_ok s → Forall slot_ok slots → (∀ id, res_le (slots_on id slots) (store_reserved s id)) →
  ∃ s', release_slots slots s = (tt, s') ∧ ms_ok s' ∧ store_plus (λ id, slots_on id slots) s' s.
Proof.
  revert s. induction slots as [|slot slots IH]; intros s Hok Hslots Hle; simpl.
  { exists s. split_and!; [done|done|]. apply store_plus_refl. }
  inversion Hslots as [|? ? Hs Hss]; subst.
  destruct (apply_down s slot) as (rc & s1 & Hrun & Hok1 & Hplus); [done|done| |].
  { specialize (Hle (sl_machine_id slot)). unfold slots_on in Hle; simpl in Hle.
    unfold slot_on in Hle at 1. rewrite String.eqb_refl in Hle.
    pose proof (slots_on_nonneg (sl_machine_id slot) slots Hss) as Hnn. unfold slots_on in Hnn. res_solve. }
  destruct (IH s1) as (s2 & Hrun2 & Hok2 & Hplus2); [done|done| |].
  { intros id. specialize (Hle id). pose proof (store_plus_reserved _ _ _ id Hplus) as E.
    unfold slots_on in *; simpl in Hle. rewrite E in Hle. res_solve. }
  exists s2. unfold release_slots in *. cbn [st_iter]. st_unfold. rewrite Hrun, Hrun2. split_and!; [done|done|].
  eapply store_plus_ext; [|eapply store_plus_trans; [exact Hplus2|exact Hplus]].
  intros id. unfold slots_on; simpl. by rewrite res_add_comm.
Qed.

Lemma apply_slots_spec applied slots s0 s ok s' :
  ms_ok s0 → ms_ok s → Forall slot_ok applied → Forall slot_ok slots →
  store_plus (λ id, slots_on id applied) s0 s →
  apply_slots applied slots s = (ok, s') →
  ms_ok s' ∧
  if ok then store_plus (λ id, slots_on id (applied ++ slots)) s0 s' else store_eq s0 s'.
Proof.
  revert applied s. induction slots as [|slot slots IH]; intros applied s Hok0 Hok Ha Hslots Hplus; cbn [apply_slots].
  { intros [= <- <-]. by rewrite app_nil_r. }
  inversion Hslots as [|? ? Hs Hss]; subst. st_unfold.
  destruct (apply_slot slot true s) as [rc s1] eqn:Hrun.
  apply apply_up in Hrun as [Hok1 [[Hrc ->]|(-> & Hn & Hex & Hplus1)]]; [| |done].
  - rewrite (proj2 (Z.eqb_neq rc 0) Hrc); simpl.
    destruct (release_slots_spec applied s) as (s2 & Hrel & Hok2 & Hplus2); [done|done| |].
    { intros id. rewrite (store_plus_reserved _ _ _ id Hplus). apply res_le_add.
      unfold store_reserved. destruct (ms_get_copy id s0) as [m|] eqn:Em; simpl; [|apply res_le_refl].
      apply (ms_get_wf s0 id m) in Em as [Hwf _]; [|done]. apply Hwf. }
    rewrite Hrel. intros [= <- <-]. split; [done|]. by eapply store_plus_cancel.
  - simpl. intros Hrun. apply IH in Hrun as [Hok' Hres]; try done.
    + split; [done|]. destruct ok; [|done]. by rewrite <- app_assoc in Hres.
    + by apply Forall_app; split; [|constructor].
    + eapply store_plus_ext; [|eapply store_plus_trans; [exact Hplus|exact Hplus1]].
      intros id. rewrite slots_on_app. f_equal. unfold slots_on; simpl. by rewrite res_add_0_r.
Qed.
End store.

(** ** Persistence *)

(** What [db_insert_allocation] does to the table. *)
Definition put_allocation (now : Z) (job_id : string) (l : list Allocation) (slot : AllocSlot) : list Allocation :=
  delete_where (λ a, String.eqb (al_job_id a) job_id && String.eqb (al_machine_id a) (sl_machine_id slot)) l
  ++ [mkAllocation job_id (sl_machine_id slot) (sl_res slot) now None].

Definition persisted (now : Z) (job_id : string) (slots : list AllocSlot) (t : Tables) : Tables :=
  set_t_allocations (foldl (put_allocation now job_id) (t_allocations t) slots) t.

Lemma persist_slots_spec t0 job_id slots d rc d' :
  in_txn t0 d → persist_slots job_id slots d = (rc, d') →
  idle_step d d' ∧ (rc = 0 ∧ tables d' = persisted (clock d) job_id slots (tables d) ∨ rc ≠ 0 ∧ tables d' = t0).
Proof.
  unfold idle_step. revert d. induction slots as [|slot slots IH]; intros d Htx; cbn [persist_slots].
  - intros Hc. destruct (db_commit_spec t0 d rc d' Htx Hc) as (Hi & Hclk & Ho & [[-> Ht]|[-> Ht]]).
    + split; [done|]. left. split; [done|]. rewrite Ht. unfold persisted. simpl. by destruct (tables d).
    + split; [done|]. by right.
  - unfold db_insert_allocation, dml_rc. rewrite bind_step, bind_step.
    destruct (dml _ d) as [ok d1] eqn:E. simpl.
    apply (dml_in_txn t0) in E as [Hclk [(-> & Htx1 & n & Hf & _)|[-> Hfail]]]; [| |done]; simpl.
    + intros Hrun. destruct (IH d1 Htx1 Hrun) as ((Hi & Ho & Hc) & Hres).
      split; [destruct Htx1 as (? & _), Htx as (? & _); split_and!; [done|congruence|congruence]|].
      destruct Hres as [[-> Ht]|[Hrc Ht]]; [left; split; [done|]|by right].
      injection Hf as Hf _. rewrite Ht, Hclk, <- Hf. unfold persisted. simpl.
      destruct (tables d). reflexivity.
    + destruct (rollback_fails t0 (-1) d1 Hfail) as (d2 & Hrun & Hi & Ht & Ho & Hc). rewrite Hrun.
      intros [= <- <-]. destruct Hfail as (? & _), Htx as (? & _).
      split; [split_and!; [done|congruence|congruence]|]. by right.
Qed.

Lemma persist_record_spec record d rc d' :
  idle d → persist_record record d = (rc, d') →
  idle_step d d' ∧
  (rc = 0 ∧ tables d' = persisted (clock d) (ar_job_id record) (ar_slots record) (tables d) ∨
   rc ≠ 0 ∧ tables d' = tables d).
Proof.
  intros Hi. unfold persist_record. rewrite bind_step.
  destruct (db_begin d) as [rc1 d1] eqn:E1. simpl.
  apply db_begin_spec in E1 as (Hc1 & Ht1 & Ho1 & [[-> Htx]|[-> Hi1]]); [| |done]; simpl.
  - intros Hrun. apply (persist_slots_spec (tables d)) in Hrun as ((? & ? & ?) & Hres); [|done].
    rewrite Hc1, Ht1 in Hres. split; [|done]. split_and!; [done|congruence|congruence].
  - intros [= <- <-]. split; [done|]. by right.
Qed.

(** ** The invariant and the operations *)

Section operations.
Context {S : Type} `{MachineStoreLaws S}.
Implicit Types s : AllocState S.

Definition ledger_records s : list AllocRecord := active_records (l_allocs (a_ledger s)).

Record alloc_inv s : Prop := {
  ai_store : ms_ok (a_store s);
  ai_booked : ∀ id, store_reserved (a_store s) id = booked id (ledger_records s);
  ai_slots : Forall (λ r, Forall slot_ok (ar_slots r)) (ledger_records s);
  ai_jobs : NoDup (active_jobs (l_allocs (a_ledger s)));
  ai_db : idle (a_db s);
}.

(** Nothing that a client can see has changed. *)
Definition unchanged s s' : Prop :=
  store_eq (a_store s) (a_store s') ∧ ledger_records s' ≡ₚ ledger_records s ∧ tables (a_db s') = tables (a_db s).

(** Exactly this record was added. *)
Definition granted (job_id : string) (slots : list AllocSlot) s s' : Prop :=
  store_plus (λ id, slots_on id slots) (a_store s) (a_store s') ∧
  ledger_records s' ≡ₚ mkAlloc job_id slots true :: ledger_records s ∧
  tables (a_db s') = persisted (clock (a_db s)) job_id slots (tables (a_db s)).

Lemma unchanged_inv s s' :
  alloc_inv s → ms_ok (a_store s') → idle (a_db s') → unchanged s s' → alloc_inv s'.
Proof.
  intros [Hs Hb Hsl Hj Hd] Hok Hi (Heq & Hp & _). split; [done| | | |done].
  - intros id. rewrite (store_eq_reserved _ _ _ Heq), Hb. by rewrite Hp.
  - by rewrite Hp.
  - unfold active_jobs, ledger_records in *. by rewrite Hp.
Qed.

Lemma granted_inv job_id slots s s' :
  alloc_inv s → ms_ok (a_store s') → idle (a_db s') → Forall slot_ok slots →
  job_id ∉ active_jobs (l_allocs (a_ledger s)) → granted job_id slots s s' → alloc_inv s'.
Proof.
  intros [Hs Hb Hsl Hj Hd] Hok Hi Hslots Hnew (Hplus & Hp & _). split; [done| | | |done].
  - intros id. rewrite (store_plus_reserved _ _ _ _ Hplus), Hb, Hp. unfold booked at 2; simpl. apply res_add_comm.
  - rewrite Hp. by constructor.
  - unfold active_jobs, ledger_records in *. rewrite Hp. simpl. by constructor.
Qed.

(** After the slots were applied and recorded: persist, or undo.  [s0] is
    the state before the call. *)
Lemma persist_or_discard {A} (fail : A) (k : ST (AllocState S) A) job_id slots i s0 s :
  alloc_inv s0 → acquired (l_allocs (a_ledger s0)) i (l_allocs (a_ledger s)) →
  l_allocs (a_ledger s) !! i = Some (mkAlloc job_id slots true) →
  Forall slot_ok slots → ms_ok (a_store s) →
  store_plus (λ id, slots_on id slots) (a_store s0) (a_store s) → a_db s = a_db s0 →
  ∀ a s', (rc ← on_db (persist_record (mkAlloc job_id slots true));
           if negb (rc =? 0) then discard_record i slots ;; mret fail else k) s = (a, s') →
  (∃ s1, k s1 = (a, s') ∧ granted job_id slots s0 s1 ∧ ms_ok (a_store s1) ∧ idle (a_db s1)
         ∧ l_allocs (a_ledger s1) = l_allocs (a_ledger s)) ∨
  (a = fail ∧ unchanged s0 s' ∧ ms_ok (a_store s') ∧ idle (a_db s')).
Proof.
  intros Hinv Hacq Hi Hslots Hok Hplus Hdb a s'. destruct s as [st L d]; simpl in *. subst d.
  rewrite bind_on_db. simpl.
  destruct (persist_record _ (a_db s0)) as [rc d1] eqn:Hp. simpl.
  apply persist_record_spec in Hp as [(Hi1 & Ho1 & Hc1) Hp]; [|apply Hinv]. simpl in Hp.
  destruct Hacq as [Hlt Hacq]. destruct Hp as [[-> Ht]|[Hrc Ht]]; simpl.
  - intros Hk. left. eexists. split; [exact Hk|]. split; [|done]. split; [done|]. split; [|done].
    unfold ledger_records; simpl. rewrite <- (list_insert_id (l_allocs L) i _ Hi). by rewrite Hacq.
  - rewrite (proj2 (Z.eqb_neq rc 0) Hrc). simpl. intros Hrun. right.
    destruct (release_slots_spec slots st) as (st2 & Hrel & Hok2 & Hplus2); [done|done| |].
    { intros id. rewrite (store_plus_reserved _ _ _ id Hplus). apply res_le_add.
      rewrite (ai_booked s0 Hinv). apply res_sum_nonneg, Forall_forall. intros x (r & -> & Hr)%list_elem_of_fmap.
      apply slots_on_nonneg. by eapply (proj1 (Forall_forall _ _) (ai_slots s0 Hinv)). }
    rewrite (discard_run fail i slots _ st2) in Hrun by done. injection Hrun as <- <-. simpl.
    split; [done|]. split; [|done]. split; [by eapply store_plus_cancel|]. split; [|done].
    unfold ledger_records; simpl. by rewrite Hacq.
Qed.

Lemma unchanged_refl s : unchanged s s.
Proof. by split_and!. Qed.

(** Before anything was applied, clearing the acquired record undoes it. *)
Lemma clear_unchanged s0 s i r :
  acquired (l_allocs (a_ledger s0)) i (l_allocs (a_ledger s)) → store_eq (a_store s0) (a_store s) →
  a_db s = a_db s0 →
  unchanged s0 (mkAllocState (a_store s) (set_record i zero_record (set_record i r (a_ledger s))) (a_db s)).
Proof.
  intros [_ Hacq] Heq Hdb. split; [done|]. split; [|simpl; by rewrite Hdb].
  unfold ledger_records; simpl. rewrite list_insert_insert_eq. by rewrite Hacq.
Qed.

(** The common outcome of the reservations: the invariant, and all or
    nothing. *)
Definition outcome (ok : Prop) (job_id : string) (slots : list AllocSlot) s s' : Prop :=
  alloc_inv s' ∧ (ok ∧ granted job_id slots s s' ∨ ¬ ok ∧ unchanged s s').

Lemma reserve_single_spec env job_id m req s rc s' :
  alloc_inv s → (str_len job_id < JOB_ID_LEN)%nat → (str_len (m_id m) < 64)%nat → 1 ≤ r_cores req →
  reserve_single env job_id m req s = (rc, s') →
  outcome (rc = 0) job_id [mkSlot (m_id m) req] s s'.
Proof.
  intros Hinv Hj Hm Hc. unfold reserve_single, outcome. rewrite bind_on_ledger.
  destruct (alloc_record_acquire _ _ _) as [[i|] L1] eqn:Hacq; apply acquire_spec in Hacq; simpl.
  2:{ subst L1. intros [= <- <-]. destruct s. split; [done|]. right. split; [done|]. apply unchanged_refl. }
  destruct Hacq as [Hacq Hnew]. rewrite !cbuf_id by done. rewrite bind_on_ledger, bind_on_store. simpl.
  destruct (ms_reserve (m_id m) req (a_store s)) as [rc1 st1] eqn:Hrun. simpl.
  pose proof (apply_up (a_store s) (mkSlot (m_id m) req) rc1 st1 (ai_store s Hinv) Hrun)
    as [Hok1 [[Hrc ->]|(-> & Hn & _ & Hplus)]].
  - rewrite (proj2 (Z.eqb_neq rc1 0) Hrc). simpl. intros [= <- <-].
    assert (unchanged s (mkAllocState (a_store s) (set_record i zero_record
      (set_record i (mkAlloc job_id [mkSlot (m_id m) req] true) L1)) (a_db s))) as Hun
      by (by apply (clear_unchanged s (mkAllocState (a_store s) L1 (a_db s)))).
    split; [|by right]. eapply unchanged_inv; [exact Hinv|done|exact (ai_db s Hinv)|exact Hun].
  - simpl. intros Hp. pose proof Hacq as [Hlt Hput].
    assert (Forall slot_ok [mkSlot (m_id m) req]) as Hslots by (constructor; [by split|constructor]).
    apply (persist_or_discard _ _ job_id _ i s) in Hp; simpl; try done.
    + destruct Hp as [(s1 & Hk & Hg & Ho & Hi & _)|(-> & Hun & Ho & Hi)].
      * injection Hk as <- <-. split; [by eapply granted_inv|by left].
      * split; [by eapply unchanged_inv|by right].
    + split; [by rewrite length_insert|]. intros r. rewrite list_insert_insert_eq. apply Hput.
    + by apply list_lookup_insert_eq.
    + eapply store_plus_ext; [|done]. intros id. unfold slots_on; simpl. by rewrite res_add_0_r.
Qed.

(** *** First fit *)

Lemma machines_wf env (st : S) m :
  ms_ok st → m ∈ machines env st → ms_get_copy (m_id m) st = Some m ∧ machine_wf m.
Proof.
  intros Hok Hm. unfold machines in Hm. destruct (ms_snapshot _ st) as [l|] eqn:E; simpl in Hm; [|set_solver].
  pose proof (ms_snapshot_get _ _ _ _ Hok E Hm) as Hget. split; [done|]. by eapply ms_get_wf in Hget as [? _].
Qed.

(** Whether a machine fits is whether the request is within what the store
    will grant. *)
Lemma machine_can_fit_spec m req :
  machine_wf m →
  machine_can_fit m req = true ↔ m_enabled m = true ∧ m_probe_status m = MACHINE_ONLINE ∧ res_le req (clamp0 (m_free m)).
Proof.
  intros Hwf. unfold machine_can_fit, is_online, free_cores, free_gpu, free_ram, free_disk, non_negative.
  rewrite !andb_true_iff, bool_decide_eq_true, !Z.leb_le.
  assert (∀ z, (if 0 <? z then z else 0) = Z.max 0 z) as Hz by (intros z; case_match; bool_prop; lia).
  rewrite !Hz. split; intros; res_solve.
Qed.

Lemma machine_free_nonneg m : machine_wf m → clamp0 (m_free m) = m_free m.
Proof. intros Hwf. destruct Hwf. apply res_ext; res_solve. Qed.

Lemma alloc_reserve_spec env job_id req s rc out s' :
  alloc_inv s → (str_len job_id < JOB_ID_LEN)%nat →
  alloc_reserve env job_id req s = ((rc, out), s') →
  alloc_inv s' ∧
  (rc = 0 ∧ (∃ pre m post, machines env (a_store s) = pre ++ m :: post ∧ out = m_id m ∧
               Forall (λ m, machine_can_fit m req = false) pre ∧ machine_can_fit m req = true ∧
               granted job_id [mkSlot (m_id m) req] s s') ∨
   rc = -1 ∧ out = "" ∧ unchanged s s').
Proof.
  intros Hinv Hj. unfold alloc_reserve. destruct (r_cores req <=? 0) eqn:Hc; bool_prop.
  { intros [= <- <- <-]. split; [done|]. right. by split_and!. }
  rewrite bind_step. simpl. set (ms := machines env (a_store s)).
  destruct (find_index _ ms) as [k|] eqn:Hf; simpl.
  2:{ intros [= <- <- <-]. split; [done|]. right. by split_and!. }
  apply find_index_Some in Hf as (m & Hm & Hfit & Hpre). rewrite Hm.
  destruct (machines_wf env (a_store s) m) as [_ Hwf]; [apply Hinv|by eapply list_elem_of_lookup_2|].
  rewrite bind_step. destruct (reserve_single _ _ _ _ s) as [rc1 s1] eqn:Hrun. simpl.
  apply reserve_single_spec in Hrun as [Hinv1 [[-> Hg]|[Hrc Hun]]]; [| |done|done|apply Hwf|lia]; simpl.
  - intros [= <- <- <-]. split; [done|]. left. split; [done|].
    exists (take k ms), m, (drop (Datatypes.S k) ms). rewrite cbuf_id by apply Hwf. split_and!; try done.
    + by rewrite take_drop_middle.
    + apply Forall_forall. intros x [j [Hj1 Hj2]%lookup_take_Some]%list_elem_of_lookup. by eapply Hpre.
  - rewrite (proj2 (Z.eqb_neq rc1 0) Hrc). intros [= <- <- <-]. split; [done|]. by right.
Qed.

Lemma alloc_reserve_on_spec env job_id target req s rc s' :
  alloc_inv s → (str_len job_id < JOB_ID_LEN)%nat →
  alloc_reserve_on env job_id target req s = (rc, s') →
  alloc_inv s' ∧ (rc = 0 ∧ granted job_id [mkSlot target req] s s' ∨ rc ≠ 0 ∧ unchanged s s').
Proof.
  intros Hinv Hj. unfold alloc_reserve_on. destruct (r_cores req <=? 0) eqn:Hc; bool_prop.
  { intros [= <- <-]. split; [done|]. right. split; [done|apply unchanged_refl]. }
  rewrite bind_step. simpl. destruct (ms_get_copy target (a_store s)) as [m|] eqn:Hm; simpl.
  2:{ intros [= <- <-]. split; [done|]. right. split; [done|apply unchanged_refl]. }
  case_match; [|intros [= <- <-]; split; [done|]; right; split; [done|apply unchanged_refl]].
  apply ms_get_wf in Hm as [Hwf <-]; [|apply Hinv]. intros Hrun.
  apply reserve_single_spec in Hrun; [done|done|done|apply Hwf|lia].
Qed.

(** *** Release *)

Definition of_job (job_id : string) (r : AllocRecord) : bool := String.eqb (ar_job_id r) job_id.

Lemma booked_le id l r : r ∈ l → Forall (λ r, Forall slot_ok (ar_slots r)) l → res_le (slots_on id (ar_slots r)) (booked id l).
Proof.
  intros [k Hk]%list_elem_of_lookup Hall. rewrite (delete_Permutation l k r Hk). unfold booked. simpl.
  rewrite res_add_comm. apply res_le_add. apply res_sum_nonneg, Forall_forall.
  intros x (r' & -> & Hr')%list_elem_of_fmap. apply slots_on_nonneg.
  apply (proj1 (Forall_forall _ _) Hall). rewrite (delete_Permutation l k r Hk). set_solver.
Qed.

Lemma alloc_release_spec job_id s rc s' :
  alloc_inv s → alloc_release job_id s = (rc, s') →
  alloc_inv s' ∧
  match filter (λ r, of_job job_id r = true) (ledger_records s) with
  | [] => store_eq (a_store s) (a_store s') ∧ ledger_records s' ≡ₚ ledger_records s
  | r :: rest =>
      rest = [] ∧ store_plus (λ id, slots_on id (ar_slots r)) (a_store s') (a_store s) ∧
      ledger_records s ≡ₚ r :: ledger_records s'
  end.
Proof.
  intros Hinv. unfold alloc_release. rewrite bind_step. cbn [st_gets fst snd].
  destruct (find_index _ (l_allocs (a_ledger s))) as [i|] eqn:Hf.
  2:{ rewrite bind_step. cbn [mret st_ret fst snd]. rewrite bind_on_db. intros [= <- <-].
      destruct (db_release_allocation job_id (a_db s)) as [rc d'] eqn:Hd. simpl.
      apply dml_rc_idle in Hd as [[Hi _] _]; [|apply Hinv]. split; [by destruct Hinv; split|].
      assert (filter (λ r, of_job job_id r = true) (ledger_records s) = []) as ->; [|done].
      apply filter_none. intros r [Ha Hr]%list_elem_of_filter Hj.
      pose proof (find_index_None _ _ Hf r Hr) as E. simpl in E. unfold of_job in Hj. by rewrite Ha, Hj in E. }
  apply find_index_Some in Hf as (r & Hr & Hp & _). apply andb_prop in Hp as [Ha Hj].
  assert (r ∈ ledger_records s) as Hin
    by (apply list_elem_of_filter; split; [done|by eapply list_elem_of_lookup_2]).
  rewrite (filter_key ar_job_id _ _ r (ai_jobs s Hinv) Hin).
  2:{ intros y. unfold of_job. bool_prop. rewrite String.eqb_eq. by rewrite Hj. }
  pose proof (proj1 (Forall_forall _ _) (ai_slots s Hinv) r Hin) as Hslots.
  rewrite Hr. cbn [fmap option_fmap option_map default from_option id].
  destruct (release_slots_spec (ar_slots r) (a_store s)) as (st' & Hrel & Hok & Hplus); [apply Hinv|done| |].
  { intros id. rewrite (ai_booked s Hinv). apply booked_le; [done|apply Hinv]. }
  rewrite bind_step, (discard_run _ i _ s st' Hrel). cbn [fst snd]. rewrite bind_on_db. intros [= <- <-]. simpl.
  destruct (db_release_allocation job_id (a_db s)) as [rc d'] eqn:Hd. simpl.
  apply dml_rc_idle in Hd as [[Hi _] _]; [|apply Hinv].
  pose proof (active_insert _ _ _ zero_record Hr) as Hperm. rewrite Ha in Hperm. simpl in Hperm.
  assert (ledger_records s ≡ₚ r :: active_records (<[i:=zero_record]> (l_allocs (a_ledger s)))) as Hp
    by (unfold ledger_records; rewrite <- Hperm; by rewrite Permutation_app_comm).
  destruct Hinv as [Hs Hb Hsl Hjobs Hdb]. rewrite Hp in Hsl. split; [|done]. split; simpl; try done.
  - intros id. specialize (Hb id). rewrite Hp in Hb. rewrite (store_plus_reserved _ _ _ id Hplus) in Hb.
    unfold booked in Hb; simpl in Hb. rewrite (res_add_comm (slots_on id _)) in Hb. by apply res_add_cancel in Hb.
  - by inversion Hsl.
  - unfold active_jobs, ledger_records in *. rewrite Hp in Hjobs. simpl in Hjobs. by apply NoDup_cons in Hjobs as [_ ?].
Qed.

(** *** Reservation across machines *)

Definition cores_sum (slots : list AllocSlot) : Z := sumZ (map (λ sl, r_cores (sl_res sl)) slots).

Lemma multi_slots_spec ms slots rem slots' rem' :
  multi_slots ms slots rem = (slots', rem') → 0 ≤ rem → (length slots ≤ ALLOC_MAX_MACHINES_PER_JOB)%nat →
  ∃ new, slots' = slots ++ new ∧ cores_sum new + rem' = rem ∧ 0 ≤ rem' ∧
    (length slots' ≤ ALLOC_MAX_MACHINES_PER_JOB)%nat ∧
    Forall (λ sl, 1 ≤ r_cores (sl_res sl) ∧ sl_res sl = mkRes (r_cores (sl_res sl)) 0 0 0) new ∧
    map sl_machine_id new `sublist_of` map (λ m, cbuf 64 (m_id m)) ms.
Proof.
  revert slots rem. induction ms as [|m ms IH]; intros slots rem; cbn [multi_slots].
  { intros [= <- <-] ??. exists []. rewrite app_nil_r. split_and!; try done. }
  destruct (negb _ || _) eqn:Hstop.
  { intros [= <- <-] ??. exists []. rewrite app_nil_r. split_and!; try done. apply sublist_nil_l. }
  apply orb_false_iff in Hstop as [Hlen Hrem]. apply negb_false_iff, Nat.ltb_lt in Hlen. bool_prop.
  destruct (negb (m_enabled m) || negb (is_online m) || (free_cores m <=? 0)) eqn:Hskip.
  { intros Hrun ? ?. destruct (IH _ _ Hrun) as (new & ? & ? & ? & ? & ? & ?); [done|done|].
    exists new. split_and!; try done. by apply sublist_cons. }
  rewrite !orb_false_iff in Hskip. destruct Hskip as [_ Hfree]. bool_prop.
  set (cores := if free_cores m <? rem then free_cores m else rem).
  assert (1 ≤ cores ≤ rem) as Hcores by (unfold cores; case_match; bool_prop; lia).
  intros Hrun ? ?. destruct (IH _ _ Hrun) as (new & -> & Hsum & ? & ? & ? & ?); [lia|rewrite length_app; simpl; lia|].
  exists (mkSlot (cbuf 64 (m_id m)) (mkRes cores 0 0 0) :: new). rewrite <- app_assoc. split_and!; try done.
  - unfold cores_sum in *; simpl. lia.
  - by rewrite <- app_assoc in *.
  - constructor; [simpl; split; [lia|done]|done].
  - simpl. by apply sublist_skip.
Qed.

Lemma share_slots_spec ms ram disk slots slots' :
  share_slots ms ram disk slots = Some slots' →
  slots' = map (λ sl, mkSlot (sl_machine_id sl) (mkRes (r_cores (sl_res sl)) (r_gpu (sl_res sl)) ram disk)) slots.
Proof.
  revert slots'. induction slots as [|sl slots IH]; intros slots'; simpl; [by intros [= <-]|].
  repeat case_match; try done. destruct (share_slots ms ram disk slots) as [l|]; simpl; [|done].
  intros [= <-]. by rewrite (IH l eq_refl).
Qed.

Lemma share_nonneg a n : 0 ≤ a → (1 ≤ n)%nat → 0 ≤ share a n.
Proof. intros. unfold share. apply Z.quot_pos; lia. Qed.

(** The slots handed to the store: positive, on distinct machines, and
    adding up to the request. *)
Lemma multi_slots_facts ms slots0 ram disk env (st : S) :
  ms_ok st → ms_snapshot (snapshot_ok env) st = Some ms → 0 ≤ ram → 0 ≤ disk →
  Forall (λ sl, 1 ≤ r_cores (sl_res sl) ∧ sl_res sl = mkRes (r_cores (sl_res sl)) 0 0 0) slots0 →
  map sl_machine_id slots0 `sublist_of` map (λ m, cbuf 64 (m_id m)) ms →
  let slots := map (λ sl, mkSlot (sl_machine_id sl) (mkRes (r_cores (sl_res sl)) (r_gpu (sl_res sl)) ram disk)) slots0 in
  Forall (λ sl, slot_ok sl ∧ r_gpu (sl_res sl) = 0 ∧ r_ram_mb (sl_res sl) = ram ∧ r_disk_mb (sl_res sl) = disk) slots ∧
  NoDup (map sl_machine_id slots) ∧
  Forall (λ sl, (str_len (sl_machine_id sl) < 64)%nat) slots ∧ cores_sum slots = cores_sum slots0.
Proof.
  intros Hok Hsnap Hram Hdisk Hcores Hsub slots.
  assert (map sl_machine_id slots = map sl_machine_id slots0) as Hids by (unfold slots; rewrite map_map; by apply map_ext).
  assert (map (λ m, cbuf 64 (m_id m)) ms = map m_id ms) as Hms.
  { apply map_ext_in. intros m Hm%list_elem_of_In. apply cbuf_id.
    pose proof (ms_snapshot_get _ _ _ _ Hok Hsnap Hm) as Hget. apply ms_get_wf in Hget as [Hwf _]; [apply Hwf|done]. }
  rewrite Hms in Hsub. split_and!.
  - unfold slots. apply Forall_map. eapply Forall_impl; [exact Hcores|]. intros sl [H1 H2]; simpl.
    unfold slot_ok; simpl. rewrite H2; simpl. res_solve.
  - rewrite Hids. eapply sublist_NoDup; [|exact Hsub]. by eapply ms_snapshot_ids.
  - apply Forall_forall. intros sl Hsl.
    assert (sl_machine_id sl ∈ map m_id ms) as (m & -> & Hm)%list_elem_of_fmap.
    { eapply elem_of_sublist; [|exact Hsub]. rewrite <- Hids. by apply (list_elem_of_fmap_2 sl_machine_id). }
    pose proof (ms_snapshot_get _ _ _ _ Hok Hsnap Hm) as Hget. apply ms_get_wf in Hget as [Hwf _]; [apply Hwf|done].
  - unfold cores_sum, slots. by rewrite map_map.
Qed.

Lemma join_ids_some (b : bool) slots out n :
  Forall (λ sl, (str_len (sl_machine_id sl) < 64)%nat) slots →
  (str_len out ≤ 64 * n)%nat → (n + length slots ≤ ALLOC_MAX_MACHINES_PER_JOB)%nat →
  (if b then n = O else (str_len out < 64 * n)%nat) → is_Some (join_ids b slots out).
Proof.
  revert b out n. induction slots as [|sl slots IH]; intros b out n Hall Hout Hn Hb; simpl; [by eexists|].
  inversion Hall as [|? ? Hsl Hrest]; subst. simpl in Hn. unfold ALLOC_MAX_MACHINES_PER_JOB in *.
  rewrite str_len_app. rewrite (proj2 (Nat.leb_gt _ _)) by (destruct b; simpl; lia).
  apply (IH false _ (Datatypes.S n)); [done|rewrite !str_len_app; destruct b; simpl; lia|lia|].
  rewrite !str_len_app. destruct b; simpl; lia.
Qed.

Lemma alloc_reserve_multi_spec env job_id req s rc ids n s' :
  alloc_inv s → (str_len job_id < JOB_ID_LEN)%nat → 0 ≤ r_ram_mb req → 0 ≤ r_disk_mb req →
  alloc_reserve_multi env job_id req s = ((rc, ids, n), s') →
  alloc_inv s' ∧
  (rc = 0 ∧ (∃ slots, granted job_id slots s s' ∧ n = Z.of_nat (length slots) ∧
      (1 ≤ length slots ≤ ALLOC_MAX_MACHINES_PER_JOB)%nat ∧ cores_sum slots = r_cores req ∧
      NoDup (map sl_machine_id slots) ∧
      Forall (λ sl, slot_ok sl ∧ r_gpu (sl_res sl) = 0 ∧ r_ram_mb (sl_res sl) = share (r_ram_mb req) (length slots) ∧
                    r_disk_mb (sl_res sl) = share (r_disk_mb req) (length slots)) slots) ∨
   rc = -1 ∧ unchanged s s').
Proof.
  intros Hinv Hj Hram Hdisk. unfold alloc_reserve_multi.
  destruct ((0 <? r_gpu req) || (r_cores req <=? 0)) eqn:Hc.
  { intros [= <- <- <- <-]. split; [done|]. right. by split_and!. }
  apply orb_false_iff in Hc as [_ Hc]. bool_prop.
  rewrite bind_step. cbn [st_gets fst snd]. rewrite bind_on_ledger.
  destruct (alloc_record_acquire _ _ _) as [[i|] L1] eqn:Hacq; apply acquire_spec in Hacq; cbn [fst snd].
  2:{ subst L1. intros [= <- <- <- <-]. destruct s. split; [done|]. right. by split_and!. }
  destruct Hacq as [Hacq Hnew]. set (s1 := mkAllocState (a_store s) L1 (a_db s)).
  assert (alloc_inv (clear_record i s1).2 ∧ unchanged s (clear_record i s1).2) as Hclear.
  { assert (unchanged s (mkAllocState (a_store s) (set_record i zero_record L1) (a_db s))) as Hun.
    { split; [done|]. split; [|done]. unfold ledger_records; simpl. by rewrite (proj2 Hacq). }
    split; [|done]. eapply unchanged_inv; [exact Hinv|apply Hinv|exact (ai_db s Hinv)|exact Hun]. }
  assert (∀ r, (clear_record i ;; mret (-1, "", 0)) s1 = r → r = ((rc, ids, n), s') →
    alloc_inv s' ∧ rc = -1 ∧ unchanged s s') as Hfail.
  { intros r <-. rewrite bind_step. intros [= <- <- <- <-]. tauto. }
  destruct (ms_snapshot (snapshot_ok env) (a_store s)) as [ms|] eqn:Hsnap.
  2:{ intros Hrun. destruct (Hfail _ eq_refl Hrun) as (? & ? & ?). auto. }
  destruct (multi_slots ms [] (r_cores req)) as [slots0 remaining] eqn:Hms.
  apply multi_slots_spec in Hms as (new & Hnewslots & Hsum & Hrem & Hlen & Hcores & Hsub); [|lia|simpl; lia].
  simpl in Hnewslots. subst new.
  destruct (_ || _) eqn:Hok; [intros Hrun; destruct (Hfail _ eq_refl Hrun) as (? & ? & ?); auto|].
  apply orb_false_iff in Hok as [Hr0 Hn0]. bool_prop. apply Nat.eqb_neq in Hn0.
  set (ram := share (r_ram_mb req) (length slots0)). set (disk := share (r_disk_mb req) (length slots0)).
  destruct (share_slots ms ram disk slots0) as [slots|] eqn:Hshare;
    [|intros Hrun; destruct (Hfail _ eq_refl Hrun) as (? & ? & ?); auto].
  apply share_slots_spec in Hshare. rewrite !cbuf_id by done. rewrite bind_on_ledger, bind_on_store.
  cbn [st_modify fst snd a_store a_ledger a_db s1].
  destruct (multi_slots_facts ms slots0 ram disk env (a_store s)) as (Hslots & Hids & Hall & Hcs); try done.
  { apply Hinv. } { unfold ram. apply share_nonneg; lia. } { unfold disk. apply share_nonneg; lia. }
  rewrite <- Hshare in *.
  assert (Forall slot_ok slots) as Hsok by (eapply Forall_impl; [exact Hslots|]; tauto).
  assert (length slots = length slots0) as Hlens by (by rewrite Hshare, length_map).
  destruct (apply_slots [] slots (a_store s)) as [ok st1] eqn:Happly. cbn [fst snd].
  apply (apply_slots_spec [] slots (a_store s)) in Happly as [Hok1 Hplus];
    [|apply Hinv|apply Hinv|by apply Forall_nil_2|done|apply store_plus_refl].
  destruct ok; cbn [negb].
  - intros Hrun. pose proof Hacq as [Hlt Hput].
    apply (persist_or_discard _ _ job_id slots i s) in Hrun; simpl; try done.
    + destruct (join_ids_some true slots "" 0) as [out Hout]; [done|simpl; lia|simpl; lia|done|].
      rewrite Hout in Hrun. destruct Hrun as [(s2 & Hk & Hg & Ho & Hi & _)|([= -> -> ->] & Hun & Ho & Hi)].
      * injection Hk as <- <- <- <-. split; [by eapply granted_inv|]. left. split; [done|].
        exists slots. rewrite Hlens. split_and!; [done|done|lia|lia|lia|done|]. done.
      * split; [by eapply unchanged_inv|by right].
    + split; [by rewrite length_insert|]. intros r. rewrite list_insert_insert_eq. apply Hput.
    + by apply list_lookup_insert_eq.
  - intros Hrun. rewrite bind_step in Hrun. injection Hrun as <- <- <- <-.
    assert (unchanged s (mkAllocState st1 (set_record i zero_record (set_record i (mkAlloc job_id slots true) L1)) (a_db s))) as Hun
      by (by apply (clear_unchanged s (mkAllocState st1 L1 (a_db s)))).
    split; [|by right]. eapply unchanged_inv; [exact Hinv|done|exact (ai_db s Hinv)|exact Hun].
Qed.
End operations.
