(* ===== verification/AllocatorProps.v ===== *)
(** Properties of the allocator over the registry: no machine is ever
    overcommitted, reservation is all or nothing and first fit, the capacity
    check is exact, and release undoes reservation. *)
From S2P Require Import Prelude Job Registry Sql Db Allocator AllocatorSpec.

(** ** Reachable states *)

Notation AState := (AllocState Registry).

Definition with_store (r : Registry) (s : AState) : AState := mkAllocState r (a_ledger s) (a_db s).
Definition with_adb (d : Db) (s : AState) : AState := mkAllocState (a_store s) (a_ledger s) d.

(** One call of the allocator, of the registry's administration or probing,
    or any database activity that leaves no transaction open. *)
Inductive alloc_step : AState → AState → Prop :=
  | step_reserve env job_id req r s s' :
      (str_len job_id < JOB_ID_LEN)%nat → alloc_reserve env job_id req s = (r, s') → alloc_step s s'
  | step_reserve_on env job_id target req r s s' :
      (str_len job_id < JOB_ID_LEN)%nat → alloc_reserve_on env job_id target req s = (r, s') → alloc_step s s'
  | step_reserve_multi env job_id req r s s' :
      (str_len job_id < JOB_ID_LEN)%nat → 0 ≤ r_ram_mb req → 0 ≤ r_disk_mb req →
      alloc_reserve_multi env job_id req s = (r, s') → alloc_step s s'
  | step_release job_id r s s' : alloc_release job_id s = (r, s') → alloc_step s s'
  | step_upsert m s : fresh_machine m → alloc_step s (with_store (registry_upsert m (a_store s)).2 s)
  | step_remove id s : alloc_step s (with_store (registry_remove id (a_store s)).2 s)
  | step_probe id st t k s : alloc_step s (with_store (registry_update_probe id st t k (a_store s)).2 s)
  | step_database d s : idle d → alloc_step s (with_adb d s).

(** Nothing reserved, an empty ledger. *)
Definition alloc_init (s : AState) : Prop :=
  reg_ok (a_store s) ∧ (∀ m, m ∈ a_store s → m_reserved m = res0) ∧ a_ledger s = no_ledger ∧ idle (a_db s).

Lemma alloc_init_inv s : alloc_init s → alloc_inv s.
Proof.
  intros (Hok & H0 & HL & Hd). split; try done; unfold ledger_records; rewrite ?HL; simpl; try constructor.
  intros id. unfold store_reserved. simpl. destruct (registry_get_copy id (a_store s)) as [m|] eqn:E; simpl; [|done].
  apply get_copy_Some in E as (i & _ & Hi & _). apply H0. by eapply list_elem_of_lookup_2.
Qed.

Lemma store_change_inv r s :
  alloc_inv s → reg_ok r → (∀ id, default res0 (reserved_on r id) = default res0 (reserved_on (a_store s) id)) →
  alloc_inv (with_store r s).
Proof.
  intros [Hs Hb Hsl Hj Hd] Hok Hres. split; try done. intros id.
  change (ledger_records (with_store r s)) with (ledger_records s). rewrite <- Hb. exact (Hres id).
Qed.

Lemma alloc_step_inv s s' : alloc_step s s' → alloc_inv s → alloc_inv s'.
Proof.
  intros Hstep Hinv. destruct Hstep as [env j req [r out] s s' Hj Hrun|env j t req r s s' Hj Hrun
    |env j req [[r ids] n] s s' Hj ? ? Hrun|j r s s' Hrun|m s Hf|id s|id st t k s|d s Hd].
  - by apply alloc_reserve_spec in Hrun as [? _].
  - by apply alloc_reserve_on_spec in Hrun as [? _].
  - by apply alloc_reserve_multi_spec in Hrun as [? _].
  - by apply alloc_release_spec in Hrun as [? _].
  - destruct (registry_upsert m (a_store s)) as [rc r] eqn:E. pose proof (ai_store s Hinv) as Hok.
    apply registry_upsert_spec in E as (? & ? & _); [|done..]. by apply store_change_inv.
  - destruct (registry_remove id (a_store s)) as [rc r] eqn:E. pose proof (ai_store s Hinv) as Hok.
    apply registry_remove_spec in E as (? & ? & _); [|done]. by apply store_change_inv.
  - destruct (registry_update_probe id st t k (a_store s)) as [rc r] eqn:E. pose proof (ai_store s Hinv) as Hok.
    apply registry_update_probe_spec in E as (? & Hres); [|done]. apply store_change_inv; [done|done|].
    intros id'. simpl. by rewrite Hres.
  - destruct Hinv. by split.
Qed.

Lemma alloc_reachable_inv s s' : alloc_init s → rtc alloc_step s s' → alloc_inv s'.
Proof. intros Hi Hr. apply (rtc_invariant alloc_step alloc_inv alloc_step_inv s s' Hr). by apply alloc_init_inv. Qed.

(** ** When the database accepts everything *)

Definition healthy (d : Db) : Prop := idle d ∧ s_open d = true ∧ outcomes d = [].

Lemma persist_slots_healthy job_id slots t0 d :
  in_txn t0 d → outcomes d = [] → (persist_slots job_id slots d).1 = 0.
Proof.
  revert d. induction slots as [|slot slots IH]; intros d (Ho & Ha & Hs) Hos; destruct d; simpl in *; subst; [done|].
  apply IH; done.
Qed.

Lemma persist_record_healthy record d : healthy d → (persist_record record d).1 = 0.
Proof.
  intros ((Ha & Hs) & Ho & Hos). destruct d; simpl in *; subst. unfold persist_record. simpl.
  by eapply persist_slots_healthy.
Qed.

(** Reserving on a machine that fits succeeds when nothing else fails. *)
Lemma reserve_single_succeeds env job_id m req s :
  alloc_inv s → healthy (a_db s) → grow_ok env = true → job_id ∉ active_jobs (l_allocs (a_ledger s)) →
  registry_get_copy (m_id m) (a_store s) = Some m → machine_can_fit m req = true → res_le res0 req →
  (reserve_single env job_id m req s).1 = 0.
Proof.
  intros Hinv Hh Hg Hnew Hget Hfit H0. unfold reserve_single. rewrite bind_on_ledger.
  pose proof (get_copy_wf _ _ _ (ai_store s Hinv) Hget) as Hwf.
  destruct (alloc_record_acquire _ _ _) as [[i|] L1] eqn:Hacq; cbn [fst snd].
  - rewrite bind_on_ledger, bind_on_store. simpl. rewrite cbuf_id by apply Hwf.
    assert ((registry_reserve (m_id m) req (a_store s)).1 = 0) as ->.
    { apply (machine_can_fit_spec m req Hwf) in Hfit as (? & ? & Hle).
      rewrite machine_free_nonneg in Hle by done. by eapply registry_reserve_succeeds. }
    simpl. rewrite bind_on_db. simpl. by rewrite persist_record_healthy.
  - exfalso. unfold alloc_record_acquire in Hacq. rewrite Hg in Hacq. destruct (existsb _ _) eqn:Hex.
    + apply existsb_exists in Hex as (r & Hr & Hb). apply andb_prop in Hb as [Ha Hj]. bool_prop. apply Hnew.
      subst job_id. apply (list_elem_of_fmap_2 ar_job_id). apply list_elem_of_filter. by rewrite list_elem_of_In.
    + rewrite andb_false_r in Hacq. by destruct (find_index _ _).
Qed.

(** ** A concrete installation for the witnesses *)

Definition test_machine (id : string) (cores ram : Z) : Machine :=
  mkMachine id "host" "10.0.0.1" true (mkRes cores 1 ram 1000) res0 MACHINE_ONLINE 0 0
    MACHINE_TYPE_STATIC "" "" 1 0 0 "".

Definition test_registry : Registry := [test_machine "m1" 4 1000; test_machine "m2" 8 4000].
Definition test_alloc : AState := mkAllocState test_registry no_ledger (mkDb true false None no_tables 0 100 []).
Definition test_env : AllocEnv := mkAllocEnv true true.

Lemma test_registry_ok : reg_ok test_registry.
Proof.
  split.
  - intros m Hm. unfold test_registry in Hm.
    rewrite !elem_of_cons in Hm. destruct Hm as [->|[->|Hm]]; [| |set_solver]; (split; [done|simpl; lia|res_solve..]).
  - simpl. repeat constructor; set_solver.
  - simpl. unfold MAX_MACHINES. lia.
Qed.

Lemma test_alloc_init : alloc_init test_alloc.
Proof.
  split; [exact test_registry_ok|]. split; [|done]. intros m Hm. simpl in Hm. unfold test_registry in Hm.
  rewrite !elem_of_cons in Hm. by destruct Hm as [->|[->|Hm]]; [| |set_solver].
Qed.

Lemma test_alloc_inv : alloc_inv test_alloc.
Proof. exact (alloc_init_inv _ test_alloc_init). Qed.

Lemma test_alloc_healthy : healthy (a_db test_alloc).
Proof. done. Qed.

(** ** Properties *)

(** C5. Whatever sequence of reservations (single, pinned, multi-machine),
    releases, machine registrations, removals and probe updates happens,
    with whatever allocation failures and database failures, what is reserved
    on every registered machine is exactly the sum of the active ledger
    records on it, and together with the protected minimum it never exceeds
    the machine's total. *)
Theorem no_machine_is_overcommitted (s s' : AState) (Hinit : alloc_init s) (Hreach : rtc alloc_step s s') :
  (∀ m, m ∈ a_store s' →
     m_reserved m = booked (m_id m) (ledger_records s') ∧
     res_le (res_add (booked (m_id m) (ledger_records s')) (m_min m)) (m_total m)) ∧
  NoDup (active_jobs (l_allocs (a_ledger s'))).
Proof.
  pose proof (alloc_reachable_inv s s' Hinit Hreach) as Hinv. split; [|apply Hinv]. intros m Hm.
  assert (m_reserved m = booked (m_id m) (ledger_records s')) as E.
  { rewrite <- (ai_booked s' Hinv). unfold store_reserved. simpl.
    rewrite (get_copy_elem (a_store s') m); [done|apply (ai_store s' Hinv)|done]. }
  split; [done|]. rewrite <- E. apply (wf_fits m). by apply (ro_machines (a_store s') (ai_store s' Hinv)).
Qed.

(** C36. [alloc_reserve] is all or nothing and first fit: it either reserves
    the request on the first machine of the registry that fits it, records it
    for the job and stores the allocation row, or it fails leaving every
    machine, the ledger's active records and the database tables as they
    were. *)
Theorem alloc_reserve_first_fit (env : AllocEnv) (job_id : string) (req : Res) (s s' : AState) (rc : Z) (out : string)
    (Hinv : alloc_inv s) (Hlen : (str_len job_id < JOB_ID_LEN)%nat)
    (Hrun : alloc_reserve env job_id req s = ((rc, out), s')) :
  (rc = 0 ∧ (∃ pre m post, machines env (a_store s) = pre ++ m :: post ∧ out = m_id m ∧
               Forall (λ m, machine_can_fit m req = false) pre ∧ machine_can_fit m req = true ∧
               granted job_id [mkSlot (m_id m) req] s s') ∨
   rc = -1 ∧ unchanged s s') ∧ alloc_inv s'.
Proof. apply alloc_reserve_spec in Hrun as [? [?|(? & _ & ?)]]; auto. Qed.

(** The capacity check is exact: when memory and the database do not fail
    and the job has no reservation yet, [alloc_reserve] of a non-negative
    request of at least one core succeeds if and only if [alloc_can_fit] says
    yes. *)
Theorem alloc_can_fit_is_exact (env : AllocEnv) (job_id : string) (req : Res) (s : AState)
    (Hinv : alloc_inv s) (Hdb : healthy (a_db s)) (Hgrow : grow_ok env = true)
    (Hnew : job_id ∉ active_jobs (l_allocs (a_ledger s))) (Hreq : res_le res0 req) (Hcores : 1 ≤ r_cores req) :
  (alloc_reserve env job_id req s).1.1 = 0 ↔ alloc_can_fit env req (a_store s) = true.
Proof.
  unfold alloc_reserve, alloc_can_fit. rewrite (proj2 (Z.leb_gt _ _)) by lia. rewrite bind_step. simpl.
  set (ms := machines env (a_store s)). split.
  - destruct (find_index _ ms) as [k|] eqn:Hf; simpl; [intros _|done].
    apply find_index_Some in Hf as (m & Hm & Hfit & _). apply existsb_exists. exists m.
    split; [|done]. apply list_elem_of_In. by eapply list_elem_of_lookup_2.
  - intros (m0 & Hm0 & Hfit0)%existsb_exists. apply list_elem_of_In in Hm0.
    destruct (find_index_is_Some (λ m, machine_can_fit m req) ms m0 Hm0 Hfit0) as [k Hk]. rewrite Hk. simpl.
    apply find_index_Some in Hk as (m & Hm & Hfit & _). rewrite Hm. rewrite bind_step.
    destruct (machines_wf env (a_store s) m) as [Hget _]; [apply Hinv|by eapply list_elem_of_lookup_2|].
    by rewrite reserve_single_succeeds.
Qed.

(** A multi-machine reservation is all or nothing too; when it succeeds
    it takes between 1 and 16 distinct machines whose cores add up to exactly
    the request, each with at least one core and the rounded-up share of the
    memory and disk, and the list of names always fits the caller's
    1024-byte buffer. *)
Theorem alloc_reserve_multi_exact (env : AllocEnv) (job_id : string) (req : Res) (s s' : AState) (rc n : Z) (ids : string)
    (Hinv : alloc_inv s) (Hlen : (str_len job_id < JOB_ID_LEN)%nat) (Hram : 0 ≤ r_ram_mb req) (Hdisk : 0 ≤ r_disk_mb req)
    (Hrun : alloc_reserve_multi env job_id req s = ((rc, ids, n), s')) :
  alloc_inv s' ∧
  (rc = 0 ∧ (∃ slots, granted job_id slots s s' ∧ n = Z.of_nat (length slots) ∧
      (1 ≤ length slots ≤ ALLOC_MAX_MACHINES_PER_JOB)%nat ∧ cores_sum slots = r_cores req ∧
      NoDup (map sl_machine_id slots) ∧
      Forall (λ sl, slot_ok sl ∧ r_gpu (sl_res sl) = 0 ∧ r_ram_mb (sl_res sl) = share (r_ram_mb req) (length slots) ∧
                    r_disk_mb (sl_res sl) = share (r_disk_mb req) (length slots)) slots) ∨
   rc = -1 ∧ unchanged s s').
Proof. by apply alloc_reserve_multi_spec in Hrun. Qed.

(** C22. Release undoes reservation: after [alloc_reserve] of a job without a
    reservation succeeds, [alloc_release] of that job gives every machine
    back what it had and leaves the ledger's active records as before, even
    if the database refuses the release. *)
Theorem alloc_release_undoes_reserve (env : AllocEnv) (job_id : string) (req : Res) (s s1 s2 : AState) (out : string) (rc : Z)
    (Hinv : alloc_inv s) (Hlen : (str_len job_id < JOB_ID_LEN)%nat)
    (Hnew : job_id ∉ active_jobs (l_allocs (a_ledger s)))
    (Hrun : alloc_reserve env job_id req s = ((0, out), s1)) (Hrel : alloc_release job_id s1 = (rc, s2)) :
  store_eq (a_store s) (a_store s2) ∧ ledger_records s2 ≡ₚ ledger_records s ∧ alloc_inv s2.
Proof.
  apply alloc_reserve_spec in Hrun as [Hinv1 [(_ & pre & m & post & _ & _ & _ & _ & Hplus & Hp & _)|[? _]]]; [|done..].
  apply alloc_release_spec in Hrel as [Hinv2 Hrel]; [|done]. set (r := mkAlloc job_id _ true) in *.
  assert (filter (λ r, of_job job_id r = true) (ledger_records s1) = [r]) as E.
  { apply (filter_key ar_job_id); [apply (ai_jobs s1 Hinv1)|rewrite Hp; set_solver|].
    intros y. unfold of_job. by rewrite String.eqb_eq. }
  rewrite E in Hrel. destruct Hrel as (_ & Hplus2 & Hp2). split_and!; [|by rewrite Hp2 in Hp; apply Permutation_cons_inv in Hp|done].
  eapply store_plus_cancel; [exact Hplus|]. eapply store_plus_ext; [|exact Hplus2]. done.
Qed.

Lemma no_machine_is_overcommitted_witness :
  let s' := (alloc_reserve test_env "job-1" (mkRes 2 0 100 0) test_alloc).2 in
  alloc_init test_alloc ∧ NoDup (active_jobs (l_allocs (a_ledger s'))).
Proof.
  split; [exact test_alloc_init|]. refine (proj2 (no_machine_is_overcommitted test_alloc _ test_alloc_init _)).
  apply rtc_once. eapply (step_reserve test_env "job-1"); [simpl; unfold JOB_ID_LEN; lia|].
  apply surjective_pairing.
Defined.

Lemma alloc_reserve_first_fit_witness :
  ∃ s', alloc_reserve test_env "job-1" (mkRes 4 0 100 0) test_alloc = ((0, "m2"), s') ∧ alloc_inv s'.
Proof.
  eexists. split; [by vm_compute|].
  eapply (alloc_reserve_first_fit test_env "job-1" (mkRes 4 0 100 0) test_alloc _ 0 "m2" test_alloc_inv);
    [simpl; unfold JOB_ID_LEN; lia|by vm_compute].
Defined.

Lemma alloc_can_fit_is_exact_witness :
  (alloc_reserve test_env "job-1" (mkRes 8 0 100 0) test_alloc).1.1 = 0 ↔
  alloc_can_fit test_env (mkRes 8 0 100 0) test_registry = true.
Proof.
  apply (alloc_can_fit_is_exact test_env "job-1" (mkRes 8 0 100 0) test_alloc test_alloc_inv test_alloc_healthy);
    [done|by apply not_elem_of_nil|res_solve|simpl; lia].
Defined.

Lemma alloc_reserve_multi_exact_witness :
  ∃ s', alloc_reserve_multi test_env "job-1" (mkRes 9 0 100 0) test_alloc = ((0, "m1,m2", 2), s') ∧ alloc_inv s'.
Proof.
  eexists. split; [by vm_compute|].
  eapply (alloc_reserve_multi_exact test_env "job-1" (mkRes 9 0 100 0) test_alloc _ 0 2 "m1,m2" test_alloc_inv);
    [simpl; unfold JOB_ID_LEN; lia|simpl; lia|simpl; lia|by vm_compute].
Defined.

Lemma alloc_release_undoes_reserve_witness :
  ∃ s1 s2, alloc_reserve test_env "job-1" (mkRes 2 0 100 0) test_alloc = ((0, "m1"), s1) ∧
    alloc_release "job-1" s1 = (0, s2) ∧ store_eq (a_store test_alloc) (a_store s2).
Proof.
  eexists _, _. split; [by vm_compute|]. split; [by vm_compute|].
  eapply (alloc_release_undoes_reserve test_env "job-1" (mkRes 2 0 100 0) test_alloc _ _ "m1" 0 test_alloc_inv);
    [simpl; unfold JOB_ID_LEN; lia|by apply not_elem_of_nil|by vm_compute|by vm_compute].
Defined.
