(* ===== verification/JobOps.v ===== *)
(** The operations of src/core/job.c on a job, the database and the event
    ring: creation and status changes; with the paths of
    src/transfer/store.c and the persistent events of src/http/events.c. *)
From S2P Require Import Prelude Job Events Registry Sql Db DbAdmin.

(** ** Paths of src/transfer/store.c (POSIX separator) *)

Definition SEP : string := "/".
Definition job_path (work_dir job_id leaf : string) (len : nat) : string :=
  cbuf len (work_dir +:+ SEP +:+ job_id +:+ SEP +:+ leaf).
Definition store_input_dir (work_dir job_id : string) (len : nat) : string := job_path work_dir job_id "input" len.
Definition store_output_dir (work_dir job_id : string) (len : nat) : string := job_path work_dir job_id "output" len.
Definition store_stdout_path (work_dir job_id : string) (len : nat) : string := job_path work_dir job_id "stdout.log" len.
Definition store_stderr_path (work_dir job_id : string) (len : nat) : string := job_path work_dir job_id "stderr.log" len.

(** ** The state these operations share *)

Record JEnv := mkJEnv { je_db : Db; je_events : Ring }.

Definition jdb {A} (m : ST Db A) : ST JEnv A := λ e, let '(a, d) := m (je_db e) in (a, mkJEnv d (je_events e)).
Definition jpush (json user_id : string) : ST JEnv unit :=
  λ e, (tt, mkJEnv (je_db e) (events_push_user json user_id (je_events e))).

Lemma bind_jdb {A B} (m : ST Db A) (f : A → ST JEnv B) e :
  (jdb m ≫= f) e = f (m (je_db e)).1 (mkJEnv (m (je_db e)).2 (je_events e)).
Proof. unfold mbind, st_bind, jdb. by destruct (m (je_db e)). Qed.

Section job_ops.
(** cJSON's serialisation of an object of strings; [None] when memory runs out. *)
Context (print_object : list (string * string) → option string).
(** [g_config.work_dir] *)
Context (work_dir : string).

Definition push_event (members : list (string * string)) (user_id : string) : ST JEnv unit :=
  match print_object members with
  | Some serialized => jpush serialized user_id
  | None => mret tt
  end.

Definition events_push_persistent (category event_type detail user_id : string) : ST JEnv unit :=
  jdb (db_insert_event category event_type detail user_id "" "") ;;
  push_event [("category", category); ("type", event_type); ("detail", detail); ("user", user_id)] user_id.

(** The result and the job after the call; a job has no [reason] when that
    is empty. *)
Definition job_set_status_r (job : Job) (new_status : JobStatus) (reason : string) : ST JEnv (Z * Job) :=
  if negb (transition_allowed (j_status job) new_status) then mret (-1, job) else
  let job := with_status_reason (cbuf 256 reason) (with_status new_status job) in
  now ← jdb (st_gets clock);
  job ← (if is_terminal new_status then
           let job := with_ended_at now job in
           jdb (db_update_job_status (j_id job) new_status (j_exit_code job) now) ;; mret job
         else jdb (db_update_job_status (j_id job) new_status 0 0) ;; mret job);
  (if str_nonempty reason then jdb (db_update_status_reason (j_id job) reason) ;; mret tt else mret tt) ;;
  push_event [("event", "job_status"); ("id", j_id job); ("status", job_status_str new_status);
              ("machine_id", j_machine_id job); ("reason", reason)] (j_user_id job) ;;
  mret (0, job).

Definition job_set_status (job : Job) (new_status : JobStatus) : ST JEnv (Z * Job) :=
  job_set_status_r job new_status "".

(** The new record; [uuid] is what [gen_uuid] writes. *)
Definition new_job (uuid command : string) (priority req_cores req_gpu req_ram_mb req_disk_mb : Z)
    (user_id app_id : string) (now : Z) : Job :=
  mkJob (cbuf JOB_ID_LEN uuid) (cbuf JOB_CMD_LEN command) (cbuf JOB_USER_LEN user_id) (cbuf JOB_APP_LEN app_id)
    JOB_STATUS_QUEUED priority
    (if 0 <? req_cores then req_cores else 1) (if 0 <? req_gpu then req_gpu else 0)
    (if 0 <? req_ram_mb then req_ram_mb else 0) (if 0 <? req_disk_mb then req_disk_mb else 0)
    "" (store_input_dir work_dir (cbuf JOB_ID_LEN uuid) 512) (store_output_dir work_dir (cbuf JOB_ID_LEN uuid) 512) ""
    now 0 0 0 0 "" "" "" "" "".

(** [None]: NULL, when memory or the database fails. *)
Definition job_create_ex (malloc_ok : bool) (uuid command : string)
    (priority req_cores req_gpu req_ram_mb req_disk_mb : Z) (user_id app_id : string) : ST JEnv (option Job) :=
  if negb malloc_ok then mret None else
  now ← jdb (st_gets clock);
  let job := new_job uuid command priority req_cores req_gpu req_ram_mb req_disk_mb user_id app_id now in
  rc ← jdb (db_insert_job job);
  mret (if negb (rc =? 0) then None else Some job).

Definition job_create (malloc_ok : bool) (uuid command : string)
    (priority req_cores req_gpu req_ram_mb req_disk_mb : Z) : ST JEnv (option Job) :=
  job_create_ex malloc_ok uuid command priority req_cores req_gpu req_ram_mb req_disk_mb "" "".

(** ** What a status change does *)

Lemma push_event_db ms u e : je_db (push_event ms u e).2 = je_db e.
Proof. unfold push_event. by destruct (print_object ms). Qed.

(** The job after a successful change. *)
Definition status_changed (job : Job) (s : JobStatus) (reason : string) (now : Z) : Job :=
  let job := with_status_reason (cbuf 256 reason) (with_status s job) in
  if is_terminal s then with_ended_at now job else job.

Lemma job_set_status_r_result job s reason e :
  (job_set_status_r job s reason e).1 =
  if transition_allowed (j_status job) s then (0, status_changed job s reason (clock (je_db e))) else (-1, job).
Proof.
  unfold job_set_status_r, status_changed. destruct (transition_allowed _ _); simpl; [|done].
  rewrite bind_jdb. simpl. rewrite bind_step. rewrite bind_step. rewrite bind_step.
  destruct (is_terminal s); by rewrite bind_jdb.
Qed.

Lemma job_set_status_r_rejected job s reason e :
  transition_allowed (j_status job) s = false → job_set_status_r job s reason e = ((-1, job), e).
Proof. intros H. unfold job_set_status_r. by rewrite H. Qed.
End job_ops.
