(* ===== verification/DbProps.v ===== *)
(** Properties of the database layer: restart recovery is atomic, dependency
    checks, retry and its unprotected transaction, quotas, API keys. *)
From S2P Require Import Prelude Job Events Registry Sql Db DbAdmin DbInv.

(** Every statement succeeds and nothing is in progress. *)
Definition healthy_db (d : Db) : Prop := idle d ∧ s_open d = true ∧ outcomes d = [].

Lemma dml_healthy f d : s_open d = true → outcomes d = [] →
  dml f d = match f (clock d) (tables d) with
            | Some (t, n) => (true, set_changes n (set_tables t d))
            | None => (false, d)
            end.
Proof. intros Ho Hos. unfold dml, next_outcome. rewrite Ho, Hos. reflexivity. Qed.

Lemma query_healthy {R} (f : Z → Tables → list R) d : s_open d = true → outcomes d = [] →
  query f d = (Some (f (clock d) (tables d), true), d).
Proof. intros Ho Hos. unfold query, next_outcome. rewrite Ho, Hos. reflexivity. Qed.

(** ** A database for the witnesses *)

Definition row (id user app : string) (st : JobStatus) (cores : Z) : Job :=
  mkJob id "run" user app st 50 cores 0 100 0 "" "/w/in" "/w/out" "" 10 0 0 0 0 "" "" "" "" "".

Definition test_db (js : list Job) (qs : list Quota) : Db :=
  mkDb true false None (set_t_quotas qs (set_t_jobs js no_tables)) 0 1000 [].

(** ** Recovery *)

Lemma recovered_lookup reason now t i j :
  t_jobs t !! i = Some j →
  t_jobs (recovered reason now t) !! i =
  Some (if interrupted j then
          with_status_reason reason (with_ended_at now (with_exit_code (-1) (with_status JOB_STATUS_FAILED j)))
        else j).
Proof.
  intros Hj. destruct t. simpl in *. unfold update_where.
  apply (list_lookup_fmap_Some_2 (λ x, if interrupted x then _ else x) _ _ _ Hj).
Qed.

Lemma recovered_length reason now t : length (t_jobs (recovered reason now t)) = length (t_jobs t).
Proof. destruct t. simpl. unfold update_where. apply length_map. Qed.

Lemma recovered_allocations reason now t a :
  a ∈ t_allocations (recovered reason now t) → al_released_at a ≠ None.
Proof.
  destruct t. simpl. intros (x & _ & ->)%update_where_elem. destruct x as [? ? ? ? [r|]]; simpl; done.
Qed.

(** C12. Restart recovery is one transaction: [db_recover_after_restart]
    either reports the number of interrupted jobs, and then every row that
    was RUNNING (or in the legacy STARTING state) is FAILED with exit code
    -1, the current time and the reason, every other row is unchanged and no
    allocation is left open; or it reports -1 and no table has changed.  If
    no statement fails it succeeds. *)
Theorem restart_recovery_is_atomic (d d' : Db) (rc : Z) (Hidle : idle d)
    (Hrun : db_recover_after_restart d = (rc, d')) :
  idle d' ∧
  (rc = count_where interrupted (t_jobs (tables d)) ∧
   length (t_jobs (tables d')) = length (t_jobs (tables d)) ∧
   (∀ i j, t_jobs (tables d) !! i = Some j → ∃ j', t_jobs (tables d') !! i = Some j' ∧
      if interrupted j then
        j_id j' = j_id j ∧ j_status j' = JOB_STATUS_FAILED ∧ j_exit_code j' = -1 ∧ j_ended_at j' = clock d ∧
        j_status_reason j' = "Interrupted by orchestrator restart"
      else j' = j) ∧
   (∀ a, a ∈ t_allocations (tables d') → al_released_at a ≠ None) ∨
   rc = -1 ∧ tables d' = tables d) ∧
  (s_open d = true → outcomes d = [] → rc = count_where interrupted (t_jobs (tables d))).
Proof.
  pose proof Hrun as Hrun'. apply db_recover_after_restart_spec in Hrun as (Hi & Ho & H); [|done].
  split; [done|]. split.
  - destruct H as [[-> Ht]|H]; [left|by right]. rewrite Ht. split_and!; [done|apply recovered_length| |apply recovered_allocations].
    intros i j Hj. rewrite (recovered_lookup _ _ _ _ _ Hj). eexists. split; [done|].
    destruct (interrupted j); [|done]. by destruct j.
  - intros Hop Hos. destruct Hidle as [Ha Hs]. destruct d as [? ? ? t ? ? ?]; simpl in *; subst.
    rewrite Hop in Hrun'.
    change rc with ((rc, d').1). rewrite <- Hrun'. by destruct t.
Qed.

Lemma restart_recovery_is_atomic_witness :
  let d := test_db [row "a" "u" "x" JOB_STATUS_RUNNING 1; row "b" "u" "x" JOB_STATUS_QUEUED 1] [] in
  ∃ d', db_recover_after_restart d = (1, d') ∧ idle d' ∧
    j_status <$> t_jobs (tables d') = [JOB_STATUS_FAILED; JOB_STATUS_QUEUED].
Proof.
  eexists. split; [by vm_compute|]. split; [|by vm_compute].
  eapply (restart_recovery_is_atomic (test_db [row "a" "u" "x" JOB_STATUS_RUNNING 1; row "b" "u" "x" JOB_STATUS_QUEUED 1] [])
            _ 1); [done|by vm_compute].
Defined.

(** ** Dependencies *)

(** The status that the table gives to an identifier. *)
Definition status_of (t : Tables) (job_id : string) : option JobStatus :=
  j_status <$> head (where_ (job_is job_id) (t_jobs t)).

(** The verdict that the tokens deserve: the first one that is not SUCCEEDED
    decides. *)
Fixpoint deps_verdict (t : Tables) (tokens : list string) : Z :=
  match tokens with
  | [] => 0
  | tok :: tokens =>
      if negb (str_nonempty tok) then deps_verdict t tokens else
      match status_of t tok with
      | Some JOB_STATUS_SUCCEEDED => deps_verdict t tokens
      | None | Some JOB_STATUS_FAILED | Some JOB_STATUS_CANCELLED => -1
      | Some _ => 1
      end
  end.

Lemma deps_verdict_ready t tokens :
  deps_verdict t tokens = 0 ↔
  ∀ tok, tok ∈ tokens → tok ≠ EmptyString → status_of t tok = Some JOB_STATUS_SUCCEEDED.
Proof.
  induction tokens as [|tok tokens IH]; simpl; [split; [set_solver|done]|].
  destruct (str_nonempty tok) eqn:Hne; simpl.
  - apply str_nonempty_spec in Hne. split.
    + destruct (status_of t tok) as [[]|] eqn:Es; try done. rewrite IH. intros H x [->|Hx]%elem_of_cons; auto.
    + intros H. rewrite (H tok) by set_solver. apply IH. intros x Hx. apply H. set_solver.
  - apply str_nonempty_false in Hne. rewrite IH. split; intros H x; [|set_solver].
    intros [->|Hx]%elem_of_cons; [done|by apply H].
Qed.

Lemma check_deps_run tokens d rc d' :
  idle d → check_deps tokens d = (rc, d') →
  idle_step d d' ∧ tables d' = tables d ∧
  (rc = 0 → deps_verdict (tables d) tokens = 0) ∧
  (s_open d = true → outcomes d = [] → rc = deps_verdict (tables d) tokens ∧ d' = d).
Proof.
  revert d. induction tokens as [|tok tokens IH]; intros d Hi; cbn [check_deps deps_verdict].
  { by intros [= <- <-]. }
  destruct (str_nonempty tok); cbn [negb]; [|by apply IH]. rewrite bind_step.
  destruct (query _ d) as [r d1] eqn:Hq. cbn [fst snd].
  pose proof Hq as Hq'. apply query_idle in Hq as (Hst & Ht & Hr); [|done]. pose proof Hst as (Hi1 & Ho1 & Hc1).
  assert (∀ z, (mret z : ST Db Z) d1 = (rc, d') → z = rc ∧ d' = d1) as Hret by (by intros z [= <- <-]).
  assert (s_open d = true → outcomes d = [] → r = Some (map j_status (where_ (job_is tok) (t_jobs (tables d))), true) ∧ d1 = d) as Hh.
  { intros Hop Hos. rewrite query_healthy in Hq' by done. by simplify_eq. }
  unfold status_of. destruct r as [[[|s l] b]|].
  - intros [<- ->]%Hret. split_and!; [done|done|done|]. intros Hop Hos. destruct (Hh Hop Hos) as [E ->].
    destruct (where_ _ _); by simplify_eq/=.
  - assert (∃ j k, where_ (job_is tok) (t_jobs (tables d)) = j :: k ∧ s = j_status j) as (j & k & Ew & ->).
    { destruct b; [|destruct Hr as [n Hr]]; destruct (where_ (job_is tok) (t_jobs (tables d))) as [|j k]; simpl in Hr.
      - done.
      - injection Hr as -> _. by eexists _, _.
      - by rewrite take_nil in Hr.
      - destruct n; simpl in Hr; [done|]. injection Hr as -> _. by eexists _, _. }
    rewrite Ew. simpl. destruct (j_status j) eqn:Es; cbn.
    1-3, 5-7: intros [<- ->]%Hret; split_and!; [done|done|done|]; intros Hop Hos; by destruct (Hh Hop Hos) as [_ ->].
    intros Hrun. destruct (IH d1 Hi1 Hrun) as ((Hi' & Ho' & Hc') & Ht' & H0 & Hhealthy).
    rewrite Ht in Ht', H0, Hhealthy.
    split; [split; [done|split; congruence]|]. split_and!; [done|done|].
    intros Hop Hos. destruct (Hh Hop Hos) as [_ ->]. by apply Hhealthy.
  - intros [<- ->]%Hret. split_and!; [done|done|done|]. intros Hop Hos. by destruct (Hh Hop Hos) as [E _].
Qed.

(** C18. A held job is only ever declared ready when every dependency named
    in its list is a SUCCEEDED job, whatever statements fail; and when none
    fails the answer is exactly the verdict of the first dependency that has
    not succeeded (-1: missing, failed or cancelled; 1: still waiting), or 0.
    The check changes nothing. *)
Theorem dependencies_ready_only_when_succeeded (csv : string) (d d' : Db) (rc : Z) (Hidle : idle d)
    (Hrun : db_check_deps_status csv d = (rc, d')) :
  let tokens := csv_tokens (cbuf 2048 csv) in
  tables d' = tables d ∧
  (rc = 0 → ∀ tok, tok ∈ tokens → tok ≠ EmptyString → status_of (tables d) tok = Some JOB_STATUS_SUCCEEDED) ∧
  (s_open d = true → outcomes d = [] → rc = deps_verdict (tables d) tokens).
Proof.
  intros tokens. apply check_deps_run in Hrun as (_ & Ht & H0 & Hh); [|done]. split_and!; [done| |].
  - intros Hrc. by apply deps_verdict_ready, H0.
  - intros Hop Hos. by destruct (Hh Hop Hos).
Qed.

Lemma dependencies_ready_only_when_succeeded_witness :
  let d := test_db [row "a" "u" "x" JOB_STATUS_SUCCEEDED 1; row "b" "u" "x" JOB_STATUS_RUNNING 1] [] in
  db_check_deps_status "a" d = (0, d) ∧ db_check_deps_status "a, b" d = (1, d) ∧ db_check_deps_status "b,zz" d = (1, d) ∧
  status_of (tables d) "a" = Some JOB_STATUS_SUCCEEDED.
Proof.
  split; [by vm_compute|]. split; [by vm_compute|]. split; [by vm_compute|].
  refine (proj1 (proj2 (dependencies_ready_only_when_succeeded "a"
    (test_db [row "a" "u" "x" JOB_STATUS_SUCCEEDED 1; row "b" "u" "x" JOB_STATUS_RUNNING 1] []) _ 0 _ eq_refl)) eq_refl "a" _ _).
  - done.
  - vm_compute. by left.
  - done.
Defined.

(** ** Retry *)

Definition retryable : Job → bool := status_in [JOB_STATUS_FAILED; JOB_STATUS_CANCELLED].

(** The row after a retry. *)
Definition retried (j : Job) : Job :=
  with_status_reason "Retry requested" (with_ended_at 0 (with_started_at 0
    (with_exit_code 0 (with_machine_id "" (with_status JOB_STATUS_QUEUED j))))).

Definition retried_tables (job_id : string) (t : Tables) : Tables :=
  set_t_artifacts (delete_where (λ a, String.eqb (a_job_id a) job_id) (t_artifacts t))
    (set_t_jobs (update_where (λ j, job_is job_id j && retryable j) retried (t_jobs t)) t).

Lemma retry_body_healthy job_id d t0 :
  s_open d = true → outcomes d = [] → sq_saved d = Some t0 →
  let n := count_where (λ j, job_is job_id j && retryable j) (t_jobs (tables d)) in
  ∃ d', retry_body job_id d = (if n =? 1 then 0 else -1, d') ∧
    tables d' = (if n =? 1 then retried_tables job_id (tables d) else t0) ∧
    sq_saved d' = None ∧ s_open d' = true ∧ outcomes d' = [] ∧
    s_transaction_active d' = s_transaction_active d ∧ clock d' = clock d.
Proof.
  intros Ho Hos Hs n. destruct d as [op act sv t ch ck os]; simpl in *; subst op os sv.
  unfold retry_body. rewrite bind_step. unfold retry_update. rewrite dml_healthy by done. simpl.
  rewrite bind_step. simpl. fold retryable. fold n.
  destruct (n =? 1) eqn:En; simpl.
  - rewrite bind_step. unfold retry_delete_artifacts. rewrite dml_healthy by done. simpl.
    rewrite bind_step. simpl. eexists. split; [done|]. simpl. split; [|done]. by destruct t.
  - unfold retry_rollback. rewrite bind_step. simpl. by eexists.
Qed.

(** C37. With no failing statement, [db_retry_job] of a job whose (unique) row
    is FAILED or CANCELLED returns 0, puts exactly that row back to QUEUED
    with its outcome erased and deletes exactly its artifacts; otherwise it
    returns -1 and the tables are as before. *)
Theorem retry_requeues_exactly_a_failed_job (job_id : string) (d : Db) (Hh : healthy_db d)
    (Hpk : NoDup (j_id <$> t_jobs (tables d))) :
  ∃ d', healthy_db d' ∧
    match filter (λ j, (job_is job_id j && retryable j) = true) (t_jobs (tables d)) with
    | [] => db_retry_job job_id d = (-1, d') ∧ tables d' = tables d
    | j :: _ => db_retry_job job_id d = (0, d') ∧ tables d' = retried_tables job_id (tables d) ∧
                retried j ∈ t_jobs (tables d') ∧ j_status (retried j) = JOB_STATUS_QUEUED ∧ j_id j = job_id
    end.
Proof.
  destruct Hh as ([Ha Hs] & Ho & Hos). unfold db_retry_job. rewrite bind_step.
  destruct d as [op act sv t ch ck os]; simpl in *; subst op act sv os. simpl.
  destruct (retry_body_healthy job_id (mkDb true false (Some t) t ch ck []) t) as (d' & Hrun & Ht & Hs' & Ho' & Hos' & Ha' & _); [done..|].
  simpl in *. rewrite Hrun. exists d'. split; [by unfold healthy_db, idle|].
  unfold count_where, where_ in *.
  destruct (filter (λ j, (job_is job_id j && retryable j) = true) (t_jobs t)) as [|j l] eqn:E.
  - simpl in *. auto.
  - assert (j ∈ t_jobs t ∧ (job_is job_id j && retryable j) = true) as [Hj Hp].
    { pose proof (list_elem_of_filter (λ j, (job_is job_id j && retryable j) = true) (t_jobs t) j) as H. rewrite E in H.
      destruct (proj1 H) as [? ?]; [set_solver|done]. }
    assert (l = []) as ->.
    { assert (filter (λ j, job_is job_id j = true) (t_jobs t) = [j]) as E1.
      { apply (filter_key j_id); [done|done|]. intros y. unfold job_is. rewrite String.eqb_eq.
        apply andb_prop in Hp as [Hp _]. unfold job_is in Hp. bool_prop. by rewrite Hp. }
      assert (length (j :: l) ≤ 1)%nat as Hlen; [|destruct l; simpl in *; [done|lia]].
      rewrite <- E. transitivity (length (filter (λ j, job_is job_id j = true) (t_jobs t))); [|by rewrite E1].
      clear. induction (t_jobs t) as [|x k IH]; [done|]. rewrite !filter_cons.
      destruct (job_is job_id x); simpl; repeat case_decide; simpl; try done; lia. }
    simpl in *. split; [done|]. split; [done|]. split; [|apply andb_prop in Hp as [Hp _]; unfold job_is in Hp; bool_prop; by destruct j].
    rewrite Ht. destruct t. simpl in *. apply update_where_elem. exists j. by rewrite Hp.
Qed.

(** [db_retry_job] runs BEGIN without [db_begin], so it does not hold the
    connection mutex: if another thread reports the end of a job between the
    BEGIN and the UPDATE of a retry that is then refused, that report returns
    success and is rolled back with the retry; the row still says what it
    said before. *)
Theorem refused_retry_loses_concurrent_update (job_id other : string) (status : JobStatus) (exit_code ended_at : Z) (d : Db)
    (Hh : healthy_db d) (Hother : other ≠ job_id)
    (Hrefused : ∀ j, j ∈ t_jobs (tables d) → (job_is job_id j && retryable j) = false) :
  let '(began, d1) := sq_begin d in
  let '(rc, d2) := db_update_job_status other status exit_code ended_at d1 in
  let '(rc', d3) := retry_body job_id d2 in
  began = true ∧ rc = 0 ∧ rc' = -1 ∧ tables d3 = tables d.
Proof.
  destruct Hh as ([Ha Hs] & Ho & Hos). destruct d as [op act sv t ch ck os]; simpl in *; subst op act sv os. simpl.
  set (p := job_is other). set (f := λ j, with_ended_at ended_at (with_exit_code exit_code (with_status status j))).
  set (d2 := mkDb true false (Some t) (set_t_jobs (update_where p f (t_jobs t)) t) (count_where p (t_jobs t)) ck []).
  destruct (retry_body_healthy job_id d2 t) as (d3 & Hrun & Ht & _); [done..|]. rewrite Hrun.
  assert (count_where (λ j, job_is job_id j && retryable j) (t_jobs (tables d2)) = 0) as E.
  { unfold count_where, where_. rewrite filter_none; [done|]. destruct t; simpl in *. intros y (x & Hx & ->)%update_where_elem.
    specialize (Hrefused x Hx). unfold p, f. destruct (job_is other x) eqn:Eo; [|by rewrite Hrefused].
    unfold job_is in *. bool_prop. subst other. destruct x; simpl in *.
    by rewrite (proj2 (String.eqb_neq _ _) Hother). }
  rewrite E in *. simpl in *. done.
Qed.

Lemma retry_requeues_exactly_a_failed_job_witness :
  let d := test_db [row "a" "u" "x" JOB_STATUS_FAILED 1; row "b" "u" "x" JOB_STATUS_RUNNING 1] [] in
  ∃ d', healthy_db d' ∧ db_retry_job "a" d = (0, d') ∧ j_status <$> t_jobs (tables d') = [JOB_STATUS_QUEUED; JOB_STATUS_RUNNING].
Proof.
  set (d := test_db [row "a" "u" "x" JOB_STATUS_FAILED 1; row "b" "u" "x" JOB_STATUS_RUNNING 1] []).
  destruct (retry_requeues_exactly_a_failed_job "a" d) as (d' & Hh & Hrun & Ht & _); [done|vm_compute; repeat constructor; set_solver|].
  exists d'. split; [done|]. split; [done|]. rewrite Ht. by vm_compute.
Defined.

Lemma refused_retry_loses_concurrent_update_witness :
  let d := test_db [row "a" "u" "x" JOB_STATUS_QUEUED 1; row "b" "u" "x" JOB_STATUS_RUNNING 1] [] in
  let '(_, d1) := sq_begin d in
  let '(rc, d2) := db_update_job_status "b" JOB_STATUS_SUCCEEDED 0 2000 d1 in
  let '(_, d3) := retry_body "a" d2 in
  rc = 0 ∧ j_status <$> t_jobs (tables d3) = [JOB_STATUS_QUEUED; JOB_STATUS_RUNNING].
Proof.
  pose proof (refused_retry_loses_concurrent_update "a" "b" JOB_STATUS_SUCCEEDED 0 2000
    (test_db [row "a" "u" "x" JOB_STATUS_QUEUED 1; row "b" "u" "x" JOB_STATUS_RUNNING 1] [])) as H.
  assert (∀ j, j ∈ [row "a" "u" "x" JOB_STATUS_QUEUED 1; row "b" "u" "x" JOB_STATUS_RUNNING 1] →
            (job_is "a" j && retryable j) = false) as Hr.
  { intros j. rewrite !elem_of_cons, elem_of_nil. by intros [->|[->|[]]]. }
  specialize (H ltac:(done) ltac:(done) Hr). vm_compute in H |- *. by destruct H as (_ & ? & _ & _).
Defined.

(** ** Quotas *)

(** The quota that applies: the first of the lookups that has a row. *)
Definition quota_row (t : Tables) (key : string * string) : option Quota :=
  quota_of_row <$> head (where_ (quota_is key.1 key.2) (t_quotas t)).

Definition applicable_quota (user_id app_id : string) (t : Tables) : option Quota :=
  head (omap (quota_row t) (quota_lookups user_id app_id)).

Lemma resolve_quota_healthy user_id app_id d :
  s_open d = true → outcomes d = [] →
  resolve_quota user_id app_id d = (applicable_quota user_id app_id (tables d), d).
Proof.
  intros Ho Hos. unfold resolve_quota, applicable_quota. induction (quota_lookups user_id app_id) as [|[u a] l IH]; [done|].
  cbn [first_quota]. rewrite bind_step. unfold db_get_quota. rewrite bind_step, query_healthy by done.
  assert (quota_of_row <$> head (rows_of 1 (Some (where_ (quota_is u a) (t_quotas (tables d)), true))) = quota_row (tables d) (u, a)) as E.
  { unfold quota_row. simpl. by destruct (where_ (quota_is u a) (t_quotas (tables d))). }
  cbn [fst snd]. rewrite E. cbn [omap list_omap]. by destruct (quota_row (tables d) (u, a)).
Qed.

(** Within a limit, 0 being no limit. *)
Definition within (limit used : Z) : Prop := limit ≤ 0 ∨ used ≤ limit.

Definition quota_allows (q : Quota) (usage : Z * Z * Z) (req_cores req_ram_mb : Z) : Prop :=
  let '(n, cores, ram) := usage in
  within (qt_max_jobs q) (n + 1) ∧ within (qt_max_concurrent q) (n + 1) ∧
  within (qt_max_cores q) (cores + req_cores) ∧ within (qt_max_ram_mb q) (ram + req_ram_mb).

Lemma column_int_id z : is_int z → column_int z = z.
Proof. unfold is_int, column_int, INT_MIN, INT_MAX. intros H. rewrite Z.mod_small; lia. Qed.

Lemma over_limit l u : (0 <? l) && (l <? u) = true ↔ ¬ within l u.
Proof. unfold within. rewrite andb_true_iff, !Z.ltb_lt. lia. Qed.

Lemma not_over_limit l u : (0 <? l) && (l <? u) = false ↔ within l u.
Proof. unfold within. rewrite andb_false_iff, !Z.ltb_ge. lia. Qed.

Lemma quota_verdict_spec q uid aid usage c m len :
  (quota_verdict q uid aid usage c m len).1 = 0 ↔ quota_allows q usage c m.
Proof.
  destruct usage as [[n cores] ram]. unfold quota_verdict, quota_allows.
  do 4 (match goal with |- context [if ?b then _ else _] => destruct b eqn:E end;
        [apply over_limit in E; cbn [fst]; split; [done|tauto]|apply not_over_limit in E; revert E]).
  cbn [fst]. tauto.
Qed.

(** The usage fits the C integers it is read into. *)
Definition usage_int (usage : Z * Z * Z) : Prop := is_int usage.1.1 ∧ is_int usage.1.2 ∧ is_int usage.2.

(** When no statement fails, the quota check admits a job exactly when no
    quota row applies to its user and application, or the most specific one
    (exact pair, then user-wide, then application-wide, then global) leaves
    room for one more running job with the requested cores and memory, each
    limit of 0 being no limit; the usage counted is that of the running jobs
    of the same user and application. *)
Theorem quota_check_is_exact (user_id app_id : string) (req_cores req_ram_mb : Z) (len : nat) (d : Db)
    (Hh : healthy_db d) (Hint : usage_int (quota_usage user_id app_id (tables d))) :
  ∃ reason, db_quota_check user_id app_id req_cores req_ram_mb len d =
    ((match applicable_quota user_id app_id (tables d) with
      | None => 0
      | Some q => (quota_verdict q user_id app_id (quota_usage user_id app_id (tables d)) req_cores req_ram_mb len).1
      end, reason), d) ∧
  ∀ q, applicable_quota user_id app_id (tables d) = Some q →
    ((quota_verdict q user_id app_id (quota_usage user_id app_id (tables d)) req_cores req_ram_mb len).1 = 0 ↔
     quota_allows q (quota_usage user_id app_id (tables d)) req_cores req_ram_mb).
Proof.
  destruct Hh as (_ & Ho & Hos). unfold db_quota_check. rewrite bind_step, resolve_quota_healthy by done. cbn [fst snd].
  destruct (applicable_quota user_id app_id (tables d)) as [q|]; [|by exists ""].
  rewrite bind_step, query_healthy by done. cbn [fst snd].
  destruct (quota_usage user_id app_id (tables d)) as [[n c] m] eqn:Eu. destruct Hint as (Hn & Hc & Hm); cbn [fst snd] in *.
  replace (head (rows_of 1 (Some ([(n, c, m)], true)))) with (Some (n, c, m)) by done. rewrite !column_int_id by done. eexists. split.
  - unfold mret, st_ret. f_equal. apply surjective_pairing.
  - intros q' [= <-]. apply quota_verdict_spec.
Qed.

Lemma quota_check_is_exact_witness :
  let d := test_db [row "a" "u" "x" JOB_STATUS_RUNNING 2] [mkQuota "u" "x" 0 0 4 0] in
  (∃ reason, db_quota_check "u" "x" 2 0 256 d = ((0, reason), d)) ∧
  ∃ reason, db_quota_check "u" "x" 3 0 256 d = ((-1, reason), d).
Proof.
  set (d := test_db [row "a" "u" "x" JOB_STATUS_RUNNING 2] [mkQuota "u" "x" 0 0 4 0]).
  assert (healthy_db d) as Hh by done.
  assert (usage_int (quota_usage "u" "x" (tables d))) as Hu by (by vm_compute).
  destruct (quota_check_is_exact "u" "x" 2 0 256 d Hh Hu) as (r1 & H1 & _).
  destruct (quota_check_is_exact "u" "x" 3 0 256 d Hh Hu) as (r2 & H2 & _).
  split; [exists r1; rewrite H1; by vm_compute | exists r2; rewrite H2; by vm_compute].
Defined.

(** What the running jobs of a user use, whatever the application. *)
Definition user_running (user_id : string) (t : Tables) : Z :=
  count_where (λ j, interrupted j && String.eqb (j_user_id j) user_id) (t_jobs t).

(** A user-wide quota does not bound what the user runs: it is checked
    against the jobs of the same user and application only, so a user whose
    user-wide limit is one running job is admitted for a second application
    while a first one runs. *)
Theorem user_wide_quota_is_not_user_wide :
  let d := test_db [row "a" "u" "app1" JOB_STATUS_RUNNING 1] [mkQuota "u" "" 1 0 0 0] in
  applicable_quota "u" "app2" (tables d) = Some (mkQuota "u" "" 1 0 0 0) ∧
  user_running "u" (tables d) = 1 ∧
  (db_quota_check "u" "app2" 1 0 256 d).1.1 = 0 ∧
  (db_quota_check "u" "app1" 1 0 256 d).1.1 = -1.
Proof. by vm_compute. Qed.

(** ** API keys *)

Lemma resolve_healthy (key_hash : string) n d : s_open d = true → outcomes d = [] →
  db_resolve_api_key_full key_hash n d =
  (match head (where_ (λ k, key_is key_hash k && (k_revoked k =? 0)) (t_api_keys (tables d))) with
   | Some k => if (0 <? k_expires_at k) && (k_expires_at k <? clock d) then None
               else Some (cbuf 16 (k_role k), cbuf n (k_user_id k))
   | None => None
   end, d).
Proof.
  intros Ho Hos. unfold db_resolve_api_key_full. rewrite bind_step, query_healthy by done. simpl. rewrite bind_step. simpl.
  by destruct (where_ _ _).
Qed.

(** A key is accepted exactly when its row exists, is not revoked and has
    not expired, and it then yields that row's role and user; a revoked key
    is never accepted again, whatever the clock says. *)
Theorem api_key_accepted_iff_valid (key_hash : string) (uid_len : nat) (d : Db) (Hh : healthy_db d)
    (Hpk : NoDup (k_key_hash <$> t_api_keys (tables d))) :
  (∀ k, k ∈ t_api_keys (tables d) → k_key_hash k = key_hash →
     db_resolve_api_key_full key_hash uid_len d =
     ((if (k_revoked k =? 0) && negb ((0 <? k_expires_at k) && (k_expires_at k <? clock d))
       then Some (cbuf 16 (k_role k), cbuf uid_len (k_user_id k)) else None), d)) ∧
  (key_hash ∉ k_key_hash <$> t_api_keys (tables d) → db_resolve_api_key_full key_hash uid_len d = (None, d)) ∧
  (∀ now, let '(rc, d') := db_revoke_api_key key_hash d in
     rc = 0 ∧ (db_resolve_api_key_full key_hash uid_len (set_clock now d')).1 = None).
Proof.
  destruct Hh as (_ & Ho & Hos). split_and!.
  - intros k Hk <-. rewrite resolve_healthy by done. rewrite where_and.
    assert (where_ (key_is (k_key_hash k)) (t_api_keys (tables d)) = [k]) as ->.
    { apply (filter_key k_key_hash); [done|done|]. intros y. unfold key_is. by rewrite String.eqb_eq. }
    unfold where_. rewrite filter_cons, filter_nil. destruct (k_revoked k =? 0); simpl; [by destruct (_ && _)|done].
  - intros Hno. rewrite resolve_healthy by done. unfold where_. rewrite filter_none; [done|].
    intros y Hy [Hk _]%andb_prop. unfold key_is in Hk. bool_prop. apply Hno. rewrite <- Hk. by apply list_elem_of_fmap_2.
  - intros now. unfold db_revoke_api_key, dml_rc. rewrite bind_step, dml_healthy by done. simpl. split; [done|].
    rewrite resolve_healthy by (by destruct d). destruct d as [? ? ? [] ? ? ?]; simpl. unfold where_. rewrite filter_none; [done|].
    intros y (x & Hx & ->)%update_where_elem [Hk Hr]%andb_prop. by destruct (key_is key_hash x) eqn:E; simpl in *; [|rewrite E in Hk].
Qed.

Lemma api_key_accepted_iff_valid_witness :
  let k := mkApiKey "h1" "lab" "admin" "alice" 5 0 0 in
  let d := mkDb true false None (set_t_api_keys [k] no_tables) 0 1000 [] in
  (∀ k', k' ∈ t_api_keys (tables d) → k_key_hash k' = "h1" →
     db_resolve_api_key_full "h1" 128 d = (Some ("admin", "alice"), d)) ∧
  k ∈ t_api_keys (tables d).
Proof.
  intros k d. split; [|vm_compute; by left]. intros k' Hk' Hh.
  assert (NoDup (k_key_hash <$> t_api_keys (tables d))) as Hpk by (vm_compute; repeat constructor; set_solver).
  rewrite (proj1 (api_key_accepted_iff_valid "h1" 128 d ltac:(done) Hpk) k' Hk' Hh).
  simpl in Hk'. apply list_elem_of_singleton in Hk' as ->. done.
Defined.

(** ** Integrity *)

(** In every state that the operations of the database layer reach from a
    new file, in any order, with any arguments and whatever statements,
    transactions and rollbacks fail, the keys of the schema are unique: job,
    batch, user and workflow identifiers, key hashes, the allocation of a job
    on a machine, an artifact's (job, type, uri), a (user, application)
    quota, a (user, key) submission and a (user, workflow) favorite; the
    row ids of artifacts and events are unique and never above their
    sequence.  The same holds of the tables a rollback would restore. *)
Theorem primary_keys_stay_unique (os : list Outcome) (now : Z) (d : Db) (Hd : rtc db_step (fresh_db os now) d) :
  tables_ok (tables d) ∧ ∀ t, sq_saved d = Some t → tables_ok t.
Proof. exact (db_reachable_ok os now d Hd). Qed.

Lemma primary_keys_stay_unique_witness :
  let d := (db_insert_job (row "j1" "u" "a" JOB_STATUS_QUEUED 2) (db_insert_job (row "j1" "u" "a" JOB_STATUS_QUEUED 1) (fresh_db [] 5)).2).2 in
  tables_ok (tables d) ∧ length (t_jobs (tables d)) = 1%nat.
Proof.
  split; [|reflexivity]. refine (proj1 (primary_keys_stay_unique [] 5 _ _)).
  do 2 (eapply rtc_r; [|eapply (step_call (db_insert_job _)); [apply op_insert_job|apply surjective_pairing]]).
  apply rtc_refl.
Defined.
