(* ===== verification/Cloud.v ===== *)
(** The cloud interface of src/cloud/cloud.c: machines are created and
    destroyed through the providers' command line tools.  [popen] stands for
    running a shell command: [None] when it cannot be started, otherwise its
    exit code and output.  The commands run are recorded in order. *)
From S2P Require Import Prelude Json Registry.

Record CloudMachineSpec := mkSpec {
  sp_provider : string; sp_instance_type : string; sp_region : string; sp_image_id : string;
  sp_res : Res; sp_cores_min : Z; sp_ram_mb_min : Z; sp_disk_mb_min : Z
}.

(** The registry and the commands run so far, the latest last. *)
Record CloudState := mkCloud { cl_registry : Registry; cl_commands : list string }.

Definition on_registry {A} (m : ST Registry A) : ST CloudState A := λ s,
  let '(a, r) := m (cl_registry s) in (a, mkCloud r (cl_commands s)).

Definition safe_arg_char (c : ascii) : bool :=
  is_lower c || is_upper c || is_digit c || existsb (Ascii.eqb c) ["-"; "_"; "."; "/"; ":"; ","; "="]%char.

Definition is_safe_arg (s : string) : bool :=
  match s with
  | String "-" _ => false
  | _ => str_forallb safe_arg_char s
  end.

Definition or_default (s dflt : string) : string := if str_nonempty s then s else dflt.

(** The text between the first two double quotes. *)
Fixpoint str_before (c : ascii) (s : string) : option string :=
  match s with
  | EmptyString => None
  | String d s => if Ascii.eqb d c then Some EmptyString else String d <$> str_before c s
  end.
Fixpoint str_after (c : ascii) (s : string) : option string :=
  match s with
  | EmptyString => None
  | String d s => if Ascii.eqb d c then Some s else str_after c s
  end.
Definition quoted (s : string) : option string := str_after DQ s ≫= str_before DQ.

Section cloud.
Context (popen : string → option (Z * string)).
(** [time(NULL)] *)
Context (now : Z).

(** The exit code and the captured output. *)
Definition run_command (cmd : string) (buf_len : nat) : ST CloudState (Z * string) := λ s,
  let s := mkCloud (cl_registry s) (cl_commands s ++ [cmd]) in
  match popen cmd with
  | None => (-1, "", s)
  | Some (rc, out) => (rc, cbuf buf_len out, s)
  end.

(** The record registered for a new instance. *)
Definition cloud_machine (provider instance_id : string) (spec : CloudMachineSpec) : Machine :=
  let r := sp_res spec in
  mkMachine (cbuf 64 ("cloud-" +:+ instance_id)) "" "" true
    (mkRes (if 0 <? r_cores r then r_cores r else 2) (r_gpu r)
           (if 0 <? r_ram_mb r then r_ram_mb r else 4096) (if 0 <? r_disk_mb r then r_disk_mb r else 50000))
    res0 MACHINE_PROBING 0 0 MACHINE_TYPE_CLOUD (cbuf 32 provider) (cbuf 128 instance_id)
    (sp_cores_min spec) (sp_ram_mb_min spec) (sp_disk_mb_min spec) "".

Definition spec_safe (spec : CloudMachineSpec) : bool :=
  is_safe_arg (sp_instance_type spec) && is_safe_arg (sp_region spec) && is_safe_arg (sp_image_id spec).

Definition aws_run_cmd (spec : CloudMachineSpec) : string :=
  cbuf 1024 ("aws ec2 run-instances --instance-type " +:+ or_default (sp_instance_type spec) "t3.medium"
    +:+ " --region " +:+ or_default (sp_region spec) "us-east-1" +:+ " --image-id " +:+ sp_image_id spec
    +:+ " --count 1 --output json --query " +:+ String DQ "Instances[0].InstanceId" +:+ String DQ "").
Definition aws_terminate_cmd (instance_id : string) : string :=
  cbuf 512 ("aws ec2 terminate-instances --instance-ids " +:+ instance_id +:+ " --output json").

(** The result and [out_id]. *)
Definition aws_provision (spec : CloudMachineSpec) (id_len : nat) : ST CloudState (Z * string) :=
  if negb (spec_safe spec) then mret (-1, "") else
  r ← run_command (aws_run_cmd spec) 2048;
  let '(rc, result) := r in
  if negb (rc =? 0) then mret (-1, "") else
  let out_id := cbuf id_len (default "" (quoted result)) in
  if negb (str_nonempty out_id) then mret (-1, "") else
  let m := cloud_machine "aws" out_id spec in
  rc ← on_registry (registry_upsert m);
  if negb (rc =? 0) then run_command (aws_terminate_cmd out_id) 2048 ;; mret (-1, out_id)
  else mret (0, cbuf id_len (m_id m)).

Definition gcp_create_cmd (name : string) (spec : CloudMachineSpec) : string :=
  cbuf 1024 ("gcloud compute instances create " +:+ name +:+ " --machine-type=" +:+ or_default (sp_instance_type spec) "e2-medium"
    +:+ " --zone=" +:+ or_default (sp_region spec) "us-central1-a" +:+ " --image=" +:+ or_default (sp_image_id spec) "debian-11"
    +:+ " --format=json --quiet").
Definition gcp_delete_cmd (instance_id : string) : string :=
  cbuf 512 ("gcloud compute instances delete " +:+ instance_id +:+ " --quiet").
Definition azure_create_cmd (name : string) (spec : CloudMachineSpec) : string :=
  cbuf 1024 ("az vm create --name " +:+ name +:+ " --size " +:+ or_default (sp_instance_type spec) "Standard_B2s"
    +:+ " --location " +:+ or_default (sp_region spec) "eastus" +:+ " --image " +:+ or_default (sp_image_id spec) "UbuntuLTS"
    +:+ " --resource-group orchestrator --output json --no-wait").
Definition azure_delete_cmd (instance_id : string) : string :=
  cbuf 512 ("az vm delete --name " +:+ instance_id +:+ " --resource-group orchestrator --yes --no-wait").

(** The two providers that name the instance themselves, after the time. *)
Definition instance_name : string := cbuf 64 ("orch-" +:+ dec now).

Definition named_provision (provider create_cmd delete_cmd : string) (spec : CloudMachineSpec) (id_len : nat)
    : ST CloudState (Z * string) :=
  if negb (spec_safe spec) then mret (-1, "") else
  r ← run_command create_cmd 4096;
  if negb (r.1 =? 0) then mret (-1, "") else
  let m := cloud_machine provider instance_name spec in
  rc ← on_registry (registry_upsert m);
  if negb (rc =? 0) then run_command delete_cmd 4096 ;; mret (-1, "")
  else mret (0, cbuf id_len (m_id m)).

Definition gcp_provision (spec : CloudMachineSpec) (id_len : nat) : ST CloudState (Z * string) :=
  named_provision "gcp" (gcp_create_cmd instance_name spec) (gcp_delete_cmd instance_name) spec id_len.
Definition azure_provision (spec : CloudMachineSpec) (id_len : nat) : ST CloudState (Z * string) :=
  named_provision "azure" (azure_create_cmd instance_name spec) (azure_delete_cmd instance_name) spec id_len.

(** Terminate with a command and forget the machine. *)
Definition deprovision_with (cmd instance_id : string) : ST CloudState Z :=
  if negb (is_safe_arg instance_id) then mret (-1) else
  r ← run_command cmd 2048;
  if negb (r.1 =? 0) then mret (-1) else
  on_registry (registry_remove (cbuf 128 ("cloud-" +:+ instance_id))) ;; mret 0.

Definition aws_deprovision (instance_id : string) : ST CloudState Z :=
  deprovision_with (aws_terminate_cmd instance_id) instance_id.
Definition gcp_deprovision (instance_id : string) : ST CloudState Z :=
  deprovision_with (gcp_delete_cmd instance_id) instance_id.
Definition azure_deprovision (instance_id : string) : ST CloudState Z :=
  deprovision_with (azure_delete_cmd instance_id) instance_id.

Definition cloud_provision (spec : CloudMachineSpec) (id_len : nat) : ST CloudState (Z * string) :=
  if (id_len =? 0)%nat then mret (-1, "") else
  if String.eqb (sp_provider spec) "aws" then aws_provision spec id_len
  else if String.eqb (sp_provider spec) "gcp" then gcp_provision spec id_len
  else if String.eqb (sp_provider spec) "azure" then azure_provision spec id_len
  else mret (-1, "").

Definition cloud_deprovision (provider instance_id : string) : ST CloudState Z :=
  if String.eqb provider "aws" then aws_deprovision instance_id
  else if String.eqb provider "gcp" then gcp_deprovision instance_id
  else if String.eqb provider "azure" then azure_deprovision instance_id
  else mret (-1).

Definition aws_status_cmd (instance_id : string) : string :=
  cbuf 512 ("aws ec2 describe-instance-status --instance-ids " +:+ instance_id +:+ " --query "
    +:+ String DQ "InstanceStatuses[0].InstanceState.Name" +:+ String DQ " --output text").

Definition aws_status (instance_id : string) (status_len : nat) : ST CloudState (Z * string) :=
  if negb (is_safe_arg instance_id) then mret (-1, "") else
  r ← run_command (aws_status_cmd instance_id) 256;
  if negb (r.1 =? 0) then mret (-1, cbuf status_len "unknown")
  else mret (0, cbuf status_len (trim_right (λ c, Ascii.eqb c NL || Ascii.eqb c CR || Ascii.eqb c " ") r.2)).

Definition cloud_status (provider instance_id : string) (status_len : nat) : ST CloudState (Z * string) :=
  if (status_len =? 0)%nat then mret (-1, "") else
  if String.eqb provider "aws" then aws_status instance_id status_len else mret (0, cbuf status_len "unknown").

(** ** Lemmas *)

Lemma bind_on_registry {A B} (m : ST Registry A) (f : A → ST CloudState B) s :
  (on_registry m ≫= f) s = f (m (cl_registry s)).1 (mkCloud (m (cl_registry s)).2 (cl_commands s)).
Proof. unfold mbind, st_bind, on_registry. by destruct (m (cl_registry s)). Qed.

Lemma run_command_state cmd n s :
  (run_command cmd n s).2 = mkCloud (cl_registry s) (cl_commands s ++ [cmd]).
Proof. unfold run_command. by destruct (popen cmd) as [[]|]. Qed.

Lemma run_command_value cmd n s :
  (run_command cmd n s).1 = match popen cmd with None => (-1, "") | Some (rc, out) => (rc, cbuf n out) end.
Proof. unfold run_command. by destruct (popen cmd) as [[]|]. Qed.

(** Deprovisioning either leaves the registry alone or removes exactly the
    machine of the instance, after the provider accepted the termination. *)
Lemma deprovision_with_spec cmd id s rc s' :
  deprovision_with cmd id s = (rc, s') →
  (rc = -1 ∧ cl_registry s' = cl_registry s ∨
   rc = 0 ∧ is_safe_arg id = true ∧ (∃ out, popen cmd = Some (0, out)) ∧
     cl_registry s' = (registry_remove (cbuf 128 ("cloud-" +:+ id)) (cl_registry s)).2) ∧
  (cl_commands s' = cl_commands s ∧ rc = -1 ∨ is_safe_arg id = true ∧ cl_commands s' = cl_commands s ++ [cmd]).
Proof.
  unfold deprovision_with. destruct (is_safe_arg id); cbn [negb]; [|intros [= <- <-]; auto].
  rewrite bind_step, run_command_state. unfold run_command.
  destruct (popen cmd) as [[rc0 out]|]; cbn [fst snd]; [|intros [= <- <-]; auto].
  destruct (rc0 =? 0) eqn:E; cbn [negb]; [|intros [= <- <-]; auto]. bool_prop. subst rc0.
  rewrite bind_on_registry. simpl. intros [= <- <-]. split; [right; eauto|auto].
Qed.
End cloud.

Lemma registry_upsert_refused m l rc l' : registry_upsert m l = (rc, l') → rc ≠ 0 → l' = l.
Proof.
  unfold registry_upsert. destruct (upsert_invalid m); [by intros [= <- <-]|].
  destruct (find_machine (m_id m) l) as [i|].
  - destruct (l !! i) as [old|]; [|by intros [= <- <-]]. destruct (_ || _); by intros [= <- <-].
  - destruct (_ <=? _); by intros [= <- <-].
Qed.

Lemma cloud_machine_fresh provider id spec :
  res_le (sp_res spec) (mkRes INT_MAX INT_MAX INT_MAX INT_MAX) → fresh_machine (cloud_machine provider id spec).
Proof.
  intros H. split; [done|]. split.
  - unfold res_le in *. cbn [r_cores r_gpu r_ram_mb r_disk_mb m_total cloud_machine] in *. destruct H as (?&?&?&?). unfold INT_MAX in *.
    repeat match goal with |- context [if ?b then _ else _] => destruct b end; lia.
  - apply cbuf_len. lia.
Qed.

(** The command that destroys an instance. *)
Definition destroy_cmd (provider id : string) : string :=
  if String.eqb provider "aws" then aws_terminate_cmd id
  else if String.eqb provider "gcp" then gcp_delete_cmd id else azure_delete_cmd id.

(** What follows once the provider has created the instance [id]: the machine
    is registered, or it is refused and the instance is destroyed. *)
Definition created_outcome (spec : CloudMachineSpec) (id_len : nat) (create id : string)
    (s : CloudState) (r : Z * string) (s' : CloudState) : Prop :=
  let m := cloud_machine (sp_provider spec) id spec in
  let '(urc, registry) := registry_upsert m (cl_registry s) in
  (urc = 0 ∧ r = (0, cbuf id_len (m_id m)) ∧ s' = mkCloud registry (cl_commands s ++ [create])) ∨
  (urc ≠ 0 ∧ r.1 = -1 ∧
   s' = mkCloud (cl_registry s) (cl_commands s ++ [create; destroy_cmd (sp_provider spec) id])).

Section provision.
Context (popen : string → option (Z * string)) (now : Z).

(** The provider did not report an instance. *)
Definition not_created (aws : bool) (id_len : nat) (create : string) : Prop :=
  ∀ out, popen create = Some (0, out) → aws = true ∧ cbuf id_len (default "" (quoted (cbuf 2048 out))) = "".

Definition provision_outcome (spec : CloudMachineSpec) (id_len : nat) (s : CloudState) (r : Z * string) (s' : CloudState) : Prop :=
  (r.1 = -1 ∧ s' = s) ∨
  (spec_safe spec = true ∧ ∃ create,
    (r.1 = -1 ∧ not_created (String.eqb (sp_provider spec) "aws") id_len create ∧
     s' = mkCloud (cl_registry s) (cl_commands s ++ [create])) ∨
    (∃ id out, popen create = Some (0, out) ∧ created_outcome spec id_len create id s r s')).

Lemma aws_provision_outcome spec id_len s r s' :
  sp_provider spec = "aws" → aws_provision popen spec id_len s = (r, s') → provision_outcome spec id_len s r s'.
Proof.
  intros Hp. unfold aws_provision. destruct (spec_safe spec) eqn:Hs; cbn [negb]; [|intros [= <- <-]; by left].
  rewrite bind_step, run_command_state, run_command_value.
  intros H. right. split; [done|]. exists (aws_run_cmd spec). revert H. rewrite Hp.
  destruct (popen _) as [[rc0 out]|] eqn:E; cbn [fst snd].
  - destruct (rc0 =? 0) eqn:E0; cbn [negb].
    2: { intros [= <- <-]. left. split; [done|]. split; [|done]. intros o Ho. bool_prop. congruence. }
    bool_prop. subst rc0. set (id := cbuf id_len _). destruct (str_nonempty id) eqn:Hid; cbn [negb].
    2: { intros [= <- <-]. left. split; [done|]. split; [|done]. intros o Ho. split; [done|].
         assert (o = out) as -> by congruence. by apply str_nonempty_false. }
    rewrite bind_on_registry. cbn [cl_registry cl_commands]. intros H. right. exists id, out. split; [done|].
    unfold created_outcome. rewrite Hp. destruct (registry_upsert _ _) as [urc reg] eqn:Eu. cbn [fst snd] in H.
    destruct (urc =? 0) eqn:E1; cbn [negb] in H; bool_prop.
    + left. injection H as <- <-. done.
    + right. apply registry_upsert_refused in Eu; [|done]. subst reg.
      rewrite bind_step, run_command_state in H. injection H as <- <-. cbn [fst cl_registry cl_commands].
      by rewrite <- app_assoc.
  - intros [= <- <-]. left. split; [done|]. split; [by intros o Ho; congruence|done].
Qed.

Lemma named_provision_outcome create delete spec id_len s r s' :
  sp_provider spec ≠ "aws" → delete = destroy_cmd (sp_provider spec) (instance_name now) →
  named_provision popen now (sp_provider spec) create delete spec id_len s = (r, s') →
  provision_outcome spec id_len s r s'.
Proof.
  intros Hp Hd. unfold named_provision. destruct (spec_safe spec) eqn:Hs; cbn [negb]; [|intros [= <- <-]; by left].
  rewrite bind_step, run_command_state, run_command_value.
  intros H. right. split; [done|]. exists create. revert H.
  destruct (popen _) as [[rc0 out]|] eqn:E; cbn [fst snd].
  - destruct (rc0 =? 0) eqn:E0; cbn [negb].
    2: { intros [= <- <-]. left. split; [done|]. split; [|done]. intros o Ho. bool_prop. congruence. }
    bool_prop. subst rc0. rewrite bind_on_registry. cbn [cl_registry cl_commands]. intros H. right.
    exists (instance_name now), out. split; [done|]. unfold created_outcome.
    destruct (registry_upsert _ _) as [urc reg] eqn:Eu. cbn [fst snd] in H.
    destruct (urc =? 0) eqn:E1; cbn [negb] in H; bool_prop.
    + left. injection H as <- <-. done.
    + right. apply registry_upsert_refused in Eu; [|done]. subst reg.
      rewrite bind_step, run_command_state in H. injection H as <- <-. cbn [fst cl_registry cl_commands].
      by rewrite <- app_assoc, Hd.
  - intros [= <- <-]. left. split; [done|]. split; [by intros o Ho; congruence|done].
Qed.
End provision.

(** ** Properties *)


Definition test_spec : CloudMachineSpec := mkSpec "aws" "t3.large" "eu-west-1" "ami-1" (mkRes 4 0 8192 0) 0 0 0.
Definition test_popen (cmd : string) : option (Z * string) := Some (0, String DQ ("i-0abc" +:+ String DQ "")).


(** Deprovisioning runs at most one command, and only for an instance id
    that contains no shell metacharacter and cannot be taken for an option;
    it returns 0 exactly when the provider accepted the command, and then the
    registry is the one without that machine (a machine with reservations
    stays); otherwise the registry is unchanged. *)
Theorem cloud_deprovision_is_guarded (popen : string → option (Z * string)) (provider instance_id : string) (s : CloudState) :
  let '(rc, s') := cloud_deprovision popen provider instance_id s in
  let cmd := destroy_cmd provider instance_id in
  (rc = -1 ∧ cl_registry s' = cl_registry s ∨
   rc = 0 ∧ (∃ out, popen cmd = Some (0, out)) ∧
     cl_registry s' = (registry_remove (cbuf 128 ("cloud-" +:+ instance_id)) (cl_registry s)).2) ∧
  (cl_commands s' = cl_commands s ∧ rc = -1 ∨
   is_safe_arg instance_id = true ∧ provider ∈ ["aws"; "gcp"; "azure"] ∧ cl_commands s' = cl_commands s ++ [cmd]).
Proof.
  destruct (cloud_deprovision _ _ _ _) as [rc s'] eqn:E. revert E. unfold cloud_deprovision, destroy_cmd. cbv zeta.
  destruct (String.eqb_spec provider "aws") as [->|]; [|destruct (String.eqb_spec provider "gcp") as [->|];
    [|destruct (String.eqb_spec provider "azure") as [->|]; [|intros [= <- <-]; auto]]];
    intros H%deprovision_with_spec; naive_solver set_solver.
Qed.
