(* ===== verification/Transfer.v ===== *)
(** Files of jobs: the filename check and the paths of
    src/transfer/upload.c and download.c, and the registration of artifacts
    of src/transfer/artifacts.c.  The file system is what [stat] and
    [readdir] answer. *)
From S2P Require Import Prelude Job Events Registry Sql Db DbAdmin JobOps.

(** ** Names *)

Definition filename_char (c : ascii) : bool :=
  is_alnum c || existsb (Ascii.eqb c) [" "; "_"; "-"; "."; "("; ")"; "+"; "@"; ","; "="]%char.

Definition transfer_valid_filename (filename : string) : bool :=
  match filename with
  | EmptyString => false
  | String c _ => (str_len filename <=? 255)%nat && negb (Ascii.eqb c ".") && str_forallb filename_char filename
  end.

Section transfer.
(** [g_config.work_dir] *)
Context (work_dir : string).

(** The path of an input file. *)
Definition upload_path (job_id filename : string) : string :=
  cbuf 768 (store_input_dir work_dir job_id 512 +:+ SEP +:+ filename).

(** [written]: how many of the [data_len] bytes the write stores, or [None]
    if the file cannot be opened; [close_ok]: whether closing succeeds.
    The result and the path that was opened. *)
Definition upload_handle (job_id filename : string) (data_len : Z) (written : option Z) (close_ok : bool)
    : Z * option string :=
  if negb (transfer_valid_filename filename) then (-1, None) else
  match written with
  | None => (-1, None)
  | Some w => (if negb (w =? data_len) || negb close_ok then -1 else w, Some (upload_path job_id filename))
  end.

(** The file that a download serves: [None] is -1. *)
Definition download_path (exists_ : string → bool) (job_id filename : string) : option string :=
  if negb (transfer_valid_filename filename) then None else
  let path := cbuf 768 (store_output_dir work_dir job_id 512 +:+ SEP +:+ filename) in
  if exists_ path then Some path else None.

(** ** Artifacts *)

Inductive FileKind := RegularFile (size : Z) | Directory | OtherFile.

Context (stat : string → option FileKind).
Context (readdir : string → option (list string)).

Definition artifact_register_file (job_id type path : string) : ST Db Z :=
  if negb (str_nonempty job_id) || negb (str_nonempty type) || negb (str_nonempty path) then mret (-1) else
  match stat path with
  | Some (RegularFile size) =>
      now ← st_gets clock;
      r ← db_upsert_artifact
            (mkArtifact 0 (cbuf 37 job_id) (cbuf 32 type) (cbuf 1024 path) size "" now);
      mret (if negb (r.1 =? 0) then -1 else 1)
  | _ => mret 0
  end.

(** The entries of one directory; [below] collects a subdirectory. *)
Fixpoint collect_entries (below : string → ST Db Z) (job_id dir : string) (entries : list string) (count : Z) : ST Db Z :=
  match entries with
  | [] => mret count
  | name :: entries =>
      if String.eqb name "." || String.eqb name ".." then collect_entries below job_id dir entries count else
      let path := dir +:+ "/" +:+ name in
      if (1100 <=? str_len path)%nat then collect_entries below job_id dir entries count else
      match stat path with
      | Some Directory =>
          nested ← below path;
          if nested <? 0 then mret (-1) else collect_entries below job_id dir entries (count + nested)
      | Some (RegularFile _) =>
          rc ← artifact_register_file job_id "output" path;
          if rc <? 0 then mret (-1) else collect_entries below job_id dir entries (count + rc)
      | _ => collect_entries below job_id dir entries count
      end
  end.

(** [levels] is how many levels below are still allowed: 33 minus the
    [depth] of the code, which refuses depth 33. *)
Fixpoint collect_output_tree (levels : nat) (job_id dir : string) : ST Db Z :=
  match levels with
  | O => mret (-1)
  | S levels =>
      match readdir dir with
      | None => mret 0
      | Some entries => collect_entries (collect_output_tree levels job_id) job_id dir entries 0
      end
  end.

Definition artifact_collect_job (job_id : string) : ST Db Z :=
  rc1 ← artifact_register_file job_id "stdout" (store_stdout_path work_dir job_id 1024);
  if rc1 <? 0 then mret (-1) else
  rc2 ← artifact_register_file job_id "stderr" (store_stderr_path work_dir job_id 1024);
  if rc2 <? 0 then mret (-1) else
  rc3 ← collect_output_tree 33 job_id (store_output_dir work_dir job_id 1024);
  if rc3 <? 0 then mret (-1) else mret (0 + rc1 + rc2 + rc3).
End transfer.

(** ** Lemmas *)

Lemma str_forallb_has p c s : str_forallb p s = true → p c = false → str_has c s = false.
Proof.
  intros H Hc. induction s as [|d s IH]; simpl in *; [done|]. apply andb_prop in H as [Hd H].
  rewrite IH by done. destruct (Ascii.eqb_spec c d) as [->|]; [congruence|done].
Qed.

(** A name that stays within the directory it is appended to. *)
Record plain_name (f : string) : Prop := {
  pn_nonempty : f ≠ "";
  pn_len : (str_len f ≤ 255)%nat;
  pn_dot : str_prefix "." f = false;
  pn_slash : str_has "/" f = false;
  pn_backslash : str_has "\" f = false;
  pn_nul : str_has zero f = false
}.

Lemma valid_filename_plain f : transfer_valid_filename f = true → plain_name f.
Proof.
  unfold transfer_valid_filename. destruct f as [|c f]; [done|]. intros H.
  apply andb_prop in H as [H Hall]. apply andb_prop in H as [Hlen Hdot]. split; try done.
  - by apply Nat.leb_le.
  - apply negb_true_iff in Hdot. rewrite Ascii.eqb_sym in Hdot.
    change (Ascii.eqb "." c && true = false). by rewrite Hdot.
  - by eapply str_forallb_has.
  - by eapply str_forallb_has.
  - by eapply str_forallb_has.
Qed.

(** The path buffer is never too short for a valid name. *)
Lemma path_untruncated dir f :
  (str_len dir < 512)%nat → (str_len f ≤ 255)%nat → cbuf 768 (dir +:+ SEP +:+ f) = dir +:+ SEP +:+ f.
Proof. intros Hd Hf. apply cbuf_id. rewrite !str_len_app. simpl. lia. Qed.

(** ** Property *)

(** Uploads and downloads touch only files directly in the job's own
    directories.  The path that an upload opens, or a download serves, is the
    input (output) directory, a separator and the name the client gave, never
    truncated; that name is not empty, at most 255 bytes, contains no
    separator, no backslash and no NUL, and does not start with a dot, so it
    is neither "." nor ".." nor a hidden file.  Otherwise no file is opened
    and the result is -1.  An upload reports the full length exactly when
    every byte was written and the file closed. *)
Theorem stored_file_stays_in_its_directory (work_dir job_id filename : string) (data_len : Z)
    (written : option Z) (close_ok : bool) (exists_ : string → bool) :
  (let '(rc, path) := upload_handle work_dir job_id filename data_len written close_ok in
   match path with
   | None => rc = -1
   | Some p => plain_name filename ∧ p = store_input_dir work_dir job_id 512 +:+ SEP +:+ filename ∧
       ((rc = data_len ∧ written = Some data_len ∧ close_ok = true) ∨
        (rc = -1 ∧ (written ≠ Some data_len ∨ close_ok = false)))
   end) ∧
  match download_path work_dir exists_ job_id filename with
  | None => True
  | Some p => plain_name filename ∧ p = store_output_dir work_dir job_id 512 +:+ SEP +:+ filename ∧ exists_ p = true
  end.
Proof.
  assert (∀ leaf, str_len (job_path work_dir job_id leaf 512) < 512)%nat as Hdir by (intros; apply cbuf_len; lia).
  unfold upload_handle, download_path, upload_path.
  destruct (transfer_valid_filename filename) eqn:Hv; simpl; [|done]. apply valid_filename_plain in Hv.
  rewrite !path_untruncated by (apply Hdir || apply Hv). split.
  - destruct written as [w|]; [|done]. split; [done|]. split; [done|].
    destruct (w =? data_len) eqn:E, close_ok; simpl; bool_prop; subst; auto; right; split; auto; left; congruence.
  - by destruct (exists_ _) eqn:E.
Qed.
