(* ===== verification/Config.v ===== *)
(** The configuration of src/persistence/config.c: defaults, the line parser
    of the configuration file and the validation of its values.  The struct's
    fields are named by three enumerations (integers, character arrays with
    their sizes, doubles).  [strtod] is a parameter: its result for the whole
    text, or [None] when the text is not a number in range. *)
From S2P Require Import Prelude Json.

Inductive IntField :=
  | listen_port | cleanup_ttl_seconds | scheduler_poll_ms | job_timeout_seconds | require_https
  | web_ui_enabled | experimental_features_enabled | probe_port | probe_timeout_ms | probe_retries
  | probe_interval_ms | cloud_auto_provision | cloud_auto_deprovision.

Inductive StrField :=
  | work_dir | db_path | provisioning_json | log_level | pre_job_script_win | pre_job_script_linux
  | apps_dir | temp_dir | pid_file | ssh_user | ssh_key | ssh_remote_work_dir | ssh_shell
  | command_mode | cors_allowed_origin | listen_address | probe_method | cloud_credentials_file
  | cloud_default_provider | cloud_default_instance_type | cloud_default_region | cloud_default_image_id
  | presim_domains | presim_fidelity_map.

Inductive DblField :=
  | presim_threshold_max | presim_refine_multiplier | presim_high_multiplier | presim_uncertainty_weight.

#[export] Instance IntField_eq_dec : EqDecision IntField.
Proof. solve_decision. Defined.
#[export] Instance StrField_eq_dec : EqDecision StrField.
Proof. solve_decision. Defined.
#[export] Instance DblField_eq_dec : EqDecision DblField.
Proof. solve_decision. Defined.

Record Config := mkConfig {
  cfg_int : IntField → Z;
  cfg_str : StrField → string;
  cfg_dbl : DblField → double;
}.

Definition set_int (f : IntField) (v : Z) (c : Config) : Config :=
  mkConfig (λ g, if decide (g = f) then v else cfg_int c g) (cfg_str c) (cfg_dbl c).
Definition set_str (f : StrField) (v : string) (c : Config) : Config :=
  mkConfig (cfg_int c) (λ g, if decide (g = f) then v else cfg_str c g) (cfg_dbl c).
Definition set_dbl (f : DblField) (v : double) (c : Config) : Config :=
  mkConfig (cfg_int c) (cfg_str c) (λ g, if decide (g = f) then v else cfg_dbl c g).

(** [sizeof] of the character arrays. *)
Definition str_size (f : StrField) : nat :=
  match f with
  | work_dir | db_path | provisioning_json | pre_job_script_win | pre_job_script_linux | apps_dir | temp_dir
  | pid_file | ssh_key | ssh_remote_work_dir | cloud_credentials_file => 512
  | log_level | command_mode | probe_method => 16
  | ssh_user | ssh_shell | listen_address | cloud_default_instance_type | cloud_default_region | presim_fidelity_map => 64
  | cors_allowed_origin | presim_domains => 256
  | cloud_default_provider => 32
  | cloud_default_image_id => 128
  end%nat.

(** POSIX build. *)
Definition config_defaults : Config :=
  mkConfig
    (λ f, match f with
          | listen_port => 8080 | cleanup_ttl_seconds => 3600 | scheduler_poll_ms => 500
          | probe_port => 22 | probe_timeout_ms => 3000 | probe_retries => 2 | probe_interval_ms => 60000
          | _ => 0
          end)
    (λ f, match f with
          | ssh_remote_work_dir => "/tmp/orch" | command_mode => "app_only" | log_level => "info"
          | listen_address => "0.0.0.0" | probe_method => "tcp" | presim_fidelity_map => "0,1,3,6"
          | work_dir => "jobs" | db_path => "orchestrator.db" | apps_dir => "config/apps"
          | provisioning_json => "config/provisioning.json" | pid_file => "/var/run/orchestrator.pid"
          | _ => ""
          end)
    (λ f, match f with
          | presim_threshold_max => d_lit 3 100
          | presim_refine_multiplier => d_lit 4 5
          | presim_high_multiplier => d_of_Z 2
          | presim_uncertainty_weight => d_of_Z 1
          end).

(** ** Values *)

Definition trim (s : string) : string := trim_right is_blank_eol (trim_left is_blank s).

Definition safe_token (value extra : string) : bool :=
  str_nonempty value && negb (str_prefix "-" value) && str_forallb (λ c, is_alnum c || str_has c extra) value.

(** The decimal digits of [strtol], from an accumulated value. *)
Fixpoint digits (s : string) (acc : Z) : Z * string :=
  match s with
  | String c s' => if is_digit c then digits s' (acc * 10 + (char_code c - 48)) else (acc, s)
  | EmptyString => (acc, s)
  end.

Definition is_c_space (c : ascii) : bool := is_space c || in_range 9 13 c.

(** [strtol(text, &end, 10)]: the value, unclipped, and the rest of the text;
    [None] when there are no digits ([end == text]). *)
Definition strtol (text : string) : option (Z * string) :=
  let s := trim_left is_c_space text in
  let '(neg, s) :=
    match s with
    | String "-" s => (true, s)
    | String "+" s => (false, s)
    | _ => (false, s)
    end in
  match s with
  | String c _ =>
      if is_digit c then let '(v, rest) := digits s 0 in Some (if neg then - v else v, rest) else None
  | EmptyString => None
  end.

(** A value outside [long] is also outside [int]: both are refused. *)
Definition parse_int_value (text : string) : option Z :=
  match strtol text with
  | Some (value, EmptyString) => if (value <? INT_MIN) || (INT_MAX <? value) then None else Some value
  | _ => None
  end.

(** ** Validation *)

Definition str_in (s : string) (l : list string) : bool := existsb (String.eqb s) l.
Definition int_in (lo hi z : Z) : bool := (lo <=? z) && (z <=? hi).
Definition is_flag (z : Z) : bool := (z =? 0) || (z =? 1).

(** The checks in order, with their messages; the first one that is not
    satisfied is the error. *)
Definition config_checks (c : Config) : list (bool * string) :=
  let i := cfg_int c in
  let s := cfg_str c in
  let d := cfg_dbl c in
  let positive x := isfinite x && dgt x (d_of_Z 0) in
  [ (int_in 1 65535 (i listen_port), "listen_port must be between 1 and 65535");
    (forallb str_nonempty [s work_dir; s db_path; s provisioning_json; s apps_dir],
       "work_dir, db_path, provisioning_json and apps_dir are required");
    (str_in (s log_level) ["debug"; "info"; "warn"; "error"], "log_level must be debug, info, warn or error");
    ((0 <=? i cleanup_ttl_seconds) && int_in 10 3600000 (i scheduler_poll_ms) && (0 <=? i job_timeout_seconds),
       "scheduler and timeout values are outside supported ranges");
    (str_in (s command_mode) ["app_only"; "free"], "command_mode must be app_only or free");
    (forallb is_flag [i require_https; i web_ui_enabled; i cloud_auto_provision; i cloud_auto_deprovision],
       "boolean configuration values must be 0 or 1");
    (safe_token (s listen_address) ".:" && negb (str_has CR (s cors_allowed_origin)) && negb (str_has NL (s cors_allowed_origin)),
       "listen_address or CORS origin is invalid");
    (negb (str_nonempty (s cors_allowed_origin)) || str_prefix "http://" (s cors_allowed_origin)
       || str_prefix "https://" (s cors_allowed_origin), "cors_allowed_origin must be an absolute HTTP(S) origin");
    (str_in (s probe_method) ["tcp"; "ping"; "ssh"], "probe_method must be tcp, ping or ssh");
    (int_in 1 65535 (i probe_port) && int_in 100 600000 (i probe_timeout_ms) && int_in 0 10 (i probe_retries)
       && int_in 100 86400000 (i probe_interval_ms), "probe settings are outside supported ranges");
    (negb (str_nonempty (s ssh_user)) || safe_token (s ssh_user) "._-", "ssh_user contains unsupported characters");
    (safe_token (s ssh_remote_work_dir) "/._-" && (negb (str_nonempty (s ssh_shell)) || safe_token (s ssh_shell) "/._-"),
       "SSH remote path or shell contains unsupported characters");
    (positive (d presim_threshold_max) && positive (d presim_refine_multiplier) && positive (d presim_high_multiplier)
       && isfinite (d presim_uncertainty_weight) && negb (dlt (d presim_uncertainty_weight) (d_of_Z 0)),
       "presimulation numeric settings must be finite and positive");
    ((i cloud_auto_provision =? 0)
       || (str_in (s cloud_default_provider) ["aws"; "gcp"; "azure"]
           && safe_token (s cloud_default_instance_type) "-_." && safe_token (s cloud_default_region) "-_./:"
           && (negb (String.eqb (s cloud_default_provider) "aws") || safe_token (s cloud_default_image_id) "-_./:")),
       "cloud auto-provision defaults are incomplete or invalid") ].

(** The result and the error message. *)
Definition config_validate (c : Config) (error_len : nat) : Z * string :=
  match find (λ x, negb (fst x)) (config_checks c) with
  | Some (_, message) => (-1, cbuf error_len message)
  | None => (0, "")
  end.

(** ** Loading *)

Inductive Field := FInt (f : IntField) | FStr (f : StrField) | FDbl (f : DblField).

(** The chain of [strcmp] on the key. *)
Definition config_keys : list (string * Field) :=
  [ ("listen_port", FInt listen_port); ("work_dir", FStr work_dir); ("db_path", FStr db_path);
    ("provisioning_json", FStr provisioning_json); ("log_level", FStr log_level);
    ("cleanup_ttl_seconds", FInt cleanup_ttl_seconds); ("scheduler_poll_ms", FInt scheduler_poll_ms);
    ("pre_job_script_win", FStr pre_job_script_win); ("pre_job_script_linux", FStr pre_job_script_linux);
    ("job_timeout_seconds", FInt job_timeout_seconds); ("ssh_user", FStr ssh_user); ("ssh_key", FStr ssh_key);
    ("ssh_remote_work_dir", FStr ssh_remote_work_dir); ("apps_dir", FStr apps_dir); ("temp_dir", FStr temp_dir);
    ("pid_file", FStr pid_file); ("ssh_shell", FStr ssh_shell); ("command_mode", FStr command_mode);
    ("cors_allowed_origin", FStr cors_allowed_origin); ("require_https", FInt require_https);
    ("web_ui_enabled", FInt web_ui_enabled); ("experimental_features_enabled", FInt experimental_features_enabled);
    ("listen_address", FStr listen_address); ("probe_method", FStr probe_method); ("probe_port", FInt probe_port);
    ("probe_timeout_ms", FInt probe_timeout_ms); ("probe_retries", FInt probe_retries);
    ("probe_interval_ms", FInt probe_interval_ms); ("cloud_credentials_file", FStr cloud_credentials_file);
    ("cloud_auto_provision", FInt cloud_auto_provision); ("cloud_auto_deprovision", FInt cloud_auto_deprovision);
    ("cloud_default_provider", FStr cloud_default_provider);
    ("cloud_default_instance_type", FStr cloud_default_instance_type);
    ("cloud_default_region", FStr cloud_default_region); ("cloud_default_image_id", FStr cloud_default_image_id);
    ("presim_threshold_max", FDbl presim_threshold_max); ("presim_refine_multiplier", FDbl presim_refine_multiplier);
    ("presim_high_multiplier", FDbl presim_high_multiplier);
    ("presim_uncertainty_weight", FDbl presim_uncertainty_weight);
    ("presim_fidelity_map", FStr presim_fidelity_map); ("presim_domains", FStr presim_domains) ].

Definition lookup_key (key : string) : option Field :=
  snd <$> find (λ p, String.eqb (fst p) key) config_keys.

Section load.
Context (strtod : string → option double).

Definition parse_double_value (text : string) : option double :=
  match strtod text with
  | Some v => if isfinite v then Some v else None
  | None => None
  end.

(** The new configuration, or [None]: the line failed. *)
Definition load_field (key val : string) (c : Config) : option Config :=
  match lookup_key key with
  | Some (FInt f) => (λ v, set_int f v c) <$> parse_int_value val
  | Some (FDbl f) => (λ v, set_dbl f v c) <$> parse_double_value val
  | Some (FStr f) => if (str_size f <=? str_len val)%nat then None else Some (set_str f val c)
  | None => None
  end.

(** Up to a character, and what follows it. *)
Fixpoint split_at (c : ascii) (s : string) : string * option string :=
  match s with
  | EmptyString => (EmptyString, None)
  | String d s => if Ascii.eqb d c then (EmptyString, Some s)
                  else let '(a, b) := split_at c s in (String d a, b)
  end.

(** One line without its newline: the configuration after it and whether it
    failed. *)
Definition load_line (line : string) (c : Config) : Config * bool :=
  let line := trim (split_at "#" line).1 in
  if negb (str_nonempty line) then (c, false) else
  match split_at "=" line with
  | (_, None) => (c, false)
  | (key, Some val) =>
      match load_field (trim key) (trim val) c with
      | Some c => (c, false)
      | None => (c, true)
      end
  end.

(** The lines of the file: [fgets] reads at most 511 bytes with the newline,
    so a longer line is skipped and reported.  The file has no NUL bytes. *)
Fixpoint load_lines (lines : list string) (c : Config) (parse_failed : bool) : Config * bool :=
  match lines with
  | [] => (c, parse_failed)
  | line :: rest =>
      if (511 <=? str_len line)%nat then load_lines rest c true
      else let '(c, failed) := load_line line c in load_lines rest c (parse_failed || failed)
  end.

(** [file]: its content, or [None] when it cannot be opened. *)
Definition config_load (file : option string) (c : Config) : Z * Config :=
  match file with
  | None => (0, c)
  | Some text =>
      let '(c, failed) := load_lines (split_on NL text EmptyString) c false in
      (if failed then -1 else 0, c)
  end.
End load.

(** ** The types of the struct *)

(** Strings fit their arrays with their terminator, integers are [int]s and
    doubles are finite. *)
Record config_ok (c : Config) : Prop := {
  co_str : ∀ f, (str_len (cfg_str c f) < str_size f)%nat;
  co_int : ∀ f, is_int (cfg_int c f);
  co_dbl : ∀ f, isfinite (cfg_dbl c f) = true
}.

Lemma defaults_ok : config_ok config_defaults.
Proof.
  split; intros f; destruct f; vm_compute; try lia; try done; split; discriminate.
Qed.

Lemma set_int_ok f v c : is_int v → config_ok c → config_ok (set_int f v c).
Proof. intros Hv [Hs Hi Hd]. split; [done| |done]. intros g; simpl. by case_decide. Qed.

Lemma set_str_ok f v c : (str_len v < str_size f)%nat → config_ok c → config_ok (set_str f v c).
Proof. intros Hv [Hs Hi Hd]. split; [|done..]. intros g; simpl. case_decide; [by subst|done]. Qed.

Lemma set_dbl_ok f v c : isfinite v = true → config_ok c → config_ok (set_dbl f v c).
Proof. intros Hv [Hs Hi Hd]. split; [done..|]. intros g; simpl. by case_decide. Qed.

Lemma parse_int_is_int s v : parse_int_value s = Some v → is_int v.
Proof.
  unfold parse_int_value. destruct (strtol s) as [[w []]|]; try done. destruct (_ || _) eqn:E; [done|].
  intros [= <-]. apply orb_false_iff in E as [E1 E2]. bool_prop. done.
Qed.

Lemma load_field_ok strtod key val c c' : load_field strtod key val c = Some c' → config_ok c → config_ok c'.
Proof.
  unfold load_field. destruct (lookup_key key) as [[f|f|f]|]; [| | |done].
  - destruct (parse_int_value val) eqn:E; [|done]. intros [= <-]. apply set_int_ok. by eapply parse_int_is_int.
  - destruct (_ <=? _)%nat eqn:E; [done|]. intros [= <-]. apply set_str_ok. by apply Nat.leb_gt.
  - unfold parse_double_value. destruct (strtod val) as [v|]; [|done]. destruct (isfinite v) eqn:E; [|done].
    intros [= <-]. by apply set_dbl_ok.
Qed.

Lemma load_line_ok strtod line c : config_ok c → config_ok (load_line strtod line c).1.
Proof.
  intros H. unfold load_line. destruct (negb _); [done|].
  destruct (split_at "=" _) as [key [val|]]; [|done].
  destruct (load_field _ _ _ _) eqn:E; [by eapply load_field_ok|done].
Qed.

Lemma load_lines_ok strtod lines c b : config_ok c → config_ok (load_lines strtod lines c b).1.
Proof.
  revert c b. induction lines as [|l lines IH]; intros c b H; cbn [load_lines]; [done|].
  destruct (_ <=? _)%nat; [by apply IH|]. pose proof (load_line_ok strtod l c H).
  destruct (load_line strtod l c) as [c' fl]. by apply IH.
Qed.

Lemma safe_token_spec value extra c :
  safe_token value extra = true → str_has c value = true → is_alnum c = true ∨ str_has c extra = true.
Proof.
  unfold safe_token. intros H Hc. apply andb_prop in H as [_ H].
  induction value as [|d s IH]; simpl in *; [done|]. apply andb_prop in H as [Hd H].
  destruct (Ascii.eqb_spec c d) as [->|]; [|by apply IH]. by apply orb_prop.
Qed.

Lemma str_in_spec s l : str_in s l = true → s ∈ l.
Proof.
  unfold str_in. intros (x & Hx & E)%existsb_exists. apply String.eqb_eq in E. subst x. by apply list_elem_of_In.
Qed.

Lemma safe_token_nonempty v e : safe_token v e = true → v ≠ "" ∧ str_prefix "-" v = false.
Proof. unfold safe_token. intros H. bool_prop. split; [by apply str_nonempty_spec|done]. Qed.

Lemma int_in_spec lo hi z : int_in lo hi z = true → lo ≤ z ≤ hi.
Proof. unfold int_in. intros H. bool_prop. lia. Qed.

Lemma is_flag_spec z : is_flag z = true → z = 0 ∨ z = 1.
Proof. unfold is_flag. intros [H|H]%orb_prop; bool_prop; auto. Qed.

(** A successful validation passed every check. *)
Lemma config_validate_all c n : (config_validate c n).1 = 0 → Forall (λ x, fst x = true) (config_checks c).
Proof.
  unfold config_validate. destruct (find _ _) as [[b m]|] eqn:E; [done|]. intros _.
  apply Forall_forall. intros x Hx. apply list_elem_of_In in Hx.
  by apply negb_false_iff, (find_none _ _ E x).
Qed.

(** ** Properties *)

(** C40. Loading a configuration file never overflows an array of the
    configuration and never stores a value outside its type, whatever the
    file contains and whatever [strtod] accepts: from a configuration whose
    strings fit their arrays, whose integers are ints and whose doubles are
    finite (as the defaults are), every file leaves such a configuration, and
    the result is 0 or -1; an absent file changes nothing. *)
Theorem config_load_keeps_types (strtod : string → option double) (file : option string) (c : Config)
    (Hc : config_ok c) :
  let '(rc, c') := config_load strtod file c in
  config_ok c' ∧ (rc = 0 ∨ rc = -1) ∧ (file = None → c' = c) ∧ config_ok config_defaults.
Proof.
  unfold config_load. destruct file as [text|]; [|split_and!; auto using defaults_ok].
  pose proof (load_lines_ok strtod (split_on NL text "") c false Hc).
  destruct (load_lines _ _ _ _) as [c' failed]. split_and!; try done; [|apply defaults_ok].
  destruct failed; auto.
Qed.

Lemma config_load_keeps_types_witness :
  let text := "listen_port = 9090 # web" +:+ String NL "work_dir=/data" +:+ String NL "log_level=far-too-long-a-level" in
  let '(rc, c') := config_load (λ _, None) (Some text) config_defaults in
  config_ok c' ∧ rc = -1 ∧ cfg_int c' listen_port = 9090 ∧ cfg_str c' work_dir = "/data" ∧ cfg_str c' log_level = "info".
Proof.
  pose proof (config_load_keeps_types (λ _, None)
    (Some ("listen_port = 9090 # web" +:+ String NL "work_dir=/data" +:+ String NL "log_level=far-too-long-a-level"))
    config_defaults defaults_ok) as H.
  cbv zeta. destruct (config_load _ _ _) as [rc c'] eqn:E. destruct H as (H & _). split; [exact H|].
  vm_compute in E. injection E as <- <-. split_and!; reflexivity.
Defined.

(** A configuration that passes validation is usable: its ports, poll
    intervals and timeouts are in range, its flags are 0 or 1, its mode
    strings are among the known ones, the required paths are there, the
    numbers of the decision core are finite and not negative, and the remote
    directory and shell that are pasted into commands contain no character
    but letters, digits and "/._-", nor start with a dash. *)
Theorem validated_configuration_is_usable (c : Config) (error_len : nat)
    (Hv : (config_validate c error_len).1 = 0) :
  let i := cfg_int c in let s := cfg_str c in let d := cfg_dbl c in
  (1 ≤ i listen_port ≤ 65535 ∧ 1 ≤ i probe_port ≤ 65535 ∧ 10 ≤ i scheduler_poll_ms ≤ 3600000 ∧
   0 ≤ i cleanup_ttl_seconds ∧ 0 ≤ i job_timeout_seconds ∧ 0 ≤ i probe_retries ≤ 10 ∧
   100 ≤ i probe_timeout_ms ≤ 600000 ∧ 100 ≤ i probe_interval_ms ≤ 86400000) ∧
  (∀ f, f ∈ [require_https; web_ui_enabled; cloud_auto_provision; cloud_auto_deprovision] → i f = 0 ∨ i f = 1) ∧
  (∀ f, f ∈ [work_dir; db_path; provisioning_json; apps_dir; listen_address; ssh_remote_work_dir] → s f ≠ "") ∧
  (s command_mode = "app_only" ∨ s command_mode = "free") ∧
  s probe_method ∈ ["tcp"; "ping"; "ssh"] ∧
  (∀ f ch, f ∈ [ssh_remote_work_dir; ssh_shell] → str_has ch (s f) = true →
     is_alnum ch = true ∨ str_has ch "/._-" = true) ∧
  str_prefix "-" (s ssh_remote_work_dir) = false ∧
  (∀ f, f ∈ [presim_threshold_max; presim_refine_multiplier; presim_high_multiplier] →
     isfinite (d f) = true ∧ dlt (d_of_Z 0) (d f) = true) ∧
  (i cloud_auto_provision = 1 → s cloud_default_provider ∈ ["aws"; "gcp"; "azure"]).
Proof.
  cbv zeta. apply config_validate_all in Hv. unfold config_checks in Hv. rewrite !Forall_cons in Hv. cbn [fst] in Hv.
  destruct Hv as (Hport & Hpaths & _ & Hpoll & Hmode & Hflags & Haddr & _ & Hmethod & Hprobe & _ & Hssh & Hnum & Hcloud & _).
  cbn [forallb] in Hpaths, Hflags. bool_prop.
  repeat match goal with
  | H : int_in _ _ _ = true |- _ => apply int_in_spec in H
  | H : is_flag _ = true |- _ => apply is_flag_spec in H
  | H : str_nonempty _ = true |- _ => apply str_nonempty_spec in H
  | H : safe_token (_ _ listen_address) _ = true |- _ => apply safe_token_nonempty in H as [??]
  end.
  match goal with H : safe_token (_ _ ssh_remote_work_dir) _ = true |- _ =>
    pose proof (safe_token_nonempty _ _ H) as [? ?] end.
  split_and!; try done; try lia.
  - intros f Hf. set_unfold in Hf. by destruct_or! Hf; subst.
  - intros f Hf. set_unfold in Hf. by destruct_or! Hf; subst.
  - apply str_in_spec in Hmode. set_unfold in Hmode. tauto.
  - by apply str_in_spec.
  - intros f ch Hf Hin. set_unfold in Hf. destruct Hf as [->|[->|[]]]; [by eapply safe_token_spec|].
    destruct (str_nonempty (cfg_str c ssh_shell)) eqn:E; [eapply safe_token_spec; [|exact Hin]; done|].
    apply str_nonempty_false in E. by rewrite E in Hin.
  - intros f Hf. set_unfold in Hf. by destruct_or! Hf; subst.
  - intros Hc1. rewrite Hc1 in Hcloud. apply andb_prop in Hcloud as [Hcloud _]. bool_prop. by apply str_in_spec.
Qed.

Lemma validated_configuration_is_usable_witness :
  (config_validate config_defaults 256).1 = 0 ∧ 1 ≤ cfg_int config_defaults listen_port ≤ 65535.
Proof.
  split; [reflexivity|]. exact (proj1 (proj1 (validated_configuration_is_usable config_defaults 256 eq_refl))).
Defined.
