(* ===== verification/Decision.v ===== *)
(** The decision core of src/decision_core_default.c: per-zone errors from a
    pre-simulation file (or pseudo-random ones), the fidelity and cores of
    every zone, the greedy selection under a budget of cores, and the overall
    action.  Doubles are binary64; the content of a file and cJSON's parser
    are parameters. *)
From S2P Require Import Prelude Job Json Registry Sql Db Config Events DbAdmin DbInv JobOps DbProps.

Definition DC_MAX_ZONES : Z := 64.
Definition ALLOCATION_JSON_LEN : nat := 16384.

Inductive dc_action :=
  | DC_ACTION_NONE | DC_ACTION_RUN_PRE_SIM | DC_ACTION_RUN_COARSE_SIM | DC_ACTION_RUN_FINE_SIM
  | DC_ACTION_REFINE | DC_ACTION_MIGRATE | DC_ACTION_DEFER.

#[export] Instance dc_action_eq_dec : EqDecision dc_action.
Proof. solve_decision. Defined.

Record dc_context := mkDcContext {
  dc_job_id : string; dc_local_error_estimate : double; dc_available_cpus : Z; dc_available_mem_mb : Z
}.
Record dc_result := mkDcResult { dr_action : dc_action; dr_target_cores : Z; dr_allocation_json : string }.

Definition no_decision : dc_result := mkDcResult DC_ACTION_NONE 0 "".

(** ** Zones *)

Record Zone := mkZone { zn_error : double; zn_size : double; zn_uncertainty : double }.
Definition set_zn_error (v : double) (z : Zone) : Zone := mkZone v (zn_size z) (zn_uncertainty z).
Definition set_zn_size (v : double) (z : Zone) : Zone := mkZone (zn_error z) v (zn_uncertainty z).
Definition set_zn_uncertainty (v : double) (z : Zone) : Zone := mkZone (zn_error z) (zn_size z) v.

(** Size 1.0, no uncertainty, and the sentinel error -1.0. *)
Definition default_zone : Zone := mkZone (d_of_Z (-1)) (d_of_Z 1) (d_of_Z 0).

(** The 32-bit FNV-1a step. *)
Definition fnv_step (h c : Z) : Z := u32 (Z.lxor h c * 16777619).
Fixpoint fnv_string (h : Z) (s : string) : Z :=
  match s with
  | EmptyString => h
  | String c s => fnv_string (fnv_step h (char_code c)) s
  end.

Definition deterministic_zone_error (job_id : string) (zone_idx : Z) (base : double) : double :=
  let h := fnv_step (fnv_string 2166136261 job_id) (u32 zone_idx) in
  dmul base (dadd (d_lit 6 10) (ddiv (d_of_Z (h mod 8000)) (d_of_Z 10000))).

Definition json_number (item : option cJSON) (minimum maximum : double) : option double :=
  match item with
  | Some (JNumber v) => if negb (isfinite v) || dlt v minimum || dgt v maximum then None else Some v
  | _ => None
  end.

(** An optional member: the default when it is missing. *)
Definition opt_number (item : option cJSON) (minimum maximum dflt : double) : option double :=
  match item with
  | None => Some dflt
  | Some _ => json_number item minimum maximum
  end.

Definition MILLION : double := d_of_Z 1000000.
Definition BILLION : double := d_of_Z 1000000000.
Definition MICRO : double := d_lit 1 1000000.

(** An element of the [zones] array. *)
Definition zone_of (z : cJSON) : option Zone :=
  if negb (cJSON_IsObject (Some z)) then None else
  e ← opt_number (get_item (Some z) "error") (d_of_Z 0) MILLION (zn_error default_zone);
  s ← opt_number (get_item (Some z) "size") MICRO BILLION (zn_size default_zone);
  u ← opt_number (get_item (Some z) "uncertainty") (d_of_Z 0) MILLION (zn_uncertainty default_zone);
  Some (mkZone e s u).

Fixpoint overwrite (set : double → Zone → Zone) (vs : list double) (zs : list Zone) : list Zone :=
  match vs, zs with
  | v :: vs, z :: zs => set v z :: overwrite set vs zs
  | _, _ => zs
  end.

(** One of the arrays [zone_errors], [zone_sizes], [zone_uncertainty]. *)
Definition zone_array (arr : option cJSON) (minimum maximum : double) (set : double → Zone → Zone) (zs : list Zone)
    : option (list Zone) :=
  match arr with
  | None => Some zs
  | Some (JArray items) =>
      if (length zs <? length items)%nat then None else
      (λ vs, overwrite set vs zs) <$> mapM (λ i, json_number (Some i) minimum maximum) items
  | Some _ => None
  end.

(** The number of zones of a document, 8 by default. *)
Definition zone_count (presim : cJSON) : Z :=
  let get := get_item (Some presim) in
  match get "zones" with
  | Some (JArray items) => Z.of_nat (length items)
  | zones_item =>
      let from_arrays :=
        if cJSON_IsArray (get "zone_errors") then cJSON_GetArraySize (get "zone_errors")
        else if cJSON_IsArray (get "zone_sizes") then cJSON_GetArraySize (get "zone_sizes") else 8 in
      match zones_item with
      | Some (JNumber v) => if d_integral v then d_trunc v else from_arrays
      | _ => from_arrays
      end
  end.

Definition read_zones (presim : cJSON) (zones : nat) : option (list Zone) :=
  let get := get_item (Some presim) in
  zs ← match get "zones" with
       | Some (JArray items) => mapM zone_of items
       | _ => Some (replicate zones default_zone)
       end;
  zs ← zone_array (get "zone_errors") (d_of_Z 0) MILLION set_zn_error zs;
  zs ← zone_array (get "zone_sizes") MICRO BILLION set_zn_size zs;
  zone_array (get "zone_uncertainty") (d_of_Z 0) MILLION set_zn_uncertainty zs.

(** The threshold and the zones of a document; [None]: it is refused. *)
Definition read_presim (presim : cJSON) (threshold : double) : option (double * list Zone) :=
  if negb (cJSON_IsObject (Some presim)) then None else
  threshold ← opt_number (get_item (Some presim) "error_threshold") MICRO MILLION threshold;
  let zones := zone_count presim in
  if (zones <? 1) || (DC_MAX_ZONES <? zones) then None else
  (λ zs, (threshold, zs)) <$> read_zones presim (Z.to_nat zones).

(** ** Fidelity *)

(** The loop of [parse_fidelity_map]: at most [n] more values. *)
Fixpoint fidelity_values (n : nat) (cursor : string) (values : list Z) : option (list Z * string) :=
  match n with
  | O => Some (values, cursor)
  | S n =>
      if negb (str_nonempty cursor) then Some (values, cursor) else
      match strtol cursor with
      | None => None
      | Some (v, rest) =>
          if (v <? 0) || (10000 <? v) || ((0 <? length values)%nat && (v =? 0)) then None else
          match rest with
          | EmptyString => Some (values ++ [v], EmptyString)
          | String "," rest => fidelity_values n rest (values ++ [v])
          | _ => None
          end
      end
  end.

Definition parse_fidelity_map (text : string) : option (list Z) :=
  match fidelity_values 8 text [] with
  | Some (values, cursor) => if (length values <? 2)%nat || str_nonempty cursor then None else Some values
  | None => None
  end.

(** The parameters of one decision; [dp_map] lists the cores of the
    fidelities 0 .. [max_fidelity]. *)
Record dc_params := mkDcParams {
  dp_job_id : string; dp_base_err : double; dp_threshold : double;
  dp_refine : double; dp_high : double; dp_weight : double; dp_map : list Z
}.

Definition max_fidelity (p : dc_params) : Z := Z.of_nat (length (dp_map p)) - 1.
Definition fidelity_cores (p : dc_params) (f : Z) : Z := default 0 (dp_map p !! Z.to_nat f).

Definition zone_err (p : dc_params) (i : nat) (z : Zone) : double :=
  if dge (zn_error z) (d_of_Z 0) then zn_error z else deterministic_zone_error (dp_job_id p) (Z.of_nat i) (dp_base_err p).
Definition zone_size (z : Zone) : double := if dgt (zn_size z) (d_of_Z 0) then zn_size z else d_of_Z 1.
Definition zone_uncertainty (z : Zone) : double :=
  if dge (zn_uncertainty z) (d_of_Z 0) then zn_uncertainty z else d_of_Z 0.
Definition zone_priority (p : dc_params) (i : nat) (z : Zone) : double :=
  dmul (ddiv (zone_err p i z) (zone_size z)) (dadd (d_of_Z 1) (dmul (dp_weight p) (zone_uncertainty z))).

(** Before it is bounded by the highest fidelity. *)
Definition raw_fidelity (p : dc_params) (priority : double) : Z :=
  if dgt priority (dmul (dp_threshold p) (dp_high p)) then max_fidelity p
  else if dgt priority (dmul (dp_threshold p) (dp_refine p)) then 2 else 1.
Definition zone_fidelity (p : dc_params) (priority : double) : Z :=
  let f := raw_fidelity p priority in if max_fidelity p <? f then max_fidelity p else f.
Definition zone_cores (p : dc_params) (f : Z) : Z :=
  if (1 <=? f) && (f <=? max_fidelity p) then fidelity_cores p f else 0.

(** ** The allocation document *)

(** The digits of [n], padded on the left to six. *)
Definition pad6 (n : Z) : string :=
  let s := dec n in foldr (λ _ s, "0" +:+ s) s (seq 0 (6 - str_len s)).

(** [n / d] rounded to the nearest integer, ties to even. *)
Definition round_half_even (n d : Z) : Z :=
  let q := n / d in let r := 2 * (n mod d) in
  if r <? d then q else if d <? r then q + 1 else if Z.even q then q else q + 1.

(** ["%.6f"] *)
Definition fmt6 (x : double) : string :=
  match x with
  | S754_nan => "nan"
  | S754_infinity s => (if s then "-" else "") +:+ "inf"
  | S754_zero s => (if s then "-" else "") +:+ "0.000000"
  | S754_finite s m e =>
      let n := if 0 <=? e then Zpos m * 2 ^ e * 1000000 else round_half_even (Zpos m * 1000000) (2 ^ (- e)) in
      (if s then "-" else "") +:+ dec (n / 1000000) +:+ "." +:+ pad6 (n mod 1000000)
  end.

Definition key (name : string) : string := String DQ (name +:+ String DQ ":").

(** Zone [i] with the fidelity and cores given to it. *)
Definition zone_entry (p : dc_params) (i : nat) (z : Zone) (choice : Z * Z) : string :=
  cbuf 512 ("{" +:+ key "zone" +:+ dec (Z.of_nat i)
    +:+ "," +:+ key "error" +:+ fmt6 (zone_err p i z) +:+ "," +:+ key "size" +:+ fmt6 (zone_size z)
    +:+ "," +:+ key "priority" +:+ fmt6 (zone_priority p i z)
    +:+ "," +:+ key "fidelity" +:+ dec choice.1 +:+ "," +:+ key "req_cores" +:+ dec choice.2 +:+ "}").

Fixpoint join_commas (l : list string) : string :=
  match l with
  | [] => ""
  | [s] => s
  | s :: l => s +:+ "," +:+ join_commas l
  end.

(** [None] when it does not fit. *)
Definition allocation_document (p : dc_params) (zs : list Zone) (choices : list (Z * Z)) : option string :=
  let entries := zip_with (λ '(i, z) c, zone_entry p i z c) (zip (seq 0 (length zs)) zs) choices in
  let doc := "{" +:+ key "job_id" +:+ String DQ (dp_job_id p +:+ String DQ ("," +:+ key "zones" +:+ "["))
    +:+ join_commas entries +:+ "]," +:+ key "threshold" +:+ fmt6 (dp_threshold p)
    +:+ "," +:+ key "zones_count" +:+ dec (Z.of_nat (length zs)) +:+ "}" in
  if (ALLOCATION_JSON_LEN <=? str_len doc)%nat then None else Some doc.

(** ** Selection under a budget *)

(** [dc_pick_t] *)
Record Pick := mkPick { pk_idx : nat; pk_ratio : double }.

Definition make_pick (p : dc_params) (i : nat) (z : Zone) : Pick :=
  let priority := zone_priority p i z in
  let f := raw_fidelity p priority in
  let req := if (1 <=? f) && (f <=? max_fidelity p) then fidelity_cores p f else 1 in
  mkPick i (ddiv priority (d_of_Z (if req <=? 0 then 1 else req))).

(** [compare_picks_desc(a, b) <= 0]; equal picks keep their order. *)
Definition pick_leb (a b : Pick) : bool := negb (dlt (pk_ratio a) (pk_ratio b)).

Definition desired_fidelity (p : dc_params) (priority : double) : Z :=
  if dgt priority (dmul (dp_threshold p) (dp_high p)) then max_fidelity p
  else if dgt priority (dmul (dp_threshold p) (dp_refine p)) then (if 2 <=? max_fidelity p then 2 else 1) else 1.

(** From fidelity [f] downwards, the first one that has cores and fits in
    what is left of the budget; (0, 0): none. *)
Fixpoint affordable (p : dc_params) (cap used : Z) (f : nat) : Z * Z :=
  match f with
  | O => (0, 0)
  | S f' =>
      let requirement := fidelity_cores p (Z.of_nat f) in
      if (0 <? requirement) && (used + requirement <=? cap) then (Z.of_nat f, requirement) else affordable p cap used f'
  end.

(** The choices (fidelity and cores per zone) and the cores used. *)
Fixpoint select (p : dc_params) (zs : list Zone) (cap : Z) (picks : list Pick) (choices : list (Z * Z)) (used : Z)
    : list (Z * Z) * Z :=
  match picks with
  | [] => (choices, used)
  | k :: picks =>
      let z := default default_zone (zs !! pk_idx k) in
      let c := affordable p cap used (Z.to_nat (desired_fidelity p (zone_priority p (pk_idx k) z))) in
      if 0 <? c.1 then select p zs cap picks (<[pk_idx k := c]> choices) (used + c.2)
      else select p zs cap picks choices used
  end.

(** ** The decision *)

Definition imap_zones {A} (f : nat → Zone → A) (zs : list Zone) : list A := imap f zs.

Definition first_choices (p : dc_params) (zs : list Zone) : list (Z * Z) :=
  imap_zones (λ i z, let f := zone_fidelity p (zone_priority p i z) in (f, zone_cores p f)) zs.

Definition refined (choices : list (Z * Z)) : Z := Z.of_nat (length (filter (λ c : Z * Z, 1 < c.1) choices)).

Definition overall_action (want refine_count zones : Z) : dc_action :=
  if want =? 0 then DC_ACTION_DEFER
  else if refine_count =? 0 then DC_ACTION_RUN_COARSE_SIM
  else if zones <=? refine_count then DC_ACTION_RUN_FINE_SIM
  else DC_ACTION_REFINE.

Definition decide_zones (p : dc_params) (available_cpus : Z) (zs : list Zone) : option dc_result :=
  let zones := Z.of_nat (length zs) in
  let choices := first_choices p zs in
  let want := sumZ (snd <$> choices) in
  doc ← allocation_document p zs choices;
  let cap := if 0 <? available_cpus then available_cpus else want in
  if (cap <? want) && (0 <? cap) then
    let picks := order_by pick_leb (imap_zones (make_pick p) zs) in
    let '(selected, used) := select p zs cap picks (replicate (length zs) (0, 0)) 0 in
    let shown := (λ c : Z * Z, (if 0 <? c.1 then c.1 else 1, c.2)) <$> selected in
    doc ← allocation_document p zs shown;
    Some (mkDcResult (overall_action used (refined shown) zones) used doc)
  else Some (mkDcResult (overall_action want (refined choices) zones) want doc).

(** A configured double, or the built-in one when it is unusable. *)
Definition finite_or (ok : bool) (v dflt : double) : double := if isfinite v && ok then v else dflt.

Section decision.
Context (cfg : Config).
(** The content of a file; [None]: it cannot be opened. *)
Context (read_file : string → option string).
Context (cJSON_Parse : string → option cJSON).

Definition presim_path (job_id : string) : string :=
  cbuf 768 (store_input_dir (cfg_str cfg work_dir) job_id 512 +:+ "/presim.json").

Definition presim_zones (file : option string) (threshold : double) : option (double * list Zone) :=
  match file with
  | None => Some (threshold, replicate 8 default_zone)
  | Some data =>
      if (str_len data =? 0)%nat || (262144 <? Z.of_nat (str_len data)) then None else
      presim ← cJSON_Parse data; read_presim presim threshold
  end.

Definition decision_params (job_id : string) (estimate threshold : double) : dc_params :=
  let d := cfg_dbl cfg in
  let zero := d_of_Z 0 in
  let max := d presim_threshold_max in
  mkDcParams job_id
    (finite_or (dgt estimate zero) estimate (d_lit 5 100))
    (if dgt max zero && dgt threshold max then max else threshold)
    (finite_or (dgt (d presim_refine_multiplier) zero) (d presim_refine_multiplier) (d_lit 8 10))
    (finite_or (dgt (d presim_high_multiplier) zero) (d presim_high_multiplier) (d_of_Z 2))
    (finite_or (dge (d presim_uncertainty_weight) zero) (d presim_uncertainty_weight) (d_of_Z 1))
    (default [0; 1; 3; 6] (parse_fidelity_map (cfg_str cfg presim_fidelity_map))).

(** [None]: the function returns -1. *)
Definition decision_core_decide (ctx : dc_context) : ST Db (option dc_result) :=
  job ← db_get_job (dc_job_id ctx);
  match job with
  | None => mret (Some no_decision)
  | Some job =>
      let estimate := dc_local_error_estimate ctx in
      let threshold := finite_or (dgt estimate (d_of_Z 0)) estimate (d_lit 3 100) in
      mret
        (match presim_zones (read_file (presim_path (j_id job))) threshold with
         | None => None
         | Some (threshold, zs) => decide_zones (decision_params (j_id job) estimate threshold) (dc_available_cpus ctx) zs
         end)
  end.
End decision.

(** ** Lemmas *)

Lemma affordable_spec p cap used f :
  let c := affordable p cap used f in
  c = (0, 0) ∨ 0 < c.1 ≤ Z.of_nat f ∧ 0 < c.2 ∧ used + c.2 ≤ cap ∧ c.2 = fidelity_cores p c.1.
Proof.
  induction f as [|f IH]; cbn [affordable]; [by left|].
  case_match eqn:E; bool_prop; [right; cbn [fst snd]; lia|]. destruct IH as [->|IH]; [by left|right; lia].
Qed.

(** A choice of the selection: nothing, or a fidelity with its cores. *)
Definition choice_ok (p : dc_params) (c : Z * Z) : Prop :=
  c = (0, 0) ∨ 0 < c.1 ∧ 0 < c.2 ∧ c.2 = fidelity_cores p c.1.

Lemma select_spec p zs cap picks choices used cs u :
  NoDup (pk_idx <$> picks) → (∀ k, k ∈ picks → choices !! pk_idx k = Some (0, 0)) →
  Forall (choice_ok p) choices → used ≤ cap →
  select p zs cap picks choices used = (cs, u) →
  length cs = length choices ∧ Forall (choice_ok p) cs ∧ used ≤ u ≤ cap ∧
  u - used = sumZ (snd <$> cs) - sumZ (snd <$> choices).
Proof.
  revert choices used. induction picks as [|k picks IH]; intros choices used; cbn [select fmap list_fmap].
  { intros _ _ Hall Hu [= <- <-]. split_and!; (done || lia). }
  intros [Hk Hnd]%NoDup_cons Hfree Hall Hu.
  assert (choices !! pk_idx k = Some (0, 0)) as Hz by (apply Hfree; set_solver).
  pose proof (affordable_spec p cap used (Z.to_nat (desired_fidelity p
    (zone_priority p (pk_idx k) (default default_zone (zs !! pk_idx k)))))) as Hc.
  cbn zeta in Hc. revert Hc. generalize (affordable p cap used (Z.to_nat (desired_fidelity p
    (zone_priority p (pk_idx k) (default default_zone (zs !! pk_idx k)))))).
  intros c [E|(H1 & H2 & H3 & H4)].
  - rewrite E. simpl. apply IH; try done. intros k' Hk'. apply Hfree. set_solver.
  - destruct (Z.ltb_spec 0 c.1); [|lia]. intros Hrun.
    apply IH in Hrun as (Hl & Hok & Hle & Hsum); try done; try lia.
    + rewrite length_insert in Hl. rewrite list_fmap_insert in Hsum.
      rewrite (sumZ_insert _ _ 0) in Hsum by (by rewrite list_lookup_fmap, Hz). split_and!; (done || lia).
    + intros k' Hk'. rewrite list_lookup_insert_ne; [apply Hfree; set_solver|].
      intros E. apply Hk. rewrite E. by apply list_elem_of_fmap_2.
    + apply Forall_insert; [done|]. right. lia.
Qed.

Lemma picks_indices p zs : pk_idx <$> imap (make_pick p) zs = seq 0 (length zs).
Proof.
  apply list_eq. intros i. rewrite list_lookup_fmap, list_lookup_imap.
  destruct (zs !! i) as [z|] eqn:E; simpl.
  - symmetry. apply lookup_seq. split; [lia|]. by eapply lookup_lt_Some.
  - symmetry. apply lookup_seq_ge. by apply lookup_ge_None.
Qed.

Lemma sumZ_replicate_snd n : sumZ (snd <$> replicate n ((0, 0) : Z * Z)) = 0.
Proof. by induction n. Qed.

Lemma allocation_document_len p zs cs doc :
  allocation_document p zs cs = Some doc → (str_len doc < ALLOCATION_JSON_LEN)%nat.
Proof. unfold allocation_document. case_match eqn:E; intros [= <-]. by apply Nat.leb_gt in E. Qed.

(** The values of a parsed map are between 0 and 10000. *)
Lemma fidelity_values_range n cursor values vs rest :
  Forall (λ v, 0 ≤ v ≤ 10000) values → fidelity_values n cursor values = Some (vs, rest) →
  Forall (λ v, 0 ≤ v ≤ 10000) vs ∧ (length vs ≤ length values + n)%nat.
Proof.
  revert cursor values. induction n as [|n IH]; intros cursor values Hall; cbn [fidelity_values].
  { intros [= <- <-]. split; [done|lia]. }
  destruct (str_nonempty cursor); cbn [negb]; [|intros [= <- <-]; split; [done|lia]].
  destruct (strtol cursor) as [[v r]|]; [|done].
  destruct (_ || _) eqn:E; [done|]. apply orb_false_iff in E as [E _]. apply orb_false_iff in E as [E1 E2]. bool_prop.
  assert (Forall (λ v, 0 ≤ v ≤ 10000) (values ++ [v])) as Hall' by (apply Forall_app; split; [done|repeat constructor; lia]).
  destruct r as [|a r]; [intros [= <- <-]; split; [done|rewrite length_app; simpl; lia]|].
  assert (∀ x, fidelity_values n r (values ++ [v]) = Some x → x = (vs, rest) →
    Forall (λ v, 0 ≤ v ≤ 10000) vs ∧ (length vs ≤ length values + S n)%nat) as Hgo.
  { intros x Hx ->. destruct (IH _ _ Hall' Hx) as [? Hl]. rewrite length_app in Hl. simpl in Hl. split; [done|lia]. }
  destruct a as [[] [] [] [] [] [] [] []]; try done; eauto.
Qed.

Lemma parse_fidelity_map_range text vs :
  parse_fidelity_map text = Some vs → Forall (λ v, 0 ≤ v ≤ 10000) vs ∧ (2 ≤ length vs ≤ 8)%nat.
Proof.
  unfold parse_fidelity_map. destruct (fidelity_values 8 text []) as [[values cursor]|] eqn:E; [|done].
  apply fidelity_values_range in E as [Hall Hl]; [|done]. destruct (_ || _) eqn:E2; [done|].
  intros [= <-]. apply orb_false_iff in E2 as [E2 _]. apply Nat.ltb_ge in E2. simpl in Hl. split; [done|lia].
Qed.

Lemma decision_params_map cfg job_id e t :
  let m := dp_map (decision_params cfg job_id e t) in
  Forall (λ v, 0 ≤ v ≤ 10000) m ∧ (2 ≤ length m ≤ 8)%nat.
Proof.
  unfold decision_params. cbn [dp_map]. destruct (parse_fidelity_map _) eqn:E; cbn [default].
  - by apply parse_fidelity_map_range in E.
  - split; [repeat constructor; lia|simpl; lia].
Qed.

Lemma fidelity_cores_nonneg p f : Forall (λ v, 0 ≤ v ≤ 10000) (dp_map p) → 0 ≤ fidelity_cores p f ≤ 10000.
Proof.
  intros H. unfold fidelity_cores. destruct (dp_map p !! _) eqn:E; simpl; [|lia]. by eapply (Forall_lookup_1 _ _ _ _ H).
Qed.

Lemma first_choices_cores p zs :
  Forall (λ v, 0 ≤ v ≤ 10000) (dp_map p) → Forall (λ z, 0 ≤ z) (snd <$> first_choices p zs).
Proof.
  intros H. apply Forall_fmap, Forall_lookup. unfold first_choices, imap_zones. intros i c.
  rewrite list_lookup_imap. intros (z & Hz & ->)%fmap_Some. simpl. unfold zone_cores. case_match; [|done].
  by apply fidelity_cores_nonneg.
Qed.

(** What a decision on zones promises; [choices] pairs the fidelity and the
    cores of each zone in the document. *)
Definition decision_ok (p : dc_params) (available : Z) (zs : list Zone) (r : dc_result) : Prop :=
  (str_len (dr_allocation_json r) < ALLOCATION_JSON_LEN)%nat ∧
  0 ≤ dr_target_cores r ∧ (0 < available → dr_target_cores r ≤ available) ∧
  ∃ choices, length choices = length zs ∧ dr_target_cores r = sumZ (snd <$> choices) ∧
    allocation_document p zs choices = Some (dr_allocation_json r) ∧
    dr_action r = overall_action (dr_target_cores r) (refined choices) (Z.of_nat (length zs)).

Lemma snd_shown (l : list (Z * Z)) : snd <$> ((λ c : Z * Z, (if 0 <? c.1 then c.1 else 1, c.2)) <$> l) = snd <$> l.
Proof. induction l as [|c l IH]; csimpl; [done|]. by rewrite IH. Qed.

Lemma decide_zones_ok p available zs r :
  Forall (λ v, 0 ≤ v ≤ 10000) (dp_map p) → decide_zones p available zs = Some r → decision_ok p available zs r.
Proof.
  intros Hmap. unfold decide_zones, decision_ok. pose proof (sumZ_nonneg _ (first_choices_cores p zs Hmap)) as Hnn.
  destruct (allocation_document p zs (first_choices p zs)) as [doc|] eqn:Edoc; simpl; [|done].
  set (want := sumZ _) in *. set (cap := if 0 <? available then available else want).
  assert (0 < available → cap = available) as Hcap by (intros Ha; subst cap; by destruct (Z.ltb_spec 0 available); [|lia]).
  destruct ((cap <? want) && (0 <? cap)) eqn:E.
  - apply andb_prop in E as [E1 E2]. bool_prop. destruct (select _ _ _ _ _ _) as [cs u] eqn:Es.
    apply select_spec in Es as (Hl & Hall & Hu & Hsum).
    + rewrite length_replicate in Hl. rewrite sumZ_replicate_snd in Hsum.
      clear Edoc. destruct (allocation_document p zs (_ <$> cs)) as [doc'|] eqn:Edoc'; simpl; [|done]. intros [= <-]. simpl.
      split_and!; [by eapply allocation_document_len|lia|intros; rewrite <- Hcap by done; lia|].
      eexists. split_and!; [| |exact Edoc'|done]; [by rewrite length_fmap|]. rewrite snd_shown. lia.
    + rewrite order_by_perm. unfold imap_zones. rewrite picks_indices. apply NoDup_seq.
    + intros k Hk%order_by_elem. apply lookup_replicate_2.
      assert (pk_idx k ∈ seq 0 (length zs)) as Hin%elem_of_seq by (rewrite <- (picks_indices p); by apply list_elem_of_fmap_2).
      lia.
    + apply Forall_replicate. by left.
    + lia.
  - intros [= <-]. simpl. split_and!; [by eapply allocation_document_len|done| |].
    + intros Ha. rewrite Hcap in E by done. apply andb_false_iff in E as [E|E]; bool_prop; lia.
    + exists (first_choices p zs). split_and!; try done. unfold first_choices, imap_zones. by rewrite length_imap.
Qed.

Lemma overwrite_length set vs zs : length (overwrite set vs zs) = length zs.
Proof. revert zs. induction vs as [|v vs IH]; intros [|z zs]; simpl; auto. Qed.

Lemma zone_array_length arr mn mx set zs zs' : zone_array arr mn mx set zs = Some zs' → length zs' = length zs.
Proof.
  unfold zone_array. destruct arr as [[]|]; try done; [|by intros [= <-]].
  case_match; [done|]. intros (vs & _ & ->)%fmap_Some. apply overwrite_length.
Qed.

Lemma read_zones_length presim n zs : zone_count presim = Z.of_nat n → read_zones presim n = Some zs → length zs = n.
Proof.
  unfold read_zones. intros Hn (zs0 & H0 & (zs1 & H1%zone_array_length & (zs2 & H2%zone_array_length & H3%zone_array_length)%bind_Some)%bind_Some)%bind_Some.
  rewrite H3, H2, H1. unfold zone_count in Hn. destruct (get_item _ "zones") as [[]|] eqn:E.
  5:{ apply length_mapM in H0. lia. }
  all: simplify_eq; apply length_replicate.
Qed.

Lemma presim_zones_count parse file thr t zs : presim_zones parse file thr = Some (t, zs) → (1 ≤ length zs ≤ 64)%nat.
Proof.
  unfold presim_zones. destruct file as [data|]; [|intros [= <- <-]; simpl; lia].
  case_match; [done|]. intros (presim & _ & Hp)%bind_Some. revert Hp. unfold read_presim. case_match; [done|].
  intros (t' & _ & Hp)%bind_Some. revert Hp. destruct ((zone_count presim <? 1) || _) eqn:E; [done|]. intros (zs' & Hz & Heq)%fmap_Some.
  simplify_eq. apply orb_false_iff in E as [E1 E2]. unfold DC_MAX_ZONES in E2. bool_prop.
  apply read_zones_length in Hz; lia.
Qed.

(** C24. A decision never asks for more cores than are free, when any are:
    whatever pre-simulation file there is, a result of [decision_core_decide]
    is either "no such job", or it rests on 1 to 64 zones whose listed cores
    add up to [target_cores], at most [available_cpus] when that is positive,
    the document that lists them fits its buffer, and the action follows from
    the number of refined zones.  The database is only read. *)
Theorem decision_stays_within_budget cfg read_file parse (ctx : dc_context) (d d' : Db) (r : dc_result) (Hidle : idle d)
    (Hrun : decision_core_decide cfg read_file parse ctx d = (Some r, d')) :
  tables d' = tables d ∧
  (r = no_decision ∨
   (0 ≤ dr_target_cores r ∧ (0 < dc_available_cpus ctx → dr_target_cores r ≤ dc_available_cpus ctx) ∧
    (str_len (dr_allocation_json r) < ALLOCATION_JSON_LEN)%nat ∧
    ∃ p zs choices, (1 ≤ length zs ≤ 64)%nat ∧ length choices = length zs ∧
      dr_target_cores r = sumZ (snd <$> choices) ∧
      allocation_document p zs choices = Some (dr_allocation_json r) ∧
      dr_action r = overall_action (dr_target_cores r) (refined choices) (Z.of_nat (length zs)))).
Proof.
  revert Hrun. unfold decision_core_decide, db_get_job. rewrite !bind_step.
  destruct (query _ d) as [q d1] eqn:E. apply query_idle in E as (_ & Ht & _); [|done]. cbn [fst snd].
  destruct (head (rows_of 1 q)) as [j|]; cbn [fmap option_fmap option_map mret st_ret fst snd]; [|by intros [= <- <-]; auto].
  destruct (presim_zones parse _ _) as [[t zs]|] eqn:Ez; intros [= Hr <-].
  apply presim_zones_count in Ez. split; [done|]. right.
  apply decide_zones_ok in Hr as (H1 & H2 & H3 & cs & H4 & H5 & H6 & H7); [|apply decision_params_map].
  split_and!; try done. by eexists _, zs, cs.
Qed.

(** Eight zones that want 38 cores, on a machine park with 10 free. *)
Lemma decision_stays_within_budget_witness :
  let d := test_db [row "a" "u" "x" JOB_STATUS_QUEUED 1] [] in
  let run := decision_core_decide config_defaults (λ _, None) (λ _, None) (mkDcContext "a" (d_of_Z 0) 10 0) d in
  ∃ r, run = (Some r, d) ∧ dr_target_cores r ≤ 10 ∧ dr_target_cores r = 10 ∧ dr_action r = DC_ACTION_REFINE.
Proof.
  eexists. split; [vm_compute; reflexivity|].
  split; [|by vm_compute].
  pose proof (decision_stays_within_budget config_defaults (λ _, None) (λ _, None) (mkDcContext "a" (d_of_Z 0) 10 0)
    (test_db [row "a" "u" "x" JOB_STATUS_QUEUED 1] []) _ _ ltac:(done) ltac:(vm_compute; reflexivity)) as [_ [H|H]];
  [discriminate H|]. apply H. done.
Defined.
