(* ===== verification/Shell.v ===== *)
(** The text that src/core/executor.c hands to shells: escaping for double
    quotes, names of environment variables, ssh options and the run script of
    a remote job; and how a POSIX shell reads a double-quoted word back. *)
From S2P Require Import Prelude Job Json Registry Config.

(** ** Escaping *)

Definition BACKSLASH : ascii := "092".
Definition BACKQUOTE : ascii := "096".

(** The characters that [shell_escape] prefixes with a backslash. *)
Definition escaped_char (c : ascii) : bool := existsb (Ascii.eqb c) [BACKSLASH; DQ; "$"%char; BACKQUOTE; "!"%char].

(** [j] bytes are written so far. *)
Fixpoint escape_loop (src : string) (j dst_len : nat) : string :=
  match src with
  | EmptyString => EmptyString
  | String c src =>
      if (j <? dst_len - 2)%nat then
        if escaped_char c then String BACKSLASH (String c (escape_loop src (j + 2) dst_len))
        else if Ascii.eqb c NL then escape_loop src j dst_len
        else String c (escape_loop src (j + 1) dst_len)
      else EmptyString
  end.

Definition shell_escape (src : string) (dst_len : nat) : string := escape_loop src 0 dst_len.

Definition key_start (c : ascii) : bool := Ascii.eqb c "_" || is_upper c || is_lower c.
Definition key_char (c : ascii) : bool := key_start c || is_digit c.

Definition valid_env_key (k : string) : bool :=
  match k with
  | EmptyString => false
  | String c k => key_start c && str_forallb key_char k
  end.

(** ** ssh *)

Section ssh.
Context (cfg : Config).

Definition build_ssh_opts (out_len : nat) (known_hosts_path : string) : string :=
  let key := cfg_str cfg ssh_key in
  let common :=
    "-o BatchMode=yes -o PasswordAuthentication=no -o StrictHostKeyChecking=accept-new -o UserKnownHostsFile="
    +:+ known_hosts_path +:+ " -o GlobalKnownHostsFile=" +:+ known_hosts_path
    +:+ " -o LogLevel=ERROR -o ConnectTimeout=10 -o ServerAliveInterval=15 -o ServerAliveCountMax=2" in
  cbuf out_len (if str_nonempty key then "-i " +:+ String DQ (key +:+ String DQ (" " +:+ common)) else common).
End ssh.

(** The address of a machine and whether it is this host. *)
Definition is_local_host (h : string) : bool :=
  String.eqb h "localhost" || String.eqb h "127.0.0.1" || String.eqb h "::1".

Definition machine_host (l : Registry) (machine_id : string) (out_len : nat) : bool * string :=
  if negb (str_nonempty machine_id) then (true, cbuf out_len "localhost") else
  let out :=
    match registry_get_copy machine_id l with
    | Some m => if str_nonempty (m_ip m) then m_ip m
                else if str_nonempty (m_hostname m) then m_hostname m else machine_id
    | None => machine_id
    end in
  (is_local_host (cbuf out_len out), cbuf out_len out).

(** ** The run script *)

Definition line (s : string) : string := s +:+ String NL "".
Definition export_line (name value : string) : string :=
  line ("export " +:+ name +:+ "=" +:+ String DQ (value +:+ String DQ "")).

(** The lines for the members of [.app_env.json]. *)
Definition env_lines (env : cJSON) : string :=
  match env with
  | JObject members =>
      foldr (λ p rest,
        match p with
        | (k, JString v) => if valid_env_key k then export_line k (shell_escape v 4096) +:+ rest else rest
        | _ => rest
        end) "" members
  | _ => ""
  end.

(** [env]: the parsed file, if there is one. *)
Definition run_script (job : Job) (remote_input remote_output : string) (env : option cJSON) : string :=
  let mid := shell_escape (j_machine_id job) 512 in
  line "#!/bin/sh"
  +:+ export_line "ORCH_JOB_ID" (j_id job)
  +:+ export_line "ORCH_INPUT_DIR" remote_input
  +:+ export_line "ORCH_OUTPUT_DIR" remote_output
  +:+ export_line "ORCH_WORKER_ID" mid
  +:+ export_line "ORCH_MACHINE_IDS" mid
  +:+ export_line "ORCH_MACHINE_COUNT" "1"
  +:+ match env with Some env => env_lines env | None => "" end
  +:+ line ("mkdir -p " +:+ String DQ ("$ORCH_OUTPUT_DIR" +:+ String DQ ""))
  +:+ line ("cd " +:+ String DQ ("$ORCH_OUTPUT_DIR" +:+ String DQ ""))
  +:+ line ("exec " +:+ j_command job).

(** ** What a shell reads

    The value of the text between two double quotes in a POSIX shell; [None]
    when the text would end the quotation, start an expansion, or end in the
    middle of an escape. *)
Definition dq_escapable (c : ascii) : bool := existsb (Ascii.eqb c) [BACKSLASH; DQ; "$"%char; BACKQUOTE].

Fixpoint dq_read (s : string) : option string :=
  match s with
  | EmptyString => Some EmptyString
  | String c s =>
      if Ascii.eqb c BACKSLASH then
        match s with
        | EmptyString => None
        | String d s =>
            if dq_escapable d then String d <$> dq_read s
            else if Ascii.eqb d NL then dq_read s
            else (λ r, String c (String d r)) <$> dq_read s
        end
      else if dq_escapable c then None
      else String c <$> dq_read s
  end.

(** The value that reaches the program: without newlines, and with a
    backslash before every exclamation mark. *)
Fixpoint env_value (s : string) : string :=
  match s with
  | EmptyString => EmptyString
  | String c s =>
      if Ascii.eqb c NL then env_value s
      else if Ascii.eqb c "!" then String BACKSLASH (String c (env_value s))
      else String c (env_value s)
  end.

Lemma escaped_char_cases c :
  escaped_char c = true → Ascii.eqb c NL = false ∧ (dq_escapable c = true ∧ Ascii.eqb c "!" = false ∨ c = "!"%char).
Proof. destruct c as [[] [] [] [] [] [] [] []]; vm_compute; auto. Qed.

Lemma unescaped_char_cases c :
  escaped_char c = false → Ascii.eqb c BACKSLASH = false ∧ dq_escapable c = false ∧ Ascii.eqb c "!" = false.
Proof. destruct c as [[] [] [] [] [] [] [] []]; vm_compute; auto. Qed.

Lemma escape_loop_length src j dst_len :
  (j < dst_len)%nat → (2 ≤ dst_len)%nat → (j + str_len (escape_loop src j dst_len) < dst_len)%nat.
Proof.
  revert j. induction src as [|c src IH]; intros j Hj H2; simpl; [lia|].
  destruct (Nat.ltb_spec j (dst_len - 2)); [|simpl; lia].
  destruct (escaped_char c); [|destruct (Ascii.eqb c NL)]; simpl.
  - specialize (IH (j + 2)%nat). lia.
  - by apply IH.
  - specialize (IH (j + 1)%nat). lia.
Qed.

(** The escaped text is read back as the value of a prefix of the source. *)
Lemma escape_loop_read src j dst_len :
  ∃ p rest, src = p +:+ rest ∧ dq_read (escape_loop src j dst_len) = Some (env_value p) ∧
    ((j + 2 * str_len src + 2 ≤ dst_len)%nat → rest = "").
Proof.
  revert j. induction src as [|c src IH]; intros j; cbn [escape_loop]; [by exists "", ""|].
  destruct (Nat.ltb_spec j (dst_len - 2)) as [Hj|Hj].
  2:{ exists "", (String c src). split_and!; [done|done|]. simpl. lia. }
  destruct (escaped_char c) eqn:Ec.
  - apply escaped_char_cases in Ec as [Hnl Hc]. destruct (IH (j + 2)%nat) as (p & rest & -> & Hread & Hfit).
    exists (String c p), rest. split; [done|]. split; [|simpl; intros; apply Hfit; lia].
    cbn [dq_read env_value]. rewrite Hnl, Hread. destruct Hc as [[Hd Hb]| ->]; [by rewrite Hd, Hb|done].
  - apply unescaped_char_cases in Ec as (Hb & Hd & He). destruct (Ascii.eqb c NL) eqn:Enl.
    + destruct (IH j) as (p & rest & -> & Hread & Hfit). exists (String c p), rest. split; [done|].
      split; [cbn [env_value]; by rewrite Enl|simpl; intros; apply Hfit; lia].
    + destruct (IH (j + 1)%nat) as (p & rest & -> & Hread & Hfit). exists (String c p), rest. split; [done|].
      split; [|simpl; intros; apply Hfit; lia]. cbn [dq_read env_value]. by rewrite Hb, Hd, Enl, He, Hread.
Qed.

(** ** Properties *)

(** An escaped value cannot break out of its double quotes: whatever the
    source, the text that [shell_escape] writes fits its buffer and a POSIX
    shell reads it, without any expansion, as the value of a prefix of the
    source; the whole source when the buffer has room for two bytes per
    character.  The value is the source itself, except that newlines are
    dropped and every exclamation mark keeps a backslash. *)
Theorem escaped_value_stays_quoted (src : string) (dst_len : nat) (Hlen : (2 ≤ dst_len)%nat) :
  (str_len (shell_escape src dst_len) < dst_len)%nat ∧
  ∃ p rest, src = p +:+ rest ∧ dq_read (shell_escape src dst_len) = Some (env_value p) ∧
    ((2 * str_len src + 2 ≤ dst_len)%nat → rest = "").
Proof.
  split; [apply (escape_loop_length src 0); lia|apply (escape_loop_read src 0)].
Qed.

Lemma escaped_value_stays_quoted_witness :
  (2 ≤ 64)%nat ∧ (str_len (shell_escape "a$(rm)`" 64) < 64)%nat ∧
  dq_read (shell_escape "a$(rm)`" 64) = Some "a$(rm)`".
Proof.
  assert (2 ≤ 64)%nat as H by lia. split; [exact H|].
  exact (conj (proj1 (escaped_value_stays_quoted "a$(rm)`" 64 H)) eq_refl).
Defined.

(** A value with an exclamation mark does not survive: inside double
    quotes a POSIX shell keeps the backslash that [shell_escape] puts before
    it, for every text around it. *)
Theorem exclamation_mark_gains_backslash (a b : string) (dst_len : nat)
    (Hfit : (2 * str_len (a +:+ "!" +:+ b) + 2 ≤ dst_len)%nat) :
  dq_read (shell_escape (a +:+ "!" +:+ b) dst_len) = Some (env_value a +:+ String BACKSLASH "!" +:+ env_value b).
Proof.
  destruct (escape_loop_read (a +:+ "!" +:+ b) 0 dst_len) as (p & rest & Hp & Hread & Hrest).
  rewrite (Hrest Hfit) in Hp. unfold shell_escape. rewrite Hread. f_equal.
  assert (∀ s t, env_value (s +:+ t) = env_value s +:+ env_value t) as Happ.
  { intros s t. induction s as [|c s IH]; simpl; [done|]. rewrite IH. by repeat case_match. }
  rewrite str_app_nil in Hp. by rewrite <- Hp, !Happ.
Qed.

Lemma exclamation_mark_gains_backslash_witness :
  (2 * str_len "hi!" + 2 ≤ 4096)%nat ∧ dq_read (shell_escape "hi!" 4096) = Some ("hi" +:+ String BACKSLASH "!").
Proof.
  assert (2 * str_len "hi!" + 2 ≤ 4096)%nat as H by (simpl; lia).
  exact (conj H (exclamation_mark_gains_backslash "hi" "" 4096 H)).
Defined.
