(* ===== verification/System.v ===== *)
(** The state of the whole scheduler process and the environment it runs in.
    [Sys] gathers what the C files keep in static variables: the registry,
    the allocator's ledger and the database (as the allocator's state), the
    event ring, the scheduler's queue and rate limiter, and the executor's
    list of active executions.  Files are a map from paths to contents; shell
    commands and signals are recorded.  Each component's functions run on
    their part of it through the [on_] functions below. *)
From S2P Require Import Prelude Job Uuid Queue Events Json Registry Sql Db DbAdmin Allocator JobOps Cloud Transfer Config.

(** ** State *)

(** [ActiveExecution]; the address of the C object is [x_id]. *)
Record Execution := mkExec {
  x_id : nat;
  x_job : Job;
  x_termination_requested : bool;
  x_terminal_status : JobStatus;
  x_terminal_reason : string;
  x_pid : Z
}.

Definition set_x_job (v : Job) (x : Execution) : Execution :=
  let '(mkExec x0 _ x2 x3 x4 x5) := x in mkExec x0 v x2 x3 x4 x5.
Definition set_x_pid (v : Z) (x : Execution) : Execution :=
  let '(mkExec x0 x1 x2 x3 x4 _) := x in mkExec x0 x1 x2 x3 x4 v.

(** What a process started for an execution does: the files of its standard
    output and error, the environment variables that it sets, the command that
    must succeed first, and the program with its arguments. *)
Record Child := mkChild {
  ch_stdout : string; ch_stderr : string;
  ch_env : list (string * string);
  ch_pre_job : option string;
  ch_argv : list string
}.

(** [s_active] lists the executions, the latest first.  [y_commands] are the
    shell commands run, [y_killed] the processes signalled, [y_created] counts
    the identifiers generated, [y_next] the executions allocated, and
    [y_spawned] are the processes started for executions. *)
Record Sys := mkSys {
  y_alloc : AllocState Registry;
  y_events : Ring;
  y_queue : option Queue;
  y_active : list Execution;
  y_shutting_down : bool;
  y_auto_prov : list string;
  y_tick : Z;
  y_running : bool;
  y_commands : list string;
  y_killed : list Z;
  y_files : gmap string string;
  y_created : nat;
  y_next : nat;
  y_spawned : list (Z * Child)
}.

Definition set_y_alloc (v : AllocState Registry) (s : Sys) : Sys :=
  let '(mkSys _ x1 x2 x3 x4 x5 x6 x7 x8 x9 x10 x11 x12 x13) := s in mkSys v x1 x2 x3 x4 x5 x6 x7 x8 x9 x10 x11 x12 x13.
Definition set_y_events (v : Ring) (s : Sys) : Sys :=
  let '(mkSys x0 _ x2 x3 x4 x5 x6 x7 x8 x9 x10 x11 x12 x13) := s in mkSys x0 v x2 x3 x4 x5 x6 x7 x8 x9 x10 x11 x12 x13.
Definition set_y_queue (v : option Queue) (s : Sys) : Sys :=
  let '(mkSys x0 x1 _ x3 x4 x5 x6 x7 x8 x9 x10 x11 x12 x13) := s in mkSys x0 x1 v x3 x4 x5 x6 x7 x8 x9 x10 x11 x12 x13.
Definition set_y_active (v : list Execution) (s : Sys) : Sys :=
  let '(mkSys x0 x1 x2 _ x4 x5 x6 x7 x8 x9 x10 x11 x12 x13) := s in mkSys x0 x1 x2 v x4 x5 x6 x7 x8 x9 x10 x11 x12 x13.
Definition set_y_shutting_down (v : bool) (s : Sys) : Sys :=
  let '(mkSys x0 x1 x2 x3 _ x5 x6 x7 x8 x9 x10 x11 x12 x13) := s in mkSys x0 x1 x2 x3 v x5 x6 x7 x8 x9 x10 x11 x12 x13.
Definition set_y_auto_prov (v : list string) (s : Sys) : Sys :=
  let '(mkSys x0 x1 x2 x3 x4 _ x6 x7 x8 x9 x10 x11 x12 x13) := s in mkSys x0 x1 x2 x3 x4 v x6 x7 x8 x9 x10 x11 x12 x13.
Definition set_y_tick (v : Z) (s : Sys) : Sys :=
  let '(mkSys x0 x1 x2 x3 x4 x5 _ x7 x8 x9 x10 x11 x12 x13) := s in mkSys x0 x1 x2 x3 x4 x5 v x7 x8 x9 x10 x11 x12 x13.
Definition set_y_running (v : bool) (s : Sys) : Sys :=
  let '(mkSys x0 x1 x2 x3 x4 x5 x6 _ x8 x9 x10 x11 x12 x13) := s in mkSys x0 x1 x2 x3 x4 x5 x6 v x8 x9 x10 x11 x12 x13.
Definition set_y_commands (v : list string) (s : Sys) : Sys :=
  let '(mkSys x0 x1 x2 x3 x4 x5 x6 x7 _ x9 x10 x11 x12 x13) := s in mkSys x0 x1 x2 x3 x4 x5 x6 x7 v x9 x10 x11 x12 x13.
Definition set_y_killed (v : list Z) (s : Sys) : Sys :=
  let '(mkSys x0 x1 x2 x3 x4 x5 x6 x7 x8 _ x10 x11 x12 x13) := s in mkSys x0 x1 x2 x3 x4 x5 x6 x7 x8 v x10 x11 x12 x13.
Definition set_y_files (v : gmap string string) (s : Sys) : Sys :=
  let '(mkSys x0 x1 x2 x3 x4 x5 x6 x7 x8 x9 _ x11 x12 x13) := s in mkSys x0 x1 x2 x3 x4 x5 x6 x7 x8 x9 v x11 x12 x13.
Definition set_y_created (v : nat) (s : Sys) : Sys :=
  let '(mkSys x0 x1 x2 x3 x4 x5 x6 x7 x8 x9 x10 _ x12 x13) := s in mkSys x0 x1 x2 x3 x4 x5 x6 x7 x8 x9 x10 v x12 x13.
Definition set_y_next (v : nat) (s : Sys) : Sys :=
  let '(mkSys x0 x1 x2 x3 x4 x5 x6 x7 x8 x9 x10 x11 _ x13) := s in mkSys x0 x1 x2 x3 x4 x5 x6 x7 x8 x9 x10 x11 v x13.
Definition set_y_spawned (v : list (Z * Child)) (s : Sys) : Sys :=
  let '(mkSys x0 x1 x2 x3 x4 x5 x6 x7 x8 x9 x10 x11 x12 _) := s in mkSys x0 x1 x2 x3 x4 x5 x6 x7 x8 x9 x10 x11 x12 v.

(** ** Environment *)

(** The configuration, the libraries (cJSON's printer and parser), the shell
    ([popen], [system]), what each call of [gen_uuid] finds, an optional
    environment variable, and whether allocations, thread creation and file
    writes succeed. *)
Record Env := mkEnv {
  en_cfg : Config;
  en_print_object : list (string * string) → option string;
  en_parse : string → option cJSON;
  en_popen : string → option (Z * string);
  en_system : string → Z;
  en_uuid_source : nat → UuidSource;
  en_presim_solver_cmd : option string;
  en_alloc : AllocEnv;
  en_malloc_ok : bool;
  en_queue_realloc_ok : bool;
  en_thread_ok : bool;
  en_can_write : string → bool
}.

Definition en_uuid (e : Env) (n : nat) : string := gen_uuid (en_uuid_source e n).

Definition cfg_flag (e : Env) (f : IntField) : bool := negb (cfg_int (en_cfg e) f =? 0).
Definition en_work_dir (e : Env) : string := cfg_str (en_cfg e) work_dir.

(** ** Running a component's function on the system *)

Definition y_db (s : Sys) : Db := a_db (y_alloc s).
Definition y_registry (s : Sys) : Registry := a_store (y_alloc s).
Definition y_ledger (s : Sys) : Ledger := a_ledger (y_alloc s).

Definition on_alloc {A} (m : ST (AllocState Registry) A) : ST Sys A := λ s,
  let '(a, x) := m (y_alloc s) in (a, set_y_alloc x s).
Definition ydb {A} (m : ST Db A) : ST Sys A := on_alloc (on_db m).
Definition on_jenv {A} (m : ST JEnv A) : ST Sys A := λ s,
  let '(a, x) := m (mkJEnv (y_db s) (y_events s)) in
  (a, set_y_events (je_events x) (set_y_alloc (mkAllocState (y_registry s) (y_ledger s) (je_db x)) s)).
Definition on_cloud {A} (m : ST CloudState A) : ST Sys A := λ s,
  let '(a, x) := m (mkCloud (y_registry s) (y_commands s)) in
  (a, set_y_commands (cl_commands x) (set_y_alloc (mkAllocState (cl_registry x) (y_ledger s) (y_db s)) s)).

Lemma on_alloc_run {A} (m : ST (AllocState Registry) A) s :
  on_alloc m s = ((m (y_alloc s)).1, set_y_alloc (m (y_alloc s)).2 s).
Proof. unfold on_alloc. by destruct (m (y_alloc s)). Qed.

Lemma ydb_run {A} (m : ST Db A) s a d :
  m (y_db s) = (a, d) → ydb m s = (a, set_y_alloc (mkAllocState (y_registry s) (y_ledger s) d) s).
Proof. unfold ydb, on_alloc, on_db, y_db. destruct (y_alloc s) as [st L d0] eqn:E. simpl. intros ->. unfold y_registry, y_ledger. by rewrite E. Qed.

(** [time(NULL)] *)
Definition y_now : ST Sys Z := st_gets (λ s, clock (y_db s)).

(** Run a shell command: [system]. *)
Definition run_system (e : Env) (cmd : string) : ST Sys Z := λ s,
  (en_system e cmd, set_y_commands (y_commands s ++ [cmd]) s).

(** The operations of job.c and events.c in this environment. *)
Definition sys_set_status_r (e : Env) (job : Job) (st : JobStatus) (reason : string) : ST Sys (Z * Job) :=
  on_jenv (job_set_status_r (en_print_object e) job st reason).
Definition sys_events_push_persistent (e : Env) (category event_type detail user_id : string) : ST Sys unit :=
  on_jenv (events_push_persistent (en_print_object e) category event_type detail user_id).
Definition sys_job_create_ex (e : Env) (command : string) (priority req_cores req_gpu req_ram_mb req_disk_mb : Z)
    (user_id app_id : string) : ST Sys (option Job) :=
  n ← st_gets y_created;
  st_modify (set_y_created (S n)) ;;
  on_jenv (job_create_ex (en_work_dir e) (en_malloc_ok e) (en_uuid e n) command priority
             req_cores req_gpu req_ram_mb req_disk_mb user_id app_id).

Definition sys_cloud_deprovision (e : Env) (provider instance_id : string) : ST Sys Z :=
  on_cloud (cloud_deprovision (en_popen e) provider instance_id).
Definition sys_cloud_provision (e : Env) (spec : CloudMachineSpec) (id_len : nat) : ST Sys (Z * string) :=
  now ← y_now; on_cloud (cloud_provision (en_popen e) now spec id_len).

(** [queue_push(s_queue, job)]; a missing queue is a NULL argument. *)
Definition sys_queue_push (e : Env) (job : Job) : ST Sys Z := λ s,
  match y_queue s with
  | None => (-1, s)
  | Some q => let '(rc, q) := queue_push (en_queue_realloc_ok e) job q in (rc, set_y_queue (Some q) s)
  end.
Definition sys_queue_try_pop : ST Sys (option Job) := λ s,
  match y_queue s with
  | None => (None, s)
  | Some q => let '(j, q) := queue_try_pop q in (j, set_y_queue (Some q) s)
  end.
Definition sys_queue_remove_by_id (job_id : string) : ST Sys (option Job) := λ s,
  match y_queue s with
  | None => (None, s)
  | Some q => let '(j, q) := queue_remove_by_id job_id q in (j, set_y_queue (Some q) s)
  end.

(** ** Files *)

(** The entries of a directory: the first component below it of every path. *)
Definition first_component (s : string) : string :=
  match str_before "/" s with Some c => c | None => s end.
Definition fs_entries (fs : gmap string string) (dir : string) : list string :=
  let prefix := dir +:+ "/" in
  remove_dups ((λ p, first_component (str_drop (str_len prefix) p.1))
    <$> filter (λ p : string * string, str_prefix prefix p.1 = true) (map_to_list fs)).

Definition fs_readdir (fs : gmap string string) (dir : string) : option (list string) :=
  match fs_entries fs dir with [] => None | l => Some l end.

Definition fs_stat (fs : gmap string string) (path : string) : option FileKind :=
  match fs !! path with
  | Some content => Some (RegularFile (Z.of_nat (str_len content)))
  | None => match fs_entries fs path with [] => None | _ => Some Directory end
  end.

Definition file_exists (path : string) : ST Sys bool := st_gets (λ s, bool_decide (is_Some (y_files s !! path))).

(** Directories are created on demand and carry no state of their own; the
    function always reports success. *)
Definition store_init_job_dirs (job_id : string) : ST Sys Z := mret 0.

(** [copy_file]: 0 when both files can be opened. *)
Definition copy_file (e : Env) (src dst : string) : ST Sys Z := λ s,
  match y_files s !! src with
  | None => (-1, s)
  | Some content =>
      if en_can_write e dst then (0, set_y_files (<[dst := content]> (y_files s)) s) else (-1, s)
  end.

(** The loop over the entries; the number of files copied. *)
Fixpoint forward_entries (e : Env) (src_dir dst_dir : string) (entries : list string) (copied : Z) : ST Sys Z :=
  match entries with
  | [] => mret copied
  | name :: entries =>
      if String.eqb name "." || String.eqb name ".." then forward_entries e src_dir dst_dir entries copied else
      let src_path := cbuf 512 (src_dir +:+ "/" +:+ name) in
      let dst_path := cbuf 512 (dst_dir +:+ "/" +:+ name) in
      kind ← st_gets (λ s, fs_stat (y_files s) src_path);
      match kind with
      | Some (RegularFile _) =>
          rc ← copy_file e src_path dst_path;
          forward_entries e src_dir dst_dir entries (if rc =? 0 then copied + 1 else copied)
      | _ => forward_entries e src_dir dst_dir entries copied
      end
  end.

Definition store_forward_outputs (e : Env) (parent_job_id child_job_id : string) : ST Sys Z :=
  let src_dir := store_output_dir (en_work_dir e) parent_job_id 512 in
  let dst_dir := store_input_dir (en_work_dir e) child_job_id 512 in
  entries ← st_gets (λ s, fs_readdir (y_files s) src_dir);
  match entries with
  | None => mret 0
  | Some entries => forward_entries e src_dir dst_dir entries 0
  end.

Definition sys_artifact_collect_job (e : Env) (job_id : string) : ST Sys Z :=
  fs ← st_gets y_files;
  ydb (artifact_collect_job (en_work_dir e) (fs_stat fs) (fs_readdir fs) job_id).
