(* ===== verification/Store.v ===== *)
(** Removal of job directories, src/transfer/store.c: the recursion of
    [rmdir_r] over the files, what it removes, and where it does not end. *)
From S2P Require Import Prelude Job JobOps Cloud Transfer Config System.

(** ** Definitions *)

Definition is_dot_entry (name : string) : bool := String.eqb name "." || String.eqb name "..".

(** The POSIX [rmdir_r]; [None] when [fuel] nested calls are not enough.
    Entries are read into a buffer [char sub\[512\]]. *)
Fixpoint rmdir_r (fuel : nat) (path : string) (fs : gmap string string) : option (gmap string string) :=
  match fs_readdir fs path with
  | None => Some fs
  | Some entries =>
      match fuel with
      | O => None
      | S fuel =>
          option_fold (λ fs name,
            if is_dot_entry name then Some fs else
            let sub := cbuf 512 (path +:+ "/" +:+ name) in
            match fs_stat fs sub with
            | Some Directory => rmdir_r fuel sub fs
            | _ => Some (delete sub fs)
            end) fs entries
      end
  end.

(** A path of at most 511 characters has fewer directories. *)
Definition RMDIR_FUEL : nat := 512.

Definition job_dir (work_dir job_id : string) : string := cbuf 512 (work_dir +:+ SEP +:+ job_id).

Definition store_cleanup_job (work_dir job_id : string) (fs : gmap string string) : option (gmap string string) :=
  rmdir_r RMDIR_FUEL (job_dir work_dir job_id) fs.

Definition store_reset_job_outputs (work_dir job_id : string) (fs : gmap string string) : option (gmap string string) :=
  fs ← rmdir_r RMDIR_FUEL (store_output_dir work_dir job_id 512) fs;
  Some (delete (store_stderr_path work_dir job_id 512) (delete (store_stdout_path work_dir job_id 512) fs)).

(** A removal in the process; [false] when the stack is exhausted. *)
Definition sys_remove (f : gmap string string → option (gmap string string)) : ST Sys bool := λ s,
  match f (y_files s) with
  | Some fs => (true, set_y_files fs s)
  | None => (false, s)
  end.

(** ** Files below a directory *)

Definition below (dir p : string) : bool := str_prefix (dir +:+ "/") p.
Definition covers (dir p : string) : bool := String.eqb p dir || below dir p.

(** A component [.] or [..] after the directory. *)
Definition dots_below (dir p : string) : bool :=
  let s := str_drop (str_len dir) p +:+ "/" in has_substring "/./" s || has_substring "/../" s.

(** What a real tree of plain names satisfies, for names that fit. *)
Definition tidy (dir : string) (fs : gmap string string) : Prop :=
  ∀ p, is_Some (fs !! p) → below dir p = true →
    (str_len p < 512)%nat ∧ dots_below dir p = false ∧ ∀ q, is_Some (fs !! q) → below p q = false.

Lemma below_iff dir p : below dir p = true ↔ ∃ r, p = dir +:+ "/" +:+ r.
Proof. unfold below. rewrite str_prefix_iff. by setoid_rewrite str_app_assoc. Qed.

Lemma covers_iff dir p : covers dir p = true ↔ p = dir ∨ below dir p = true.
Proof. unfold covers. by rewrite orb_true_iff, String.eqb_eq. Qed.

Lemma first_component_spec s :
  first_component s = s ∨ ∃ r, s = first_component s +:+ "/" +:+ r.
Proof.
  unfold first_component. induction s as [|c s IH]; [by left|]. cbn [str_before].
  destruct (Ascii.eqb_spec c "/") as [->|Hc]; [right; by exists s|].
  destruct (str_before "/" s) as [b|]; cbn [fmap option_fmap option_map] in *; [|by left].
  destruct IH as [->|[r IH]]; [by left|]. right. exists r. by rewrite IH at 1.
Qed.

Lemma first_component_app c r : first_component (first_component c +:+ "/" +:+ r) = first_component c.
Proof.
  unfold first_component. induction c as [|a c IH]; [done|]. cbn [str_before].
  destruct (Ascii.eqb_spec a "/") as [->|Ha]; [done|]. apply Ascii.eqb_neq in Ha.
  destruct (str_before "/" c) as [b|] eqn:E; cbn [fmap option_fmap option_map] in *.
  - change (String a b +:+ "/" +:+ r) with (String a (b +:+ "/" +:+ r)). cbn [str_before]. rewrite Ha.
    destruct (str_before "/" (b +:+ "/" +:+ r)); cbn in *; [by f_equal | by rewrite IH].
  - change (String a c +:+ "/" +:+ r) with (String a (c +:+ "/" +:+ r)). cbn [str_before]. rewrite Ha.
    destruct (str_before "/" (c +:+ "/" +:+ r)); cbn in *; by f_equal.
Qed.

Lemma first_component_idem c : first_component (first_component c) = first_component c.
Proof.
  unfold first_component. induction c as [|a c IH]; [done|]. cbn [str_before].
  destruct (Ascii.eqb_spec a "/") as [->|Ha]; [done|]. apply Ascii.eqb_neq in Ha.
  destruct (str_before "/" c) as [b|] eqn:E; cbn [fmap option_fmap option_map str_before] in *; rewrite Ha, ?E; [|done].
  by destruct (str_before "/" b); cbn in *; [f_equal | ].
Qed.

Lemma fs_entries_spec fs dir name :
  name ∈ fs_entries fs dir ↔ ∃ r, is_Some (fs !! (dir +:+ "/" +:+ r)) ∧ name = first_component r.
Proof.
  unfold fs_entries. rewrite elem_of_remove_dups, list_elem_of_fmap. split.
  - intros ([p v] & -> & [Hp Hin]%list_elem_of_filter). cbn [fst] in *. apply elem_of_map_to_list in Hin.
    apply str_prefix_drop in Hp as Hd. exists (str_drop (str_len (dir +:+ "/")) p). split; [|done].
    rewrite <- str_app_assoc, <- Hd. by exists v.
  - intros (r & [v Hv] & ->). exists (dir +:+ "/" +:+ r, v). cbn [fst]. rewrite <- str_app_assoc, str_drop_app.
    split; [done|]. apply list_elem_of_filter. cbn [fst]. split; [apply str_prefix_app|].
    apply elem_of_map_to_list. by rewrite str_app_assoc.
Qed.

Lemma fs_entries_nil fs dir : fs_entries fs dir = [] ↔ ∀ p, is_Some (fs !! p) → below dir p = false.
Proof.
  split.
  - intros H p Hp. destruct (below dir p) eqn:E; [|done]. apply below_iff in E as [r ->].
    assert (first_component r ∈ fs_entries fs dir) as Hin by (apply fs_entries_spec; eauto). rewrite H in Hin. set_solver.
  - intros H. destruct (fs_entries fs dir) as [|n l] eqn:E; [done|].
    assert (n ∈ fs_entries fs dir) as Hin by (rewrite E; set_solver). apply fs_entries_spec in Hin as (r & Hr & _).
    specialize (H _ Hr). assert (below dir (dir +:+ "/" +:+ r) = true) by (apply below_iff; eauto). congruence.
Qed.

Lemma strstr_app p a b : strstr p (a +:+ b) = None → strstr p b = None.
Proof.
  induction a as [|c a IH]; [done|]. change (String c a +:+ b) with (String c (a +:+ b)). cbn [strstr].
  destruct (str_prefix _ _); [done|]. by destruct (strstr p (a +:+ b)) as [[]|]; [|intros _; apply IH].
Qed.

Lemma has_substring_app p a b : has_substring p (a +:+ b) = false → has_substring p b = false.
Proof.
  unfold has_substring. intros H. assert (strstr p (a +:+ b) = None) as E by by destruct (strstr p (a +:+ b)).
  by rewrite (strstr_app p a b E).
Qed.

Lemma below_trans dir name p : below (dir +:+ "/" +:+ name) p = true → below dir p = true.
Proof. rewrite !below_iff. intros [r ->]. exists (name +:+ "/" +:+ r). by rewrite !str_app_assoc. Qed.

Lemma covers_below dir name p : covers (dir +:+ "/" +:+ name) p = true → below dir p = true.
Proof. intros [->|H%below_trans]%covers_iff; [apply below_iff; eauto | done]. Qed.

Lemma tidy_mono dir fs fs' : fs' ⊆ fs → tidy dir fs → tidy dir fs'.
Proof.
  intros Hsub Ht p [v Hp] Hb. destruct (Ht p) as (H1 & H2 & H3); [by exists v; eapply lookup_weaken | done |].
  split_and!; try done. intros q [w Hq]. apply H3. exists w. by eapply lookup_weaken.
Qed.

Lemma dots_sub dir name p :
  below (dir +:+ "/" +:+ name) p = true → dots_below dir p = false → dots_below (dir +:+ "/" +:+ name) p = false.
Proof.
  intros [r ->]%below_iff. unfold dots_below. cbv zeta.
  rewrite str_drop_app, !str_app_assoc, str_drop_app, <- (str_app_assoc "/" name), !str_app_assoc, <- (str_app_assoc "/" name).
  intros [E1 E2]%orb_false_elim. by rewrite (has_substring_app _ _ _ E1), (has_substring_app _ _ _ E2).
Qed.

Lemma dots_first dir r : dots_below dir (dir +:+ "/" +:+ r) = false → is_dot_entry (first_component r) = false.
Proof.
  intros Hdots. unfold dots_below in Hdots. rewrite str_drop_app in Hdots. apply orb_false_elim in Hdots as [E1 E2].
  unfold is_dot_entry. apply orb_false_intro; apply String.eqb_neq; intros E;
    (destruct (first_component_spec r) as [H|[r' H]]; rewrite E in H; rewrite <- ?H in *; subst r; done).
Qed.

Lemma tidy_sub dir name fs : tidy dir fs → tidy (dir +:+ "/" +:+ name) fs.
Proof.
  intros Ht p Hp Hb. destruct (Ht p Hp (below_trans _ _ _ Hb)) as (H1 & H2 & H3). split_and!; [done| |done].
  by apply dots_sub.
Qed.

(** An entry that the loop of [rmdir_r] removes. *)
Definition entry_ok (dir name : string) : Prop :=
  is_dot_entry name = false ∧ (str_len (dir +:+ "/" +:+ name) < 512)%nat.

Lemma entries_ok dir fs name : tidy dir fs → name ∈ fs_entries fs dir → entry_ok dir name.
Proof.
  intros Ht (r & Hr & ->)%fs_entries_spec.
  destruct (Ht _ Hr) as (Hlen & Hdots & _); [by apply below_iff; eauto|]. split; [by eapply dots_first|].
  destruct (first_component_spec r) as [H|[r' H]]; [by rewrite H|]. rewrite H in Hlen. rewrite !str_len_app in *. lia.
Qed.

Definition without (dir : string) (fs : gmap string string) : gmap string string :=
  filter (λ kv, covers dir kv.1 = false) fs.

Lemma delete_without fs sub :
  (∀ p, is_Some (fs !! p) → below sub p = false) → delete sub fs = without sub fs.
Proof.
  intros H. apply map_eq. intros p. unfold without. rewrite map_lookup_filter.
  destruct (decide (p = sub)) as [->|Hne].
  - rewrite lookup_delete_eq. destruct (fs !! sub); cbn; [|done]. rewrite option_guard_False; [done|]. cbn.
    unfold covers. by rewrite String.eqb_refl.
  - rewrite lookup_delete_ne by done. destruct (fs !! p) eqn:E; cbn; [|done]. rewrite option_guard_True; [done|].
    cbn. unfold covers. rewrite H by (by eexists). rewrite orb_false_r. by apply String.eqb_neq.
Qed.

(** One round of the loop, when the recursive call removes a directory. *)
Lemma rmdir_step fuel dir name fs :
  (tidy (dir +:+ "/" +:+ name) fs → rmdir_r fuel (dir +:+ "/" +:+ name) fs
     = Some (filter (λ kv, below (dir +:+ "/" +:+ name) kv.1 = false) fs)) →
  tidy dir fs → entry_ok dir name →
  (if is_dot_entry name then Some fs else
   let sub := cbuf 512 (dir +:+ "/" +:+ name) in
   match fs_stat fs sub with Some Directory => rmdir_r fuel sub fs | _ => Some (delete sub fs) end)
  = Some (without (dir +:+ "/" +:+ name) fs).
Proof.
  intros IH Ht [-> Hlen]. cbv zeta. rewrite cbuf_id by done. set (sub := dir +:+ "/" +:+ name) in *.
  unfold fs_stat. destruct (fs !! sub) as [content|] eqn:E.
  - f_equal. apply delete_without. intros p Hp.
    destruct (Ht sub) as (_ & _ & H); [by eexists | by apply below_iff; eexists |]. by apply H.
  - destruct (fs_entries fs sub) as [|n l] eqn:En.
    + f_equal. apply delete_without. by apply fs_entries_nil.
    + rewrite IH by by apply tidy_sub. f_equal. apply map_filter_ext. intros p v Hp. unfold covers. cbn [fst].
      destruct (String.eqb_spec p sub) as [->|]; [congruence|done].
Qed.

Lemma rmdir_r_exact fuel dir fs :
  tidy dir fs → (512 ≤ str_len dir + fuel)%nat →
  rmdir_r fuel dir fs = Some (filter (λ kv, below dir kv.1 = false) fs).
Proof.
  revert dir fs. induction fuel as [|fuel IH]; intros dir fs Ht Hf; cbn [rmdir_r]; unfold fs_readdir;
    destruct (fs_entries fs dir) as [|n l] eqn:En.
  1, 3: f_equal; symmetry; apply map_filter_id; intros p v Hp; apply (proj1 (fs_entries_nil fs dir) En); by eexists.
  - assert (n ∈ fs_entries fs dir) as (r & Hr & _)%fs_entries_spec by (rewrite En; set_solver).
    destruct (Ht _ Hr) as (Hlen & _); [by apply below_iff; eauto|]. rewrite !str_len_app in Hlen. cbn in Hlen. lia.
  - assert (Forall (entry_ok dir) (n :: l)) as Hok.
    { rewrite <- En. apply Forall_forall. intros x Hx. by eapply entries_ok. }
    assert (∀ names g, Forall (entry_ok dir) names → tidy dir g →
      option_fold (λ fs name,
        if is_dot_entry name then Some fs else
        let sub := cbuf 512 (dir +:+ "/" +:+ name) in
        match fs_stat fs sub with Some Directory => rmdir_r fuel sub fs | _ => Some (delete sub fs) end) g names
      = Some (filter (λ kv, Forall (λ name, covers (dir +:+ "/" +:+ name) kv.1 = false) names) g)) as Hfold.
    { intros names. induction names as [|name names IHn]; intros g Hnames Hg; cbn [option_fold].
      { f_equal. symmetry. by apply map_filter_id. }
      apply Forall_cons in Hnames as [Hname Hnames]. rewrite rmdir_step; [|intros Hs; apply IH; [done|] |done|done].
      2: { rewrite !str_len_app. cbn. lia. }
      cbn [mbind option_bind]. rewrite IHn; [|done|]. 2: { eapply tidy_mono; [apply map_filter_subseteq|done]. }
      f_equal. unfold without. rewrite map_filter_filter. apply map_filter_ext. intros p v Hp. cbn.
      rewrite Forall_cons. tauto. }
    rewrite Hfold by done. f_equal. apply map_filter_ext. intros p v Hp. cbn [fst]. split.
    + intros Hall. destruct (below dir p) eqn:E; [|done]. apply below_iff in E as [r ->].
      assert (first_component r ∈ n :: l) as Hin by (rewrite <- En; apply fs_entries_spec; eauto).
      rewrite Forall_forall in Hall. specialize (Hall _ Hin).
      assert (covers (dir +:+ "/" +:+ first_component r) (dir +:+ "/" +:+ r) = true); [|congruence].
      apply covers_iff. destruct (first_component_spec r) as [H|[r' H]]; [left; by rewrite H|].
      right. apply below_iff. exists r'. rewrite H at 1. by rewrite !str_app_assoc.
    + intros Hb. apply Forall_forall. intros name Hin. destruct (covers _ p) eqn:E; [|done].
      apply covers_below in E. congruence.
Qed.

(** ** Names that do not fit *)

Lemma str_take_app_le n a b : (n ≤ str_len a)%nat → str_take n (a +:+ b) = str_take n a.
Proof.
  revert n; induction a as [|c a IH]; intros [|n] Hn; try done; [cbn in *; lia|].
  change (String c a +:+ b) with (String c (a +:+ b)). cbn [str_take]. f_equal. apply IH. cbn in Hn. lia.
Qed.

(** The first entry of a directory whose path fills the buffer is read as
    the directory again. *)
Lemma rmdir_r_spins fuel dir fs names :
  str_len dir = 511%nat → fs !! dir = None → fs_entries fs dir = names → names ≠ [] →
  Forall (λ name, is_dot_entry name = false) names → rmdir_r fuel dir fs = None.
Proof.
  intros Hlen Hno He Hne Hdots. destruct names as [|n l]; [done|]. clear Hne. apply Forall_cons in Hdots as [Hn _].
  induction fuel as [|fuel IH]; cbn [rmdir_r]; unfold fs_readdir; rewrite He; [done|].
  cbn [option_fold]. rewrite Hn. cbv zeta.
  assert (cbuf 512 (dir +:+ "/" +:+ n) = dir) as ->.
  { unfold cbuf. rewrite str_take_app_le by lia. apply str_take_ge. lia. }
  assert (fs_stat fs dir = Some Directory) as -> by (unfold fs_stat; by rewrite Hno, He). by rewrite IH.
Qed.

Lemma fs_entries_single root r v : fs_entries {[ root +:+ "/" +:+ r := v ]} root = [first_component r].
Proof.
  unfold fs_entries. rewrite map_to_list_singleton, filter_cons, decide_True by by apply below_iff; eauto.
  rewrite filter_nil. cbn [fmap list_fmap fst]. by rewrite <- str_app_assoc, str_drop_app.
Qed.

(** ** Properties *)


(** A job that nests directories until a path of 511 characters makes
    its own removal run for ever: the name of an entry of that directory is
    cut to the directory itself, and [rmdir_r] calls itself on the same path
    until the stack of the server is exhausted. *)
Theorem removal_of_deep_tree_does_not_end root r x content fuel :
  str_len (root +:+ "/" +:+ r) = 511%nat → dots_below root ((root +:+ "/" +:+ r) +:+ "/" +:+ x) = false →
  rmdir_r fuel root {[ (root +:+ "/" +:+ r) +:+ "/" +:+ x := content ]} = None.
Proof.
  revert root r. induction fuel as [|fuel IH]; intros root r Hlen Hdots; set (fs := {[ _ := _ ]}).
  all: assert (fs_entries fs root = [first_component (r +:+ "/" +:+ x)]) as He
    by (unfold fs; rewrite !str_app_assoc; apply fs_entries_single).
  all: cbn [rmdir_r]; unfold fs_readdir; rewrite He.
  { done. }
  cbn [option_fold].
  rewrite (dots_first root) by by rewrite !str_app_assoc in Hdots. cbv zeta.
  assert (first_component (r +:+ "/" +:+ x) = first_component r) as ->.
  { destruct (first_component_spec r) as [H|[r' H]]; [rewrite <- H at 1; apply first_component_app|].
    rewrite H at 1. rewrite !str_app_assoc. apply first_component_app. }
  destruct (first_component_spec r) as [H|[r' H]].
  - rewrite H, cbuf_id by lia. set (dir := root +:+ "/" +:+ r) in *.
    assert (fs_entries fs dir = [first_component x]) as Hd by apply fs_entries_single.
    assert (fs !! dir = None) as Hn.
    { apply lookup_singleton_ne. intros E. apply (f_equal str_len) in E. rewrite !str_len_app in E. cbn in E. lia. }
    unfold fs_stat. rewrite Hn, Hd. erewrite rmdir_r_spins; [done|done|done|exact Hd|done|]. constructor; [|done].
    apply (dots_first dir). apply dots_sub; [apply below_iff; eauto | done].
  - set (c := first_component r) in *. 
    assert (root +:+ "/" +:+ r = (root +:+ "/" +:+ c) +:+ "/" +:+ r') as E by (rewrite H at 1; by rewrite !str_app_assoc).
    rewrite cbuf_id by (rewrite E, !str_len_app in Hlen; rewrite !str_len_app; cbn in *; lia).
    assert (fs = {[ ((root +:+ "/" +:+ c) +:+ "/" +:+ r') +:+ "/" +:+ x := content ]}) as Hfs by (unfold fs; by rewrite E).
    assert (fs_stat fs (root +:+ "/" +:+ c) = Some Directory) as ->.
    { unfold fs_stat. rewrite Hfs. rewrite lookup_singleton_ne.
      - by rewrite (str_app_assoc (root +:+ "/" +:+ c)), (str_app_assoc "/" r'), fs_entries_single.
      - intros E'. apply (f_equal str_len) in E'. rewrite !str_len_app in E'. cbn in E'. lia. }
    rewrite Hfs, IH; [done| by rewrite <- E |]. rewrite <- E. apply dots_sub; [|done].
    apply below_iff. rewrite E. eexists. by rewrite !str_app_assoc.
Qed.

(** ** Examples *)

Definition tidy_check (dir : string) (fs : gmap string string) : bool :=
  forallb (λ kv, negb (below dir kv.1) ||
    ((str_len kv.1 <? 512)%nat && negb (dots_below dir kv.1) && forallb (λ kw, negb (below kv.1 kw.1)) (map_to_list fs)))
    (map_to_list fs).

Lemma tidy_check_ok dir fs : tidy_check dir fs = true → tidy dir fs.
Proof.
  unfold tidy_check. intros H p [v Hp%elem_of_map_to_list%list_elem_of_In] Hb. rewrite forallb_forall in H. specialize (H _ Hp). cbn [fst] in H.
  rewrite Hb in H. cbn [negb orb] in H. apply andb_prop in H as [[H1 H2]%andb_prop H3]. apply negb_true_iff in H2. rewrite forallb_forall in H3.
  split_and!; [by apply Nat.ltb_lt|done|].
  intros q [w Hq%elem_of_map_to_list%list_elem_of_In]. apply H3 in Hq. by apply negb_true_iff in Hq.
Qed.

Definition demo_tree : gmap string string :=
  {[ "/w/j1/input/mesh.dat" := "m"; "/w/j1/output/run/log.txt" := "l"; "/w/j1/output/result" := "r";
     "/w/j1/stdout.log" := "o"; "/w/j2/output/result" := "s"; "/w/j10/input/x" := "x" ]}.

Example demo_cleanup :
  store_cleanup_job "/w" "j1" demo_tree = Some {[ "/w/j2/output/result" := "s"; "/w/j10/input/x" := "x" ]}.
Proof. vm_compute. done. Qed.


Definition deep_name : string := "job/output/" +:+ Nat.iter 497 (String "d") EmptyString.

Lemma removal_of_deep_tree_does_not_end_witness :
  rmdir_r RMDIR_FUEL "/w" {[ ("/w" +:+ "/" +:+ deep_name) +:+ "/" +:+ "f" := "" ]} = None.
Proof. apply removal_of_deep_tree_does_not_end; vm_compute; reflexivity. Defined.
