(* ===== verification/JobProps.v ===== *)
(** Properties of the operations on jobs: creation followed by a read gives
    the same job back, and a status change obeys the transition table and is
    persisted. *)
From S2P Require Import Prelude Job Events Registry Sql Db DbAdmin DbInv JobOps DbProps.

(** ** Statements on a healthy connection *)

Lemma dml_rc_healthy f d t n :
  healthy_db d → f (clock d) (tables d) = Some (t, n) →
  dml_rc f d = (0, set_changes n (set_tables t d)) ∧ healthy_db (set_changes n (set_tables t d)).
Proof.
  intros (Hi & Ho & Hos) Hf. unfold dml_rc. rewrite bind_step, dml_healthy, Hf by done. cbn [fst snd].
  split; [done|]. by destruct d.
Qed.

Lemma update_jobs_run p f d :
  healthy_db d → ∃ d', dml_rc (λ _, update_jobs p f) d = (0, d') ∧ healthy_db d' ∧ clock d' = clock d ∧
    tables d' = set_t_jobs (update_where p f (t_jobs (tables d))) (tables d).
Proof.
  intros H. destruct (dml_rc_healthy (λ _, update_jobs p f) d _ _ H eq_refl) as [E Hh].
  eexists. split; [exact E|]. split; [done|]. by destruct d.
Qed.

Lemma set_t_jobs_twice a b t : set_t_jobs a (set_t_jobs b t) = set_t_jobs a t.
Proof. by destruct t. Qed.
Lemma t_jobs_set a t : t_jobs (set_t_jobs a t) = a.
Proof. by destruct t. Qed.

Lemma update_where_compose {A} (p : A → bool) f g (l : list A) :
  (∀ x, p (f x) = p x) → update_where p g (update_where p f l) = update_where p (λ x, g (f x)) l.
Proof.
  intros H. unfold update_where. rewrite map_map. apply map_ext. intros x. destruct (p x) eqn:E; [by rewrite H, E|by rewrite E].
Qed.

(** ** Status changes *)

(** What the two statements of a status change do to a row. *)
Definition status_row (job : Job) (reason : string) (r : Job) : Job :=
  let r := with_ended_at (if is_terminal (j_status job) then j_ended_at job else 0)
             (with_exit_code (if is_terminal (j_status job) then j_exit_code job else 0) (with_status (j_status job) r)) in
  if str_nonempty reason then with_status_reason reason r else r.

Section status.
Context (print_object : list (string * string) → option string).

(** The first statement: status, exit code and end time. *)
Definition status_columns (job : Job) (r : Job) : Job :=
  with_ended_at (if is_terminal (j_status job) then j_ended_at job else 0)
    (with_exit_code (if is_terminal (j_status job) then j_exit_code job else 0) (with_status (j_status job) r)).

Lemma status_columns_is job job_id r : job_is job_id (status_columns job r) = job_is job_id r.
Proof. by destruct r. Qed.

Lemma record_status_run job st e :
  healthy_db (je_db e) → j_status job = st →
  ∃ d', (if is_terminal st then
           (let j := with_ended_at (clock (je_db e)) job in
            jdb (db_update_job_status (j_id j) st (j_exit_code j) (clock (je_db e))) ;; mret j)
         else jdb (db_update_job_status (j_id job) st 0 0) ;; mret job) e =
        (if is_terminal st then with_ended_at (clock (je_db e)) job else job, mkJEnv d' (je_events e)) ∧
    healthy_db d' ∧ clock d' = clock (je_db e) ∧
    tables d' = set_t_jobs (update_where (job_is (j_id job))
      (status_columns (if is_terminal st then with_ended_at (clock (je_db e)) job else job)) (t_jobs (tables (je_db e))))
      (tables (je_db e)).
Proof.
  intros Hh Hst. set (j := if is_terminal st then with_ended_at (clock (je_db e)) job else job).
  destruct (update_jobs_run (job_is (j_id job)) (status_columns j) (je_db e) Hh) as (d' & E & H1 & H2 & H3).
  exists d'. split_and!; try done. subst j. unfold status_columns, db_update_job_status in *.
  destruct job; simpl in *; subst. destruct (is_terminal st) eqn:Ht; simpl in *; rewrite Ht in E; by rewrite bind_jdb, E.
Qed.

Lemma push_then_ret {A} (x : A) ms u d ev : ∃ ev', (push_event print_object ms u ;; mret x) (mkJEnv d ev) = (x, mkJEnv d ev').
Proof.
  rewrite bind_step. pose proof (push_event_db print_object ms u (mkJEnv d ev)) as H.
  destruct (push_event print_object ms u (mkJEnv d ev)) as [y [d' ev']]. simpl in *. subst. by exists ev'.
Qed.

Lemma job_set_status_r_persists job st reason e :
  healthy_db (je_db e) → transition_allowed (j_status job) st = true →
  let job' := status_changed job st reason (clock (je_db e)) in
  ∃ e', job_set_status_r print_object job st reason e = ((0, job'), e') ∧
    healthy_db (je_db e') ∧ clock (je_db e') = clock (je_db e) ∧
    tables (je_db e') =
      set_t_jobs (update_where (job_is (j_id job)) (status_row job' reason) (t_jobs (tables (je_db e)))) (tables (je_db e)).
Proof.
  intros Hh Hal job'. unfold job_set_status_r. rewrite Hal. cbn [negb]. rewrite bind_jdb. cbn [fst snd st_gets].
  destruct e as [d ev]. cbn [je_db je_events] in *.
  destruct (record_status_run (with_status_reason (cbuf 256 reason) (with_status st job)) st (mkJEnv d ev) Hh ltac:(by destruct job))
    as (d1 & E1 & Hh1 & Hc1 & Ht1). cbn [je_db je_events] in *.
  rewrite bind_step, E1. cbn [fst snd]. fold (status_changed job st reason (clock d)) in *. fold job' in Ht1 |- *.
  assert (j_id job' = j_id job ∧ j_id (with_status_reason (cbuf 256 reason) (with_status st job)) = j_id job) as [Hid Hid'] by
    (subst job'; unfold status_changed; destruct job; by destruct (is_terminal st)).
  rewrite Hid' in Ht1. rewrite bind_step. destruct (str_nonempty reason) eqn:Hr.
  - destruct (update_jobs_run (job_is (j_id job)) (with_status_reason reason) d1 Hh1) as (d2 & E2 & Hh2 & Hc2 & Ht2).
    rewrite bind_jdb. cbn [je_db je_events]. 
    replace (db_update_status_reason (j_id job') reason d1) with (0, d2) by (rewrite Hid; by symmetry).
    cbn [fst snd mret st_ret].
    destruct (push_then_ret (0, job') [("event", "job_status"); ("id", j_id job'); ("status", job_status_str st);
      ("machine_id", j_machine_id job'); ("reason", reason)] (j_user_id job') d2 ev) as [ev' ->].
    eexists. split; [done|]. cbn [je_db]. split; [done|]. split; [by rewrite Hc2|]. cbn [je_db].
    rewrite Ht2, Ht1, set_t_jobs_twice, t_jobs_set, update_where_compose by (intros; apply status_columns_is).
    unfold status_row. by rewrite Hr.
  - cbn [fst snd mret st_ret].
    destruct (push_then_ret (0, job') [("event", "job_status"); ("id", j_id job'); ("status", job_status_str st);
      ("machine_id", j_machine_id job'); ("reason", reason)] (j_user_id job') d1 ev) as [ev' ->].
    eexists. split; [done|]. cbn [je_db]. split; [done|]. split; [done|]. rewrite Ht1. unfold status_row. by rewrite Hr.
Qed.
End status.

(** ** Properties *)



Lemma head_where_last (job_id : string) (l : list Job) (r : Job) :
  existsb (job_is job_id) l = false → j_id r = job_id → head (where_ (job_is job_id) (l ++ [r])) = Some r.
Proof.
  intros Hl Hr. unfold where_. rewrite filter_app, filter_cons, decide_True by (unfold job_is; by rewrite Hr, String.eqb_refl).
  rewrite (filter_none _ l); [done|]. intros y Hy Hp. apply not_true_iff_false in Hl. apply Hl.
  apply existsb_exists. exists y. split; [by apply list_elem_of_In|done].
Qed.

Lemma row_to_job_new wd uuid cmd p c g m d user app now :
  row_to_job (job_row (new_job wd uuid cmd p c g m d user app now)) = new_job wd uuid cmd p c g m d user app now.
Proof. unfold row_to_job, new_job, store_input_dir, store_output_dir, job_path. simpl. by rewrite !cbuf_cbuf. Qed.

(** A job that was created can be read back exactly: on a healthy
    database whose table has no row with the new identifier,
    [job_create_ex] returns a job, and [db_get_job] of its identifier then
    returns that same job, field by field; if the identifier is taken, or
    memory runs out, it returns NULL and the table is unchanged. *)
Theorem created_job_reads_back (wd : string) (malloc_ok : bool) (uuid command : string) (priority cores gpu ram disk : Z)
    (user app : string) (e : JEnv) (Hh : healthy_db (je_db e)) :
  let fresh := negb (existsb (job_is (cbuf JOB_ID_LEN uuid)) (t_jobs (tables (je_db e)))) in
  let '(r, e') := job_create_ex wd malloc_ok uuid command priority cores gpu ram disk user app e in
  if malloc_ok && fresh then
    ∃ job, r = Some job ∧ j_status job = JOB_STATUS_QUEUED ∧ j_id job = cbuf JOB_ID_LEN uuid ∧
      (db_get_job (j_id job) (je_db e')).1 = Some job ∧
      t_jobs (tables (je_db e')) = t_jobs (tables (je_db e)) ++ [job_row job]
  else r = None ∧ tables (je_db e') = tables (je_db e).
Proof.
  intros fresh. unfold job_create_ex. destruct malloc_ok; simpl; [|done].
  rewrite bind_jdb. cbn [fst snd st_gets]. rewrite bind_jdb. destruct e as [d ev]. cbn [je_db je_events] in *.
  set (job := new_job _ _ _ _ _ _ _ _ _ _ _). unfold db_insert_job.
  change (j_id job) with (cbuf JOB_ID_LEN uuid). subst fresh.
  destruct (existsb (job_is (cbuf JOB_ID_LEN uuid)) (t_jobs (tables d))) eqn:Ex; simpl.
  - pose proof Hh as (Hi & Ho & Hos). unfold dml_rc. rewrite bind_step, dml_healthy by done. change (j_id job) with (cbuf JOB_ID_LEN uuid).
    by rewrite Ex.
  - destruct (dml_rc_healthy (λ _ t, if existsb (job_is (cbuf JOB_ID_LEN uuid)) (t_jobs t) then None
      else Some (set_t_jobs (t_jobs t ++ [job_row job]) t, 1)) d (set_t_jobs (t_jobs (tables d) ++ [job_row job]) (tables d)) 1 Hh) as [E Hh'].
    { by rewrite Ex. }
    rewrite E. cbn [fst snd]. exists job. split_and!; try done.
    + destruct Hh' as (_ & Ho & Hos). unfold db_get_job. rewrite bind_step, query_healthy by done. cbn [fst snd rows_of].
      assert (tables (set_changes 1 (set_tables (set_t_jobs (t_jobs (tables d) ++ [job_row job]) (tables d)) d)) =
        set_t_jobs (t_jobs (tables d) ++ [job_row job]) (tables d)) as -> by (by destruct d).
      rewrite t_jobs_set. pose proof (head_where_last (cbuf JOB_ID_LEN uuid) (t_jobs (tables d)) (job_row job) Ex eq_refl) as Hhd.
      destruct (where_ _ _) as [|x xs]; simpl in Hhd; [done|]. injection Hhd as ->. simpl. f_equal. apply row_to_job_new.
    + destruct d as [? ? ? t ? ? ?]. by destruct t.
Qed.

Lemma created_job_reads_back_witness :
  let e := mkJEnv (test_db [row "a" "u" "x" JOB_STATUS_RUNNING 1] []) ring_init in
  let '(r, e') := job_create_ex "jobs" true "b" "ls" 5 2 0 100 0 "u" "x" e in
  healthy_db (je_db e) ∧ ∃ job, r = Some job ∧ (db_get_job "b" (je_db e')).1 = Some job.
Proof.
  pose proof (created_job_reads_back "jobs" true "b" "ls" 5 2 0 100 0 "u" "x"
    (mkJEnv (test_db [row "a" "u" "x" JOB_STATUS_RUNNING 1] []) ring_init) ltac:(done)) as (job & Hr & _ & _ & Hget & _).
  split; [done|]. exists job. split; [exact Hr|]. vm_compute in Hr. injection Hr as <-. exact Hget.
Defined.
