(* ===== verification/SysFixture.v ===== *)
(** A small concrete system that the witnesses of the executor and scheduler
    evaluate: two machines, a healthy database with given jobs and quotas, a
    queue, and an environment in which nothing fails. *)
From S2P Require Import Prelude Job Uuid Heap Queue Events Json Registry Sql Db DbAdmin Allocator AllocatorProps DbProps JobOps Cloud Transfer Config Shell System.

Definition easy_env : Env :=
  mkEnv config_defaults (λ _, None) (λ _, None) (λ _, None) (λ _, 0) (λ n, NoUrandom 0 (Z.of_nat n)) None
    (mkAllocEnv true true) true true true (λ _, true).

Definition queue_of (js : list Job) : Queue := mkQueue (foldl (heap_push job_before) [] js) 64 false.

(** The given rows, and a queue with the given jobs. *)
Definition small_system (rows : list Job) (quotas : list Quota) (queued : list Job) : Sys :=
  mkSys (mkAllocState test_registry no_ledger (test_db rows quotas)) ring_init (Some (queue_of queued))
    [] false [] 0 true [] [] ∅ 0 0 [].

