(* ===== verification/Executor.v ===== *)
(** The executor of src/core/executor.c (POSIX build): the list of active
    executions, launching and watching processes, termination requests, and
    the threads that run concurrently.  Each definition is an atomic section
    of the code; [thread_step] interleaves them. *)
From S2P Require Import Prelude Job Queue Events Json Registry Sql Db DbAdmin Allocator JobOps Cloud Transfer Config Shell System.

(** ** Active executions *)

Definition exec_is (id : nat) (x : Execution) : bool := (x_id x =? id)%nat.
Definition get_exec (id : nat) (s : Sys) : option Execution := head (where_ (exec_is id) (y_active s)).
Definition upd_exec (id : nat) (f : Execution → Execution) : ST Sys unit :=
  st_modify (λ s, set_y_active (update_where (exec_is id) f (y_active s)) s).

(** The job that an execution points to. *)
Definition exec_job (id : nat) : ST Sys Job := st_gets (λ s, default zero_job (x_job <$> get_exec id s)).
Definition upd_job (id : nat) (f : Job → Job) : ST Sys unit := upd_exec id (λ x, set_x_job (f (x_job x)) x).

Definition active_register (e : Env) (job : Job) : ST Sys (option nat) :=
  if negb (en_malloc_ok e) then mret None else
  shutting_down ← st_gets y_shutting_down;
  if (shutting_down : bool) then mret None else
  id ← st_gets y_next;
  st_modify (λ s, set_y_next (S id)
    (set_y_active (mkExec id job false JOB_STATUS_QUEUED "" 0 :: y_active s) s)) ;;
  mret (Some id).

Definition active_unregister (id : nat) : ST Sys unit :=
  st_modify (λ s, set_y_active (delete_where (exec_is id) (y_active s)) s).

(** The requested status and reason, if termination was requested. *)
Definition active_terminal_snapshot (id : nat) : ST Sys (option (JobStatus * string)) :=
  st_gets (λ s,
    match get_exec id s with
    | Some x => if x_termination_requested x then Some (x_terminal_status x, x_terminal_reason x) else None
    | None => None
    end).

(** [kill] of the process and its group. *)
Definition kill_process (pid : Z) : ST Sys unit := st_modify (λ s, set_y_killed (y_killed s ++ [pid]) s).

Definition active_set_process (id : nat) (pid : Z) : ST Sys unit :=
  upd_exec id (set_x_pid pid) ;;
  terminate_now ← active_terminal_snapshot id;
  match terminate_now with
  | Some _ => kill_process pid
  | None => mret tt
  end.

Definition active_clear_process (id : nat) : ST Sys unit := upd_exec id (set_x_pid 0).

(** [job_set_status_r] on the job of an execution. *)
Definition exec_set_status_r (e : Env) (id : nat) (st : JobStatus) (reason : string) : ST Sys Z :=
  job ← exec_job id;
  r ← sys_set_status_r e job st reason;
  upd_job id (λ _, r.2) ;; mret (r.1 : Z).

(** The fields set by the first request. *)
Definition request_termination (terminal_status : JobStatus) (reason : string) (x : Execution) : Execution :=
  if x_termination_requested x then x
  else mkExec (x_id x) (with_exit_code (-1) (x_job x)) true terminal_status (cbuf 256 reason) (x_pid x).

Definition active_request_termination (e : Env) (job_id : string) (terminal_status : JobStatus) (reason : string)
    : ST Sys Z :=
  found ← st_gets (λ s, head (where_ (λ x, String.eqb (j_id (x_job x)) job_id) (y_active s)));
  match found with
  | None => mret (-1)
  | Some x =>
      upd_exec (x_id x) (request_termination terminal_status reason) ;;
      (if negb (x_termination_requested x) && status_in [JOB_STATUS_QUEUED; JOB_STATUS_RUNNING] (x_job x)
       then exec_set_status_r e (x_id x) terminal_status (cbuf 256 reason) ;; mret tt
       else mret tt) ;;
      (if 0 <? x_pid x then kill_process (x_pid x) else mret tt) ;;
      mret 0
  end.

(** ** Finishing *)

Definition machine_busy (m : Machine) : bool :=
  (0 <? r_cores (m_reserved m)) || (0 <? r_ram_mb (m_reserved m))
  || (0 <? r_disk_mb (m_reserved m)) || (0 <? r_gpu (m_reserved m)).

Definition maybe_auto_deprovision (e : Env) (machine_id : string) : ST Sys unit :=
  if negb (cfg_flag e experimental_features_enabled) || negb (cfg_flag e cloud_auto_deprovision) then mret tt else
  if negb (str_nonempty machine_id) then mret tt else
  m ← st_gets (λ s, registry_get_copy machine_id (y_registry s));
  match m with
  | None => mret tt
  | Some m =>
      if negb (bool_decide (m_type m = MACHINE_TYPE_CLOUD)) || machine_busy m then mret tt else
      let detail := cbuf 256 ("Auto-deprovisioned " +:+ m_id m +:+ " (provider=" +:+ m_cloud_provider m
                              +:+ ", instance=" +:+ m_cloud_instance_id m +:+ ")") in
      rc ← sys_cloud_deprovision e (m_cloud_provider m) (m_cloud_instance_id m);
      if rc =? 0 then
        sys_events_push_persistent e "cloud" "auto_deprovision" detail "" ;;
        ydb (db_insert_event "cloud" "auto_deprovision" detail "" "" (m_id m)) ;; mret tt
      else mret tt
  end.

(** The last steps of an execution: its resources and its record. *)
Definition release_execution (e : Env) (id : nat) : ST Sys unit :=
  job ← exec_job id;
  on_alloc (alloc_release (j_id job)) ;;
  maybe_auto_deprovision e (j_machine_id job).

Definition finish_without_process (e : Env) (id : nat) (fallback_status : JobStatus) (fallback_reason : string) : ST Sys unit :=
  requested ← active_terminal_snapshot id;
  let '(status, reason) := default (fallback_status, cbuf 256 fallback_reason) requested in
  job ← exec_job id;
  (if negb (is_terminal (j_status job)) then
     upd_job id (with_exit_code (-1)) ;; exec_set_status_r e id status reason ;; mret tt
   else mret tt) ;;
  release_execution e id ;;
  active_unregister id.

(** ** Launching *)

(** What the system answers while a process is started: the words of a
    command ([wordexp] without command substitution), the new process or a
    failure ([fork]), [calloc] and the watcher's thread. *)
Record SpawnEnv := mkSpawnEnv { sp_wordexp : string → option (list string); sp_fork : option Z; sp_calloc_ok : bool; sp_thread_ok : bool }.

(** [WatchArg] without the pointers. *)
Record WatchArg := mkWatch {
  wa_exec : nat; wa_pid : Z; wa_is_remote : bool;
  wa_remote_host : string; wa_remote_output : string; wa_known_hosts_path : string
}.

(** [open] with [O_TRUNC]. *)
Definition open_log (e : Env) (path : string) : ST Sys unit :=
  if en_can_write e path then st_modify (λ s, set_y_files (<[path := ""]> (y_files s)) s) else mret tt.
Definition open_logs (e : Env) (child : Child) : ST Sys unit := open_log e (ch_stdout child) ;; open_log e (ch_stderr child).

(** From the words of the command on, common to local and remote: the logs
    are opened by the child, or by the parent before the fork.  [None] is -1. *)
Definition start_watcher (e : Env) (sp : SpawnEnv) (cmd : string) (logs_in_child : bool) (child : list string → Child)
    (mk : Z → WatchArg) : ST Sys (option WatchArg) :=
  match sp_wordexp sp cmd with
  | None => mret None
  | Some argv =>
      let child := child argv in
      (if logs_in_child then mret tt else open_logs e child) ;;
      match sp_fork sp with
      | None => mret None
      | Some pid =>
          (if logs_in_child then open_logs e child else mret tt) ;;
          st_modify (λ s, set_y_spawned (y_spawned s ++ [(pid, child)]) s) ;;
          if negb (sp_calloc_ok sp) then kill_process pid ;; mret None else
          let wa := mk pid in
          active_set_process (wa_exec wa) pid ;;
          if negb (sp_thread_ok sp) then
            kill_process pid ;; active_clear_process (wa_exec wa) ;; mret None
          else mret (Some wa)
      end
  end.

(** What the process of a job does, on this machine and for a remote one. *)
Definition local_env (job : Job) : list (string * string) :=
  [("ORCH_JOB_ID", j_id job); ("ORCH_INPUT_DIR", j_input_dir job); ("ORCH_OUTPUT_DIR", j_output_dir job);
   ("ORCH_WORKER_ID", j_machine_id job); ("ORCH_MACHINE_IDS", j_machine_id job); ("ORCH_MACHINE_COUNT", "1")].
Definition local_child (e : Env) (job : Job) : list string → Child :=
  let pre := cfg_str (en_cfg e) pre_job_script_linux in
  mkChild (store_stdout_path (en_work_dir e) (j_id job) 512) (store_stderr_path (en_work_dir e) (j_id job) 512)
    (local_env job) (if str_nonempty pre then Some pre else None).
Definition remote_child (e : Env) (job : Job) : list string → Child :=
  mkChild (store_stdout_path (en_work_dir e) (j_id job) 512) (store_stderr_path (en_work_dir e) (j_id job) 512) [] None.

(** The exit status of the child from [setenv] on: what the script returns,
    and what the program returns, [None] when it cannot be executed. *)
Definition child_status (pre_job : string → Z) (execvp : list string → option Z) (c : Child) : Z :=
  match ch_pre_job c with
  | Some script => if negb (pre_job script =? 0) then 126 else default 127 (execvp (ch_argv c))
  | None => default 127 (execvp (ch_argv c))
  end.

Definition double_quoted (t : string) : string := String DQ (t +:+ String DQ "").

(** [write_run_script], with the separator of the platform: the path on
    success. *)
Definition write_script (sep : string) (e : Env) (job : Job) (remote_input remote_output : string) : ST Sys (option string) :=
  let path := cbuf 512 (j_input_dir job +:+ sep +:+ ".run.sh") in
  if negb (en_can_write e path) then mret None else
  env_file ← st_gets (λ s, y_files s !! cbuf 768 (j_input_dir job +:+ sep +:+ ".app_env.json"));
  let env :=
    match env_file with
    | Some text => if (0 <? Z.of_nat (str_len text)) && (Z.of_nat (str_len text) <? 65536) then en_parse e text else None
    | None => None
    end in
  st_modify (λ s, set_y_files (<[path := run_script job remote_input remote_output env]> (y_files s)) s) ;;
  mret (Some path).

Definition write_run_script : Env → Job → string → string → ST Sys (option string) := write_script "/".

(** The names used for a remote job, and the command that runs it. *)
Definition known_hosts_path (e : Env) (job : Job) : string :=
  let temp := cfg_str (en_cfg e) temp_dir in
  cbuf 512 ((if str_nonempty temp then temp else "/tmp") +:+ "/orch-" +:+ j_id job +:+ ".kh").
Definition remote_base (e : Env) (job : Job) : string := cbuf 512 (cfg_str (en_cfg e) ssh_remote_work_dir +:+ "/" +:+ j_id job).
Definition remote_dir (e : Env) (job : Job) (name : string) : string :=
  cbuf 512 (cfg_str (en_cfg e) ssh_remote_work_dir +:+ "/" +:+ j_id job +:+ "/" +:+ name).
Definition ssh_opts (e : Env) (job : Job) : string := build_ssh_opts (en_cfg e) 512 (known_hosts_path e job).
Definition user_at (e : Env) (host : string) : string := cfg_str (en_cfg e) ssh_user +:+ "@" +:+ host.
Definition ssh_cmd (e : Env) (job : Job) (host : string) : string :=
  let shell := cfg_str (en_cfg e) ssh_shell in
  cbuf 1024 ("ssh " +:+ ssh_opts e job +:+ " " +:+ user_at e host +:+ " "
    +:+ double_quoted ((if str_nonempty shell then shell else "sh") +:+ " '" +:+ remote_base e job +:+ "/.run.sh'")).

Definition spawn_process (e : Env) (sp : SpawnEnv) (id : nat) : ST Sys (option WatchArg) :=
  job ← exec_job id;
  lh ← st_gets (λ s, machine_host (y_registry s) (j_machine_id job) 256);
  let '(local, host) := lh in
  if local || negb (str_nonempty (cfg_str (en_cfg e) ssh_user)) then
    start_watcher e sp (j_command job) true (local_child e job) (λ pid, mkWatch id pid false "" "" "")
  else
    let known_hosts := known_hosts_path e job in
    st_modify (λ s, if en_can_write e known_hosts
                    then set_y_files (<[known_hosts := default "" (y_files s !! known_hosts)]> (y_files s)) s else s) ;;
    let base := remote_base e job in
    let input := remote_dir e job "input" in
    let output := remote_dir e job "output" in
    rc ← run_system e (cbuf 1024 ("ssh " +:+ ssh_opts e job +:+ " " +:+ user_at e host +:+ " "
           +:+ double_quoted ("mkdir -p '" +:+ base +:+ "/input' '" +:+ base +:+ "/output'")));
    if negb (rc =? 0) then mret None else
    run_system e (cbuf 1024 ("scp " +:+ ssh_opts e job +:+ " -r '" +:+ j_input_dir job +:+ "/.' " +:+ user_at e host +:+ ":" +:+ input)) ;;
    script ← write_run_script e job input output;
    match script with
    | None => mret None
    | Some script =>
        rc ← run_system e (cbuf 1024 ("scp " +:+ ssh_opts e job +:+ " '" +:+ script +:+ "' " +:+ user_at e host +:+ ":" +:+ base +:+ "/.run.sh"));
        if negb (rc =? 0) then mret None else
        start_watcher e sp (ssh_cmd e job host) false (remote_child e job)
          (λ pid, mkWatch id pid true (cbuf 256 host) (cbuf 512 output) (cbuf 512 known_hosts))
    end.

(** The launcher around a platform's [spawn_process]: the watcher that now
    runs, if the process was started. *)
Definition launcher_with (spawn : nat → ST Sys (option WatchArg)) (e : Env) (id : nat) : ST Sys (option WatchArg) :=
  requested ← active_terminal_snapshot id;
  match requested with
  | Some _ => finish_without_process e id JOB_STATUS_CANCELLED "Cancelled before launch" ;; mret None
  | None =>
      wa ← spawn id;
      match wa with
      | Some wa => mret (Some wa)
      | None =>
          job ← exec_job id;
          let r := if str_nonempty (j_status_reason job) then j_status_reason job else "Failed to spawn process" in
          finish_without_process e id JOB_STATUS_FAILED r ;; mret None
      end
  end.
Definition launcher_thread (e : Env) (sp : SpawnEnv) : nat → ST Sys (option WatchArg) := launcher_with (spawn_process e sp) e.

(** ** Watching *)

(** The exit status after [waitpid]: [None] when a signal ended the process. *)
Definition exit_code_of (wstatus : option Z) : Z := default 1 wstatus.

(** Up to the termination snapshot, which is returned. *)
Definition watcher_collect (e : Env) (wa : WatchArg) (exit_code : Z) : ST Sys (option (JobStatus * string)) :=
  let id := wa_exec wa in
  active_clear_process id ;;
  requested ← active_terminal_snapshot id;
  job ← exec_job id;
  let str := cfg_str (en_cfg e) in
  (if wa_is_remote wa && str_nonempty (str ssh_user) && match requested with None => true | Some _ => false end then
     run_system e (cbuf 1024 ("scp " +:+ build_ssh_opts (en_cfg e) 512 (wa_known_hosts_path wa) +:+ " -r "
       +:+ str ssh_user +:+ "@" +:+ wa_remote_host wa +:+ ":" +:+ wa_remote_output wa +:+ "/. '" +:+ j_output_dir job +:+ "'"))
     ;; mret tt
   else mret tt) ;;
  terminated ← active_terminal_snapshot id;
  upd_job id (with_exit_code (match terminated with Some _ => -1 | None => exit_code end)) ;;
  mret terminated.

(** The status with which a process that ended by itself leaves. *)
Definition exit_outcome (wa : WatchArg) (exit_code : Z) : JobStatus * string :=
  if exit_code =? 0 then (JOB_STATUS_SUCCEEDED, "Completed successfully")
  else if wa_is_remote wa then
    (JOB_STATUS_FAILED, cbuf 280 ("Process exited with code " +:+ dec exit_code +:+ " on " +:+ wa_remote_host wa))
  else (JOB_STATUS_FAILED, cbuf 280 ("Process exited with code " +:+ dec exit_code)).

Definition watcher_complete (e : Env) (wa : WatchArg) (exit_code : Z) (terminated : option (JobStatus * string)) : ST Sys unit :=
  let id := wa_exec wa in
  job ← exec_job id;
  match terminated with
  | Some (status, reason) =>
      if negb (status_in [JOB_STATUS_CANCELLED; JOB_STATUS_FAILED] job)
      then exec_set_status_r e id status reason ;; mret tt else mret tt
  | None => let '(status, reason) := exit_outcome wa exit_code in exec_set_status_r e id status reason ;; mret tt
  end ;;
  sys_artifact_collect_job e (j_id job) ;;
  release_execution e id ;;
  (if str_nonempty (wa_known_hosts_path wa)
   then st_modify (λ s, set_y_files (delete (wa_known_hosts_path wa) (y_files s)) s) else mret tt) ;;
  active_unregister id.

Definition watcher_thread (e : Env) (wa : WatchArg) (wstatus : option Z) : ST Sys unit :=
  terminated ← watcher_collect e wa (exit_code_of wstatus);
  watcher_complete e wa (exit_code_of wstatus) terminated.

(** ** The public operations *)

(** Registration, or failure of the job when the executor refuses it. *)
Definition spawn_register (e : Env) (job : Job) : ST Sys (option nat) :=
  execution ← active_register e job;
  match execution with
  | None => sys_set_status_r e job JOB_STATUS_FAILED "Executor unavailable" ;; on_alloc (alloc_release (j_id job)) ;; mret None
  | Some id => mret (Some id)
  end.

(** Give the job back before it started. *)
Definition spawn_abandon (id : nat) : ST Sys Z :=
  job ← exec_job id;
  on_alloc (alloc_release (j_id job)) ;; active_unregister id ;; mret (-1).

(** From the recheck of the database to the status change, inclusive. *)
Definition spawn_claim (e : Env) (id : nat) : ST Sys Z :=
  job ← exec_job id;
  current ← ydb (db_get_job (j_id job));
  if negb (match current with Some c => status_is (j_status c) JOB_STATUS_QUEUED | None => false end) then spawn_abandon id else
  rc ← store_init_job_dirs (j_id job);
  if negb (rc =? 0) then
    exec_set_status_r e id JOB_STATUS_FAILED "Failed to initialize job storage" ;; spawn_abandon id
  else
    upd_job id (λ j, with_output_dir (store_output_dir (en_work_dir e) (j_id j) 512)
                       (with_input_dir (store_input_dir (en_work_dir e) (j_id j) 512) j)) ;;
    rc ← exec_set_status_r e id JOB_STATUS_RUNNING "";
    if negb (rc =? 0) then spawn_abandon id else mret 0.

(** The start time, its row, and the launcher thread. *)
Definition spawn_start (e : Env) (id : nat) : ST Sys Z :=
  now ← y_now;
  upd_job id (with_started_at now) ;;
  job ← exec_job id;
  rc ← ydb (db_update_job_started (j_id job) (j_machine_id job) (j_started_at job));
  if negb (rc =? 0) then finish_without_process e id JOB_STATUS_FAILED "Failed to persist job start" ;; mret (-1) else
  if negb (en_malloc_ok e) then finish_without_process e id JOB_STATUS_FAILED "Out of memory" ;; mret (-1) else
  if negb (en_thread_ok e) then finish_without_process e id JOB_STATUS_FAILED "Failed to create launcher thread" ;; mret (-1)
  else mret 0.

(** [executor_spawn] without interruption; the execution whose launcher now
    runs is returned with the result 0. *)
Definition executor_spawn (e : Env) (job : Job) : ST Sys (Z * option nat) :=
  execution ← spawn_register e job;
  match execution with
  | None => mret (-1, None)
  | Some id =>
      rc ← spawn_claim e id;
      if negb (rc =? 0) then mret (-1, None) else
      rc ← spawn_start e id;
      if negb (rc =? 0) then mret (-1, None) else mret (0, Some id)
  end.

Definition executor_cancel (e : Env) (job_id reason : string) : ST Sys Z :=
  active_request_termination e job_id JOB_STATUS_CANCELLED reason.
Definition executor_timeout (e : Env) (job_id reason : string) : ST Sys Z :=
  active_request_termination e job_id JOB_STATUS_FAILED reason.
Definition executor_terminate (e : Env) (job_id : string) : ST Sys bool :=
  rc ← active_request_termination e job_id JOB_STATUS_CANCELLED "Terminated"; mret (rc =? 0).

Definition executor_is_active (job_id : string) (s : Sys) : bool :=
  existsb (λ x, String.eqb (j_id (x_job x)) job_id) (y_active s).

(** The loop of [executor_shutdown] over the executions. *)
Definition shutdown_execution (e : Env) (x : Execution) : ST Sys unit :=
  upd_exec (x_id x) (request_termination JOB_STATUS_CANCELLED "Orchestrator shutting down") ;;
  (if negb (x_termination_requested x) && status_in [JOB_STATUS_QUEUED; JOB_STATUS_RUNNING] (x_job x)
   then exec_set_status_r e (x_id x) JOB_STATUS_CANCELLED "Orchestrator shutting down" ;; mret tt
   else mret tt) ;;
  if 0 <? x_pid x then kill_process (x_pid x) else mret tt.

(** Up to the wait, which ends in the states with no active execution. *)
Definition executor_shutdown (e : Env) : ST Sys unit :=
  st_modify (set_y_shutting_down true) ;;
  xs ← st_gets y_active;
  st_iter (shutdown_execution e) xs.

(** ** Threads *)

(** What a thread of the process runs next. *)
Inductive Thread :=
  | TRegister (job : Job)                             (* executor_spawn, from its start *)
  | TClaim (id : nat)
  | TStart (id : nat)
  | TLaunch (id : nat)                                (* launcher_thread *)
  | TWatch (wa : WatchArg)                            (* watcher_thread, in waitpid *)
  | TComplete (wa : WatchArg) (exit_code : Z) (terminated : option (JobStatus * string))
  | TCancel (job_id reason : string)
  | TTimeout (job_id reason : string).

(** What the environment decides during a step. *)
Record Choice := mkChoice { ch_spawn : SpawnEnv; ch_wstatus : option Z }.

(** Run the next atomic section of a thread: its continuation, if any. *)
Definition thread_run (e : Env) (c : Choice) (t : Thread) : ST Sys (list Thread) :=
  match t with
  | TRegister job => r ← spawn_register e job; mret (match r with Some id => [TClaim id] | None => [] end)
  | TClaim id => rc ← spawn_claim e id; mret (if (rc : Z) =? 0 then [TStart id] else [])
  | TStart id => rc ← spawn_start e id; mret (if (rc : Z) =? 0 then [TLaunch id] else [])
  | TLaunch id => r ← launcher_thread e (ch_spawn c) id; mret (match r with Some wa => [TWatch wa] | None => [] end)
  | TWatch wa =>
      let code := exit_code_of (ch_wstatus c) in
      t ← watcher_collect e wa code; mret [TComplete wa code t]
  | TComplete wa code t => watcher_complete e wa code t ;; mret []
  | TCancel job_id reason => executor_cancel e job_id reason ;; mret []
  | TTimeout job_id reason => executor_timeout e job_id reason ;; mret []
  end.

(** The process: its state and its threads; a step runs any one of them. *)
Record World := mkWorld { w_sys : Sys; w_threads : list Thread }.

Inductive thread_step (e : Env) : World → World → Prop :=
  | ThreadStep s ts1 t ts2 c s' ts' :
      thread_run e c t s = (ts', s') →
      thread_step e (mkWorld s (ts1 ++ t :: ts2)) (mkWorld s' (ts1 ++ ts' ++ ts2)).

(** The same as a schedule: which thread runs and what happens to it. *)
Definition run_one (e : Env) (w : World) (step : nat * Choice) : World :=
  match w_threads w !! step.1 with
  | None => w
  | Some t =>
      let '(ts', s') := thread_run e step.2 t (w_sys w) in
      mkWorld s' (take step.1 (w_threads w) ++ ts' ++ drop (S step.1) (w_threads w))
  end.
Definition run_schedule (e : Env) (w : World) (schedule : list (nat * Choice)) : World := foldl (run_one e) w schedule.

Lemma run_one_step e w step : run_one e w step = w ∨ thread_step e w (run_one e w step).
Proof.
  unfold run_one. destruct (w_threads w !! step.1) as [t|] eqn:E; [right|by left].
  destruct (thread_run e step.2 t (w_sys w)) as [ts' s'] eqn:Hrun. destruct w as [s ts]; simpl in *.
  rewrite <- (take_drop_middle ts step.1 t E) at 1. by eapply ThreadStep.
Qed.

Lemma run_schedule_rtc e w schedule : rtc (thread_step e) w (run_schedule e w schedule).
Proof.
  revert w. induction schedule as [|st sch IH]; intros w; simpl; [constructor|].
  destruct (run_one_step e w st) as [-> | H]; [apply IH|by eapply rtc_l].
Qed.
