(* ===== verification/ExecProps.v ===== *)
(** Properties of the executor's threads: how executions evolve under every
    interleaving, that no execution is leaked, what a cancellation does, and
    the race between a cancellation and the start of a job. *)
From S2P Require Import Prelude Job Queue Events Json Registry Sql Db DbAdmin DbInv Allocator JobOps Cloud Transfer Config Shell System Executor.

(** ** How one execution may change *)

Definition allowed (a b : JobStatus) : Prop := transition_allowed a b = true.

Definition evolves (x x' : Execution) : Prop :=
  x_id x' = x_id x ∧ j_id (x_job x') = j_id (x_job x) ∧
  rtc allowed (j_status (x_job x)) (j_status (x_job x')) ∧
  (x_termination_requested x = true →
     x_termination_requested x' = true ∧ x_terminal_status x' = x_terminal_status x ∧
     x_terminal_reason x' = x_terminal_reason x).

#[export] Instance evolves_preorder : PreOrder evolves.
Proof.
  split; [intros x; split_and!; auto; by constructor|].
  intros x y z (?&?&?&Hxy) (?&?&?&Hyz). split_and!; try congruence; [by etrans|].
  intros Hx. destruct (Hxy Hx) as (Hy & ? & ?). destruct (Hyz Hy) as (? & ? & ?). split_and!; congruence.
Qed.

(** A change of the job that keeps its identifier and status. *)
Lemma evolves_job f x :
  j_id (f (x_job x)) = j_id (x_job x) → j_status (f (x_job x)) = j_status (x_job x) → evolves x (set_x_job (f (x_job x)) x).
Proof. intros H1 H2. destruct x; simpl in *. split_and!; simpl; auto. rewrite H2. constructor. Qed.

Lemma evolves_pid pid x : evolves x (set_x_pid pid x).
Proof. destruct x. split_and!; simpl; auto. constructor. Qed.

Lemma evolves_request st r x : evolves x (request_termination st r x).
Proof.
  unfold request_termination. destruct (x_termination_requested x) eqn:E; [reflexivity|].
  destruct x as [? j ? ? ? ?]; simpl in *; subst. split_and!; simpl; try done; destruct j; [done|constructor].
Qed.

Lemma is_terminal_final a b : rtc allowed a b → is_terminal a = true → b = a.
Proof. intros H Ha. destruct H as [|a c b Hac _]; [done|]. unfold allowed in Hac. by rewrite transition_allowed_terminal in Hac. Qed.

(** ** Updates of the list *)

Lemma get_exec_id id s x : get_exec id s = Some x → x_id x = id.
Proof.
  unfold get_exec. intros H%head_Some_elem_of%where_elem. destruct H as [H _]. unfold exec_is in H. by apply Nat.eqb_eq in H.
Qed.

Lemma where_update_where (f : Execution → Execution) id id' l :
  (∀ x, x_id (f x) = x_id x) →
  where_ (exec_is id') (update_where (exec_is id) f l) =
  (if (id' =? id)%nat then f <$> where_ (exec_is id') l else where_ (exec_is id') l).
Proof.
  intros Hf. unfold where_, update_where. induction l as [|x l IH]; [by case_match|]. csimpl.
  rewrite !filter_cons. unfold exec_is in *.
  destruct (Nat.eqb_spec (x_id x) id) as [E|E].
  - rewrite Hf. destruct (Nat.eqb_spec id' id) as [->|Hne].
    + rewrite !decide_True by (by apply Nat.eqb_eq). csimpl. by rewrite IH.
    + rewrite !decide_False by (rewrite Nat.eqb_eq; congruence). done.
  - destruct (Nat.eqb_spec (x_id x) id') as [E'|E'].
    + rewrite !decide_True by done. rewrite IH. destruct (Nat.eqb_spec id' id); [congruence|done].
    + rewrite !decide_False by done. done.
Qed.

Lemma get_exec_upd f id id' s :
  (∀ x, x_id (f x) = x_id x) →
  get_exec id' (set_y_active (update_where (exec_is id) f (y_active s)) s) =
  (if (id' =? id)%nat then f <$> get_exec id' s else get_exec id' s).
Proof.
  intros Hf. unfold get_exec. destruct s; simpl. rewrite where_update_where by done.
  case_match; [|done]. by destruct (where_ (exec_is id') _).
Qed.

Lemma y_active_set v s : y_active (set_y_active v s) = v.
Proof. by destruct s. Qed.
Lemma y_next_set_active v s : y_next (set_y_active v s) = y_next s.
Proof. by destruct s. Qed.

(** ** The relations kept by every function but registration and removal *)

Class ExecRel (R : Sys → Sys → Prop) : Prop := {
  er_preorder :: PreOrder R;
  er_same s s' : y_active s' = y_active s → y_next s' = y_next s → R s s';
  er_upd s id f : (∀ x, x_id (f x) = x_id x) → (∀ x, get_exec id s = Some x → evolves x (f x)) →
    R s (set_y_active (update_where (exec_is id) f (y_active s)) s);
}.

(** Zooming functions touch no execution. *)
Lemma on_alloc_active {A} (m : ST (AllocState Registry) A) s :
  y_active (on_alloc m s).2 = y_active s ∧ y_next (on_alloc m s).2 = y_next s.
Proof. unfold on_alloc. destruct (m (y_alloc s)). by destruct s. Qed.
Lemma on_jenv_active {A} (m : ST JEnv A) s :
  y_active (on_jenv m s).2 = y_active s ∧ y_next (on_jenv m s).2 = y_next s.
Proof. unfold on_jenv. destruct (m _). by destruct s. Qed.
Lemma on_cloud_active {A} (m : ST CloudState A) s :
  y_active (on_cloud m s).2 = y_active s ∧ y_next (on_cloud m s).2 = y_next s.
Proof. unfold on_cloud. destruct (m _). by destruct s. Qed.

Lemma transition_changed job st r now :
  j_id (status_changed job st r now) = j_id job ∧ j_status (status_changed job st r now) = st.
Proof. unfold status_changed. destruct job. by destruct (is_terminal st). Qed.

Section kept.
Context (R : Sys → Sys → Prop) `{!ExecRel R}.

Lemma kept_same {A} (m : ST Sys A) :
  (∀ s, y_active (m s).2 = y_active s ∧ y_next (m s).2 = y_next s) → keeps R m.
Proof. intros H s a s' Hrun. specialize (H s). rewrite Hrun in H. destruct H. by apply er_same. Qed.

Lemma kept_on_alloc {A} (m : ST (AllocState Registry) A) : keeps R (on_alloc m).
Proof. apply kept_same, on_alloc_active. Qed.
Lemma kept_on_jenv {A} (m : ST JEnv A) : keeps R (on_jenv m).
Proof. apply kept_same, on_jenv_active. Qed.
Lemma kept_on_cloud {A} (m : ST CloudState A) : keeps R (on_cloud m).
Proof. apply kept_same, on_cloud_active. Qed.
Lemma kept_modify (f : Sys → Sys) :
  (∀ s, y_active (f s) = y_active s ∧ y_next (f s) = y_next s) → keeps R (st_modify f).
Proof. intros H. apply (kept_same (st_modify f) H). Qed.
Lemma kept_ret {A} (x : A) : keeps R (mret x).
Proof. apply keeps_ret, er_preorder. Qed.
Lemma kept_bind {A B} (m : ST Sys A) (f : A → ST Sys B) : keeps R m → (∀ a, keeps R (f a)) → keeps R (m ≫= f).
Proof. apply keeps_bind, er_preorder. Qed.
Lemma kept_gets {A} (f : Sys → A) : keeps R (st_gets f).
Proof. apply keeps_gets, er_preorder. Qed.

Lemma kept_upd_exec id f : (∀ x, x_id (f x) = x_id x) → (∀ x, evolves x (f x)) → keeps R (upd_exec id f).
Proof. intros H1 H2 s a s' [= <- <-]. apply er_upd; auto. Qed.

Lemma kept_upd_job id f :
  (∀ j, j_id (f j) = j_id j) → (∀ j, j_status (f j) = j_status j) → keeps R (upd_job id f).
Proof.
  intros H1 H2. apply kept_upd_exec; intros x; [by destruct x|]. by apply evolves_job.
Qed.

(** Replacing the job of an execution by what the status change returns. *)
Lemma kept_exec_set_status e id st r : keeps R (exec_set_status_r e id st r).
Proof.
  intros s a s' Hrun. unfold exec_set_status_r, exec_job in Hrun. rewrite bind_step in Hrun. cbn [fst snd st_gets] in Hrun.
  set (job := default zero_job _) in *. rewrite bind_step in Hrun.
  pose proof (on_jenv_active (job_set_status_r (en_print_object e) job st r) s) as [Ha Hn].
  assert (∃ rc, (sys_set_status_r e job st r s).1 = (rc, job) ∨
    transition_allowed (j_status job) st = true ∧ ∃ now, (sys_set_status_r e job st r s).1 = (rc, status_changed job st r now)) as [rc Hres].
  { unfold sys_set_status_r, on_jenv. pose proof (job_set_status_r_result (en_print_object e) job st r (mkJEnv (y_db s) (y_events s))) as E.
    destruct (job_set_status_r _ _ _ _ _) as [o je]; simpl in *. subst o.
    destruct (transition_allowed _ _); [exists 0; right; eauto|exists (-1); by left]. }
  unfold sys_set_status_r in *. destruct (on_jenv _ s) as [o s1] eqn:E1. cbn [fst snd] in *.
  unfold upd_job, upd_exec in Hrun. rewrite bind_step in Hrun. unfold mret, st_ret in Hrun. simplify_eq/=.
  transitivity s1; [by apply er_same|]. apply er_upd; [by intros []|].
  intros x Hx. assert (get_exec id s = Some x) as Hs by (unfold get_exec in *; by rewrite <- Ha).
  assert (job = x_job x) as Hjob by (subst job; by rewrite Hs).
  destruct Hres as [->|[Hal [now ->]]]; simpl; rewrite Hjob in *.
  - by apply (evolves_job (λ j, j)).
  - destruct (transition_changed (x_job x) st r now) as [H1 H2].
    destruct x; simpl in *. split_and!; simpl; auto. rewrite H2. by apply rtc_once.
Qed.
End kept.

Create HintDb execs.
#[export] Hint Resolve kept_on_alloc kept_on_jenv kept_on_cloud kept_exec_set_status : execs.
#[export] Hint Resolve kept_ret kept_gets evolves_pid evolves_request : execs.

(** Walk through a function that neither registers nor removes executions. *)
Ltac kept_step :=
  match goal with
  | |- keeps ?R (mbind _ _) => refine (kept_bind R _ _ _ _); [|intros ?]
  | |- keeps _ (let '(_, _) := ?x in _) => destruct x
  | |- keeps _ (match ?x with _ => _ end) => destruct x eqn:?
  | |- keeps ?R (upd_job _ _) => refine (kept_upd_job R _ _ _ _); by intros []
  | |- keeps ?R (upd_exec _ _) => refine (kept_upd_exec R _ _ _ _); [|by eauto with execs]
  | |- keeps ?R (st_modify _) => refine (kept_modify R _ _); intros []; repeat case_match; done
  | |- _ => solve [eauto with execs]
  end.
Ltac kept := repeat kept_step.

Lemma request_termination_id st r x : x_id (request_termination st r x) = x_id x.
Proof. unfold request_termination. by case_match. Qed.

Section kept_functions.
Context (R : Sys → Sys → Prop) {HR : ExecRel R} (e : Env).

Lemma kept_exec_job id : keeps R (exec_job id).
Proof. by apply kept_gets. Qed.
Lemma kept_snapshot id : keeps R (active_terminal_snapshot id).
Proof. by apply kept_gets. Qed.
Lemma kept_y_now : keeps R y_now.
Proof. by apply kept_gets. Qed.
Lemma kept_ydb {A} (m : ST Db A) : keeps R (ydb m).
Proof. by apply kept_on_alloc. Qed.
Lemma kept_kill pid : keeps R (kill_process pid).
Proof. unfold kill_process. kept. Qed.
Lemma kept_run_system cmd : keeps R (run_system e cmd).
Proof. apply kept_same; [done|]. by intros []. Qed.
Lemma kept_set_status_r job st r : keeps R (sys_set_status_r e job st r).
Proof. by apply kept_on_jenv. Qed.
Lemma kept_events_push a b c d : keeps R (sys_events_push_persistent e a b c d).
Proof. by apply kept_on_jenv. Qed.
Lemma kept_deprovision p i : keeps R (sys_cloud_deprovision e p i).
Proof. by apply kept_on_cloud. Qed.
Lemma kept_init_dirs id : keeps R (store_init_job_dirs id).
Proof. by apply kept_ret. Qed.
Lemma kept_collect job_id : keeps R (sys_artifact_collect_job e job_id).
Proof. unfold sys_artifact_collect_job, ydb. kept. Qed.
#[local] Hint Resolve kept_exec_job kept_snapshot kept_y_now kept_ydb kept_kill kept_run_system kept_set_status_r
  kept_events_push kept_deprovision kept_init_dirs kept_collect : execs.

Lemma kept_clear_process id : keeps R (active_clear_process id).
Proof. unfold active_clear_process. kept. by intros []. Qed.
Lemma kept_set_process id pid : keeps R (active_set_process id pid).
Proof. unfold active_set_process. kept. by intros []. Qed.
#[local] Hint Resolve kept_clear_process kept_set_process : execs.

Lemma kept_request_termination job_id st r : keeps R (active_request_termination e job_id st r).
Proof. unfold active_request_termination. kept. apply request_termination_id. Qed.
Lemma kept_deprovision_idle machine_id : keeps R (maybe_auto_deprovision e machine_id).
Proof. unfold maybe_auto_deprovision. kept. Qed.
#[local] Hint Resolve kept_request_termination kept_deprovision_idle : execs.

Lemma kept_release_execution id : keeps R (release_execution e id).
Proof. unfold release_execution. kept. Qed.
Lemma kept_open_logs child : keeps R (open_logs e child).
Proof. unfold open_logs, open_log. kept. Qed.
#[local] Hint Resolve kept_open_logs : execs.
Lemma kept_start_watcher sp cmd b child mk : keeps R (start_watcher e sp cmd b child mk).
Proof. unfold start_watcher. kept. Qed.
Lemma kept_write_run_script job i o : keeps R (write_run_script e job i o).
Proof. unfold write_run_script, write_script. kept. Qed.
#[local] Hint Resolve kept_release_execution kept_start_watcher kept_write_run_script : execs.

Lemma kept_spawn_process sp id : keeps R (spawn_process e sp id).
Proof. unfold spawn_process. kept. Qed.
Lemma kept_watcher_collect wa code : keeps R (watcher_collect e wa code).
Proof. unfold watcher_collect. kept. Qed.
Lemma kept_shutdown_execution x : keeps R (shutdown_execution e x).
Proof. unfold shutdown_execution. kept. apply request_termination_id. Qed.
End kept_functions.

#[export] Hint Resolve kept_exec_job kept_snapshot kept_y_now kept_ydb kept_kill kept_run_system kept_set_status_r
  kept_events_push kept_deprovision kept_init_dirs kept_collect kept_clear_process kept_set_process
  kept_request_termination kept_deprovision_idle kept_release_execution kept_start_watcher kept_write_run_script
  kept_spawn_process kept_watcher_collect kept_shutdown_execution : execs.

(** ** Histories of executions *)

(** Every execution active afterwards is new or evolved from what it was. *)
Definition exec_history (s s' : Sys) : Prop :=
  (y_next s ≤ y_next s')%nat ∧
  ∀ id x', get_exec id s' = Some x' → (y_next s ≤ id)%nat ∨ ∃ x, get_exec id s = Some x ∧ evolves x x'.

#[export] Instance exec_history_preorder : PreOrder exec_history.
Proof.
  split.
  - intros s. split; [done|]. intros id x Hx. right. by exists x.
  - intros s1 s2 s3 [Hn1 H12] [Hn2 H23]. split; [lia|]. intros id x3 H3.
    destruct (H23 _ _ H3) as [?|(x2 & H2 & He)]; [left; lia|].
    destruct (H12 _ _ H2) as [?|(x1 & H1 & He')]; [by left|right]. exists x1. split; [done|by etrans].
Qed.

#[export] Instance exec_history_rel : ExecRel exec_history.
Proof.
  split; [apply _| |].
  - intros s s' Ha Hn. split; [lia|]. intros id x Hx. right. exists x. unfold get_exec in *. by rewrite <- Ha.
  - intros s id f Hf He. split; [by rewrite y_next_set_active|]. intros id' x'. rewrite get_exec_upd by done.
    destruct (Nat.eqb_spec id' id) as [->|_]; [|intros Hx; right; by exists x'].
    intros (x & Hx & ->)%fmap_Some. right. exists x. auto.
Qed.

(** The identifiers of the active executions, and the next one. *)
Definition active_ids (s : Sys) : list nat := x_id <$> y_active s.
Definition same_ids (s s' : Sys) : Prop := active_ids s' = active_ids s ∧ y_next s' = y_next s.

#[export] Instance same_ids_preorder : PreOrder same_ids.
Proof. split; [done|]. intros s1 s2 s3 [] []. split; congruence. Qed.

#[export] Instance same_ids_rel : ExecRel same_ids.
Proof.
  split; [apply _| |].
  - intros s s' Ha Hn. split; [|done]. unfold active_ids. by rewrite Ha.
  - intros s id f Hf _. split; [|by rewrite y_next_set_active]. unfold active_ids. rewrite y_active_set.
    by apply update_where_fmap.
Qed.

#[export] Hint Resolve exec_history_rel same_ids_rel : execs.

Lemma get_exec_unregister id id' s :
  get_exec id' (active_unregister id s).2 = if (id' =? id)%nat then None else get_exec id' s.
Proof.
  unfold get_exec. destruct s as [? ? ? l]; simpl. clear. unfold delete_where, where_, exec_is.
  induction l as [|x l IH]; [by case_match|]. rewrite !filter_cons.
  destruct (Nat.eqb_spec (x_id x) id) as [E|E]; simpl.
  - rewrite IH. destruct (Nat.eqb_spec id' id); [done|]. rewrite (decide_False (P := (x_id x =? id')%nat = true)); [done|].
    rewrite Nat.eqb_eq. congruence.
  - rewrite filter_cons. destruct (Nat.eqb_spec (x_id x) id'); simpl; [|done].
    destruct (Nat.eqb_spec id' id); [congruence|done].
Qed.

Lemma history_unregister id : keeps exec_history (active_unregister id).
Proof.
  intros s a s' Hrun. assert (s' = (active_unregister id s).2) as -> by (by rewrite Hrun).
  split; [by destruct s|]. intros id' x'. rewrite get_exec_unregister. case_match; [done|]. intros Hx. right. by exists x'.
Qed.

Lemma history_register e job : keeps exec_history (active_register e job).
Proof.
  intros s a s'. unfold active_register. destruct (en_malloc_ok e); cbn [negb]; [|by intros [= <- <-]].
  rewrite bind_step. cbn [fst snd st_gets]. destruct (y_shutting_down s); [by intros [= <- <-]|].
  rewrite bind_step. cbn [fst snd st_gets]. rewrite bind_step. intros [= <- <-]. destruct s; simpl.
  split; simpl; [lia|]. intros id x'. unfold get_exec; simpl. unfold where_. rewrite filter_cons. simpl.
  unfold exec_is at 1. simpl. case_decide as Hd; [left; apply Nat.eqb_eq in Hd; simpl in *; lia|].
  intros Hx. right. by exists x'.
Qed.
#[export] Hint Resolve history_unregister history_register : execs.

Section histories.
Context (e : Env).
Notation R := exec_history.

Lemma history_finish id st r : keeps R (finish_without_process e id st r).
Proof. unfold finish_without_process. kept. Qed.
Lemma history_abandon id : keeps R (spawn_abandon id).
Proof. unfold spawn_abandon. kept. Qed.
#[local] Hint Resolve history_finish history_abandon : execs.
Lemma history_spawn_register job : keeps R (spawn_register e job).
Proof. unfold spawn_register. kept. Qed.
Lemma history_claim id : keeps R (spawn_claim e id).
Proof. unfold spawn_claim. kept. Qed.
Lemma history_start id : keeps R (spawn_start e id).
Proof. unfold spawn_start. kept. Qed.
Lemma history_launcher sp id : keeps R (launcher_thread e sp id).
Proof. unfold launcher_thread, launcher_with. kept. Qed.
Lemma history_complete wa code t : keeps R (watcher_complete e wa code t).
Proof. unfold watcher_complete. kept. Qed.
#[local] Hint Resolve history_spawn_register history_claim history_start history_launcher history_complete : execs.

Lemma history_thread c t : keeps R (thread_run e c t).
Proof. destruct t; simpl; unfold executor_cancel, executor_timeout; kept. Qed.
End histories.

(** ** No execution is leaked *)

(** The execution that a thread works on. *)
Definition thread_exec (t : Thread) : list nat :=
  match t with
  | TClaim id | TStart id | TLaunch id => [id]
  | TWatch wa | TComplete wa _ _ => [wa_exec wa]
  | TRegister _ | TCancel _ _ | TTimeout _ _ => []
  end.

(** Every active execution is in the hands of exactly one thread. *)
Definition attended (w : World) : Prop :=
  active_ids (w_sys w) ≡ₚ w_threads w ≫= thread_exec ∧ NoDup (active_ids (w_sys w)) ∧
  Forall (λ id, (id < y_next (w_sys w))%nat) (active_ids (w_sys w)).

(** Running a section that neither registers nor removes, then a removal. *)
Definition drops (id : nat) (s s' : Sys) : Prop :=
  active_ids s' = filter (λ i, i ≠ id) (active_ids s) ∧ y_next s' = y_next s.

Lemma unregister_drops id s : drops id s (active_unregister id s).2.
Proof.
  destruct s as [? ? ? l]; split; simpl; [|done]. unfold active_ids; simpl. clear. unfold delete_where, where_, exec_is.
  induction l as [|x l IH]; [done|]. csimpl. rewrite !filter_cons. csimpl.
  destruct (Nat.eqb_spec (x_id x) id) as [E|E]; simpl.
  - rewrite decide_False by auto. exact IH.
  - rewrite decide_True by done. csimpl. f_equal. exact IH.
Qed.

(** Either the execution is dropped, or nothing was. *)
Definition drops_if {A} (gone : A → bool) (id : nat) (m : ST Sys A) : Prop :=
  ∀ s a s', m s = (a, s') → if gone a then drops id s s' else same_ids s s'.

Lemma drops_if_bind {A B} gone id (m : ST Sys A) (f : A → ST Sys B) :
  keeps same_ids m → (∀ a, drops_if gone id (f a)) → drops_if gone id (m ≫= f).
Proof.
  intros Hm Hf s b s' Hrun. rewrite bind_step in Hrun. destruct (m s) as [a s1] eqn:E. apply Hm in E as [H1 H2].
  apply Hf in Hrun. case_match; destruct Hrun; split; simpl in *; congruence.
Qed.

Lemma drops_if_seq {A B} (gone : A → bool) id (m : ST Sys B) (k : ST Sys A) :
  drops_if (λ _, true) id m → keeps same_ids k → (∀ s, gone (k s).1 = true) → drops_if gone id (m ;; k).
Proof.
  intros Hm Hk Hg s a s' Hrun. rewrite bind_step in Hrun. destruct (m s) as [b s1] eqn:E. apply Hm in E as [H1 H2].
  specialize (Hg s1). simpl in Hrun. rewrite Hrun in Hg. simpl in Hg. rewrite Hg. apply Hk in Hrun as [H3 H4].
  split; congruence.
Qed.

Lemma drops_if_unregister id : drops_if (λ _, true) id (active_unregister id).
Proof. intros s a s' Hrun. pose proof (unregister_drops id s) as H. by rewrite Hrun in H. Qed.

Lemma drops_if_same {A} (gone : A → bool) id (m : ST Sys A) :
  keeps same_ids m → (∀ s, gone (m s).1 = false) → drops_if gone id m.
Proof. intros Hm Hg s a s' Hrun. specialize (Hg s). rewrite Hrun in Hg. simpl in Hg. rewrite Hg. by eapply Hm. Qed.

(** Follow a function to its removal or its normal end. *)
Ltac drop_step :=
  match goal with
  | |- drops_if _ ?id (active_unregister ?id) => apply drops_if_unregister
  | |- drops_if _ _ (mret _) => apply drops_if_same; [by apply kept_ret; eauto with execs|done]
  | |- drops_if _ _ (mbind _ _) => apply drops_if_bind; [solve [kept]|intros ?]
  | |- drops_if _ _ (mbind _ _) => apply drops_if_seq; [|by apply kept_ret; eauto with execs|done]
  | |- drops_if _ _ (let '(_, _) := ?x in _) => destruct x
  | |- drops_if _ _ (match ?x with _ => _ end) => destruct x eqn:?
  | |- _ => solve [eauto with execs]
  end.
Ltac drop := repeat drop_step.

(** A failure code means that the execution is gone. *)
Definition failed (rc : Z) : bool := negb (rc =? 0).

Section drops.
Context (e : Env).

Lemma drops_finish id st r : drops_if (λ _, true) id (finish_without_process e id st r).
Proof. unfold finish_without_process. drop. Qed.
Lemma drops_abandon id : drops_if failed id (spawn_abandon id).
Proof. unfold spawn_abandon. drop. Qed.
#[local] Hint Resolve drops_finish drops_abandon : execs.
Lemma drops_claim id : drops_if failed id (spawn_claim e id).
Proof. unfold spawn_claim. drop. Qed.
Lemma drops_start id : drops_if failed id (spawn_start e id).
Proof. unfold spawn_start. drop. Qed.
Lemma drops_launcher sp id : drops_if is_none id (launcher_thread e sp id).
Proof. unfold launcher_thread, launcher_with. drop. Qed.
Lemma drops_complete wa code t : drops_if (λ _, true) (wa_exec wa) (watcher_complete e wa code t).
Proof. unfold watcher_complete. drop. Qed.
End drops.

(** What a function can return. *)
Definition returns {A} (P : A → Prop) (m : ST Sys A) : Prop := ∀ s, P (m s).1.

Lemma returns_bind {A B} (P : B → Prop) (m : ST Sys A) (f : A → ST Sys B) : (∀ a, returns P (f a)) → returns P (m ≫= f).
Proof. intros Hf s. rewrite bind_step. apply Hf. Qed.

Lemma returns_bind_with {A B} (Q : A → Prop) (P : B → Prop) (m : ST Sys A) (f : A → ST Sys B) :
  returns Q m → (∀ a, Q a → returns P (f a)) → returns P (m ≫= f).
Proof. intros Hm Hf s. rewrite bind_step. apply Hf, Hm. Qed.

Ltac yield :=
  repeat match goal with
  | |- returns _ (mret _) => intros ?; simpl; done
  | |- returns _ (mbind _ _) => apply returns_bind; intros ?
  | |- returns _ (let '(_, _) := ?x in _) => destruct x
  | |- returns _ (match ?x with _ => _ end) => destruct x eqn:?
  | |- _ => solve [eauto with execs]
  end.

(** The watcher works on the execution that was launched. *)
Definition watches (id : nat) (wa : option WatchArg) : Prop := match wa with Some wa => wa_exec wa = id | None => True end.

Lemma start_watcher_exec e sp cmd b child mk id : (∀ pid, wa_exec (mk pid) = id) → returns (watches id) (start_watcher e sp cmd b child mk).
Proof. intros Hmk. unfold start_watcher. yield. Qed.
#[export] Hint Resolve start_watcher_exec : execs.

Lemma spawn_process_exec e sp id : returns (watches id) (spawn_process e sp id).
Proof. unfold spawn_process. yield. Qed.

Lemma launcher_exec e sp id : returns (watches id) (launcher_thread e sp id).
Proof.
  unfold launcher_thread, launcher_with. apply returns_bind. intros r. destruct r; [yield|].
  apply (returns_bind_with (watches id)); [apply spawn_process_exec|]. intros wa Hwa. destruct wa; [by intros s|yield].
Qed.

(** ** The invariant *)

Lemma attended_same t s ts1 ts2 s' ts' :
  same_ids s s' → (ts' ≫= thread_exec) = thread_exec t →
  attended (mkWorld s (ts1 ++ t :: ts2)) → attended (mkWorld s' (ts1 ++ ts' ++ ts2)).
Proof.
  intros [Hi Hn] Ht (Hp & Hnd & Hlt). unfold attended in *. simpl in *. rewrite Hi, Hn. split_and!; try done.
  rewrite Hp. rewrite !bind_app, bind_cons, Ht. done.
Qed.

Lemma filter_ne_perm (id : nat) (l k : list nat) :
  NoDup l → l ≡ₚ id :: k → filter (λ i, i ≠ id) l ≡ₚ k.
Proof.
  intros Hnd Hp. rewrite Hp in Hnd |- *. apply NoDup_cons in Hnd as [Hid _].
  rewrite filter_cons, decide_False by auto. clear Hp. induction k as [|x k IH]; [done|].
  rewrite filter_cons, decide_True by set_solver. rewrite IH by set_solver. done.
Qed.

Lemma attended_drop id t s ts1 ts2 s' :
  drops id s s' → thread_exec t = [id] →
  attended (mkWorld s (ts1 ++ t :: ts2)) → attended (mkWorld s' (ts1 ++ ts2)).
Proof.
  intros [Hi Hn] Ht (Hp & Hnd & Hlt). unfold attended in *. simpl in *. rewrite Hi, Hn.
  rewrite !bind_app, bind_cons, Ht in Hp. split_and!.
  - rewrite bind_app. apply filter_ne_perm; [done|]. rewrite Hp. simpl. by rewrite <- Permutation_middle.
  - by apply NoDup_filter.
  - rewrite Forall_forall in *. intros i Hi'%list_elem_of_filter. apply Hlt, Hi'.
Qed.

Lemma register_ids e job s r s' :
  active_register e job s = (r, s') →
  match r with
  | Some id => id = y_next s ∧ active_ids s' = id :: active_ids s ∧ y_next s' = Datatypes.S id
  | None => same_ids s s'
  end.
Proof.
  unfold active_register. destruct (en_malloc_ok e); cbn [negb]; [|by intros [= <- <-]].
  rewrite bind_step. cbn [fst snd st_gets]. destruct (y_shutting_down s); [by intros [= <- <-]|].
  rewrite bind_step. cbn [fst snd st_gets]. rewrite bind_step. intros [= <- <-]. by destruct s.
Qed.

(** A section of a thread that works on execution [id], whose continuation
    is empty when the execution is gone and one thread on it otherwise. *)
Lemma attended_section t id s ts1 ts2 s' ts' (gone : bool) :
  thread_exec t = [id] →
  (if gone then ts' = [] ∧ drops id s s' else (ts' ≫= thread_exec) = [id] ∧ same_ids s s') →
  attended (mkWorld s (ts1 ++ t :: ts2)) → attended (mkWorld s' (ts1 ++ ts' ++ ts2)).
Proof.
  intros Ht H Hw. destruct gone.
  - destruct H as [-> Hd]. by eapply attended_drop.
  - destruct H as [H1 H2]. eapply (attended_same t s); try done. by rewrite Ht.
Qed.

Lemma attended_step e w w' : thread_step e w w' → attended w → attended w'.
Proof.
  intros [s ts1 t ts2 c s' ts' Hrun] Hw. destruct t as [job|id|id|id|wa|wa code t|job_id r|job_id r]; simpl in Hrun.
  - rewrite bind_step in Hrun. unfold spawn_register in Hrun. rewrite bind_step in Hrun.
    destruct (active_register e job s) as [r s1] eqn:E. apply register_ids in E. destruct r as [id|]; simpl in Hrun.
    + unfold mret, st_ret in Hrun. simplify_eq. destruct E as (-> & Hi & Hn), Hw as (Hp & Hnd & Hlt).
      unfold attended in *. simpl in *. rewrite Hi, Hn. split_and!.
      * rewrite !bind_app, bind_cons in *. simpl in *. rewrite Hp. by rewrite <- Permutation_middle.
      * apply NoDup_cons. split; [|done]. intros Hin. rewrite Forall_forall in Hlt. specialize (Hlt _ Hin). lia.
      * constructor; [lia|]. eapply Forall_impl; [done|]. simpl. lia.
    + destruct ((sys_set_status_r e job JOB_STATUS_FAILED "Executor unavailable"
        ;; on_alloc (alloc_release (j_id job)) ;; mret (None : option nat)) s1) as [r2 s2] eqn:E2. cbn [fst snd] in Hrun.
      assert (keeps same_ids (sys_set_status_r e job JOB_STATUS_FAILED "Executor unavailable"
        ;; on_alloc (alloc_release (j_id job)) ;; mret (None : option nat))) as Hk by kept.
      assert (r2 = None) as -> by (rewrite !bind_step in E2; by injection E2).
      apply Hk in E2. unfold mret, st_ret in Hrun. simplify_eq. eapply (attended_same (TRegister job) s); [by etrans|done|done].
  - rewrite bind_step in Hrun. destruct (spawn_claim e id s) as [rc s1] eqn:E. apply drops_claim in E. unfold failed in E.
    simpl in Hrun. unfold mret, st_ret in Hrun. simplify_eq.
    eapply (attended_section (TClaim id) id s ts1 ts2 s' _ (negb (rc =? 0))); try done. by destruct (rc =? 0).
  - rewrite bind_step in Hrun. destruct (spawn_start e id s) as [rc s1] eqn:E. apply drops_start in E. unfold failed in E.
    simpl in Hrun. unfold mret, st_ret in Hrun. simplify_eq.
    eapply (attended_section (TStart id) id s ts1 ts2 s' _ (negb (rc =? 0))); try done. by destruct (rc =? 0).
  - rewrite bind_step in Hrun. pose proof (launcher_exec e (ch_spawn c) id s) as Hx.
    destruct (launcher_thread e (ch_spawn c) id s) as [wa s1] eqn:E. apply drops_launcher in E.
    simpl in Hrun, Hx. unfold mret, st_ret in Hrun. simplify_eq.
    eapply (attended_section (TLaunch id) id s ts1 ts2 s' _ (is_none wa)); try done. destruct wa; simpl in *; by rewrite ?Hx.
  - rewrite bind_step in Hrun. destruct (watcher_collect _ _ _ s) as [t s1] eqn:E.
    apply (kept_watcher_collect same_ids) in E. simpl in Hrun. unfold mret, st_ret in Hrun. simplify_eq.
    by eapply (attended_same (TWatch wa) s).
  - rewrite bind_step in Hrun. destruct (watcher_complete e wa code t s) as [u s1] eqn:E. apply drops_complete in E.
    simpl in Hrun. unfold mret, st_ret in Hrun. simplify_eq.
    by eapply (attended_section (TComplete wa code t) (wa_exec wa) s ts1 ts2 s' _ true).
  - assert (keeps same_ids (executor_cancel e job_id r ;; mret ([] : list Thread))) as Hk by (unfold executor_cancel; kept).
    pose proof (Hk _ _ _ Hrun). rewrite bind_step in Hrun. unfold mret, st_ret in Hrun. simplify_eq. by eapply (attended_same (TCancel job_id r) s).
  - assert (keeps same_ids (executor_timeout e job_id r ;; mret ([] : list Thread))) as Hk by (unfold executor_timeout; kept).
    pose proof (Hk _ _ _ Hrun). rewrite bind_step in Hrun. unfold mret, st_ret in Hrun. simplify_eq. by eapply (attended_same (TTimeout job_id r) s).
Qed.
