(* ===== verification/ExecutorWin.v ===== *)
(** The Windows build of src/core/executor.c: how it starts and watches a
    process.  The rest of the executor is common; [x_pid] stands for the
    handle of a process, and terminating it is recorded as [kill_process]. *)
From S2P Require Import Prelude Job Queue Events Json Registry Sql Db DbAdmin DbInv Allocator JobOps Cloud Transfer Config Shell System SysFixture Executor ExecProps.

(** What the system answers to a launch: the environment of the service, one
    string for each variable, or none; [malloc], [calloc] and [CreateThread];
    the exit status of a command line that is waited for, [None] when it
    cannot be started; the process of a command line; the path that
    [GetTempPathA] stores, if any; and what stands behind a buffer that
    [_snprintf] filled without a terminator. *)
Record WinEnv := mkWinEnv {
  wn_parent_env : option (list string);
  wn_malloc_ok : bool; wn_calloc_ok : bool; wn_thread_ok : bool;
  wn_run : string → option Z;
  wn_create : string → option Z;
  wn_temp_path : option string;
  wn_last_error : Z;
  wn_behind : string
}.

(** The text read from a buffer of [n] bytes after [_snprintf], which writes
    no terminator when the text does not fit. *)
Definition crt_text (behind : string) (n : nat) (s : string) : string := if (str_len s <? n)%nat then s else str_take n s +:+ behind.
Definition crt_buf (wn : WinEnv) : nat → string → string := crt_text (wn_behind wn).

(** ** The environment block *)

Definition NUL : ascii := "000".

(** [parent_sz] and what is copied: each string with its terminator. *)
Definition parent_block (env : option (list string)) : string := String.concat "" ((λ s, s +:+ String NUL "") <$> default [] env).

(** The variables in the order of the code, and the size reserved for them. *)
Definition job_env : Job → list (string * string) := local_env.
Definition extra_sz (job : Job) : nat :=
  sum_list (map (λ kv, str_len kv.1 + 1 + str_len kv.2 + 1)%nat (job_env job)) + 2.

(** [ADD_ENV]: [_snprintf] to the position, limited by the whole of the extra
    size, and the position behind the terminator if the text was written. *)
Definition add_env (extra : nat) (block : string) (kv : string * string) : string :=
  let text := kv.1 +:+ "=" +:+ kv.2 in
  if (str_len text <? extra)%nat then block +:+ text +:+ String NUL "" else block.

Definition env_block (env : option (list string)) (job : Job) : string :=
  foldl (add_env (extra_sz job)) (parent_block env) (job_env job) +:+ String NUL "".

(** ** Launching *)

(** [run_sync_win], [run_sync_win_log]: -1 when it cannot be started. *)
Definition run_sync_win (wn : WinEnv) (cmd : string) : ST Sys Z :=
  st_modify (λ s, set_y_commands (y_commands s ++ [cmd]) s) ;; mret (default (-1) (wn_run wn cmd)).

Definition win_path (e : Env) (job : Job) (name : string) : string := cbuf 512 (en_work_dir e +:+ "\" +:+ j_id job +:+ "\" +:+ name).
Definition win_child (e : Env) (job : Job) (env : list (string * string)) (cmd : string) : Child :=
  mkChild (win_path e job "stdout.log") (win_path e job "stderr.log") env None [cmd].

(** From CreateProcess to the watcher: the process, [calloc], the thread. *)
Definition win_start_watcher (wn : WinEnv) (cmd : string) (child : string → Child) (mk : Z → WatchArg) (failed : ST Sys unit)
    : ST Sys (option WatchArg) :=
  match wn_create wn cmd with
  | None => failed ;; mret None
  | Some handle =>
      st_modify (λ s, set_y_spawned (y_spawned s ++ [(handle, child cmd)]) s) ;;
      if negb (wn_calloc_ok wn) then kill_process handle ;; mret None else
      let wa := mk handle in
      active_set_process (wa_exec wa) handle ;;
      if negb (wn_thread_ok wn) then kill_process handle ;; active_clear_process (wa_exec wa) ;; mret None
      else mret (Some wa)
  end.

(** The script that runs before a local job: whether the launch goes on. *)
Definition pre_job (e : Env) (wn : WinEnv) : ST Sys bool :=
  let script := cfg_str (en_cfg e) pre_job_script_win in
  if str_nonempty script then
    let cmd := crt_buf wn 522 ("cmd /c " +:+ double_quoted script) in
    st_modify (λ s, set_y_commands (y_commands s ++ [cmd]) s) ;;
    mret (match wn_run wn cmd with Some code => code =? 0 | None => true end)
  else mret true.

Definition spawn_local (e : Env) (wn : WinEnv) (id : nat) (job : Job) : ST Sys (option WatchArg) :=
  if negb (wn_malloc_ok wn) then mret None else
  let work := cfg_str (en_cfg e) ssh_remote_work_dir in
  (if str_nonempty work then
     write_script "\" e job (crt_buf wn 512 (work +:+ "/" +:+ j_id job +:+ "/input")) (crt_buf wn 512 (work +:+ "/" +:+ j_id job +:+ "/output"))
     ;; mret tt
   else mret tt) ;;
  ready ← pre_job e wn;
  if negb ready then mret None else
  win_start_watcher wn (crt_buf wn (JOB_CMD_LEN + 2048) ("cmd /c " +:+ j_command job)) (win_child e job (job_env job))
    (λ handle, mkWatch id handle false "" "" "") (mret tt).

(** The directory of the known-hosts file, with slashes and without one at
    the end. *)
Fixpoint slashes (s : string) : string :=
  match s with "" => "" | String c s => String (if Ascii.eqb c "\" then "/"%char else c) (slashes s) end.
Definition strip_slash (s : string) : string :=
  match String.get (str_len s - 1) s with
  | Some c => if Ascii.eqb c "/" then str_take (str_len s - 1) s else s
  | None => s
  end.
Definition win_known_hosts (e : Env) (wn : WinEnv) (job : Job) : string :=
  let temp := cfg_str (en_cfg e) temp_dir in
  crt_buf wn 512 (strip_slash (slashes (if str_nonempty temp then cbuf 256 temp else default "C:/Temp" (wn_temp_path wn))) +:+ "/orch-" +:+ j_id job +:+ ".kh").

(** [_snprintf(job->status_reason, ...)] *)
Definition set_reason (wn : WinEnv) (id : nat) (text : string) : ST Sys unit := upd_job id (with_status_reason (crt_buf wn 256 text)).

Definition spawn_remote (e : Env) (wn : WinEnv) (id : nat) (job : Job) (host : string) : ST Sys (option WatchArg) :=
  let str := cfg_str (en_cfg e) in
  let known_hosts := win_known_hosts e wn job in
  st_modify (λ s, if en_can_write e known_hosts
                  then set_y_files (<[known_hosts := default "" (y_files s !! known_hosts)]> (y_files s)) s else s) ;;
  let opts := build_ssh_opts (en_cfg e) 512 known_hosts in
  let base := crt_buf wn 512 (str ssh_remote_work_dir +:+ "/" +:+ j_id job) in
  let input := crt_buf wn 512 (str ssh_remote_work_dir +:+ "/" +:+ j_id job +:+ "/input") in
  let output := crt_buf wn 512 (str ssh_remote_work_dir +:+ "/" +:+ j_id job +:+ "/output") in
  rc ← run_sync_win wn (crt_buf wn 1024 ("ssh " +:+ opts +:+ " " +:+ user_at e host +:+ " "
         +:+ double_quoted ("mkdir -p '" +:+ base +:+ "/input' '" +:+ base +:+ "/output'")));
  if negb (rc =? 0) then
    set_reason wn id ("SSH: cannot create remote directories on " +:+ host +:+ " (exit " +:+ dec rc +:+ ")") ;; mret None
  else
  run_sync_win wn (crt_buf wn 1024 ("scp " +:+ opts +:+ " -r " +:+ double_quoted (j_input_dir job +:+ "/.") +:+ " "
    +:+ user_at e host +:+ ":" +:+ input)) ;;
  script ← write_script "\" e job input output;
  match script with
  | None => mret None
  | Some script =>
      rc ← run_sync_win wn (crt_buf wn 1024 ("scp " +:+ opts +:+ " " +:+ double_quoted script +:+ " " +:+ user_at e host +:+ ":" +:+ base +:+ "/.run.sh"));
      if negb (rc =? 0) then
        set_reason wn id ("SSH: failed to upload run script to " +:+ host +:+ " (exit " +:+ dec rc +:+ ")") ;; mret None
      else
      let shell := if str_nonempty (str ssh_shell) then str ssh_shell else "sh" in
      let cmd := crt_buf wn (JOB_CMD_LEN + 2048) ("ssh " +:+ opts +:+ " " +:+ user_at e host +:+ " "
                   +:+ double_quoted (shell +:+ " '" +:+ base +:+ "/.run.sh'")) in
      win_start_watcher wn cmd (win_child e job []) (λ handle, mkWatch id handle true (cbuf 256 host) (cbuf 512 output) (cbuf 512 known_hosts))
        (set_reason wn id ("SSH: failed to start connection to " +:+ host +:+ " (win32 error " +:+ dec (wn_last_error wn) +:+ ")"))
  end.

Definition spawn_process_win (e : Env) (wn : WinEnv) (id : nat) : ST Sys (option WatchArg) :=
  job ← exec_job id;
  lh ← st_gets (λ s, machine_host (y_registry s) (j_machine_id job) 256);
  let '(local, host) := lh in
  open_logs e (win_child e job [] "") ;;
  if local || negb (str_nonempty (cfg_str (en_cfg e) ssh_user)) then spawn_local e wn id job else spawn_remote e wn id job host.

Definition launcher_thread_win (e : Env) (wn : WinEnv) : nat → ST Sys (option WatchArg) := launcher_with (spawn_process_win e wn) e.

(** ** Watching *)

(** [(int)exit_code] of a DWORD. *)
Definition int_of_dword (code : Z) : Z := if code <? 2147483648 then code else code - 4294967296.

(** [exit_code] is the DWORD of GetExitCodeProcess. *)
Definition watcher_collect_win (e : Env) (wn : WinEnv) (wa : WatchArg) (exit_code : Z) : ST Sys (option (JobStatus * string)) :=
  let id := wa_exec wa in
  active_clear_process id ;;
  requested ← active_terminal_snapshot id;
  job ← exec_job id;
  let str := cfg_str (en_cfg e) in
  (if wa_is_remote wa && str_nonempty (str ssh_user) && match requested with None => true | Some _ => false end then
     run_sync_win wn (crt_buf wn 1024 ("scp " +:+ build_ssh_opts (en_cfg e) 512 (wa_known_hosts_path wa) +:+ " -r "
       +:+ str ssh_user +:+ "@" +:+ wa_remote_host wa +:+ ":" +:+ wa_remote_output wa +:+ "/. " +:+ double_quoted (j_output_dir job)))
     ;; mret tt
   else mret tt) ;;
  terminated ← active_terminal_snapshot id;
  upd_job id (with_exit_code (match terminated with Some _ => -1 | None => int_of_dword exit_code end)) ;;
  mret terminated.

(** The sections of a thread; the others are common. *)
Definition thread_run_win (e : Env) (wn : WinEnv) (c : Choice) (t : Thread) : ST Sys (list Thread) :=
  match t with
  | TLaunch id => r ← launcher_thread_win e wn id; mret (match r with Some wa => [TWatch wa] | None => [] end)
  | TWatch wa =>
      let code := exit_code_of (ch_wstatus c) in
      t ← watcher_collect_win e wn wa code; mret [TComplete wa code t]
  | _ => thread_run e c t
  end.

(** A section of a thread in either build; the environment is that of the
    Windows build. *)
Definition run_section (e : Env) (win : option WinEnv) (c : Choice) (t : Thread) : ST Sys (list Thread) :=
  match win with None => thread_run e c t | Some wn => thread_run_win e wn c t end.

Inductive thread_step_win (e : Env) : World → World → Prop :=
  | ThreadStepWin wn s ts1 t ts2 c s' ts' :
      thread_run_win e wn c t s = (ts', s') →
      thread_step_win e (mkWorld s (ts1 ++ t :: ts2)) (mkWorld s' (ts1 ++ ts' ++ ts2)).

(** ** The environment block fits its allocation *)

(** The bytes of the parent's variables, and the size that is allocated. *)
Definition parent_sz (env : option (list string)) : nat := sum_list (map (λ s, str_len s + 1)%nat (default [] env)).

Lemma parent_block_len env : str_len (parent_block env) = parent_sz env.
Proof.
  unfold parent_block, parent_sz. generalize (default [] env). intros l. induction l as [|s l IH]; [done|]. cbn [fmap list_fmap map sum_list_with].
  assert (∀ s k, str_len (String.concat "" (s :: k)) = (str_len s + str_len (String.concat "" k))%nat) as Hc.
  { intros s0 []; cbn [String.concat]; [cbn; lia|]. by rewrite !str_len_app. }
  rewrite Hc, IH, str_len_app. cbn. unfold id. lia.
Qed.

Lemma add_env_len extra block kv : (str_len kv.1 + 1 + str_len kv.2 < extra)%nat →
  str_len (add_env extra block kv) = (str_len block + (str_len kv.1 + 1 + str_len kv.2 + 1))%nat.
Proof.
  intros H. unfold add_env. set (text := kv.1 +:+ _). assert (str_len text = (str_len kv.1 + 1 + str_len kv.2)%nat) as E.
  { subst text. rewrite str_len_app. change (str_len ("=" +:+ kv.2)) with (S (str_len kv.2)). lia. }
  cbv zeta. rewrite E, (proj2 (Nat.ltb_lt _ _) H), !str_len_app, E. change (str_len (String NUL "")) with 1%nat. lia.
Qed.

Lemma env_block_len env job : str_len (env_block env job) = (parent_sz env + extra_sz job - 1)%nat.
Proof.
  unfold env_block. rewrite str_len_app, <- parent_block_len. generalize (parent_block env). intros block.
  assert (∀ kvs extra, (sum_list (map (λ kv : string * string, str_len kv.1 + 1 + str_len kv.2 + 1)%nat kvs) < extra)%nat →
    ∀ block, str_len (foldl (add_env extra) block kvs) = (str_len block + sum_list (map (λ kv : string * string, str_len kv.1 + 1 + str_len kv.2 + 1)%nat kvs))%nat) as H.
  { intros kvs extra. induction kvs as [|kv kvs IH]; intros Hlt b; cbn [foldl map sum_list_with] in *; [cbn; lia|]. unfold id in *.
    rewrite IH, add_env_len by lia. cbn in *. lia. }
  rewrite H; unfold extra_sz, job_env; cbn [str_len String.length]; lia.
Qed.

(** ** No execution is leaked *)

Section kept_win.
Context (R : Sys → Sys → Prop) {HR : ExecRel R} (e : Env) (wn : WinEnv).

Lemma kept_run_sync cmd : keeps R (run_sync_win wn cmd).
Proof. unfold run_sync_win. kept. Qed.
Lemma kept_set_reason id text : keeps R (set_reason wn id text).
Proof. unfold set_reason. kept. Qed.
Lemma kept_script sep job i o : keeps R (write_script sep e job i o).
Proof. unfold write_script. kept. Qed.
Lemma kept_logs child : keeps R (open_logs e child).
Proof. by apply kept_open_logs. Qed.
#[local] Hint Resolve kept_run_sync kept_set_reason kept_script kept_logs : execs.
Lemma kept_win_watcher cmd child mk failed : keeps R failed → keeps R (win_start_watcher wn cmd child mk failed).
Proof. intros H. unfold win_start_watcher. kept. Qed.
Lemma kept_pre_job : keeps R (pre_job e wn).
Proof. unfold pre_job. kept. Qed.
#[local] Hint Resolve kept_win_watcher kept_pre_job : execs.
Lemma kept_spawn_local id job : keeps R (spawn_local e wn id job).
Proof. unfold spawn_local. kept. Qed.
Lemma kept_spawn_remote id job host : keeps R (spawn_remote e wn id job host).
Proof. unfold spawn_remote. kept. Qed.
#[local] Hint Resolve kept_spawn_local kept_spawn_remote : execs.
Lemma kept_spawn_win id : keeps R (spawn_process_win e wn id).
Proof. unfold spawn_process_win. kept. Qed.
Lemma kept_collect_win wa code : keeps R (watcher_collect_win e wn wa code).
Proof. unfold watcher_collect_win. kept. Qed.
End kept_win.
#[local] Hint Resolve kept_spawn_win kept_collect_win : execs.

#[local] Hint Resolve drops_finish : execs.
Lemma drops_launcher_win e wn id : drops_if is_none id (launcher_thread_win e wn id).
Proof. unfold launcher_thread_win, launcher_with. drop. Qed.

Lemma win_watcher_exec wn cmd child mk failed id : (∀ h, wa_exec (mk h) = id) → returns (watches id) (win_start_watcher wn cmd child mk failed).
Proof. intros H. unfold win_start_watcher. yield. Qed.
#[local] Hint Resolve win_watcher_exec : execs.
Lemma spawn_win_exec e wn id : returns (watches id) (spawn_process_win e wn id).
Proof. unfold spawn_process_win, spawn_local, spawn_remote. yield. Qed.

Lemma launcher_win_exec e wn id : returns (watches id) (launcher_thread_win e wn id).
Proof.
  unfold launcher_thread_win, launcher_with. apply returns_bind. intros r. destruct r; [yield|].
  apply (returns_bind_with (watches id)); [apply spawn_win_exec|]. intros wa Hwa. destruct wa; [by intros s|yield].
Qed.

Lemma attended_step_win e w w' : thread_step_win e w w' → attended w → attended w'.
Proof.
  intros [wn s ts1 t ts2 c s' ts' Hrun] Hw.
  assert (∀ u, thread_run e c u s = (ts', s') → u = t → attended (mkWorld s' (ts1 ++ ts' ++ ts2))) as Hcommon.
  { intros u Hu ->. eapply attended_step; [by econstructor|done]. }
  destruct t as [job|id|id|id|wa|wa code t|job_id r|job_id r]; cbn [thread_run_win] in Hrun; try exact (Hcommon _ Hrun eq_refl); clear Hcommon.
  - rewrite bind_step in Hrun. pose proof (launcher_win_exec e wn id s) as Hx.
    destruct (launcher_thread_win e wn id s) as [wa s1] eqn:E. apply drops_launcher_win in E. cbn [fst snd] in *. injection Hrun as <- <-.
    eapply (attended_section (TLaunch id) id s ts1 ts2 s1 _ (is_none wa)); try done. destruct wa; cbn in *; by rewrite ?Hx.
  - rewrite bind_step in Hrun. destruct (watcher_collect_win _ _ _ _ s) as [t s1] eqn:E. apply (kept_collect_win same_ids) in E.
    injection Hrun as <- <-. by eapply (attended_same (TWatch wa) s).
Qed.

(** A section in either build. *)
Lemma section_attended e win c t ts1 ts2 s ts s' : run_section e win c t s = (ts, s') →
  attended (mkWorld s (ts1 ++ t :: ts2)) → attended (mkWorld s' (ts1 ++ ts ++ ts2)).
Proof.
  destruct win as [wn|]; intros Hrun; [apply (attended_step_win e)|apply (attended_step e)]; by econstructor.
Qed.

(** ** Histories *)

Section history.
Context (e : Env) (wn : WinEnv).
#[local] Hint Resolve history_finish : execs.
Lemma history_launcher_win id : keeps exec_history (launcher_thread_win e wn id).
Proof. unfold launcher_thread_win, launcher_with. kept. Qed.
#[local] Hint Resolve history_launcher_win history_thread : execs.
Lemma history_thread_win c t : keeps exec_history (thread_run_win e wn c t).
Proof. destruct t; cbn [thread_run_win]; try apply history_thread; kept. Qed.
End history.

(** ** Both builds *)

Inductive Platform := POSIX | WIN32.
Definition platform_step (p : Platform) : Env → World → World → Prop :=
  match p with POSIX => thread_step | WIN32 => thread_step_win end.

Lemma platform_attended p e w w' : platform_step p e w w' → attended w → attended w'.
Proof. destruct p; [apply attended_step|apply attended_step_win]. Qed.

Lemma platform_history p e w w' : rtc (platform_step p e) w w' → exec_history (w_sys w) (w_sys w').
Proof.
  induction 1 as [w|w1 w2 w3 Hstep _ IH]; [reflexivity|]. etrans; [|exact IH].
  destruct p; [destruct Hstep as [s ts1 t ts2 c s' ts' Hrun]; by eapply history_thread|].
  destruct Hstep as [wn s ts1 t ts2 c s' ts' Hrun]; by eapply history_thread_win.
Qed.
