(* ===== verification/ExecTheorems.v ===== *)
(** The theorems about the executor, from the lemmas of ExecProps. *)
From S2P Require Import Prelude Job Queue Events Json Registry Sql Db DbAdmin DbInv DbProps Allocator JobOps Cloud Transfer Config Shell System JobProps SysFixture Executor ExecProps ExecutorWin.

(** Threads that may be started at any time. *)
Definition unstarted (t : Thread) : bool :=
  match t with TRegister _ | TCancel _ _ | TTimeout _ _ => true | _ => false end.

(** No execution is active, and only such threads exist. *)
Definition at_rest (w : World) : Prop := y_active (w_sys w) = [] ∧ forallb unstarted (w_threads w) = true.

Lemma at_rest_attended w : at_rest w → attended w.
Proof.
  destruct w as [s ts]. intros [Ha Ht]. unfold attended, active_ids. simpl in *. rewrite Ha. simpl.
  split_and!; [|constructor|constructor]. induction ts as [|t ts IH]; [done|]. simpl in *. apply andb_prop in Ht as [Ht Hts].
  destruct t; simpl in *; try done; by apply IH.
Qed.

Lemma attended_steps p e w w' : rtc (platform_step p e) w w' → attended w → attended w'.
Proof. apply rtc_invariant, platform_attended. Qed.

Definition seq_spawn : Choice := mkChoice (mkSpawnEnv (λ cmd, Some [cmd]) (Some 42) true true) (Some 0).

Definition waiting_job : Job := row "a" "u" "x" JOB_STATUS_QUEUED 1.
Definition launch_world : World := mkWorld (small_system [waiting_job] [] []) [TRegister waiting_job; TCancel "a" "stop"].

(** C7. No execution is leaked, in either build: starting from no active
    execution, under every interleaving of spawning, launching, watching, cancelling and
    timing out, and whatever the environment answers, each active execution
    is worked on by exactly one thread.  So when the threads have ended the
    list is empty, which is what [executor_shutdown] waits for. *)
Theorem no_execution_is_leaked (p : Platform) (e : Env) (w w' : World) (Hrest : at_rest w) (Hsteps : rtc (platform_step p e) w w') :
  active_ids (w_sys w') ≡ₚ w_threads w' ≫= thread_exec ∧ NoDup (active_ids (w_sys w')) ∧
  (forallb unstarted (w_threads w') = true → y_active (w_sys w') = []).
Proof.
  pose proof (attended_steps p e w w' Hsteps (at_rest_attended w Hrest)) as (Hp & Hnd & _).
  split_and!; [done|done|]. intros Hun. assert (w_threads w' ≫= thread_exec = []) as Hnil.
  { clear -Hun. induction (w_threads w') as [|t ts IH]; [done|]. simpl in *. apply andb_prop in Hun as [Ht Hts].
    destruct t; simpl in *; try done; by apply IH. }
  rewrite Hnil in Hp. apply Permutation_nil_r in Hp. unfold active_ids in Hp. by apply fmap_nil_inv in Hp.
Qed.

Lemma no_execution_is_leaked_witness :
  at_rest launch_world ∧
  let w := run_schedule easy_env launch_world [(0, seq_spawn); (0, seq_spawn); (0, seq_spawn); (0, seq_spawn); (0, seq_spawn); (0, seq_spawn)]%nat in
  w_threads w = [TCancel "a" "stop"] ∧ y_active (w_sys w) = [].
Proof.
  assert (at_rest launch_world) as H by done. split; [exact H|]. split; [by vm_compute|].
  refine (proj2 (proj2 (no_execution_is_leaked POSIX easy_env launch_world _ H (run_schedule_rtc _ _ _))) _). by vm_compute.
Defined.


(** The process is running; then a cancellation, then the exit is noticed. *)
Definition running_world : World :=
  run_schedule easy_env launch_world [(0, seq_spawn); (0, seq_spawn); (0, seq_spawn); (0, seq_spawn)]%nat.
Definition cancelled_world : World := run_schedule easy_env running_world [(1, seq_spawn); (0, seq_spawn)]%nat.


(** A cancellation between the status change and the start record loses:
    there is a run in which job "a" is cancelled (the call reports success)
    after [executor_spawn] marked it RUNNING and before it recorded the
    start; afterwards no thread is left and nothing is active, and yet the
    job's row says RUNNING, so it never ends and is timed out or recovered
    only at a restart. *)
Theorem cancel_during_start_leaves_row_running :
  ∃ w', rtc (thread_step easy_env) launch_world w' ∧ w_threads w' = [] ∧ y_active (w_sys w') = [] ∧
    j_status <$> t_jobs (tables (y_db (w_sys w'))) = [JOB_STATUS_RUNNING] ∧
    ∃ w1, rtc (thread_step easy_env) launch_world w1 ∧ rtc (thread_step easy_env) w1 w' ∧
      (executor_cancel easy_env "a" "stop" (w_sys w1)).1 = 0.
Proof.
  set (w1 := run_schedule easy_env launch_world [(0, seq_spawn); (0, seq_spawn)]%nat).
  set (w' := run_schedule easy_env w1 [(1, seq_spawn); (0, seq_spawn); (0, seq_spawn)]%nat).
  exists w'. split; [etrans; apply run_schedule_rtc|]. split; [by vm_compute|]. split; [by vm_compute|].
  split; [by vm_compute|]. exists w1. split; [apply run_schedule_rtc|]. split; [apply run_schedule_rtc|by vm_compute].
Qed.

(** ** What a cancellation does *)

Lemma on_jenv_step {A} (m : ST JEnv A) s r je :
  m (mkJEnv (y_db s) (y_events s)) = (r, je) →
  on_jenv m s = (r, set_y_events (je_events je) (set_y_alloc (mkAllocState (y_registry s) (y_ledger s) (je_db je)) s)).
Proof. unfold on_jenv. by intros ->. Qed.

Lemma exec_set_status_r_run e id st r s x :
  get_exec id s = Some x → healthy_db (y_db s) → transition_allowed (j_status (x_job x)) st = true →
  let job' := status_changed (x_job x) st r (clock (y_db s)) in
  ∃ s', exec_set_status_r e id st r s = (0, s') ∧
    y_active s' = update_where (exec_is id) (λ x, set_x_job job' x) (y_active s) ∧
    y_killed s' = y_killed s ∧ healthy_db (y_db s') ∧
    t_jobs (tables (y_db s')) = update_where (job_is (j_id (x_job x))) (status_row job' r) (t_jobs (tables (y_db s))).
Proof.
  intros Hx Hh Hal job'. unfold exec_set_status_r, exec_job. rewrite bind_step. cbn [fst snd st_gets]. rewrite Hx.
  destruct (job_set_status_r_persists (en_print_object e) (x_job x) st r (mkJEnv (y_db s) (y_events s)) Hh Hal)
    as (je & Hrun & Hh' & _ & Ht). cbn [je_db] in *.
  rewrite bind_step. unfold sys_set_status_r. change (default zero_job (x_job <$> Some x)) with (x_job x). rewrite (on_jenv_step _ _ _ _ Hrun).
  rewrite bind_step. eexists. split; [reflexivity|]. unfold upd_job, upd_exec. destruct s; simpl in *. unfold y_db; simpl.
  split_and!; try done. by rewrite Ht, t_jobs_set.
Qed.


