(* ===== verification/Scheduler.v ===== *)
(** The scheduler of src/core/scheduler.c: the periodic release of held jobs,
    the enforcement of timeouts, the scan of the queue with its stages (fresh
    row, quota, affinity, pre-simulation, decision core, allocation and
    dispatch), start-up, shut-down and cancellation. *)
From S2P Require Import Prelude Job Queue Events Json Registry Sql Db DbAdmin Allocator JobOps Cloud Transfer Config Shell System Decision Executor.

(** ** Helpers *)

Definition trim_local (s : string) : string := trim_right is_blank_eol (trim_left is_blank s).

Definition AUTO_PROV_MAX : nat := 256.

Definition auto_prov_already_tried (job_id : string) (s : Sys) : bool := existsb (String.eqb job_id) (y_auto_prov s).
Definition auto_prov_mark (job_id : string) : ST Sys unit :=
  st_modify (λ s, if (length (y_auto_prov s) <? AUTO_PROV_MAX)%nat
                  then set_y_auto_prov (y_auto_prov s ++ [cbuf 37 job_id]) s else s).

Fixpoint count_char (c : ascii) (s : string) : Z :=
  match s with
  | EmptyString => 0
  | String d s => (if Ascii.eqb d c then 1 else 0) + count_char c s
  end.

Definition count_expected_files (input_files : string) : Z :=
  if str_nonempty input_files then 1 + count_char "," input_files else 0.

(** [fopen] for reading succeeds on files and on directories; a blank name
    resolves to the input directory itself, which exists since submission. *)
Definition ends_with (c : ascii) (s : string) : bool :=
  match String.get (str_len s - 1) s with Some d => Ascii.eqb d c | None => false end.
Definition can_open (fs : gmap string string) (path : string) : bool :=
  bool_decide (is_Some (fs_stat fs path)) || ends_with "/" path.

Definition count_present_files (fs : gmap string string) (input_dir input_files : string) : Z :=
  Z.of_nat (length (filter (λ tok, can_open fs (cbuf 768 (input_dir +:+ "/" +:+ tok)) = true)
    (csv_tokens (cbuf 2048 input_files)))).

(** The free cores and memory of the enabled online machines. *)
Definition free_total (free : Machine → Z) (ms : list Machine) : Z :=
  u32 (sumZ (free <$> filter (λ m, (m_enabled m && is_online m) = true) ms)).

Definition decision_context (e : Env) (job_id : string) (s : Sys) : dc_context :=
  let ms := default [] (registry_snapshot (snapshot_ok (en_alloc e)) (y_registry s)) in
  mkDcContext job_id (d_of_Z 0) (free_total free_cores ms) (free_total free_ram ms).

Definition decide_job (e : Env) (job_id : string) : ST Sys (option dc_result) :=
  ctx ← st_gets (decision_context e job_id);
  fs ← st_gets y_files;
  ydb (decision_core_decide (en_cfg e) (λ path, fs !! path) (en_parse e) ctx).

(** A comma-separated buffer of 4096 bytes grown with [strncat]. *)
Definition append_id (buf id : string) : string :=
  cbuf 4096 (cbuf 4096 (if str_nonempty buf then buf +:+ "," else buf) +:+ id).

(** The refinement children of a job, one per zone that needs work; the
    identifiers of the children. *)
Definition zone_int (zone : cJSON) (key : string) (dflt : Z) : Z :=
  let v := get_item (Some zone) key in if cJSON_IsNumber v then d_to_int (valuedouble v) else dflt.

Fixpoint create_refinements (e : Env) (job : Job) (zones : list cJSON) (zi : Z) (depends : string) : ST Sys string :=
  match zones with
  | [] => mret depends
  | zone :: zones =>
      if negb (cJSON_IsObject (Some zone)) then create_refinements e job zones (zi + 1) depends else
      let reqc := zone_int zone "req_cores" 0 in
      let fidelity := zone_int zone "fidelity" 1 in
      let zoneid := zone_int zone "zone" zi in
      if (reqc <=? 0) && (fidelity <=? 1) then create_refinements e job zones (zi + 1) depends else
      let child_cmd := cbuf 1024 (j_command job +:+ " --refine-zone=" +:+ dec zoneid +:+ " --fidelity=" +:+ dec fidelity) in
      child ← sys_job_create_ex e child_cmd (j_priority job + 5) (if 0 <? reqc then reqc else 1) (j_req_gpu job)
                (j_req_ram_mb job) (j_req_disk_mb job) (j_user_id job) (j_app_id job);
      match child with
      | None => create_refinements e job zones (zi + 1) depends
      | Some child =>
          store_init_job_dirs (j_id child) ;;
          sys_queue_push e child ;;
          create_refinements e job zones (zi + 1) (append_id depends (j_id child))
      end
  end.

(** Act on REFINE: whether the parent was put back to CREATED. *)
Definition refine (e : Env) (job : Job) (allocation_json : string) : ST Sys bool :=
  match en_parse e allocation_json with
  | None => mret false
  | Some root =>
      match get_item (Some root) "zones" with
      | Some (JArray zones) =>
          depends ← create_refinements e job zones 0 "";
          if negb (str_nonempty depends) then mret false else
          ydb (db_update_depends_on (j_id job) depends) ;;
          ydb (db_update_job_status (j_id job) JOB_STATUS_CREATED 0 0) ;;
          ydb (db_update_status_reason (j_id job) "Waiting for refinement subjobs") ;;
          mret true
      | _ => mret false
      end
  end.

Definition set_reason (job_id reason : string) : ST Sys unit := ydb (db_update_status_reason job_id reason) ;; mret tt.

(** What the decision core asked for, as far as both callers agree: the new
    number of cores and the reason. *)
Definition apply_decision (job : Job) (r : dc_result) : ST Sys Job :=
  (if str_nonempty (dr_allocation_json r) then set_reason (j_id job) (dr_allocation_json r) else mret tt) ;;
  mret (if (0 <? dr_target_cores r) && (u32 (j_req_cores job) <? dr_target_cores r)
        then with_req_cores (dr_target_cores r) job else job).

(** ** Held jobs *)

Fixpoint forward_parents (e : Env) (parents : list string) (child : string) : ST Sys unit :=
  match parents with
  | [] => mret tt
  | tok :: parents =>
      (if str_nonempty tok then store_forward_outputs e tok child ;; mret tt else mret tt) ;;
      forward_parents e parents child
  end.

(** The decision taken again once the dependencies are done. *)
Definition held_decision (e : Env) (job : Job) : ST Sys unit :=
  decision ← decide_job e (j_id job);
  match decision with
  | None => mret tt
  | Some r =>
      job ← apply_decision job r;
      match dr_action r with
      | DC_ACTION_REFINE => if str_nonempty (dr_allocation_json r) then refine e job (dr_allocation_json r) ;; mret tt else mret tt
      | DC_ACTION_DEFER => set_reason (j_id job) "Deferred by decision core"
      | DC_ACTION_MIGRATE => set_reason (j_id job) "Migration requested by decision core"
      | DC_ACTION_RUN_COARSE_SIM => set_reason (j_id job) "Strategy: run coarse simulation"
      | DC_ACTION_RUN_FINE_SIM => set_reason (j_id job) "Strategy: run fine simulation"
      | _ => mret tt
      end
  end.

(** The input files and the release to the queue. *)
Definition files_ready (e : Env) (job : Job) (s : Sys) : bool :=
  negb (str_nonempty (j_input_files job))
  || (count_expected_files (j_input_files job)
        <=? count_present_files (y_files s) (store_input_dir (en_work_dir e) (j_id job) 512) (j_input_files job)).

Definition release_held (e : Env) (job : Job) : ST Sys unit :=
  ready ← st_gets (files_ready e job);
  if negb ready then mret tt else
  full ← ydb (db_get_job (j_id job));
  match full with
  | None => mret tt
  | Some full =>
      let reason := if str_nonempty (j_input_files job) then "Dependencies satisfied, all input files received"
                    else "All dependencies satisfied" in
      r ← sys_set_status_r e full JOB_STATUS_QUEUED reason;
      sys_queue_push e (r.2) ;; mret tt
  end.

Definition check_held_job (e : Env) (job : Job) : ST Sys unit :=
  if negb (str_nonempty (j_depends_on job)) then release_held e job else
  dep_status ← ydb (db_check_deps_status (j_depends_on job));
  if dep_status =? -1 then
    now ← y_now;
    ydb (db_update_job_status (j_id job) JOB_STATUS_FAILED (-1) now) ;;
    set_reason (j_id job) "Dependency failed or was cancelled"
  else if dep_status =? 1 then mret tt
  else
    store_init_job_dirs (j_id job) ;;
    forward_parents e (csv_tokens (cbuf 2048 (j_depends_on job))) (j_id job) ;;
    ydb (db_update_depends_on (j_id job) "") ;;
    held_decision e job ;;
    release_held e job.

Definition scheduler_check_held_jobs (e : Env) : ST Sys unit :=
  r ← ydb (db_load_jobs_by_status JOB_STATUS_CREATED);
  st_iter (check_held_job e) (r.2 : list Job).

(** ** Timeouts *)

Definition timeout_limit (e : Env) (job : Job) : Z :=
  if 0 <? j_timeout_seconds job then j_timeout_seconds job else cfg_int (en_cfg e) job_timeout_seconds.

Definition deprovision_after_timeout (e : Env) (job : Job) : ST Sys unit :=
  if cfg_flag e experimental_features_enabled && cfg_flag e cloud_auto_deprovision && str_nonempty (j_machine_id job) then
    m ← st_gets (λ s, registry_get_copy (j_machine_id job) (y_registry s));
    match m with
    | Some m =>
        if bool_decide (m_type m = MACHINE_TYPE_CLOUD) && (r_cores (m_reserved m) <=? 0) && (r_ram_mb (m_reserved m) <=? 0)
        then sys_cloud_deprovision e (m_cloud_provider m) (m_cloud_instance_id m) ;; mret tt else mret tt
    | None => mret tt
    end
  else mret tt.

Definition check_timeout (e : Env) (now : Z) (job : Job) : ST Sys unit :=
  let limit := timeout_limit e job in
  let elapsed := now - j_started_at job in
  if (limit <=? 0) || (j_started_at job <=? 0) || (elapsed <? limit) then mret tt else
  let reason := cbuf 128 ("Timed out after " +:+ dec elapsed +:+ " seconds (limit=" +:+ dec limit +:+ " s)") in
  rc ← executor_timeout e (j_id job) reason;
  (if negb (rc =? 0) then
     ydb (db_update_job_status (j_id job) JOB_STATUS_FAILED (-1) now) ;;
     set_reason (j_id job) reason ;;
     on_alloc (alloc_release (j_id job)) ;; mret tt
   else mret tt) ;;
  deprovision_after_timeout e job.

Definition scheduler_check_timeouts (e : Env) : ST Sys unit :=
  r ← ydb (db_load_jobs_by_status JOB_STATUS_RUNNING);
  if r.1 <? 0 then mret tt else
  now ← y_now;
  st_iter (check_timeout e now) (r.2 : list Job).

(** ** The scan of the queue *)

(** What became of the job that was popped: forgotten (its row is not
    QUEUED), pushed back, put back to CREATED, or handed to the executor with
    the result of [scheduler_dispatch]. *)
Inductive ScanOutcome :=
  | Dropped
  | Requeued
  | Held
  | Dispatched (machine_id : string) (launched : option nat).

(** What the stages before the dispatch decide: the job is settled, or its
    resources are reserved on the machine it names and it is to be dispatched
    with a text for the event. *)
Inductive ScanStep :=
  | Settled (o : ScanOutcome)
  | Reserved (job : Job) (detail : string).

(** The execution whose launcher thread was started, if any. *)
Definition scheduler_dispatch (e : Env) (job : Job) : ST Sys (option nat) :=
  current ← ydb (db_get_job (j_id job));
  if negb (match current with Some c => status_is (j_status c) JOB_STATUS_QUEUED | None => false end)
  then on_alloc (alloc_release (j_id job)) ;; mret None
  else r ← executor_spawn e job; mret (r.2 : option nat).

Definition requeue (e : Env) (job : Job) : ST Sys ScanStep := sys_queue_push e job ;; mret (Settled Requeued).

Definition job_req (job : Job) : Res := mkRes (j_req_cores job) (j_req_gpu job) (j_req_ram_mb job) (j_req_disk_mb job).

(** The last stage: find a machine and reserve. *)
Definition reserve_stage (e : Env) (job : Job) : ST Sys ScanStep :=
  r ← on_alloc (alloc_reserve (en_alloc e) (j_id job) (job_req job));
  let '(rc, machine_id) := r in
  if negb (rc =? 0) then requeue e job else
  m ← st_gets (λ s, registry_get_copy machine_id (y_registry s));
  if match m with
     | Some m => bool_decide (m_type m = MACHINE_TYPE_STATIC) && bool_decide (m_probe_status m = MACHINE_OFFLINE)
     | None => false
     end
  then on_alloc (alloc_release (j_id job)) ;; requeue e job
  else
    let job := with_machine_id (cbuf 64 machine_id) job in
    mret (Reserved job (cbuf 256 ("Dispatched to worker " +:+ j_machine_id job))).

(** A cloud machine for a job that fits nowhere, once per job. *)
Definition auto_spec (e : Env) (job : Job) : CloudMachineSpec :=
  let str := cfg_str (en_cfg e) in
  mkSpec (cbuf 32 (str cloud_default_provider)) (cbuf 64 (str cloud_default_instance_type))
    (cbuf 64 (str cloud_default_region)) (cbuf 128 (str cloud_default_image_id)) (job_req job) 0 0 0.

Definition wants_auto_provision (e : Env) (job : Job) (s : Sys) : bool :=
  cfg_flag e experimental_features_enabled && cfg_flag e cloud_auto_provision
  && str_nonempty (cfg_str (en_cfg e) cloud_default_provider) && negb (auto_prov_already_tried (j_id job) s).

Definition auto_provision (e : Env) (job : Job) : ST Sys ScanStep :=
  auto_prov_mark (j_id job) ;;
  r ← sys_cloud_provision e (auto_spec e job) 128;
  let '(rc, new_mid) := r in
  (if rc =? 0 then
     let detail := cbuf 256 ("Auto-provisioned " +:+ new_mid +:+ " for job " +:+ j_id job) in
     sys_events_push_persistent e "cloud" "auto_provision" detail (j_user_id job) ;;
     ydb (db_insert_event "cloud" "auto_provision" detail (j_user_id job) (j_id job) new_mid) ;; mret tt
   else mret tt) ;;
  requeue e job.

Definition allocate_stage (e : Env) (job : Job) : ST Sys ScanStep :=
  can_run ← st_gets (λ s, alloc_can_fit (en_alloc e) (job_req job) (y_registry s));
  if (can_run : bool) then reserve_stage e job else
  provision ← st_gets (wants_auto_provision e job);
  if (provision : bool) then auto_provision e job else
  diag ← st_gets (λ s, alloc_diagnose (en_alloc e) (job_req job) 256 (y_registry s));
  set_reason (j_id job) diag ;;
  requeue e job.

(** The decision core, when experimental features are enabled. *)
Definition decision_stage (e : Env) (job : Job) : ST Sys ScanStep :=
  if negb (cfg_flag e experimental_features_enabled) then allocate_stage e job else
  decision ← decide_job e (j_id job);
  match decision with
  | None => allocate_stage e job
  | Some r =>
      job ← apply_decision job r;
      held ← (if bool_decide (dr_action r = DC_ACTION_REFINE) && str_nonempty (dr_allocation_json r)
              then refine e job (dr_allocation_json r) else mret false);
      if held : bool then mret (Settled Held) else
      match dr_action r with
      | DC_ACTION_DEFER => set_reason (j_id job) "Deferred by decision core" ;; requeue e job
      | DC_ACTION_MIGRATE => set_reason (j_id job) "Migration requested by decision core" ;; requeue e job
      | DC_ACTION_RUN_COARSE_SIM => set_reason (j_id job) "Strategy: run coarse simulation" ;; allocate_stage e job
      | DC_ACTION_RUN_FINE_SIM => set_reason (j_id job) "Strategy: run fine simulation" ;; allocate_stage e job
      | _ => allocate_stage e job
      end
  end.

(** The placeholders of the solver command: [left] bytes are left. *)
Fixpoint expand_command (fuel : nat) (values : list (string * string)) (src : string) (left : nat) : string :=
  match fuel, src with
  | S fuel, String c src' =>
      if (left =? 0)%nat then "" else
      match find (λ p, str_prefix (fst p) src) values with
      | Some (name, value) =>
          if (left <? str_len value)%nat then str_take left value
          else value +:+ expand_command fuel values (str_drop (str_len name) src) (left - str_len value)
      | None => String c (expand_command fuel values src' (left - 1))
      end
  | _, _ => ""
  end.

Definition presim_command (e : Env) (job : Job) (input_dir presim_path : string) : string :=
  match en_presim_solver_cmd e with
  | Some (String _ _ as env_cmd) =>
      expand_command (str_len env_cmd)
        [("{parent}", j_id job); ("{out}", presim_path); ("{domain}", j_app_id job); ("{input_dir}", input_dir)] env_cmd 1023
  | _ => cbuf 1024 ("python3 " +:+ cbuf 512 ("tools/python_solvers/" +:+ j_app_id job +:+ "_presim.py")
                    +:+ " --parent " +:+ j_id job +:+ " --out " +:+ presim_path)
  end.

Definition wants_presim (e : Env) (job : Job) (has_presim : bool) : bool :=
  let domains := cfg_str (en_cfg e) presim_domains in
  cfg_flag e experimental_features_enabled && negb has_presim && str_nonempty domains
  && existsb (λ tok, String.eqb (trim_local tok) (j_app_id job)) (strtok_commas (cbuf 256 domains)).

Definition presim_stage (e : Env) (job : Job) : ST Sys ScanStep :=
  let input_dir := store_input_dir (en_work_dir e) (j_id job) 512 in
  let presim_path := cbuf 768 (input_dir +:+ "/presim.json") in
  has_presim ← st_gets (λ s, can_open (y_files s) presim_path);
  if negb (wants_presim e job has_presim) then decision_stage e job else
  child ← sys_job_create_ex e (presim_command e job input_dir presim_path) (j_priority job + 5) 1 0 0 0 (j_user_id job) "presim";
  match child with
  | None => decision_stage e job
  | Some child =>
      store_init_job_dirs (j_id child) ;;
      sys_queue_push e child ;;
      ydb (db_update_depends_on (j_id job) (j_id child)) ;;
      ydb (db_update_job_status (j_id job) JOB_STATUS_CREATED 0 0) ;;
      set_reason (j_id job) "Waiting for presim subjob" ;;
      mret (Settled Held)
  end.

(** Same-machine affinity. *)
Definition affinity_stage (e : Env) (job : Job) : ST Sys ScanStep :=
  if negb (str_nonempty (j_same_machine_as job)) then presim_stage e job else
  ref ← ydb (db_get_job (j_same_machine_as job));
  match ref with
  | None => presim_stage e job
  | Some ref =>
      if str_nonempty (j_machine_id ref) then
        rc ← on_alloc (alloc_reserve_on (en_alloc e) (j_id job) (j_machine_id ref) (job_req job));
        if rc =? 0 then
          let job := with_machine_id (cbuf 64 (j_machine_id ref)) job in
          mret (Reserved job (cbuf 256 ("Dispatched to " +:+ j_machine_id job +:+ " (same-machine as " +:+ j_same_machine_as job +:+ ")")))
        else
          set_reason (j_id job) "Waiting for resources on pinned machine (same-machine affinity)" ;; requeue e job
      else
        set_reason (j_id job) "Waiting for affinity target job to be assigned a machine" ;; requeue e job
  end.

Definition quota_stage (e : Env) (job : Job) : ST Sys ScanStep :=
  r ← ydb (db_quota_check (j_user_id job) (j_app_id job) (j_req_cores job) (j_req_ram_mb job) 256);
  let '(rc, reason) := r in
  if negb (rc =? 0) then set_reason (j_id job) reason ;; requeue e job else affinity_stage e job.

(** The body of the loop, on the job that was popped, up to the dispatch. *)
Definition admit_job (e : Env) (job : Job) : ST Sys ScanStep :=
  persisted ← ydb (db_get_job (j_id job));
  if negb (match persisted with Some p => status_is (j_status p) JOB_STATUS_QUEUED | None => false end)
  then mret (Settled Dropped) else quota_stage e job.

(** The dispatch event and the hand-over of a job whose resources are
    reserved on the machine it names. *)
Definition dispatch_to (e : Env) (job : Job) (detail : string) : ST Sys ScanOutcome :=
  sys_events_push_persistent e "job" "dispatch" detail (j_user_id job) ;;
  ydb (db_insert_event "job" "dispatch" detail (j_user_id job) (j_id job) (j_machine_id job)) ;;
  launched ← scheduler_dispatch e job;
  mret (Dispatched (j_machine_id job) launched).

(** The whole body. *)
Definition scan_job (e : Env) (job : Job) : ST Sys ScanOutcome :=
  r ← admit_job e job;
  match r with
  | Settled o => mret o
  | Reserved job detail => dispatch_to e job detail
  end.

Fixpoint scan_queue (e : Env) (jobs_to_scan : nat) : ST Sys (list ScanOutcome) :=
  match jobs_to_scan with
  | O => mret []
  | S n =>
      running ← st_gets y_running;
      if negb running then mret [] else
      job ← sys_queue_try_pop;
      match job with
      | None => mret []
      | Some job => o ← scan_job e job; os ← scan_queue e n; mret (o :: os)
      end
  end.

(** One iteration of [scheduler_thread] after its sleep. *)
Definition scheduler_tick (e : Env) : ST Sys (list ScanOutcome) :=
  tick ← st_gets (λ s, y_tick s + 1);
  st_modify (set_y_tick tick) ;;
  (if tick mod 10 =? 0 then scheduler_check_held_jobs e ;; scheduler_check_timeouts e else mret tt) ;;
  n ← st_gets (λ s, match y_queue s with Some q => length (q_heap q) | None => O end);
  scan_queue e n.

(** ** Start-up, shut-down and cancellation *)

(** [queue_ok]: whether the queue could be created. *)
Fixpoint restore_jobs (e : Env) (jobs : list Job) : ST Sys unit :=
  match jobs with
  | [] => mret tt
  | job :: jobs =>
      (if negb (en_malloc_ok e) then
         now ← y_now;
         ydb (db_update_job_status (j_id job) JOB_STATUS_FAILED (-1) now) ;;
         set_reason (j_id job) "Out of memory during startup recovery"
       else
         rc ← sys_queue_push e job;
         if negb (rc =? 0) then
           now ← y_now;
           ydb (db_update_job_status (j_id job) JOB_STATUS_FAILED (-1) now) ;;
           set_reason (j_id job) "Failed to restore scheduler queue"
         else mret tt) ;;
      restore_jobs e jobs
  end.

(** Whether the queue was created. *)
Definition scheduler_init (e : Env) (queue_ok : bool) : ST Sys bool :=
  if negb queue_ok then st_modify (set_y_queue None) ;; mret false else
  st_modify (set_y_queue (Some (queue_create 64))) ;;
  ydb db_recover_after_restart ;;
  r ← ydb (db_load_jobs_by_status JOB_STATUS_QUEUED);
  (if r.1 <? 0 then mret tt else restore_jobs e (r.2 : list Job)) ;;
  mret true.

(** The thread runs from its creation until [scheduler_stop] has joined it. *)
Definition scheduler_start (e : Env) : ST Sys unit := λ s,
  match y_queue s with
  | None => (tt, s)
  | Some _ => if y_running s then (tt, s) else (tt, set_y_running (en_thread_ok e) s)
  end.

(** Up to the executor's wait, and after it. *)
Definition scheduler_stop_request (e : Env) : ST Sys unit :=
  st_modify (λ s, set_y_queue (queue_shutdown <$> y_queue s) (set_y_running false s)) ;;
  executor_shutdown e.
Definition scheduler_stop_finish : ST Sys unit :=
  st_modify (set_y_queue None) ;; on_alloc alloc_shutdown.

Definition scheduler_cancel_job (e : Env) (job_id reason : string) : ST Sys Z :=
  if negb (str_nonempty job_id) then mret (-1) else
  queued ← sys_queue_remove_by_id job_id;
  match queued with
  | Some job => r ← sys_set_status_r e job JOB_STATUS_CANCELLED reason; mret (r.1 : Z)
  | None =>
      rc ← executor_cancel e job_id reason;
      if rc =? 0 then mret 0 else
      job ← ydb (db_get_job job_id);
      match job with
      | None => mret (-1)
      | Some job =>
          if status_in [JOB_STATUS_CREATED; JOB_STATUS_QUEUED] job
          then r ← sys_set_status_r e job JOB_STATUS_CANCELLED reason; mret (r.1 : Z) else mret (-1)
      end
  end.
