(* ===== verification/SchedSteps.v ===== *)
(** The scheduler's thread of src/core/scheduler.c in steps: between two of
    them other threads run.  A step handles one held job, one running job, one
    job of the queue up to its reservation, or a part of the dispatch of that
    job; the jobs it has loaded are local to the thread, and may be stale by
    the time it comes to them. *)
From S2P Require Import Prelude Job Uuid Heap Queue Events Json Registry Sql Db DbAdmin Allocator JobOps Cloud Transfer Config Shell System SysFixture Store Decision Executor Scheduler.

(** ** The hand-over to the executor *)

(** [executor_spawn] before the registration of the job, before the claim of
    its row, and before its start is recorded. *)
Inductive Spawning :=
  | SRegister (job : Job)
  | SClaim (id : nat)
  | SStart (id : nat).

(** What is left, or the execution whose launcher thread was started. *)
Definition spawn_section (e : Env) (sp : Spawning) : ST Sys (option Spawning * option nat) :=
  match sp with
  | SRegister job => id ← spawn_register e job; mret (SClaim <$> id, None)
  | SClaim id => rc ← spawn_claim e id; mret (if rc =? 0 then Some (SStart id) else None, None)
  | SStart id => rc ← spawn_start e id; mret (None, if rc =? 0 then Some id else None)
  end.

(** To its end: three sections are enough. *)
Fixpoint spawn_sections (e : Env) (n : nat) (sp : Spawning) : ST Sys (option nat) :=
  match n with
  | O => mret None
  | S n =>
      r ← spawn_section e sp;
      match r.1 with Some sp => spawn_sections e n sp | None => mret r.2 end
  end.

(** The sections that are left. *)
Definition spawn_left (sp : Spawning) : nat := match sp with SRegister _ => 3 | SClaim _ => 2 | SStart _ => 1 end.

(** ** The loop *)

(** Where the thread is: asleep, with held jobs or running jobs left to check,
    with positions of the queue left to scan, with a job whose resources are
    reserved, before the last look at its row, in [executor_spawn], or at its
    end. *)
Inductive SchedPc :=
  | AtEnd
  | AtSleep
  | AtHeld (jobs : list Job)
  | AtTimeouts (now : Z) (jobs : list Job)
  | AtScan (jobs_to_scan : nat)
  | AtReserved (job : Job) (detail : string) (jobs_to_scan : nat)
  | AtDispatch (job : Job) (jobs_to_scan : nat)
  | AtSpawn (machine_id : string) (sp : Spawning) (jobs_to_scan : nat).

(** The condition of the loop: another round begins, or the thread ends. *)
Definition sched_loop : ST Sys SchedPc := st_gets (λ s, if y_running s then AtSleep else AtEnd).

Definition begin_scan : ST Sys SchedPc := st_gets (λ s, AtScan (match y_queue s with Some q => length (q_heap q) | None => O end)).

Definition begin_timeouts : ST Sys SchedPc :=
  r ← ydb (db_load_jobs_by_status JOB_STATUS_RUNNING);
  if r.1 <? 0 then begin_scan else now ← y_now; mret (AtTimeouts now r.2).

Definition sched_wake : ST Sys SchedPc :=
  tick ← st_gets (λ s, y_tick s + 1);
  st_modify (set_y_tick tick) ;;
  if tick mod 10 =? 0 then r ← ydb (db_load_jobs_by_status JOB_STATUS_CREATED); mret (AtHeld r.2) else begin_scan.

(** The job that was popped, up to its reservation. *)
Definition admit_section (e : Env) (job : Job) (n : nat) : ST Sys (SchedPc * list ScanOutcome) :=
  r ← admit_job e job;
  mret (match r with
        | Settled o => (AtScan n, [o])
        | Reserved job detail => (AtReserved job detail n, [])
        end).

Definition record_dispatch (e : Env) (job : Job) (detail : string) : ST Sys unit :=
  sys_events_push_persistent e "job" "dispatch" detail (j_user_id job) ;;
  ydb (db_insert_event "job" "dispatch" detail (j_user_id job) (j_id job) (j_machine_id job)) ;; mret tt.

(** The row is looked at once more. *)
Definition still_queued (job : Job) : ST Sys bool :=
  current ← ydb (db_get_job (j_id job));
  mret (match current with Some c => status_is (j_status c) JOB_STATUS_QUEUED | None => false end).

Definition dispatch_section (job : Job) (n : nat) : ST Sys (SchedPc * list ScanOutcome) :=
  queued ← still_queued job;
  if negb queued then on_alloc (alloc_release (j_id job)) ;; mret (AtScan n, [Dispatched (j_machine_id job) None])
  else mret (AtSpawn (j_machine_id job) (SRegister job) n, []).

(** One step, and what became of the job if it is done with. *)
Definition sched_section (e : Env) (pc : SchedPc) : ST Sys (SchedPc * list ScanOutcome) :=
  match pc with
  | AtEnd => mret (AtEnd, [])
  | AtSleep => pc ← sched_wake; mret (pc, [])
  | AtHeld (job :: jobs) => check_held_job e job ;; mret (AtHeld jobs, [])
  | AtHeld [] => pc ← begin_timeouts; mret (pc, [])
  | AtTimeouts now (job :: jobs) => check_timeout e now job ;; mret (AtTimeouts now jobs, [])
  | AtTimeouts _ [] => pc ← begin_scan; mret (pc, [])
  | AtScan O => pc ← sched_loop; mret (pc, [])
  | AtScan (S n) =>
      running ← st_gets y_running;
      if negb running then pc ← sched_loop; mret (pc, []) else
      job ← sys_queue_try_pop;
      match job with
      | None => pc ← sched_loop; mret (pc, [])
      | Some job => admit_section e job n
      end
  | AtReserved job detail n => record_dispatch e job detail ;; mret (AtDispatch job n, [])
  | AtDispatch job n => dispatch_section job n
  | AtSpawn machine_id sp n =>
      r ← spawn_section e sp;
      mret (match r.1 with
            | Some sp => (AtSpawn machine_id sp n, [])
            | None => (AtScan n, [Dispatched machine_id r.2])
            end)
  end.

(** What the thread still does after [s_running] was cleared, until it can be
    joined: the round that it is in, in which no job is popped any more. *)
Definition finish_round (e : Env) (pc : SchedPc) : ST Sys unit :=
  match pc with
  | AtHeld jobs => st_iter (check_held_job e) jobs ;; scheduler_check_timeouts e
  | AtTimeouts now jobs => st_iter (check_timeout e now) jobs
  | _ => mret tt
  end.
Definition sched_finish (e : Env) (pc : SchedPc) : ST Sys (list ScanOutcome) :=
  match pc with
  | AtSleep => pc ← sched_wake; finish_round e pc ;; mret []
  | AtReserved job detail _ => o ← dispatch_to e job detail; mret [o]
  | AtDispatch job _ => launched ← scheduler_dispatch e job; mret [Dispatched (j_machine_id job) launched]
  | AtSpawn machine_id sp _ => launched ← spawn_sections e 3 sp; mret [Dispatched machine_id launched]
  | _ => finish_round e pc ;; mret []
  end.

(** [n] steps with nothing in between. *)
Fixpoint sched_sections (e : Env) (n : nat) (pc : SchedPc) : ST Sys (SchedPc * list ScanOutcome) :=
  match n with
  | O => mret (pc, [])
  | S n => r ← sched_section e pc; rs ← sched_sections e n r.1; mret (rs.1, r.2 ++ rs.2)
  end.

(** ** Undisturbed, the steps are a tick *)

Section steps.
Context (e : Env).

(** From [pc] in [s] the thread ends its round in [s'] with the outcomes. *)
Definition ends_round (pc : SchedPc) (s : Sys) (os : list ScanOutcome) (s' : Sys) : Prop :=
  ∃ n, sched_sections e n pc s = (((sched_loop s').1, os), s').

Lemma step_of_round pc s pc1 os1 s1 os s' :
  sched_section e pc s = ((pc1, os1), s1) → ends_round pc1 s1 os s' → ends_round pc s (os1 ++ os) s'.
Proof.
  intros H1 [n Hn]. exists (S n). cbn [sched_sections]. rewrite bind_step, H1. cbn [fst snd]. rewrite bind_step, Hn. done.
Qed.

Lemma spawn_section_run sp s : spawn_section e sp s = match sp with
  | SRegister job => let r := spawn_register e job s in ((SClaim <$> r.1, None), r.2)
  | SClaim id => let r := spawn_claim e id s in ((if r.1 =? 0 then Some (SStart id) else None, None), r.2)
  | SStart id => let r := spawn_start e id s in ((None, if r.1 =? 0 then Some id else None), r.2)
  end.
Proof. by destruct sp; cbn [spawn_section]; rewrite bind_step. Qed.

(** Together they are [executor_spawn]. *)
Lemma spawn_is_executor_spawn job s : spawn_sections e 3 (SRegister job) s = ((executor_spawn e job s).1.2, (executor_spawn e job s).2).
Proof.
  unfold executor_spawn. cbn [spawn_sections]. rewrite !bind_step, spawn_section_run. cbn zeta.
  destruct (spawn_register e job s) as [[id|] s1]; cbn [fst snd fmap option_fmap option_map mret st_ret]; [|done].
  rewrite !bind_step, spawn_section_run. cbn zeta. destruct (spawn_claim e id s1) as [rc s2]. cbn [fst snd].
  destruct (rc =? 0); cbn [negb]; [|done]. rewrite !bind_step, spawn_section_run. cbn zeta.
  destruct (spawn_start e id s2) as [rc3 s3]. cbn [fst snd mret st_ret]. by destruct (rc3 =? 0).
Qed.

Lemma spawn_section_left sp s sp1 l s1 : spawn_section e sp s = ((Some sp1, l), s1) → spawn_left sp = S (spawn_left sp1).
Proof.
  rewrite spawn_section_run. destruct sp as [job|id|id]; cbn zeta; [| |done].
  - destruct (spawn_register e job s).1; [|done]. by intros [= <- _ _].
  - case_match; [|done]. by intros [= <- _ _].
Qed.

Lemma spawn_ends_round machine_id sp n s os s' : let r := spawn_sections e (spawn_left sp) sp s in
  ends_round (AtScan n) r.2 os s' → ends_round (AtSpawn machine_id sp n) s (Dispatched machine_id r.1 :: os) s'.
Proof.
  cbv zeta. remember (spawn_left sp) as k eqn:Hk. revert sp s Hk. induction k as [|k IH]; intros sp s Hk; [by destruct sp|].
  cbn [spawn_sections]. rewrite bind_step. destruct (spawn_section e sp s) as [[sp1 l] s1] eqn:E. cbn [fst snd].
  assert (sched_section e (AtSpawn machine_id sp n) s =
    (match sp1 with Some sp => (AtSpawn machine_id sp n, []) | None => (AtScan n, [Dispatched machine_id l]) end, s1)) as Hs.
  { cbn [sched_section]. by rewrite bind_step, E. }
  destruct sp1 as [sp1|]; cbn [fst snd mret st_ret].
  - intros H. assert (k = spawn_left sp1) as Hk1.
    { apply spawn_section_left in E. congruence. }
    change (Dispatched _ _ :: os) with ([] ++ (Dispatched machine_id (spawn_sections e k sp1 s1).1 :: os)).
    eapply step_of_round; [exact Hs|]. by apply IH.
  - change (Dispatched machine_id l :: os) with ([Dispatched machine_id l] ++ os). by apply step_of_round.
Qed.

(** The last look at the row, in a dispatch and as a section. *)
Definition queued_row (o : option Job) : bool := match o with Some c => status_is (j_status c) JOB_STATUS_QUEUED | None => false end.

Lemma scheduler_dispatch_run job s : let c := ydb (db_get_job (j_id job)) s in
  scheduler_dispatch e job s =
    if queued_row c.1 then ((executor_spawn e job c.2).1.2, (executor_spawn e job c.2).2) else (None, (on_alloc (alloc_release (j_id job)) c.2).2).
Proof.
  cbv zeta. unfold scheduler_dispatch. rewrite bind_step. fold (queued_row (ydb (db_get_job (j_id job)) s).1).
  destruct (queued_row _); cbn [negb]; by rewrite bind_step.
Qed.

Lemma dispatch_section_run job n s : let c := ydb (db_get_job (j_id job)) s in
  dispatch_section job n s =
    if queued_row c.1 then ((AtSpawn (j_machine_id job) (SRegister job) n, []), c.2)
    else ((AtScan n, [Dispatched (j_machine_id job) None]), (on_alloc (alloc_release (j_id job)) c.2).2).
Proof.
  cbv zeta. unfold dispatch_section, still_queued. rewrite !bind_step. cbn [fst snd mret st_ret].
  fold (queued_row (ydb (db_get_job (j_id job)) s).1). destruct (queued_row _); cbn [negb]; [done|]. by rewrite bind_step.
Qed.

Lemma dispatch_ends_round job n s os s' : let r := scheduler_dispatch e job s in
  ends_round (AtScan n) r.2 os s' → ends_round (AtDispatch job n) s (Dispatched (j_machine_id job) r.1 :: os) s'.
Proof.
  pose proof (scheduler_dispatch_run job s) as Hd. pose proof (dispatch_section_run job n s) as Hs. cbv zeta in *. rewrite Hd. clear Hd.
  destruct (queued_row _); cbn [fst snd]; intros H.
  - change (?o :: os) with ([] ++ o :: os). eapply step_of_round; [exact Hs|].
    pose proof (spawn_ends_round (j_machine_id job) (SRegister job) n (ydb (db_get_job (j_id job)) s).2 os s') as Hr.
    cbv zeta in Hr. cbn [spawn_left] in Hr. rewrite spawn_is_executor_spawn in Hr. by apply Hr.
  - change (?o :: os) with ([o] ++ os). by eapply step_of_round.
Qed.

Lemma job_ends_round job n s os s' : let r := scan_job e job s in
  ends_round (AtScan n) r.2 os s' → ∃ pc os1 s1, admit_section e job n s = ((pc, os1), s1) ∧
  ∃ os2, ends_round pc s1 os2 s' ∧ os1 ++ os2 = r.1 :: os.
Proof.
  cbv zeta. unfold scan_job, admit_section. rewrite !bind_step. destruct (admit_job e job s) as [[o|j detail] s1]; cbn [fst snd mret st_ret].
  { intros H. do 3 eexists. split; [reflexivity|]. by exists os. }
  intros H. do 3 eexists. split; [reflexivity|]. exists ((dispatch_to e j detail s1).1 :: os). split; [|done].
  revert H. unfold dispatch_to. rewrite !bind_step. cbn [fst snd mret st_ret]. intros H. change (?o :: os) with ([] ++ o :: os).
  eapply step_of_round; [cbn [sched_section]; unfold record_dispatch; by rewrite !bind_step|]. by apply dispatch_ends_round.
Qed.

Lemma scan_ends_round n s : ends_round (AtScan n) s (scan_queue e n s).1 (scan_queue e n s).2.
Proof.
  assert (∀ s1, ends_round (sched_loop s1).1 s1 [] s1) as Hend by (intros s1; by exists O).
  revert s. induction n as [|n IH]; intros s; [by apply (step_of_round _ _ (sched_loop s).1 [] s)|].
  cbn [scan_queue]. rewrite bind_step. cbn [fst snd st_gets]. destruct (negb (y_running s)) eqn:Er.
  { apply (step_of_round _ _ (sched_loop s).1 [] s); [|done]. cbn [sched_section]. rewrite bind_step. cbn [fst snd st_gets]. by rewrite Er, bind_step. }
  rewrite bind_step. destruct (sys_queue_try_pop s) as [[job|] s1] eqn:Ep; cbn [fst snd].
  - rewrite bind_step. destruct (scan_job e job s1) as [o s2] eqn:Eo. cbn [fst snd]. rewrite bind_step.
    pose proof (IH s2) as Hn. destruct (scan_queue e n s2) as [os s3]. cbn [fst snd mret st_ret] in *.
    pose proof (job_ends_round job n s1 os s3) as Hj. rewrite Eo in Hj. cbn [fst snd] in Hj. destruct (Hj Hn) as (pc & os1 & s4 & Ha & os2 & Hr & Ho).
    rewrite <- Ho.
    eapply step_of_round; [|exact Hr]. cbn [sched_section]. rewrite bind_step. cbn [fst snd st_gets]. rewrite Er, bind_step, Ep. exact Ha.
  - apply (step_of_round _ _ (sched_loop s1).1 [] s1); [|done]. cbn [sched_section]. rewrite bind_step. cbn [fst snd st_gets]. by rewrite Er, bind_step, Ep.
Qed.

Lemma timeouts_end_round now jobs s os s' :
  (let n := match y_queue (st_iter (check_timeout e now) jobs s).2 with Some q => length (q_heap q) | None => O end in
   scan_queue e n (st_iter (check_timeout e now) jobs s).2 = (os, s')) → ends_round (AtTimeouts now jobs) s os s'.
Proof.
  revert s. induction jobs as [|job jobs IH]; intros s; cbn [st_iter].
  - intros H. cbn [snd mret st_ret] in H. change os with ([] ++ os). eapply step_of_round; [by cbn [sched_section]; rewrite bind_step|].
    pose proof (scan_ends_round (match y_queue s with Some q => length (q_heap q) | None => O end) s) as Hs. by rewrite H in Hs.
  - rewrite bind_step. intros H%IH. change os with ([] ++ os). eapply step_of_round; [|exact H]. cbn [sched_section]. by rewrite bind_step.
Qed.

Lemma held_end_round jobs s os s' : ends_round (AtHeld []) (st_iter (check_held_job e) jobs s).2 os s' → ends_round (AtHeld jobs) s os s'.
Proof.
  revert s. induction jobs as [|job jobs IH]; intros s; cbn [st_iter]; [done|]. rewrite bind_step. intros H%IH.
  change os with ([] ++ os). eapply step_of_round; [|exact H]. cbn [sched_section]. by rewrite bind_step.
Qed.

Lemma begin_timeouts_ends_round s : let s' := (scheduler_check_timeouts e s).2 in
  let n := match y_queue s' with Some q => length (q_heap q) | None => O end in
  ends_round (AtHeld []) s (scan_queue e n s').1 (scan_queue e n s').2.
Proof.
  unfold scheduler_check_timeouts. rewrite bind_step. destruct (ydb (db_load_jobs_by_status JOB_STATUS_RUNNING) s) as [r s1] eqn:El. cbn [fst snd].
  assert (begin_timeouts s = (if r.1 <? 0 then begin_scan else now ← y_now; mret (AtTimeouts now r.2)) s1) as Eb.
  { unfold begin_timeouts. by rewrite bind_step, El. }
  destruct (r.1 <? 0).
  - cbn zeta. cbn [fst snd mret st_ret]. set (n := match y_queue s1 with Some q => length (q_heap q) | None => O end).
    apply (step_of_round _ _ (AtScan n) [] s1); [|apply scan_ends_round]. cbn [sched_section]. by rewrite bind_step, Eb.
  - rewrite bind_step. cbn [fst snd y_now st_gets]. cbn zeta. set (now := clock (y_db s1)).
    eapply (step_of_round _ _ (AtTimeouts now r.2) [] s1); [cbn [sched_section]; by rewrite bind_step, Eb|].
    apply timeouts_end_round. cbn zeta. by destruct (scan_queue _ _ _).
Qed.

(** A tick is a round with no other thread in between. *)
Lemma tick_is_a_round s : ∃ pc s1, sched_section e AtSleep s = ((pc, []), s1) ∧
  ends_round pc s1 (scheduler_tick e s).1 (scheduler_tick e s).2.
Proof.
  unfold scheduler_tick. cbn [sched_section]. unfold sched_wake. rewrite !bind_step. cbn [fst snd st_gets st_modify].
  set (s1 := set_y_tick _ s). destruct ((y_tick s + 1) mod 10 =? 0).
  - rewrite !bind_step. destruct (ydb (db_load_jobs_by_status JOB_STATUS_CREATED) s1) as [r s2] eqn:El. cbn [fst snd mret st_ret].
    eexists _, _. split; [reflexivity|]. apply held_end_round. unfold scheduler_check_held_jobs. rewrite !bind_step, El. cbn [fst snd].
    apply begin_timeouts_ends_round.
  - cbn [fst snd mret st_ret]. eexists _, _. split; [reflexivity|]. apply scan_ends_round.
Qed.
End steps.
