(* ===== verification/SchedProps.v ===== *)
(** Properties of the scheduler. *)
From S2P Require Import Prelude Job Uuid Heap Queue Events Json Registry Sql Db DbAdmin DbInv DbProps Allocator AllocatorSpec AllocatorProps JobOps JobProps Cloud Transfer Config Shell System SysFixture Decision Executor Scheduler.

(** ** The stages before allocation leave the machines alone *)

Definition same_machines (s s' : Sys) : Prop := y_registry s' = y_registry s.
#[export] Instance same_machines_preorder : PreOrder same_machines.
Proof. split; [done|]. intros s1 s2 s3 H1 H2. unfold same_machines in *. congruence. Qed.

Lemma sm_ydb {A} (m : ST Db A) : keeps same_machines (ydb m).
Proof.
  intros s a s'. unfold ydb, on_alloc, on_db. destruct (y_alloc s) as [st L d] eqn:E; simpl. destruct (m d) as [x d'].
  intros [= <- <-]. unfold same_machines, y_registry. rewrite E. by destruct s.
Qed.
Lemma sm_jenv {A} (m : ST JEnv A) : keeps same_machines (on_jenv m).
Proof. intros s a s'. unfold on_jenv. destruct (m _) as [x je]. intros [= <- <-]. by destruct s. Qed.
Lemma sm_ret {A} (x : A) : keeps same_machines (mret x).
Proof. apply keeps_ret, _. Qed.
Lemma sm_bind {A B} (m : ST Sys A) (f : A → ST Sys B) :
  keeps same_machines m → (∀ a, keeps same_machines (f a)) → keeps same_machines (m ≫= f).
Proof. apply keeps_bind, _. Qed.
Lemma sm_gets {A} (f : Sys → A) : keeps same_machines (st_gets f).
Proof. apply keeps_gets, _. Qed.
Lemma sm_push e job : keeps same_machines (sys_queue_push e job).
Proof.
  intros s a s'. unfold sys_queue_push. destruct (y_queue s); [|by intros [= <- <-]].
  destruct (queue_push _ _ _). intros [= <- <-]. by destruct s.
Qed.
Lemma sm_modify (f : Sys → Sys) : (∀ s, y_registry (f s) = y_registry s) → keeps same_machines (st_modify f).
Proof. intros H s a s' [= <- <-]. apply H. Qed.

Create HintDb sched.
#[export] Hint Resolve sm_ydb sm_jenv sm_ret sm_gets sm_push : sched.

Ltac walk :=
  repeat match goal with
  | |- keeps _ (mbind _ _) => apply sm_bind; [|intros ?]
  | |- keeps _ (let '(_, _) := ?x in _) => destruct x
  | |- keeps _ (match ?x with _ => _ end) => destruct x eqn:?
  | |- keeps _ (st_modify _) => apply sm_modify; by intros []
  | |- _ => solve [eauto with sched]
  end.

Lemma sm_create e cmd p c g m d u a : keeps same_machines (sys_job_create_ex e cmd p c g m d u a).
Proof. unfold sys_job_create_ex. walk. Qed.
Lemma sm_dirs id : keeps same_machines (store_init_job_dirs id).
Proof. apply sm_ret. Qed.
Lemma sm_reason id r : keeps same_machines (set_reason id r).
Proof. unfold set_reason. walk. Qed.
#[export] Hint Resolve sm_create sm_dirs sm_reason : sched.

Lemma sm_refinements e job zones zi dep : keeps same_machines (create_refinements e job zones zi dep).
Proof. revert zi dep. induction zones as [|z zones IH]; intros zi dep; simpl; [walk|]. walk. Qed.
#[export] Hint Resolve sm_refinements : sched.
Lemma sm_refine e job doc : keeps same_machines (refine e job doc).
Proof. unfold refine. walk. Qed.
Lemma sm_decide e id : keeps same_machines (decide_job e id).
Proof. unfold decide_job. walk. Qed.
Lemma sm_apply job r : keeps same_machines (apply_decision job r).
Proof. unfold apply_decision. walk. Qed.
#[export] Hint Resolve sm_refine sm_decide sm_apply : sched.

(** ** Dispatch *)

(** The requirement that the allocation met: at least the cores asked for
    (the decision core may raise them), and exactly the rest. *)
Definition covers (job : Job) (req : Res) : Prop :=
  j_req_cores job ≤ r_cores req ∧ r_gpu req = j_req_gpu job ∧ r_ram_mb req = j_req_ram_mb job ∧ r_disk_mb req = j_req_disk_mb job.

(** The machine of a dispatch was enabled, online and had room. *)
Definition fits_on (machine_id : string) (job : Job) (l : Registry) : Prop :=
  ∃ m req, m ∈ l ∧ covers job req ∧ machine_can_fit m req = true ∧ machine_id = cbuf 64 (m_id m).

(** A stage, run on the machines [l]: what a reservation means. *)
Definition sound_step (job : Job) (l : Registry) (r : ScanStep) : Prop :=
  match r with
  | Reserved j _ => fits_on (j_machine_id j) job l
  | Settled (Dispatched _ _) => False
  | Settled _ => True
  end.
Definition dispatches_soundly (job : Job) (m : ST Sys ScanStep) : Prop :=
  ∀ s r s', m s = (r, s') → sound_step job (y_registry s) r.

Lemma sound_bind {A} job (m : ST Sys A) (f : A → ST Sys ScanStep) :
  keeps same_machines m → (∀ a, dispatches_soundly job (f a)) → dispatches_soundly job (m ≫= f).
Proof.
  intros Hm Hf s r s' Hrun. rewrite bind_step in Hrun. destruct (m s) as [a s1] eqn:E.
  apply Hm in E. apply Hf in Hrun. unfold same_machines in E. simpl in Hrun. by rewrite E in Hrun.
Qed.

(** An outcome that is not a dispatch. *)
Lemma sound_requeue' job e job' s s1 r s' : requeue e job' s1 = (r, s') → sound_step job (y_registry s) r.
Proof. unfold requeue. rewrite bind_step. by intros [= <- _]. Qed.
Lemma sound_settled job o : (∀ mid la, o ≠ Dispatched mid la) → dispatches_soundly job (mret (Settled o)).
Proof. intros H s r s' [= <- _]. destruct o as [| | |mid la]; try done. by destruct (H mid la). Qed.

Lemma sound_then_requeue {A} job e job' (m : ST Sys A) : dispatches_soundly job (m ;; requeue e job').
Proof. intros s r s'. rewrite bind_step. apply sound_requeue'. Qed.

Lemma dispatch_to_machine e job detail s mid la s' :
  dispatch_to e job detail s = (Dispatched mid la, s') → mid = j_machine_id job.
Proof. unfold dispatch_to. rewrite !bind_step. by intros [= <- _ _]. Qed.

Lemma covers_raised job job' :
  (j_req_cores job ≤ j_req_cores job' ∧ j_req_gpu job' = j_req_gpu job ∧ j_req_ram_mb job' = j_req_ram_mb job ∧
   j_req_disk_mb job' = j_req_disk_mb job) → covers job (job_req job').
Proof. unfold covers, job_req. simpl. naive_solver lia. Qed.

Lemma alloc_reserve_first env job_id req (st st' : AllocState Registry) out :
  alloc_reserve env job_id req st = ((0, out), st') →
  ∃ m, m ∈ a_store st ∧ machine_can_fit m req = true ∧ out = cbuf 64 (m_id m).
Proof.
  unfold alloc_reserve. destruct (r_cores req <=? 0); [done|]. rewrite bind_step. cbn [fst snd st_gets].
  destruct (find_index _ _ ≫= _) as [m|] eqn:E; [|done]. apply bind_Some in E as (i & Hi & Hm).
  rewrite bind_step. case_match; [done|]. intros [= <- _]. exists m.
  apply find_index_Some in Hi as (x & Hx & Hfit & _). assert (x = m) as -> by congruence. split_and!; [|done|done].
  apply list_elem_of_lookup_2 in Hm. unfold machines in Hm. simpl in Hm. unfold registry_snapshot in Hm.
  repeat case_match; simpl in Hm; (done || set_solver).
Qed.

Lemma alloc_reserve_on_target env job_id target req (st st' : AllocState Registry) :
  alloc_reserve_on env job_id target req st = (0, st') →
  ∃ m, m ∈ a_store st ∧ machine_can_fit m req = true ∧ m_id m = target.
Proof.
  unfold alloc_reserve_on. destruct (r_cores req <=? 0); [done|]. rewrite bind_step. cbn [fst snd st_gets].
  destruct (ms_get_copy target (a_store st)) as [m|] eqn:E; [|done]. destruct (machine_can_fit m req) eqn:Hfit; [|done].
  intros _. exists m. simpl in E. apply get_copy_Some in E as (i & _ & Hi & Hid). split_and!; try done.
  by eapply list_elem_of_lookup_2.
Qed.

Lemma sound_reserve e job job' : covers job (job_req job') → dispatches_soundly job (reserve_stage e job').
Proof.
  intros Hc s r s'. unfold reserve_stage. rewrite bind_step, on_alloc_run. cbn [fst snd].
  destruct (alloc_reserve _ _ _ (y_alloc s)) as [[rc out] st'] eqn:E. cbn [fst snd].
  destruct (rc =? 0) eqn:Hrc; cbn [negb]; [|apply sound_requeue']. bool_prop. subst rc.
  apply alloc_reserve_first in E as (m & Hm & Hfit & ->).
  rewrite bind_step. cbn [fst snd st_gets]. case_match.
  - rewrite bind_step. apply sound_requeue'.
  - intros [= <- _]. exists m, (job_req job'). split_and!; try done.
    destruct job'; simpl. by rewrite cbuf_cbuf.
Qed.

Lemma sound_allocate e job job' : covers job (job_req job') → dispatches_soundly job (allocate_stage e job').
Proof.
  intros Hc. unfold allocate_stage. apply sound_bind; [walk|]. intros can. destruct can; [by apply sound_reserve|].
  apply sound_bind; [walk|]. intros p. destruct p.
  - unfold auto_provision. intros s r s'. rewrite bind_step. rewrite bind_step.
    destruct (sys_cloud_provision _ _ _ _) as [[rc new_mid] s1]. cbn [fst snd]. rewrite bind_step. apply sound_requeue'.
  - apply sound_bind; [walk|]. intros d. apply sound_then_requeue.
Qed.

Lemma apply_decision_covers job r s :
  is_int (j_req_cores job) → covers job (job_req (apply_decision job r s).1) ∧ is_int (j_req_cores job).
Proof.
  intros Hint. split; [|done]. unfold apply_decision. rewrite bind_step. simpl. apply covers_raised.
  destruct (_ && _) eqn:E; [|split_and!; (done || lia)]. apply andb_prop in E as [E1 E2]. bool_prop.
  destruct job as [? ? ? ? ? ? c ? ? ? ? ? ? ? ? ? ? ? ? ? ? ? ? ?]; simpl in *. split_and!; try done.
  unfold is_int, INT_MIN, INT_MAX in Hint. unfold u32 in E2.
  destruct (Z.ltb_spec c 0); [lia|]. rewrite Z.mod_small in E2 by lia. lia.
Qed.

Lemma covers_refl job : covers job (job_req job).
Proof. unfold covers. simpl. split_and!; (done || lia). Qed.

Lemma sound_decision e job : is_int (j_req_cores job) → dispatches_soundly job (decision_stage e job).
Proof.
  intros Hint. unfold decision_stage. case_match; [apply sound_allocate, covers_refl|].
  apply sound_bind; [walk|]. intros [r|]; [|apply sound_allocate, covers_refl].
  intros s st s' Hrun. rewrite bind_step in Hrun.
  destruct (apply_decision_covers job r s Hint) as [Hc _].
  destruct (apply_decision job r s) as [job' s1] eqn:E1. cbn [fst snd] in *. apply sm_apply in E1.
  unfold same_machines in E1. rewrite <- E1. clear E1. revert s1 st s' Hrun.
  apply (sound_bind job); [walk|]. intros [|]; [by apply sound_settled|].
  destruct (dr_action r); try (by apply sound_allocate); try apply sound_then_requeue;
    (apply sound_bind; [walk|intros _; by apply sound_allocate]).
Qed.

Lemma sound_presim e job : is_int (j_req_cores job) → dispatches_soundly job (presim_stage e job).
Proof.
  intros Hint. unfold presim_stage. apply sound_bind; [walk|]. intros has. case_match; [by apply sound_decision|].
  apply sound_bind; [walk|]. intros [child|]; [|by apply sound_decision].
  repeat (apply sound_bind; [walk|intros ?]). by apply sound_settled.
Qed.

Lemma sound_affinity e job : is_int (j_req_cores job) → dispatches_soundly job (affinity_stage e job).
Proof.
  intros Hint. unfold affinity_stage. case_match; [by apply sound_presim|].
  apply sound_bind; [walk|]. intros [ref|]; [|by apply sound_presim]. case_match; [|apply sound_then_requeue].
  intros s r s'. rewrite bind_step, on_alloc_run. cbn [fst snd].
  destruct (alloc_reserve_on _ _ _ _ (y_alloc s)) as [rc st'] eqn:E. cbn [fst snd].
  destruct (rc =? 0) eqn:Hrc; [|rewrite bind_step; apply sound_requeue']. bool_prop. subst rc.
  apply alloc_reserve_on_target in E as (m & Hm & Hfit & Hid).
  intros [= <- _]. exists m, (job_req job). split_and!; [done|apply covers_refl|done|].
  destruct job; simpl. by rewrite Hid.
Qed.

(** A dispatch comes from a reservation. *)
Lemma scan_admits e job s mid la s' : scan_job e job s = (Dispatched mid la, s') →
  ∃ r s1, admit_job e job s = (r, s1) ∧ match r with Settled o => o = Dispatched mid la | Reserved j _ => mid = j_machine_id j end.
Proof.
  unfold scan_job. rewrite bind_step. destruct (admit_job e job s) as [r s1]. cbn [fst snd]. intros Hrun. exists r, s1. split; [done|].
  destruct r as [o|j d]; [by injection Hrun|]. by apply dispatch_to_machine in Hrun.
Qed.

(** C4. A job is dispatched only when everything allows it: if the scan
    hands a popped job to a machine, then its row in the database was QUEUED,
    the quota check passed, and the machine was enabled, online and had free
    at least the cores and exactly the GPUs, memory and disk that the job
    asks for; whichever path led there (affinity, decision core, or plain
    allocation). *)
Theorem dispatch_is_sound (e : Env) (job : Job) (s s' : Sys) (machine_id : string) (launched : option nat)
    (Hint : is_int (j_req_cores job)) (Hrun : scan_job e job s = (Dispatched machine_id launched, s')) :
  (∃ j0, (ydb (db_get_job (j_id job)) s).1 = Some j0 ∧ j_status j0 = JOB_STATUS_QUEUED) ∧
  (let s1 := (ydb (db_get_job (j_id job)) s).2 in
   (ydb (db_quota_check (j_user_id job) (j_app_id job) (j_req_cores job) (j_req_ram_mb job) 256) s1).1.1 = 0) ∧
  ∃ m req, m ∈ y_registry s ∧ machine_id = cbuf 64 (m_id m) ∧ machine_can_fit m req = true ∧
    j_req_cores job ≤ r_cores req ∧ r_gpu req = j_req_gpu job ∧ r_ram_mb req = j_req_ram_mb job ∧
    r_disk_mb req = j_req_disk_mb job.
Proof.
  apply scan_admits in Hrun as (r & s2' & Hrun & Hr).
  unfold admit_job in Hrun. rewrite bind_step in Hrun.
  destruct (ydb (db_get_job (j_id job)) s) as [[j0|] s1] eqn:E; [|by injection Hrun as <- _]. cbn [fst snd] in *.
  destruct (status_is (j_status j0) JOB_STATUS_QUEUED) eqn:Hst; cbn [negb] in Hrun; [|by injection Hrun as <- _].
  apply bool_decide_eq_true in Hst. split; [by exists j0|]. apply sm_ydb in E. unfold same_machines in E. rewrite <- E.
  unfold quota_stage in Hrun. rewrite bind_step in Hrun. cbn zeta.
  destruct (ydb (db_quota_check _ _ _ _ _) s1) as [[rc reason] s2] eqn:E2. cbn [fst snd] in *. apply sm_ydb in E2.
  unfold same_machines in E2. rewrite <- E2. destruct (rc =? 0) eqn:Hrc; cbn [negb] in Hrun.
  - bool_prop. split; [done|]. apply (sound_affinity e job Hint) in Hrun. destruct r as [o|j d]; [by subst o|].
    destruct Hrun as (m & req & ? & (? & ? & ? & ?) & ? & ?). exists m, req. split_and!; (done || congruence).
  - exfalso. unfold requeue in Hrun. rewrite !bind_step in Hrun. by injection Hrun as <- _.
Qed.

Definition small_job : Job := row "small" "u" "x" JOB_STATUS_QUEUED 2.

Lemma dispatch_is_sound_witness :
  let s := small_system [small_job] [] [] in
  ∃ s', scan_job easy_env small_job s = (Dispatched "m1" (Some 0%nat), s') ∧
    is_int (j_req_cores small_job) ∧ ∃ m, m ∈ y_registry s ∧ "m1" = cbuf 64 (m_id m).
Proof.
  eexists. split; [vm_compute; reflexivity|]. assert (is_int (j_req_cores small_job)) as Hint by done. split; [exact Hint|].
  destruct (dispatch_is_sound easy_env small_job (small_system [small_job] [] []) _ "m1" (Some 0%nat) Hint
    ltac:(vm_compute; reflexivity)) as (_ & _ & m & req & Hm & Hid & _).
  exists m. exact (conj Hm Hid).
Defined.

(** ** A blocked head *)

(** More cores than any machine has, ahead of [small_job] in the queue. *)
Definition big_job : Job := row "big" "u" "x" JOB_STATUS_QUEUED 100.
Definition blocked_system : Sys :=
  (scheduler_tick easy_env (small_system [big_job; small_job] [] [big_job; small_job])).2.

Lemma blocked_tick (t : Z) :
  scheduler_tick easy_env (set_y_tick t blocked_system) = ([Requeued; Requeued], set_y_tick (t + 1) blocked_system).
Proof.
  unfold scheduler_tick. rewrite bind_step. cbn [fst snd st_gets].
  assert (y_tick (set_y_tick t blocked_system) + 1 = t + 1) as -> by (by destruct blocked_system).
  generalize (t + 1). intros u. rewrite bind_step. cbn [fst snd st_modify].
  assert (set_y_tick u (set_y_tick t blocked_system) = set_y_tick u blocked_system) as -> by (by destruct blocked_system).
  rewrite bind_step. destruct (u mod 10 =? 0); vm_compute; reflexivity.
Qed.

(** [n] iterations of the scheduler's thread. *)
Fixpoint run_ticks (e : Env) (n : nat) : ST Sys (list (list ScanOutcome)) :=
  match n with
  | O => mret []
  | S n => os ← scheduler_tick e; oss ← run_ticks e n; mret (os :: oss)
  end.

(** A blocked head starves the jobs behind it, although the comment on
    the scan says that it cannot: with [big_job] (100 cores, more than any
    machine has) ahead of [small_job] (2 cores, which fits), every scan pops
    the head twice, because a job pushed back is again the first of the heap;
    after any number of iterations nothing was dispatched and [small_job] is
    still QUEUED with a machine free for it. *)
Theorem blocked_head_starves_jobs_behind (n : nat) :
  let '(oss, s) := run_ticks easy_env n blocked_system in
  oss = replicate n [Requeued; Requeued] ∧ y_active s = [] ∧
  (ydb (db_get_job "small") s).1 = Some small_job ∧
  alloc_can_fit (en_alloc easy_env) (job_req small_job) (y_registry s) = true.
Proof.
  assert (∀ n t, ∃ t', run_ticks easy_env n (set_y_tick t blocked_system) =
    (replicate n [Requeued; Requeued], set_y_tick t' blocked_system)) as Hrun.
  { clear n. intros n. induction n as [|n IH]; intros t; [by exists t|].
    destruct (IH (t + 1)) as [t' Ht']. exists t'. cbn [run_ticks]. rewrite bind_step, blocked_tick. cbn [fst snd].
    rewrite bind_step, Ht'. done. }
  destruct (Hrun n (y_tick blocked_system)) as [t' Ht'].
  replace (set_y_tick (y_tick blocked_system) blocked_system) with blocked_system in Ht' by (by destruct blocked_system).
  rewrite Ht'. split_and!; [done|by vm_compute..].
Qed.

(** ** Input files *)

Lemma split_on_length c s acc : Z.of_nat (length (split_on c s acc)) = 1 + count_char c s.
Proof.
  revert acc. induction s as [|d s IH]; intros acc; [done|]. cbn [split_on count_char].
  destruct (Ascii.eqb d c); cbn [length]; [rewrite Nat2Z.inj_succ|]; rewrite IH; lia.
Qed.

Lemma filter_shorter {A} (P : A → Prop) `{∀ x, Decision (P x)} (l : list A) x :
  x ∈ l → ¬ P x → (length (filter P l) < length l)%nat.
Proof.
  induction l as [|y l IH]; [set_solver|]. intros [->|Hx]%elem_of_cons Hn; rewrite filter_cons.
  - rewrite decide_False by done. simpl. pose proof (length_filter P l). lia.
  - specialize (IH Hx Hn). case_decide; simpl; lia.
Qed.

(** A held job whose list of input files has a blank field is never
    released: the number of expected files counts the blank field, the
    tokens checked on disk do not, so [files_ready] is false in every state,
    whatever files arrive. *)
Theorem blank_file_name_is_never_ready (e : Env) (job : Job) (s : Sys)
    (Hlen : (str_len (j_input_files job) < 2048)%nat) (Hne : j_input_files job ≠ "")
    (Hblank : "" ∈ split_on "," (j_input_files job) "") : files_ready e job s = false.
Proof.
  unfold files_ready. apply str_nonempty_spec in Hne as Hne'. rewrite Hne'. cbn [negb orb]. apply Z.leb_gt.
  unfold count_expected_files, count_present_files. rewrite Hne', cbuf_id, <- (split_on_length "," _ "") by done.
  apply inj_lt. eapply Nat.le_lt_trans; [apply length_filter|]. unfold csv_tokens. rewrite length_map.
  unfold strtok_commas. by apply (filter_shorter _ _ "").
Qed.

Definition two_files : Job := with_input_files "a.dat,,b.dat" (row "h" "u" "x" JOB_STATUS_CREATED 1).

Lemma blank_file_name_is_never_ready_witness :
  "" ∈ split_on "," (j_input_files two_files) "" ∧
  files_ready easy_env two_files (set_y_files (<["jobs/h/input/a.dat" := "1"]> (<["jobs/h/input/b.dat" := "2"]> ∅))
    (small_system [two_files] [] [])) = false.
Proof.
  assert ("" ∈ split_on "," (j_input_files two_files) "") as Hb by (vm_compute; set_solver).
  split; [exact Hb|]. apply blank_file_name_is_never_ready; [simpl; lia|done|exact Hb].
Defined.

(** ** Held jobs *)

Lemma set_y_alloc_same s : set_y_alloc (mkAllocState (y_registry s) (y_ledger s) (y_db s)) s = s.
Proof. destruct s as [[]]. done. Qed.

Lemma y_db_set d s : y_db (set_y_alloc (mkAllocState (y_registry s) (y_ledger s) d) s) = d.
Proof. by destruct s as [[]]. Qed.
Lemma y_queue_set_alloc a s : y_queue (set_y_alloc a s) = y_queue s.
Proof. by destruct s. Qed.

(** A query on a healthy database changes nothing. *)
Lemma get_job_healthy s job_id :
  healthy_db (y_db s) →
  ydb (db_get_job job_id) s = (row_to_job <$> head (where_ (job_is job_id) (t_jobs (tables (y_db s)))), s).
Proof.
  intros (Hi & Ho & Hos). rewrite (ydb_run _ _ (row_to_job <$> head (where_ (job_is job_id) (t_jobs (tables (y_db s))))) (y_db s)).
  - by rewrite set_y_alloc_same.
  - unfold db_get_job. rewrite bind_step, query_healthy by done. simpl. by destruct (where_ _ _).
Qed.

Lemma update_jobs_sys p f s :
  healthy_db (y_db s) → ∃ d, dml_rc (λ _, update_jobs p f) (y_db s) = (0, d) ∧ healthy_db d ∧
    ydb (dml_rc (λ _, update_jobs p f)) s = (0, set_y_alloc (mkAllocState (y_registry s) (y_ledger s) d) s) ∧
    tables d = set_t_jobs (update_where p f (t_jobs (tables (y_db s)))) (tables (y_db s)).
Proof.
  intros Hh. destruct (update_jobs_run p f (y_db s) Hh) as (d & Hd & Hh' & _ & Ht).
  exists d. split_and!; try done. by apply ydb_run.
Qed.

(** Reading the status of the dependencies, on a healthy database. *)
Lemma check_deps_healthy csv s :
  healthy_db (y_db s) →
  ydb (db_check_deps_status csv) s = (deps_verdict (tables (y_db s)) (csv_tokens (cbuf 2048 csv)), s).
Proof.
  intros (Hi & Ho & Hos). destruct (db_check_deps_status csv (y_db s)) as [rc d] eqn:E.
  pose proof (check_deps_run _ _ _ _ Hi E) as (_ & _ & _ & H). destruct (H Ho Hos) as [-> ->].
  rewrite (ydb_run _ _ _ _ E). by rewrite set_y_alloc_same.
Qed.

(** Pushing on an open queue that can grow. *)
Lemma push_succeeds job q : queue_ok q → q_shutdown q = false →
  ∃ q', queue_push true job q = (0, q') ∧ queue_ok q' ∧ q_shutdown q' = false ∧ q_heap q' ≡ₚ job :: q_heap q.
Proof.
  intros Hok Hs. destruct (queue_push true job q) as [r q'] eqn:E.
  pose proof (queue_push_ok true job q r q' Hok E) as (Hok' & Hs' & [[-> Hp]|[-> ->]]).
  - exists q'. split_and!; try done. congruence.
  - unfold queue_push in E. rewrite Hs, andb_false_r in E. done.
Qed.

(** The row that a release leaves. *)
Definition released_job (j : Job) (reason : string) (now : Z) : Job := status_changed j JOB_STATUS_QUEUED reason now.

(** C17. What happens to a held job, on a healthy database.  While a
    dependency is unfinished, or (without dependencies) an input file is
    missing, the check changes nothing at all.  When a dependency failed, was
    cancelled or does not exist, the job's row becomes FAILED with exit code
    -1 and nothing is queued.  When it has no dependencies and its files are
    there, the job is pushed to the queue as QUEUED, and its row is QUEUED. *)
Theorem held_job_waits_fails_or_is_released (e : Env) (job : Job) (s : Sys) (q : Queue) (Hh : healthy_db (y_db s))
    (Hq : y_queue s = Some q) (Hok : queue_ok q) (Hopen : q_shutdown q = false) (Hmem : en_queue_realloc_ok e = true) :
  let t := tables (y_db s) in
  let verdict := deps_verdict t (csv_tokens (cbuf 2048 (j_depends_on job))) in
  let s' := (check_held_job e job s).2 in
  if str_nonempty (j_depends_on job) then
    (verdict = 1 → s' = s) ∧
    (verdict = -1 → y_queue s' = y_queue s ∧ ∀ i r, t_jobs t !! i = Some r → ∃ r', t_jobs (tables (y_db s')) !! i = Some r' ∧
        if job_is (j_id job) r then j_status r' = JOB_STATUS_FAILED ∧ j_exit_code r' = -1 else r' = r)
  else if files_ready e job s then
    ∀ r, head (where_ (job_is (j_id job)) (t_jobs t)) = Some r → j_status r = JOB_STATUS_CREATED → (str_len (j_id r) < JOB_ID_LEN)%nat →
      ∃ q' j, y_queue s' = Some q' ∧ queue_ok q' ∧ q_heap q' ≡ₚ j :: q_heap q ∧ j_id j = j_id job ∧ j_status j = JOB_STATUS_QUEUED ∧
        ∀ i r0, t_jobs t !! i = Some r0 → ∃ r', t_jobs (tables (y_db s')) !! i = Some r' ∧
          if job_is (j_id job) r0 then j_status r' = JOB_STATUS_QUEUED else r' = r0
  else s' = s.
Proof.
  cbn zeta. destruct (str_nonempty (j_depends_on job)) eqn:Hdep.
  - unfold check_held_job. rewrite Hdep. cbn [negb]. rewrite bind_step, check_deps_healthy by done. cbn [fst snd].
    split; intros ->; [done|]. cbn [Z.eqb Pos.eqb]. rewrite bind_step. cbn [fst snd y_now st_gets].
    destruct (update_jobs_sys (job_is (j_id job)) (λ j, with_ended_at (clock (y_db s)) (with_exit_code (-1) (with_status JOB_STATUS_FAILED j))) s Hh)
      as (d & _ & Hh1 & Hrun1 & Ht1).
    rewrite bind_step. unfold db_update_job_status. rewrite Hrun1. cbn [fst snd]. set (s1 := set_y_alloc _ s).
    assert (y_db s1 = d) as Hd1 by (subst s1; apply y_db_set).
    destruct (update_jobs_sys (job_is (j_id job)) (with_status_reason "Dependency failed or was cancelled") s1) as (d2 & _ & _ & Hrun2 & Ht2).
    { by rewrite Hd1. }
    unfold set_reason. rewrite bind_step. unfold db_update_status_reason. rewrite Hrun2. cbn [fst snd mret st_ret].
    rewrite y_db_set. split; [subst s1; by rewrite !y_queue_set_alloc|].
    intros i r Hr. rewrite Ht2, Hd1, Ht1, !t_jobs_set. unfold update_where. rewrite !list_lookup_fmap, Hr. simpl.
    eexists. split; [done|]. destruct (job_is (j_id job) r) eqn:E; [|by rewrite E].
    assert (∀ n, job_is (j_id job) (with_ended_at n (with_exit_code (-1) (with_status JOB_STATUS_FAILED r))) = true) as -> by (by destruct r).
    by destruct r.
  - unfold check_held_job. rewrite Hdep. cbn [negb]. unfold release_held. rewrite bind_step. cbn [fst snd st_gets].
    destruct (files_ready e job s); cbn [negb]; [|done]. intros r Hr Hst Hlen.
    rewrite bind_step, get_job_healthy, Hr by done. cbn [fst snd fmap option_fmap option_map].
    assert (j_id r = j_id job) as Hid by (apply head_Some_elem_of, where_elem in Hr as [H _]; by apply String.eqb_eq in H).
    set (reason := if str_nonempty _ then _ else _).
    destruct (job_set_status_r_persists (en_print_object e) (row_to_job r) JOB_STATUS_QUEUED reason (mkJEnv (y_db s) (y_events s)) Hh)
      as (je & Hrun & Hh1 & _ & Ht1); [simpl; by rewrite Hst|]. cbn [je_db] in *.
    set (j := status_changed _ _ _ _) in *.
    rewrite bind_step. unfold sys_set_status_r, on_jenv. rewrite Hrun. cbn [fst snd].
    set (s1 := set_y_events _ _). assert (y_queue s1 = Some q ∧ y_db s1 = je_db je) as [Hq1 Hd1] by (subst s1; by destruct s as [[]]).
    destruct (push_succeeds j q Hok Hopen) as (q' & Hpush & Hok' & _ & Hp).
    rewrite bind_step. unfold sys_queue_push. rewrite Hq1, Hmem, Hpush. cbn [fst snd mret st_ret].
    assert (j_id (row_to_job r) = j_id job) as Hjid by (simpl; rewrite <- Hid; by apply cbuf_id).
    exists q', j. split_and!; try done; [by destruct s1|].
    intros i r0 Hr0. assert (∀ v, y_db (set_y_queue v s1) = y_db s1) as -> by (by intros; destruct s1).
    rewrite Hd1, Ht1, t_jobs_set, Hjid. unfold update_where. rewrite list_lookup_fmap, Hr0. simpl. eexists. split; [done|].
    destruct (job_is (j_id job) r0); [|done]. destruct r0. unfold status_row; simpl. by destruct (str_nonempty reason).
Qed.

Lemma held_job_waits_fails_or_is_released_witness :
  let job := row "h" "u" "x" JOB_STATUS_CREATED 1 in
  let s := small_system [job] [] [] in
  healthy_db (y_db s) ∧ files_ready easy_env job s = true ∧
  ∃ q' j, y_queue (check_held_job easy_env job s).2 = Some q' ∧ q_heap q' ≡ₚ [j] ∧ j_status j = JOB_STATUS_QUEUED.
Proof.
  assert (healthy_db (y_db (small_system [row "h" "u" "x" JOB_STATUS_CREATED 1] [] []))) as Hh by done.
  split; [exact Hh|]. split; [done|].
  assert (queue_ok (queue_of [])) as Hok by (split_and!; [by intros [] ? ? ?|done|done]).
  pose proof (held_job_waits_fails_or_is_released easy_env (row "h" "u" "x" JOB_STATUS_CREATED 1)
    (small_system [row "h" "u" "x" JOB_STATUS_CREATED 1] [] []) (queue_of []) Hh eq_refl Hok eq_refl eq_refl
    (row "h" "u" "x" JOB_STATUS_CREATED 1) eq_refl eq_refl ltac:(simpl; unfold JOB_ID_LEN; lia)) as (q' & j & H1 & _ & H2 & _ & H3 & _).
  exists q', j. exact (conj H1 (conj H2 H3)).
Defined.

(** ** Start-up *)

(** What the scheduler holds of a row: [db_load_jobs_by_status] does not read
    the batch. *)
Definition loaded (r : Job) : Job := with_batch_id "" (row_to_job r).

Definition queued_rows (t : Tables) : list Job := where_ (status_in [JOB_STATUS_QUEUED]) (t_jobs t).

Lemma recover_healthy d :
  healthy_db d → ∃ n d', db_recover_after_restart d = (n, d') ∧ healthy_db d' ∧
    tables d' = recovered "Interrupted by orchestrator restart" (clock d) (tables d).
Proof.
  intros ([Ha Hs] & Ho & Hos). destruct d as [op ta sv t ch clk os]. simpl in *. subst. destruct t.
  eexists _, _. split; [reflexivity|]. done.
Qed.

Lemma where_update_outside {A} (p q : A → bool) f l :
  (∀ x, q x = true → p x = false ∧ p (f x) = false) → where_ p (update_where q f l) = where_ p l.
Proof.
  intros H. unfold where_, update_where. induction l as [|x l IH]; [done|]. csimpl. rewrite !filter_cons, IH.
  destruct (q x) eqn:E; [|done]. destruct (H x E) as [H1 H2]. by rewrite !decide_False by congruence.
Qed.

Lemma recovered_queued reason now t : queued_rows (recovered reason now t) = queued_rows t.
Proof.
  destruct t as [js]. unfold queued_rows. simpl. apply where_update_outside. intros j Hj.
  destruct j as [? ? ? ? [] ? ? ? ? ? ? ? ? ? ? ? ? ? ? ? ? ? ? ?]; (discriminate Hj || done).
Qed.

Lemma load_by_status_healthy st d :
  healthy_db d →
  ∃ n jobs, db_load_jobs_by_status st d = ((n, jobs), d) ∧ 0 ≤ n ∧
    jobs ≡ₚ loaded <$> where_ (status_in [st]) (t_jobs (tables d)).
Proof.
  intros (Hi & Ho & Hos). unfold db_load_jobs_by_status. rewrite bind_step, query_healthy by done. cbn [fst snd head default].
  set (l := where_ (status_in [st]) (t_jobs (tables d))).
  assert (count_where (λ j, status_in [st] j) (t_jobs (tables d)) = Z.of_nat (length l)) as -> by done.
  cbn [id]. destruct (Z.leb_spec (Z.of_nat (length l)) 0).
  - assert (l = []) as -> by (destruct l; [done|simpl in *; lia]). by eexists _, [].
  - rewrite bind_step, query_healthy by done. cbn [fst snd rows_of].
    assert (length (order_by_keys (λ j, [j_priority j; j_submitted_at j]) l) = length l) as Hl by (by unfold order_by_keys; rewrite order_by_perm).
    rewrite firstn_all2 by (change (where_ (λ j, status_in [st] j) (t_jobs (tables d))) with l; rewrite Hl; lia).
    eexists _, _. split; [reflexivity|]. split; [lia|]. unfold loaded, order_by_keys. by rewrite order_by_perm.
Qed.

Lemma restore_jobs_run e jobs s q :
  en_malloc_ok e = true → en_queue_realloc_ok e = true → y_queue s = Some q → queue_ok q → q_shutdown q = false →
  ∃ q', restore_jobs e jobs s = (tt, set_y_queue (Some q') s) ∧ queue_ok q' ∧ q_shutdown q' = false ∧ q_heap q' ≡ₚ jobs ++ q_heap q.
Proof.
  intros Hm Hr. revert s q. induction jobs as [|job jobs IH]; intros s q Hq Hok Hs.
  { exists q. split; [|done]. destruct s; simpl in *. by subst. }
  destruct (push_succeeds job q Hok Hs) as (q1 & Hpush & Hok1 & Hs1 & Hp1).
  destruct (IH (set_y_queue (Some q1) s) q1) as (q2 & Hrun & Hok2 & Hs2 & Hp2); [by destruct s|done|done|].
  exists q2. split_and!; try done; [|by rewrite Hp2, Hp1; simpl; rewrite Permutation_middle].
  cbn [restore_jobs]. rewrite bind_step, Hm. cbn [negb]. rewrite bind_step. unfold sys_queue_push at 1. rewrite Hq, Hr, Hpush.
  cbn [fst snd Z.eqb negb mret st_ret]. unfold sys_queue_push. rewrite Hq, Hr, Hpush. cbn [fst snd]. rewrite Hrun. by destruct s.
Qed.

(** Start-up restores the queue: on a healthy database, with memory
    available, [scheduler_init] creates a queue that satisfies its invariant
    and holds exactly the QUEUED jobs of the database (as the loader reads
    them, without their batch), and the table then has no interrupted job. *)
Theorem init_restores_the_queue (e : Env) (s : Sys) (Hh : healthy_db (y_db s))
    (Hmalloc : en_malloc_ok e = true) (Hrealloc : en_queue_realloc_ok e = true) :
  ∃ s' q, scheduler_init e true s = (true, s') ∧ y_queue s' = Some q ∧ queue_ok q ∧
    q_heap q ≡ₚ loaded <$> queued_rows (tables (y_db s)) ∧
    tables (y_db s') = recovered "Interrupted by orchestrator restart" (clock (y_db s)) (tables (y_db s)) ∧
    ∀ j, j ∈ t_jobs (tables (y_db s')) → interrupted j = false.
Proof.
  unfold scheduler_init. cbn [negb]. rewrite bind_step. cbn [fst snd st_modify]. set (s0 := set_y_queue _ s).
  assert (y_db s0 = y_db s) as Hd0 by (subst s0; by destruct s).
  destruct (recover_healthy (y_db s0)) as (n & d1 & Hrec & Hh1 & Ht1); [by rewrite Hd0|].
  rewrite bind_step, (ydb_run _ _ _ _ Hrec). cbn [fst snd]. set (s1 := set_y_alloc _ s0).
  assert (y_db s1 = d1) as Hd1 by (apply y_db_set).
  destruct (load_by_status_healthy JOB_STATUS_QUEUED d1 Hh1) as (k & jobs & Hload & Hk & Hjobs).
  rewrite <- Hd1 in Hload. rewrite bind_step, (ydb_run _ _ _ _ Hload), set_y_alloc_same. cbn [fst snd].
  destruct (Z.ltb_spec k 0); [lia|].
  destruct (restore_jobs_run e jobs s1 (queue_create 64)) as (q & Hrun & Hok & _ & Hp);
    [done|done|subst s1 s0; by destruct s|apply queue_create_ok|done|].
  rewrite bind_step, Hrun. cbn [fst snd mret st_ret].
  assert (y_db (set_y_queue (Some q) s1) = d1) as Hd2 by (rewrite <- Hd1; by destruct s1).
  exists (set_y_queue (Some q) s1), q. split; [done|]. split; [by destruct s1|]. split; [done|]. rewrite Hd2, Ht1, Hd0.
  split_and!; [|done|].
  - rewrite Hp, app_nil_r, Hjobs, Ht1, Hd0. unfold queued_rows at 1. fold (queued_rows (recovered "Interrupted by orchestrator restart" (clock (y_db s)) (tables (y_db s)))).
    by rewrite recovered_queued.
  - intros j. destruct (tables (y_db s)) as [js]. simpl. intros (r & _ & ->)%update_where_elem.
    destruct (interrupted r) eqn:E; [|done]. by destruct r.
Qed.

Lemma init_restores_the_queue_witness :
  let s := small_system [row "a" "u" "x" JOB_STATUS_QUEUED 1; row "b" "u" "x" JOB_STATUS_RUNNING 1] [] [] in
  healthy_db (y_db s) ∧ ∃ s' q, scheduler_init easy_env true s = (true, s') ∧ y_queue s' = Some q ∧
    q_heap q ≡ₚ [row "a" "u" "x" JOB_STATUS_QUEUED 1].
Proof.
  assert (healthy_db (y_db (small_system [row "a" "u" "x" JOB_STATUS_QUEUED 1; row "b" "u" "x" JOB_STATUS_RUNNING 1] [] []))) as Hh by done.
  split; [exact Hh|].
  destruct (init_restores_the_queue easy_env _ Hh eq_refl eq_refl) as (s' & q & H1 & H2 & _ & H3 & _).
  exists s', q. exact (conj H1 (conj H2 H3)).
Defined.

(** ** Cancellation *)

Lemma remove_queued job_id q job :
  queue_ok q → job ∈ q_heap q → j_id job = job_id →
  ∃ j q', queue_remove_by_id job_id q = (Some j, q') ∧ queue_ok q' ∧ q_heap q ≡ₚ j :: q_heap q' ∧ j_id j = job_id.
Proof.
  intros Hok Hin Hid. unfold queue_remove_by_id. destruct (queue_remove job_id q) as [[j|] q'] eqn:E;
    apply queue_remove_ok in E as [Hok' Hsp]; try done; simpl in Hsp.
  - exists j, q'. naive_solver.
  - destruct Hsp as [_ Hn]. by destruct (Hn job Hin).
Qed.

(** Cancelling a queued job: if a job with the identifier is in the queue
    and every queued object of that identifier is QUEUED, then
    [scheduler_cancel_job] returns 0, takes exactly one object of that job
    out of the queue, makes its rows CANCELLED and leaves every other row and
    all active executions alone. *)
Theorem cancel_removes_queued_job (e : Env) (job_id reason : string) (s : Sys) (q : Queue) (job : Job)
    (Hh : healthy_db (y_db s)) (Hq : y_queue s = Some q) (Hok : queue_ok q) (Hne : job_id ≠ "")
    (Hin : job ∈ q_heap q) (Hid : j_id job = job_id)
    (Hst : ∀ j, j ∈ q_heap q → j_id j = job_id → j_status j = JOB_STATUS_QUEUED) :
  ∃ s' q' j, scheduler_cancel_job e job_id reason s = (0, s') ∧ y_queue s' = Some q' ∧ queue_ok q' ∧
    q_heap q ≡ₚ j :: q_heap q' ∧ j_id j = job_id ∧ y_active s' = y_active s ∧
    ∀ i r, t_jobs (tables (y_db s)) !! i = Some r → ∃ r', t_jobs (tables (y_db s')) !! i = Some r' ∧
      if job_is job_id r then j_status r' = JOB_STATUS_CANCELLED ∧ j_ended_at r' = clock (y_db s) else r' = r.
Proof.
  destruct (remove_queued job_id q job Hok Hin Hid) as (j & q' & Hrem & Hok' & Hp & Hjid).
  unfold scheduler_cancel_job. apply str_nonempty_spec in Hne. rewrite Hne. cbn [negb].
  rewrite bind_step. unfold sys_queue_remove_by_id. rewrite Hq, Hrem. cbn [fst snd]. set (s1 := set_y_queue _ s).
  assert (y_db s1 = y_db s) as Hd1 by (subst s1; by destruct s).
  assert (j_status j = JOB_STATUS_QUEUED) as Hjst by (apply Hst; [rewrite Hp; set_solver|done]).
  destruct (job_set_status_r_persists (en_print_object e) j JOB_STATUS_CANCELLED reason (mkJEnv (y_db s1) (y_events s1)))
    as (je & Hrun & _ & _ & Ht); [by rewrite Hd1|by rewrite Hjst|]. cbn [je_db] in *.
  rewrite bind_step. unfold sys_set_status_r, on_jenv. rewrite Hrun. cbn [fst snd mret st_ret].
  eexists _, q', j. split; [reflexivity|]. split_and!; try done.
  1-2: subst s1; by destruct s as [[]].
  intros i r Hr. match goal with |- context [y_db ?x] => assert (y_db x = je_db je) as -> by (by destruct s1 as [[]]) end.
  rewrite Ht, Hd1, t_jobs_set, Hjid. unfold update_where. rewrite list_lookup_fmap, Hr. simpl. eexists. split; [done|].
  destruct (job_is job_id r); [|done]. destruct j, r. unfold status_row; simpl. by destruct (str_nonempty reason).
Qed.

Lemma cancel_removes_queued_job_witness :
  let s := small_system [small_job] [] [small_job] in
  healthy_db (y_db s) ∧ ∃ s' q', scheduler_cancel_job easy_env "small" "stop" s = (0, s') ∧ y_queue s' = Some q' ∧ queue_ok q'.
Proof.
  assert (healthy_db (y_db (small_system [small_job] [] [small_job]))) as Hh by done. split; [exact Hh|].
  assert (queue_ok (queue_of [small_job])) as Hok.
  { split_and!; [|done|done]. intros [|i] x y Hi Hx Hy; [lia|done]. }
  destruct (cancel_removes_queued_job easy_env "small" "stop" (small_system [small_job] [] [small_job]) (queue_of [small_job]) small_job
    Hh eq_refl Hok ltac:(done) ltac:(by left) eq_refl) as (s' & q' & j & H1 & H2 & H3 & _).
  { intros j Hj. change (q_heap (queue_of [small_job])) with [small_job] in Hj. by apply list_elem_of_singleton in Hj as ->. }
  exists s', q'. exact (conj H1 (conj H2 H3)).
Defined.

(** ** The limit on automatic provisioning *)

Definition same_limiter (s s' : Sys) : Prop := y_auto_prov s' = y_auto_prov s.
#[export] Instance same_limiter_preorder : PreOrder same_limiter.
Proof. split; [done|]. intros s1 s2 s3 H1 H2. unfold same_limiter in *. congruence. Qed.

Lemma sl_zoom {A} (m : ST Sys A) : (∀ s, y_auto_prov (m s).2 = y_auto_prov s) → keeps same_limiter m.
Proof. intros H s a s' Hrun. specialize (H s). by rewrite Hrun in H. Qed.

Lemma provision_keeps_limiter e job s :
  y_auto_prov (auto_provision e job s).2 = y_auto_prov (auto_prov_mark (j_id job) s).2.
Proof.
  assert (∀ A (m : ST (AllocState Registry) A), keeps same_limiter (on_alloc m)) as Ha.
  { intros A m. apply sl_zoom. intros t. rewrite on_alloc_run. by destruct t. }
  assert (∀ A (m : ST JEnv A), keeps same_limiter (on_jenv m)) as Hj.
  { intros A m. apply sl_zoom. intros t. unfold on_jenv. destruct (m _). by destruct t. }
  assert (∀ A (m : ST CloudState A), keeps same_limiter (on_cloud m)) as Hc.
  { intros A m. apply sl_zoom. intros t. unfold on_cloud. destruct (m _). by destruct t. }
  assert (∀ j, keeps same_limiter (sys_queue_push e j)) as Hp.
  { intros j. apply sl_zoom. intros t. unfold sys_queue_push. destruct (y_queue t); [|done]. destruct (queue_push _ _ _). by destruct t. }
  assert (∀ A (x : A), keeps same_limiter (mret x)) as Hr by (intros A x; apply keeps_ret, _).
  assert (∀ A B (m : ST Sys A) (f : A → ST Sys B), keeps same_limiter m → (∀ a, keeps same_limiter (f a)) →
    keeps same_limiter (m ≫= f)) as Hb by (intros A B m f; apply keeps_bind, _).
  unfold auto_provision. rewrite bind_step.
  match goal with |- context [(?m (auto_prov_mark (j_id job) s).2).2] => assert (keeps same_limiter m) as Hk end.
  { apply Hb; [apply Hb; [apply keeps_gets, _|intros n; apply Hc]|]. intros [rc mid]. apply Hb; [|intros _; apply Hb; auto].
    destruct (rc =? 0); [|apply Hr]. apply Hb; [apply Hj|intros _]. apply Hb; [apply Ha|intros _; apply Hr]. }
  match goal with |- y_auto_prov (?m ?t).2 = _ => destruct (m t) as [o s'] eqn:E; exact (Hk _ _ _ E) end.
Qed.

(** The limit of one automatic cloud instance per job holds only for the
    first 256 jobs: while the list has room, a job that was provisioned for
    is recorded and not provisioned for again; once it is full, provisioning
    for a job that is not in it leaves no trace, so the same job asks for
    another instance at every scan in which it does not fit. *)
Theorem provision_limit_fails_open (e : Env) (job : Job) (s : Sys) (Hlen : (str_len (j_id job) < 37)%nat) :
  let s' := (auto_provision e job s).2 in
  ((length (y_auto_prov s) < AUTO_PROV_MAX)%nat → wants_auto_provision e job s' = false) ∧
  ((AUTO_PROV_MAX ≤ length (y_auto_prov s))%nat → wants_auto_provision e job s' = wants_auto_provision e job s).
Proof.
  cbn zeta. unfold wants_auto_provision, auto_prov_already_tried. rewrite provision_keeps_limiter. unfold auto_prov_mark. simpl.
  split; intros Hl.
  - destruct (Nat.ltb_spec (length (y_auto_prov s)) AUTO_PROV_MAX); [|lia].
    assert (∀ v t, y_auto_prov (set_y_auto_prov v t) = v) as -> by (by intros v []).
    rewrite existsb_app, cbuf_id by done. simpl. rewrite String.eqb_refl, orb_true_r, andb_false_r. done.
  - destruct (Nat.ltb_spec (length (y_auto_prov s)) AUTO_PROV_MAX); [lia|done].
Qed.

Definition cloud_env : Env :=
  mkEnv (set_int experimental_features_enabled 1 (set_int cloud_auto_provision 1 (set_str cloud_default_provider "gcp" config_defaults)))
    (λ _, None) (λ _, None) (λ _, Some (0, "")) (λ _, 0) (λ n, NoUrandom 0 (Z.of_nat n)) None
    (mkAllocEnv true true) true true true (λ _, true).

Lemma provision_limit_fails_open_witness :
  let s := set_y_auto_prov (replicate 256 "other") (small_system [big_job] [] []) in
  (str_len (j_id big_job) < 37)%nat ∧ wants_auto_provision cloud_env big_job s = true ∧
  wants_auto_provision cloud_env big_job (auto_provision cloud_env big_job s).2 = true.
Proof.
  assert (str_len (j_id big_job) < 37)%nat as Hl by (simpl; lia). split; [exact Hl|]. split; [by vm_compute|].
  destruct (provision_limit_fails_open cloud_env big_job (set_y_auto_prov (replicate 256 "other") (small_system [big_job] [] [])) Hl) as [_ H].
  rewrite H; [by vm_compute|]. apply Nat.leb_le. by vm_compute.
Defined.

(** ** Refinement of a held job *)

(** A parser that finds one zone to refine in the allocation document. *)
Definition refining_env : Env :=
  mkEnv config_defaults (λ _, None)
    (λ _, Some (JObject [("zones", JArray [JObject [("zone", JNumber (d_of_Z 0)); ("fidelity", JNumber (d_of_Z 2)); ("req_cores", JNumber (d_of_Z 3))]])]))
    (λ _, None) (λ _, 0) (λ n, NoUrandom 0 (Z.of_nat n)) None (mkAllocEnv true true) true true true (λ _, true).

Definition refined_parent : Job := with_depends_on "d" (row "p" "u" "x" JOB_STATUS_CREATED 1).
Definition refining_system : Sys := small_system [row "d" "u" "x" JOB_STATUS_SUCCEEDED 1; refined_parent] [] [].

(** A held job that the decision core refines is released at once: after
    its dependency succeeded, the check creates the refinement child, writes
    that the parent waits for it, and then, in the same pass, makes the
    parent QUEUED and pushes it; the main loop would have kept it CREATED.
    The decision core also runs although experimental features are off. *)
Theorem refined_held_job_does_not_wait :
  let s' := (scheduler_check_held_jobs refining_env refining_system).2 in
  cfg_flag refining_env experimental_features_enabled = false ∧
  (λ r, (j_id r, j_status r, j_depends_on r)) <$> t_jobs (tables (y_db s')) =
    [("d", JOB_STATUS_SUCCEEDED, ""); ("p", JOB_STATUS_QUEUED, "0-0"); ("0-0", JOB_STATUS_QUEUED, "")] ∧
  (λ q, j_id <$> q_heap q) <$> y_queue s' = Some ["p"; "0-0"].
Proof. cbn zeta. split; [done|]. split; vm_compute; reflexivity. Qed.
