(* ===== verification/RegistryProps.v ===== *)
(** Properties of the registry: what loading the provisioning document
    establishes, whatever the document. *)
From S2P Require Import Prelude Json Registry.

Lemma read_int_range o key d lo hi v :
  d_exact lo = true → d_exact hi = true → read_int o key d lo hi = Some v → v = d ∨ lo ≤ v ≤ hi.
Proof.
  intros Hlo Hhi. unfold read_int. destruct (cJSON_GetObjectItemCaseSensitive o key); [|intros [= <-]; by left].
  destruct (_ || _) eqn:E; [done|]. intros [= <-]. right.
  rewrite !orb_false_iff, !negb_false_iff in E. destruct E as ((((_ & _) & Hint) & H1) & H2). by apply d_range.
Qed.

Lemma copy_string_len o key n s : (0 < n)%nat → copy_string o key n = Some s → (str_len s < n)%nat.
Proof.
  intros Hn. unfold copy_string. destruct (cJSON_GetObjectItemCaseSensitive o key) as [[]|]; try done.
  - destruct (_ <=? _)%nat eqn:E; [done|]. intros [= <-]. by apply Nat.leb_gt.
  - intros [= <-]. done.
Qed.

(** A machine as the loader makes it: well formed, nothing reserved. *)
Definition loaded_ok (l : Registry) : Prop := reg_ok l ∧ ∀ m, m ∈ l → m_reserved m = res0.

Lemma registry_contains_false id l : registry_contains id l = false → id ∉ m_id <$> l.
Proof.
  intros H Hin. apply list_elem_of_fmap in Hin as (m & -> & Hm). apply not_true_iff_false in H. apply H.
  apply existsb_exists. exists m. split; [by apply list_elem_of_In|apply String.eqb_refl].
Qed.

Lemma loaded_append l m :
  loaded_ok l → machine_wf m → m_reserved m = res0 → registry_contains (m_id m) l = false →
  (MAX_MACHINES <=? Z.of_nat (length l)) = false → loaded_ok (l ++ [m]).
Proof.
  intros [Hok Hr] Hwf H0 Hc Hl. bool_prop. split.
  - apply append_ok; try done. by apply registry_contains_false.
  - intros x [Hx| ->%list_elem_of_singleton]%elem_of_app; auto.
Qed.

Lemma or_zero_range o key d lo hi :
  d_exact lo = true → d_exact hi = true → is_Some (read_int o key d lo hi) →
  or_zero (read_int o key d lo hi) = d ∨ lo ≤ or_zero (read_int o key d lo hi) ≤ hi.
Proof. intros Hlo Hhi [v Hv]. rewrite Hv. simpl. by eapply read_int_range. Qed.

Lemma or_empty_len o key n : (0 < n)%nat → (str_len (or_empty (copy_string o key n)) < n)%nat.
Proof.
  intros Hn. destruct (copy_string o key n) eqn:E; [by eapply copy_string_len|done].
Qed.

Lemma load_machine_wf l v m : load_machine l v = (m, false) → machine_wf m ∧ m_reserved m = res0 ∧ registry_contains (m_id m) l = false.
Proof.
  unfold load_machine. set (type := match _ with Some _ => _ | None => _ end). intros [= <- Hskip].
  rewrite !orb_false_iff, !negb_false_iff in Hskip.
  repeat match goal with H : _ ∧ _ |- _ => destruct H end. simpl in *.
  bool_prop.
  repeat match goal with H : bool_decide _ = true |- _ => apply bool_decide_eq_true in H end.
  repeat match goal with H : is_Some (read_int _ _ _ _ _) |- _ => apply or_zero_range in H; [|by vm_compute..] end. split; [|done]. split; simpl.
  - by apply str_nonempty_spec.
  - apply or_empty_len. lia.
  - lia.
  - res_solve.
  - res_solve.
  - res_solve.
  - res_solve.
Qed.

Lemma load_machines_ok ms l : loaded_ok l → loaded_ok (load_machines ms l).
Proof.
  revert l. induction ms as [|v ms IH]; intros l Hok; [done|]; cbn [load_machines load_pools].
  destruct (MAX_MACHINES <=? Z.of_nat (length l)) eqn:Hl; [done|].
  destruct (load_machine l v) as [m skip] eqn:E. apply IH. destruct skip; [done|].
  apply load_machine_wf in E as (Hwf & H0 & Hc). by apply loaded_append.
Qed.

Lemma parse_pool_ok p pool :
  parse_pool p = Some pool → p_prefix pool ≠ "" ∧ 1 ≤ r_cores (p_res pool) ∧ res_bounded (p_res pool).
Proof.
  unfold parse_pool. destruct (_ || _); [done|]. destruct (_ || _) eqn:E; [done|].
  rewrite !orb_false_iff, !negb_false_iff in E. assert (str_nonempty (valuestring (cJSON_GetObjectItemCaseSensitive p "id_prefix")) = true) as Hne by tauto.
  clear E. destruct (_ || _); [done|].
  destruct (read_int p "cores" 0 1 10000) as [c|] eqn:Ec; [|done].
  destruct (read_int p "gpu_count" 0 0 1000) as [g|] eqn:Eg; [|done].
  destruct (read_int p "ram_mb" 0 0 10000000) as [r|] eqn:Er; [|done].
  destruct (read_int p "disk_mb" 0 0 10000000) as [d|] eqn:Ed; [|done].
  apply read_int_range in Ec; [|by vm_compute..]. apply read_int_range in Eg; [|by vm_compute..].
  apply read_int_range in Er; [|by vm_compute..]. apply read_int_range in Ed; [|by vm_compute..].
  destruct (c <? 1) eqn:Hc; [done|]. bool_prop.
  assert (∀ s t h i b, Some (mkPool (valuestring (cJSON_GetObjectItemCaseSensitive p "id_prefix")) s t h i (mkRes c g r d) b) = Some pool →
    p_prefix pool ≠ "" ∧ 1 ≤ r_cores (p_res pool) ∧ res_bounded (p_res pool)) as Hfin.
  { intros ? ? ? ? ? [= <-]. simpl. split; [by apply str_nonempty_spec|]. split; [lia|res_solve]. }
  repeat case_match; try done; apply Hfin.
Qed.

Lemma pool_machine_wf pool w i :
  p_prefix pool ≠ "" → 1 ≤ r_cores (p_res pool) → res_bounded (p_res pool) →
  machine_wf (pool_machine pool w i) ∧ m_reserved (pool_machine pool w i) = res0.
Proof.
  intros Hp Hc Hb. split; [|done]. destruct pool as [prefix ? ? ? ? res ?]. split; simpl in *.
  - by destruct prefix.
  - apply cbuf_len. lia.
  - done.
  - done.
  - res_solve.
  - res_solve.
  - res_solve.
Qed.

Lemma expand_pool_ok pool w n i l :
  p_prefix pool ≠ "" → 1 ≤ r_cores (p_res pool) → res_bounded (p_res pool) → loaded_ok l → loaded_ok (expand_pool pool w n i l).
Proof.
  intros Hp Hc Hb. revert i l. induction n as [|n IH]; intros i l Hok; cbn [expand_pool]; [done|].
  destruct (MAX_MACHINES <=? Z.of_nat (length l)) eqn:Hl; [done|]. apply IH.
  destruct (_ || registry_contains _ _) eqn:E; [done|]. apply orb_false_iff in E as [_ E].
  destruct (pool_machine_wf pool w i Hp Hc Hb). by apply loaded_append.
Qed.

Lemma load_pools_ok ps l : loaded_ok l → loaded_ok (load_pools ps l).
Proof.
  revert l. induction ps as [|p ps IH]; intros l Hok; [done|]; cbn [load_machines load_pools]. destruct (_ <=? _); [done|].
  destruct (parse_pool p) as [pool|] eqn:E; [|by apply IH]. apply parse_pool_ok in E as (? & ? & ?).
  by apply IH, expand_pool_ok.
Qed.

(** ** Property *)

(** Loading the provisioning document establishes the registry's
    invariant, whatever the file and however it parses: the result is -1 and
    the table is as it was, or it is the number of machines, and then
    identifiers are unique, every machine has its totals, minimums and
    identifier in range with minimums within totals, there are at most 1024,
    and nothing is reserved. *)
Theorem registry_load_establishes_invariant (parse : string → option cJSON) (file : option string) (l : Registry) :
  let '(n, l') := registry_load parse file l in
  n = -1 ∧ l' = l ∨
  n = Z.of_nat (length l') ∧ reg_ok l' ∧ ∀ m, m ∈ l' → m_reserved m = res0.
Proof.
  unfold registry_load. destruct file as [buf|]; [|by left]. cbv zeta. destruct (_ || _); [by left|].
  destruct (parse buf) as [root|]; [|by left]. destruct (negb _); [by left|]. right. split; [done|].
  apply load_pools_ok, load_machines_ok. split; [|set_solver]. split; [set_solver|constructor|done].
Qed.
