(* ===== verification/Sha256.v ===== *)
(** The SHA-256 of src/http/auth.c: the compression function, the streaming
    context with its partly filled block, HMAC and PBKDF2, each with the
    reference definition that it is shown to implement.  A byte is a [Z] below
    256 and a [uint32_t] a [Z] below 2^32; [u32] reduces the operations that
    overflow. *)
From S2P Require Import Prelude.

Definition u8 (z : Z) : Z := z mod 256.
Definition u64 (z : Z) : Z := z mod 18446744073709551616.

(** ** The compression function *)

Definition k : list Z :=
  [0x428a2f98; 0x71374491; 0xb5c0fbcf; 0xe9b5dba5] ++ [0x3956c25b; 0x59f111f1; 0x923f82a4; 0xab1c5ed5] ++
  [0xd807aa98; 0x12835b01; 0x243185be; 0x550c7dc3] ++ [0x72be5d74; 0x80deb1fe; 0x9bdc06a7; 0xc19bf174] ++
  [0xe49b69c1; 0xefbe4786; 0x0fc19dc6; 0x240ca1cc] ++ [0x2de92c6f; 0x4a7484aa; 0x5cb0a9dc; 0x76f988da] ++
  [0x983e5152; 0xa831c66d; 0xb00327c8; 0xbf597fc7] ++ [0xc6e00bf3; 0xd5a79147; 0x06ca6351; 0x14292967] ++
  [0x27b70a85; 0x2e1b2138; 0x4d2c6dfc; 0x53380d13] ++ [0x650a7354; 0x766a0abb; 0x81c2c92e; 0x92722c85] ++
  [0xa2bfe8a1; 0xa81a664b; 0xc24b8b70; 0xc76c51a3] ++ [0xd192e819; 0xd6990624; 0xf40e3585; 0x106aa070] ++
  [0x19a4c116; 0x1e376c08; 0x2748774c; 0x34b0bcb5] ++ [0x391c0cb3; 0x4ed8aa4a; 0x5b9cca4f; 0x682e6ff3] ++
  [0x748f82ee; 0x78a5636f; 0x84c87814; 0x8cc70208] ++ [0x90befffa; 0xa4506ceb; 0xbef9a3f7; 0xc67178f2].

Definition ROTR32 (x n : Z) : Z := Z.lor (Z.shiftr x n) (u32 (Z.shiftl x (32 - n))).
Definition CH (x y z : Z) : Z := Z.lxor (Z.land x y) (Z.land (Z.lnot x) z).
Definition MAJ (x y z : Z) : Z := Z.lxor (Z.lxor (Z.land x y) (Z.land x z)) (Z.land y z).
Definition EP0 (x : Z) : Z := Z.lxor (Z.lxor (ROTR32 x 2) (ROTR32 x 13)) (ROTR32 x 22).
Definition EP1 (x : Z) : Z := Z.lxor (Z.lxor (ROTR32 x 6) (ROTR32 x 11)) (ROTR32 x 25).
Definition SIG0 (x : Z) : Z := Z.lxor (Z.lxor (ROTR32 x 7) (ROTR32 x 18)) (Z.shiftr x 3).
Definition SIG1 (x : Z) : Z := Z.lxor (Z.lxor (ROTR32 x 17) (ROTR32 x 19)) (Z.shiftr x 10).

(** The first sixteen words, read from the block. *)
Definition load_word (block : list Z) (j : nat) : Z :=
  let byte i := nth (j + i) block 0 in
  Z.lor (Z.lor (Z.lor (Z.shiftl (byte 0%nat) 24) (Z.shiftl (byte 1%nat) 16)) (Z.shiftl (byte 2%nat) 8)) (byte 3%nat).

(** [m\[0..63\]]: the second loop extends the words of the first. *)
Definition message_words (block : list Z) : list Z :=
  foldl (λ m i, m ++ [u32 (SIG1 (nth (i - 2) m 0) + nth (i - 7) m 0 + SIG0 (nth (i - 15) m 0) + nth (i - 16) m 0)])
    (map (λ i, load_word block (4 * i)) (seq 0 16)) (seq 16 48).

Definition round (st : list Z) (km : Z * Z) : list Z :=
  match st with
  | [a; b; c; d; e; f; g; h] =>
      let t1 := u32 (h + EP1 e + CH e f g + km.1 + km.2) in
      let t2 := u32 (EP0 a + MAJ a b c) in
      [u32 (t1 + t2); a; b; c; u32 (d + t1); e; f; g]
  | _ => st
  end.

(** What [sha256_transform] does to the state of the context. *)
Definition compress (st block : list Z) : list Z :=
  zip_with (λ s w, u32 (s + w)) st (foldl round st (zip k (message_words block))).

(** ** The streaming context *)

Record SHA256_CTX := mkCtx {
  ctx_data : list Z;
  ctx_datalen : nat;
  ctx_bitlen : Z;
  ctx_state : list Z }.

Definition H0 : list Z :=
  [0x6a09e667; 0xbb67ae85] ++ [0x3c6ef372; 0xa54ff53a] ++ [0x510e527f; 0x9b05688c] ++ [0x1f83d9ab; 0x5be0cd19].

Definition sha256_init (ctx : SHA256_CTX) : SHA256_CTX := mkCtx (ctx_data ctx) 0 0 H0.

Definition sha256_transform (ctx : SHA256_CTX) (data : list Z) : SHA256_CTX :=
  mkCtx (ctx_data ctx) (ctx_datalen ctx) (ctx_bitlen ctx) (compress (ctx_state ctx) data).

Definition update_byte (ctx : SHA256_CTX) (byte : Z) : SHA256_CTX :=
  let data := <[ctx_datalen ctx := byte]> (ctx_data ctx) in
  let ctx := mkCtx data (ctx_datalen ctx + 1) (ctx_bitlen ctx) (ctx_state ctx) in
  if (ctx_datalen ctx =? 64)%nat then
    let ctx := sha256_transform ctx data in
    mkCtx (ctx_data ctx) 0 (u64 (ctx_bitlen ctx + 512)) (ctx_state ctx)
  else ctx.

Definition sha256_update (ctx : SHA256_CTX) (data : list Z) : SHA256_CTX := foldl update_byte ctx data.

(** [data\[i++\] = 0x80; while (i < lim) data\[i++\] = 0x00;] *)
Definition pad_until (lim i : nat) (data : list Z) : list Z :=
  foldl (λ d j, <[j := 0]> d) (<[i := 0x80]> data) (seq (i + 1) (lim - (i + 1))).

(** [data\[63\] = bitlen; data\[62\] = bitlen >> 8; ...] *)
Definition store_bitlen (bitlen : Z) (data : list Z) : list Z :=
  foldl (λ d j, <[(63 - j)%nat := u8 (Z.shiftr bitlen (8 * Z.of_nat j))]> d) data (seq 0 8).

(** The 32 bytes of [hash]: the words of the state, most significant byte
    first. *)
Definition digest_bytes (st : list Z) : list Z :=
  st ≫= λ w, map (λ i, Z.land (Z.shiftr w (24 - i * 8)) 0xff) [0; 1; 2; 3].

Definition sha256_final (ctx : SHA256_CTX) : list Z :=
  let i := ctx_datalen ctx in
  let ctx :=
    if (i <? 56)%nat then mkCtx (pad_until 56 i (ctx_data ctx)) i (ctx_bitlen ctx) (ctx_state ctx)
    else
      let ctx := mkCtx (pad_until 64 i (ctx_data ctx)) i (ctx_bitlen ctx) (ctx_state ctx) in
      let ctx := sha256_transform ctx (ctx_data ctx) in
      mkCtx (replicate 56 0 ++ drop 56 (ctx_data ctx)) i (ctx_bitlen ctx) (ctx_state ctx) in
  let bitlen := u64 (ctx_bitlen ctx + Z.of_nat (ctx_datalen ctx) * 8) in
  let ctx := mkCtx (store_bitlen bitlen (ctx_data ctx)) (ctx_datalen ctx) bitlen (ctx_state ctx) in
  digest_bytes (ctx_state (sha256_transform ctx (ctx_data ctx))).

(** ** The reference: the padded message cut into blocks *)

Definition be64 (z : Z) : list Z := map (λ j, u8 (Z.shiftr z (8 * j))) [7; 6; 5; 4; 3; 2; 1; 0].

(** One bit, the fewest zeros that leave room for the length, the length in
    bits. *)
Definition padded (msg : list Z) : list Z :=
  msg ++ [0x80] ++ replicate ((119 - length msg mod 64) mod 64) 0 ++ be64 (8 * Z.of_nat (length msg)).

Fixpoint chunks (n : nat) (l : list Z) : list (list Z) :=
  match n with
  | O => []
  | S n => take 64 l :: chunks n (drop 64 l)
  end.

Definition sha256 (msg : list Z) : list Z :=
  digest_bytes (foldl compress H0 (chunks (length (padded msg) / 64) (padded msg))).

(** ** HMAC and PBKDF2 *)

Definition xor_all (pad : Z) (bs : list Z) : list Z := map (λ b, Z.lxor b pad) bs.

Fixpoint bytes_of_string (s : string) : list Z :=
  match s with
  | EmptyString => []
  | String c s => char_code c :: bytes_of_string s
  end.

Section with_stack.
(** What every context holds before [sha256_init]. *)
Context (stack : SHA256_CTX).

Definition hmac_sha256 (key data : list Z) : list Z :=
  let normalized_key :=
    if (64 <? length key)%nat
    then sha256_final (sha256_update (sha256_init stack) key) ++ replicate 32 0
    else key ++ replicate (64 - length key) 0 in
  let inner_pad := xor_all 0x36 normalized_key in
  let outer_pad := xor_all 0x5c normalized_key in
  let inner_hash := sha256_final (sha256_update (sha256_update (sha256_init stack) inner_pad) data) in
  sha256_final (sha256_update (sha256_update (sha256_init stack) outer_pad) inner_hash).

(** The body of the loop of [pbkdf2_sha256]: [block] is both read and
    written by [hmac_sha256], which writes it last. *)
Definition pbkdf2_step (password : list Z) (s : list Z * list Z) : list Z * list Z :=
  let '(output, block) := s in
  let block := hmac_sha256 password block in
  (zip_with Z.lxor output block, block).

Definition pbkdf2_sha256 (password : string) (salt : list Z) (iterations : Z) : list Z :=
  let password := bytes_of_string password in
  let block := hmac_sha256 password (salt ++ [0; 0; 0; 1]) in
  (Z.iter (iterations - 1) (pbkdf2_step password) (block, block)).1.
End with_stack.

(** HMAC (FIPS 198) and the first block of PBKDF2 (RFC 8018). *)
Definition hmac (key msg : list Z) : list Z :=
  let key0 := let h := if (64 <? length key)%nat then sha256 key else key in h ++ replicate (64 - length h) 0 in
  sha256 (xor_all 0x5c key0 ++ sha256 (xor_all 0x36 key0 ++ msg)).

Fixpoint pbkdf2_u (password salt : list Z) (i : nat) : list Z :=
  match i with
  | O => hmac password (salt ++ [0; 0; 0; 1])
  | S i => hmac password (pbkdf2_u password salt i)
  end.

Definition pbkdf2 (password salt : list Z) (c : nat) : list Z :=
  foldl (zip_with Z.lxor) (pbkdf2_u password salt 0) (map (pbkdf2_u password salt) (seq 1 (c - 1))).

(** ** The context between two bytes *)

(** The context has read the blocks [bs], compressed into the state, and then
    [rest], at the start of the buffer. *)
Record absorbed (bs : list (list Z)) (rest : list Z) (ctx : SHA256_CTX) : Prop := {
  ab_blocks : Forall (λ b, length b = 64%nat) bs;
  ab_rest : (length rest < 64)%nat;
  ab_size : length (ctx_data ctx) = 64%nat;
  ab_datalen : ctx_datalen ctx = length rest;
  ab_data : take (length rest) (ctx_data ctx) = rest;
  ab_bitlen : ctx_bitlen ctx = u64 (512 * Z.of_nat (length bs));
  ab_state : ctx_state ctx = foldl compress H0 bs }.

Definition has_read (msg : list Z) (ctx : SHA256_CTX) : Prop :=
  ∃ bs rest, msg = concat bs ++ rest ∧ absorbed bs rest ctx.

Lemma init_has_read stack : length (ctx_data stack) = 64%nat → has_read [] (sha256_init stack).
Proof. intros. exists [], []. split; [done|]. by split; simpl; try constructor; try lia. Qed.

Lemma u64_add a b : u64 (u64 a + b) = u64 (a + b).
Proof. unfold u64. by rewrite Zplus_mod_idemp_l. Qed.

Lemma take_insert_snoc (l : list Z) n x : (n < length l)%nat → take (n + 1) (<[n:=x]> l) = take n l ++ [x].
Proof.
  intros Hn. rewrite Nat.add_1_r. rewrite (take_S_r _ _ x) by (by rewrite list_lookup_insert_eq).
  by rewrite take_insert_ge by lia.
Qed.

Lemma update_byte_has_read msg ctx b : has_read msg ctx → has_read (msg ++ [b]) (update_byte ctx b).
Proof.
  intros (bs & rest & -> & [Hbs Hr Hsz Hdl Hd Hbl Hst]). unfold update_byte. simpl. rewrite Hdl.
  assert (take (length rest + 1) (<[length rest:=b]> (ctx_data ctx)) = rest ++ [b]) as Htake.
  { rewrite take_insert_snoc by lia. by rewrite Hd. }
  destruct (_ =? 64)%nat eqn:E.
  - apply Nat.eqb_eq in E. rewrite E, take_ge in Htake by (rewrite length_insert; lia).
    exists (bs ++ [rest ++ [b]]), []. split; [by rewrite concat_app, <- app_assoc; simpl; rewrite !app_nil_r|].
    split; simpl; rewrite ?Htake.
    + apply Forall_app; split; [done|]. constructor; [by rewrite length_app|constructor].
    + lia.
    + by rewrite length_app.
    + done.
    + done.
    + rewrite Hbl, u64_add, length_app. f_equal. simpl. lia.
    + by rewrite Hst, foldl_app.
  - apply Nat.eqb_neq in E. exists bs, (rest ++ [b]). split; [by rewrite app_assoc|].
    split; simpl; rewrite ?length_app, ?length_insert; try done; simpl; lia.
Qed.

Lemma update_has_read data msg ctx : has_read msg ctx → has_read (msg ++ data) (sha256_update ctx data).
Proof.
  revert msg ctx. induction data as [|b data IH]; intros msg ctx H; [by rewrite app_nil_r|].
  simpl. rewrite cons_middle, app_assoc. by apply IH, update_byte_has_read.
Qed.

(** ** Padding *)

Lemma fill_zeros (data : list Z) i n : (i + n ≤ length data)%nat →
  foldl (λ d j, <[j := 0]> d) data (seq i n) = take i data ++ replicate n 0 ++ drop (i + n) data.
Proof.
  revert data i. induction n as [|n IH]; intros data i H.
  - simpl. by rewrite Nat.add_0_r, take_drop.
  - simpl. rewrite IH by (rewrite length_insert; lia).
    rewrite <- (Nat.add_1_r i), take_insert_snoc by lia. rewrite drop_insert_lt by lia.
    by rewrite <- app_assoc, <- Nat.add_assoc.
Qed.

Lemma pad_until_spec lim i (data : list Z) : (i < lim)%nat → (lim ≤ length data)%nat →
  pad_until lim i data = take i data ++ [0x80] ++ replicate (lim - (i + 1)) 0 ++ drop lim data.
Proof.
  intros Hi Hl. unfold pad_until. rewrite fill_zeros by (rewrite length_insert; lia).
  rewrite take_insert_snoc, drop_insert_lt by lia. rewrite <- app_assoc. by replace (i + 1 + (lim - (i + 1)))%nat with lim by lia.
Qed.

Lemma store_bitlen_spec bitlen (front tail : list Z) : length front = 56%nat → length tail = 8%nat →
  store_bitlen bitlen (front ++ tail) = front ++ be64 bitlen.
Proof.
  intros Hf Ht. do 8 (destruct tail as [|? tail]; [done|]). destruct tail; [|done].
  do 56 (destruct front as [|? front]; [done|]). by destruct front.
Qed.

Lemma be64_u64 z : be64 (u64 z) = be64 z.
Proof.
  unfold be64. apply list_fmap_ext. intros i j Hj%list_elem_of_lookup_2.
  assert (0 ≤ j ≤ 7) by (set_unfold; lia). unfold u8, u64.
  change 18446744073709551616 with (2 ^ 64). change 256 with (2 ^ 8).
  apply Z.bits_inj'. intros n Hn. destruct (decide (n < 8)).
  - rewrite !Z.mod_pow2_bits_low, !Z.shiftr_spec by lia. by rewrite Z.mod_pow2_bits_low by lia.
  - by rewrite !Z.mod_pow2_bits_high by lia.
Qed.

Lemma be64_length z : length (be64 z) = 8%nat.
Proof. done. Qed.

Lemma chunks_concat bs : Forall (λ b : list Z, length b = 64%nat) bs →
  chunks (length (concat bs) / 64) (concat bs) = bs.
Proof.
  induction 1 as [|b bs Hb _ IH]; [done|]. cbn [concat].
  rewrite length_app, Hb. replace (64 + length (concat bs))%nat with (1 * 64 + length (concat bs))%nat by lia.
  rewrite Nat.div_add_l by lia. cbn [chunks Nat.add]. rewrite take_app_le, take_ge, drop_app_ge, Hb, Nat.sub_diag, drop_0 by lia. by rewrite IH.
Qed.

Lemma concat_blocks_length bs : Forall (λ b : list Z, length b = 64%nat) bs → length (concat bs) = (64 * length bs)%nat.
Proof. induction 1 as [|b bs Hb _ IH]; [done|]. simpl. rewrite length_app. lia. Qed.

(** The last blocks of a message that ends with [rest]. *)
Definition last_blocks (rest : list Z) (bits : Z) : list (list Z) :=
  let r := length rest in
  if (r <? 56)%nat then [rest ++ [0x80] ++ replicate (55 - r) 0 ++ be64 bits]
  else [rest ++ [0x80] ++ replicate (63 - r) 0; replicate 56 0 ++ be64 bits].

Lemma padded_blocks bs rest : Forall (λ b, length b = 64%nat) bs → (length rest < 64)%nat →
  padded (concat bs ++ rest) =
    concat (bs ++ last_blocks rest (8 * Z.of_nat (length (concat bs ++ rest)))) ∧
  Forall (λ b, length b = 64%nat) (bs ++ last_blocks rest (8 * Z.of_nat (length (concat bs ++ rest)))).
Proof.
  intros Hbs Hr. set (z := 8 * _). unfold padded, last_blocks. fold z.
  rewrite concat_app, <- app_assoc, length_app, concat_blocks_length by done.
  replace ((64 * length bs + length rest) mod 64)%nat with (length rest)
    by (rewrite Nat.add_comm, (Nat.mul_comm 64), Nat.Div0.mod_add; symmetry; by apply Nat.mod_small).
  rewrite Forall_app. destruct (_ <? 56)%nat eqn:E.
  - apply Nat.ltb_lt in E. replace ((119 - length rest) mod 64)%nat with (55 - length rest)%nat.
    2: { replace (119 - length rest)%nat with (55 - length rest + 1 * 64)%nat by lia.
         rewrite Nat.Div0.mod_add. symmetry. apply Nat.mod_small. lia. }
    split; [by simpl; rewrite app_nil_r|]. split; [done|]. constructor; [|constructor].
    rewrite !length_app, length_replicate, be64_length. simpl. lia.
  - apply Nat.ltb_ge in E. rewrite (Nat.mod_small (119 - length rest)) by lia. split.
    + cbn [concat]. rewrite app_nil_r, <- !app_assoc. do 3 f_equal.
      replace (119 - length rest)%nat with ((63 - length rest) + 56)%nat by lia.
      by rewrite replicate_add, <- app_assoc.
    + split; [done|]. repeat constructor; rewrite !length_app, ?length_replicate, ?be64_length; simpl; lia.
Qed.

Lemma final_has_read msg ctx : has_read msg ctx → sha256_final ctx = sha256 msg.
Proof.
  intros (bs & rest & -> & [Hbs Hr Hsz Hdl Hd Hbl Hst]).
  destruct (padded_blocks bs rest Hbs Hr) as [Hpad Hall]. unfold sha256. rewrite Hpad, chunks_concat by done.
  rewrite foldl_app, <- Hst. unfold sha256_final. rewrite Hdl, Hbl.
  assert (be64 (u64 (u64 (512 * Z.of_nat (length bs)) + Z.of_nat (length rest) * 8)) =
          be64 (8 * Z.of_nat (length (concat bs ++ rest)))) as Hbits.
  { rewrite be64_u64. rewrite <- (be64_u64 (_ + _)), u64_add, be64_u64. f_equal.
    rewrite length_app, concat_blocks_length by done. lia. }
  unfold last_blocks. destruct (_ <? 56)%nat eqn:E.
  - apply Nat.ltb_lt in E. cbn [ctx_data ctx_state ctx_datalen ctx_bitlen sha256_transform foldl].
    rewrite pad_until_spec, Hd, !app_assoc by lia.
    rewrite store_bitlen_spec by (rewrite ?length_app, ?length_replicate, ?length_drop; simpl; lia).
    rewrite Hbits, <- !app_assoc. by replace (56 - (length rest + 1))%nat with (55 - length rest)%nat by lia.
  - apply Nat.ltb_ge in E. cbn [ctx_data ctx_state ctx_datalen ctx_bitlen sha256_transform foldl].
    rewrite pad_until_spec, Hd, (drop_ge (ctx_data ctx)), app_nil_r by lia.
    replace (64 - (length rest + 1))%nat with (63 - length rest)%nat by lia.
    rewrite store_bitlen_spec by
      (rewrite ?length_drop, ?length_app, ?length_replicate; simpl; lia).
    by rewrite Hbits.
Qed.

Lemma update_pieces_has_read pieces msg ctx :
  has_read msg ctx → has_read (msg ++ concat pieces) (foldl sha256_update ctx pieces).
Proof.
  revert msg ctx. induction pieces as [|p pieces IH]; intros msg ctx H; [by rewrite app_nil_r|].
  simpl. rewrite app_assoc. by apply IH, update_has_read.
Qed.

Lemma streaming_sha256 stack pieces : length (ctx_data stack) = 64%nat →
  sha256_final (foldl sha256_update (sha256_init stack) pieces) = sha256 (concat pieces).
Proof. intros H. apply final_has_read. by apply (update_pieces_has_read pieces []), init_has_read. Qed.

(** ** Sizes *)

Lemma round_length st km : length st = 8%nat → length (round st km) = 8%nat.
Proof. intros H. do 8 (destruct st as [|? st]; [done|]). by destruct st. Qed.

Lemma compress_length st b : length st = 8%nat → length (compress st b) = 8%nat.
Proof.
  intros H. unfold compress. rewrite length_zip_with. cut (length (foldl round st (zip k (message_words b))) = 8%nat); [lia|].
  generalize (zip k (message_words b)) as l. revert H. intros H l. revert st H.
  induction l as [|x l IH]; intros st H; [done|]. simpl. by apply IH, round_length.
Qed.

Lemma sha256_length msg : length (sha256 msg) = 32%nat.
Proof.
  unfold sha256. generalize (chunks (length (padded msg) / 64) (padded msg)) as l. intros l.
  assert (length (foldl compress H0 l) = 8%nat) as H.
  { assert (length H0 = 8%nat) as H by done. revert H. generalize H0 as st.
    induction l as [|x l IH]; intros st H; [done|]. simpl. by apply IH, compress_length. }
  revert H. generalize (foldl compress H0 l) as st. intros st H.
  do 8 (destruct st as [|? st]; [done|]). by destruct st.
Qed.

Lemma hmac_sha256_spec stack key data : length (ctx_data stack) = 64%nat → hmac_sha256 stack key data = hmac key data.
Proof.
  intros Hs. unfold hmac_sha256, hmac.
  pose proof (streaming_sha256 stack [key] Hs) as Hkey. simpl in Hkey. rewrite app_nil_r in Hkey. rewrite Hkey.
  assert ((if (64 <? length key)%nat then sha256 key ++ replicate 32 0 else key ++ replicate (64 - length key) 0) =
          (let h := if (64 <? length key)%nat then sha256 key else key in h ++ replicate (64 - length h) 0)) as ->.
  { cbv zeta. destruct (_ <? _)%nat; [by rewrite sha256_length|done]. }
  cbv zeta. set (key0 := (_ ++ replicate (64 - _) 0)). pose proof (streaming_sha256 stack [xor_all 0x36 key0; data] Hs) as Hi. simpl in Hi.
  rewrite app_nil_r in Hi. rewrite Hi.
  pose proof (streaming_sha256 stack [xor_all 0x5c key0; sha256 (xor_all 0x36 key0 ++ data)] Hs) as Ho. simpl in Ho.
  by rewrite app_nil_r in Ho.
Qed.

Lemma pbkdf2_iterations stack password salt n : length (ctx_data stack) = 64%nat →
  let u := pbkdf2_u password salt in
  Nat.iter n (pbkdf2_step stack password) (u 0%nat, u 0%nat) =
  (foldl (zip_with Z.lxor) (u 0%nat) (map u (seq 1 n)), u n).
Proof.
  intros Hs u. induction n as [|n IH]; [done|]. rewrite Nat.iter_succ, IH. cbn [pbkdf2_step].
  rewrite hmac_sha256_spec by done. rewrite seq_S, map_app, foldl_app. done.
Qed.

Lemma pbkdf2_sha256_spec stack password salt c : length (ctx_data stack) = 64%nat → 1 ≤ c →
  pbkdf2_sha256 stack password salt c = pbkdf2 (bytes_of_string password) salt (Z.to_nat c).
Proof.
  intros Hs Hc. unfold pbkdf2_sha256. rewrite hmac_sha256_spec by done.
  rewrite iter_nat_of_Z by lia. change (nat_rect _ _ _ (Z.abs_nat (c - 1))) with
    (Nat.iter (Z.abs_nat (c - 1)) (pbkdf2_step stack (bytes_of_string password))
       (pbkdf2_u (bytes_of_string password) salt 0, pbkdf2_u (bytes_of_string password) salt 0)).
  rewrite pbkdf2_iterations by done. unfold pbkdf2. simpl. by replace (Z.abs_nat (c - 1)) with (Z.to_nat c - 1)%nat by lia.
Qed.

(** ** Bytes *)

Definition is_byte (z : Z) : Prop := 0 ≤ z < 256.

Lemma is_byte_shiftr z : is_byte z ↔ 0 ≤ z ∧ Z.shiftr z 8 = 0.
Proof.
  unfold is_byte. rewrite Z.shiftr_div_pow2 by lia. change (2 ^ 8) with 256. split; intros [H1 H2].
  - split; [done|]. apply Z.div_small. lia.
  - split; [done|]. apply Z.div_small_iff in H2; lia.
Qed.

Lemma is_byte_lxor a b : is_byte a → is_byte b → is_byte (Z.lxor a b).
Proof.
  rewrite !is_byte_shiftr. intros [? Ha] [? Hb]. split; [by apply Z.lxor_nonneg|]. by rewrite Z.shiftr_lxor, Ha, Hb.
Qed.

Lemma is_byte_lor a b : is_byte a → is_byte b → is_byte (Z.lor a b).
Proof.
  rewrite !is_byte_shiftr. intros [? Ha] [? Hb]. split; [by apply Z.lor_nonneg|]. by rewrite Z.shiftr_lor, Ha, Hb.
Qed.

Lemma u8_byte z : is_byte z → u8 z = z.
Proof. apply Z.mod_small. Qed.

Lemma char_code_byte c : is_byte (char_code c).
Proof. unfold char_code, is_byte. pose proof (N_ascii_bounded c). lia. Qed.

#[export] Hint Resolve is_byte_lxor is_byte_lor char_code_byte : clib.

Lemma bytes_of_string_bytes s : Forall is_byte (bytes_of_string s).
Proof. induction s; constructor; auto with clib. Qed.

Lemma bytes_of_string_length s : length (bytes_of_string s) = str_len s.
Proof. induction s; simpl; congruence. Qed.

Lemma char_code_inj c d : char_code c = char_code d → c = d.
Proof. unfold char_code. intros H%N2Z.inj. by rewrite <- (ascii_N_embedding c), H, ascii_N_embedding. Qed.

Lemma bytes_of_string_inj s t : bytes_of_string s = bytes_of_string t → s = t.
Proof.
  revert t. induction s as [|c s IH]; intros [|d t]; simpl; intros H; try done.
  injection H as H1%char_code_inj H2%IH. congruence.
Qed.

(** Results are 32 bytes. *)
Definition digest (l : list Z) : Prop := length l = 32%nat ∧ Forall is_byte l.

Lemma digest_bytes_byte st : Forall is_byte (digest_bytes st).
Proof.
  unfold digest_bytes. apply Forall_forall. intros b (w & Hb & _)%list_elem_of_bind.
  apply list_elem_of_fmap in Hb as (i & -> & _). change 0xff with (Z.ones 8). rewrite Z.land_ones by lia.
  apply Z.mod_pos_bound. lia.
Qed.

Lemma sha256_digest msg : digest (sha256 msg).
Proof. split; [apply sha256_length|apply digest_bytes_byte]. Qed.

Lemma digest_lxor a b : digest a → digest b → digest (zip_with Z.lxor a b).
Proof.
  intros [La Ha] [Lb Hb]. split; [rewrite length_zip_with; lia|].
  clear La Lb. revert b Hb. induction Ha as [|x a Hx Ha IH]; intros [|y b] Hb; simpl; try constructor; inversion Hb; subst;
    auto with clib.
Qed.

Lemma hmac_digest key msg : digest (hmac key msg).
Proof. apply sha256_digest. Qed.

Lemma pbkdf2_digest password salt c : digest (pbkdf2 password salt c).
Proof.
  unfold pbkdf2. assert (digest (pbkdf2_u password salt 0)) as H by apply hmac_digest. revert H.
  generalize (pbkdf2_u password salt 0) as u. generalize (seq 1 (c - 1)) as l.
  induction l as [|i l IH]; intros u H; [done|]. simpl. apply IH, digest_lxor; [done|]. destruct i; apply hmac_digest.
Qed.
