(* ===== verification/Auth.v ===== *)
(** Authentication, src/http/auth.c: API keys, looked up by the SHA-256 of the
    header, and salted password hashes with their two legacy formats.  Hashing
    itself is in Sha256.v.  The random bytes of the operating system are an
    argument; a NULL pointer is [None]. *)
From S2P Require Import Prelude Sql Db DbAdmin DbProps Config Sha256.

(** ** Hexadecimal *)

Definition hex_digit (v : Z) : ascii := default "0"%char (String.get (Z.to_nat v) "0123456789abcdef").

Fixpoint bytes_to_hex (bytes : list Z) : string :=
  match bytes with
  | [] => EmptyString
  | b :: bytes => String (hex_digit (Z.shiftr b 4)) (String (hex_digit (Z.land b 15)) (bytes_to_hex bytes))
  end.

Definition hex_value (character : ascii) : Z :=
  if in_range 48 57 character then char_code character - 48
  else if in_range 97 102 character then char_code character - 97 + 10
  else if in_range 65 70 character then char_code character - 65 + 10
  else -1.

(** The loop, [n] bytes; the end of the string is a digit without value. *)
Fixpoint hex_loop (n : nat) (hex : string) : option (list Z) :=
  match n, hex with
  | O, _ => Some []
  | S n, String h (String l hex) =>
      let high := hex_value h in
      let low := hex_value l in
      if (high <? 0) || (low <? 0) then None
      else (λ bytes, u8 (Z.lor (Z.shiftl high 4) low) :: bytes) <$> hex_loop n hex
  | S _, _ => None
  end.

Definition hex_to_bytes (hex : string) (hex_length : nat) : option (list Z) :=
  if negb (Nat.even hex_length) then None else hex_loop (hex_length / 2) hex.

(** ** Constant-time comparison *)

Definition ct_compare (a b : list Z) (len : nat) : bool :=
  foldl (λ result i, u8 (Z.lor result (Z.lxor (nth i a 0) (nth i b 0)))) 0 (seq 0 len) =? 0.

Definition PBKDF2_ITERATIONS : Z := 120000.
Definition PBKDF2_PREFIX : string := "pbkdf2-sha256$".
Definition AUTH_PASSWORD_HASH_LEN : nat := 160.

Section with_stack.
Context (stack : SHA256_CTX).

(** [sprintf("%02x")] of every byte is [bytes_to_hex]. *)
Definition sha256_hex (input : string) : string :=
  bytes_to_hex (sha256_final (sha256_update (sha256_init stack) (bytes_of_string input))).

(** ** API keys *)

Definition isxdigit (c : ascii) : bool := is_digit c || in_range 97 102 c || in_range 65 70 c.

(** The value of the X-API-Key header, if any; 0 is [None]. *)
Definition extract_key_hash (hdr : option string) : option string :=
  match hdr with
  | None => None
  | Some raw_key =>
      if (str_len raw_key =? 0)%nat then None
      else if negb (str_len raw_key =? 64)%nat then None
      else if negb (str_forallb isxdigit raw_key) then None
      else Some (sha256_hex raw_key)
  end.

Definition auth_check (hdr : option string) : ST Db bool :=
  match extract_key_hash hdr with
  | None => mret false
  | Some hash => db_validate_api_key hash
  end.

(** [Some (role, user)] is 1 with both outputs. *)
Definition auth_check_role_user (hdr : option string) : ST Db (option (string * string)) :=
  match extract_key_hash hdr with
  | None => mret None
  | Some hash => db_resolve_api_key_full hash 128
  end.

Definition auth_check_role (hdr : option string) : ST Db (option string) :=
  r ← auth_check_role_user hdr; mret (fst <$> r).

Definition auth_hash_key (raw_key : string) : string := sha256_hex raw_key.

(** ** Passwords *)

(** [random] is what [secure_random] reads; 0 is [Some], with the buffer. *)
Definition auth_hash_password (password : option string) (random : option (list Z)) : option string :=
  match password, random with
  | Some password, Some salt =>
      let derived := pbkdf2_sha256 stack password salt PBKDF2_ITERATIONS in
      let salt_hex := bytes_to_hex salt in
      let derived_hex := bytes_to_hex derived in
      let written := PBKDF2_PREFIX +:+ dec PBKDF2_ITERATIONS +:+ "$" +:+ salt_hex +:+ "$" +:+ derived_hex in
      if (0 <? str_len written)%nat && (str_len written <? AUTH_PASSWORD_HASH_LEN)%nat
      then Some (cbuf AUTH_PASSWORD_HASH_LEN written) else None
  | _, _ => None
  end.

(** After the prefix: iterations, salt and derived key.  [strtol] without
    digits returns 0, which is below 10000. *)
Definition verify_pbkdf2 (password iteration_text : string) : bool :=
  match strtol iteration_text with
  | Some (iterations, String "$" salt_hex) =>
      if (iterations <? 10000) || (10000000 <? iterations) then false
      else
        match split_at "$" salt_hex with
        | (before, Some derived_hex) =>
            if negb (str_len before =? 32)%nat || negb (str_len derived_hex =? 64)%nat then false
            else
              match hex_to_bytes salt_hex 32, hex_to_bytes derived_hex 64 with
              | Some salt, Some expected =>
                  ct_compare (pbkdf2_sha256 stack password salt iterations) expected 32
              | _, _ => false
              end
        | _ => false
        end
  | _ => false
  end.

(** [strlen(hash) != strlen(expected)], then [ct_compare]. *)
Definition compare_hash (hash expected : string) : bool :=
  if negb (str_len hash =? str_len expected)%nat then false
  else ct_compare (bytes_of_string hash) (bytes_of_string expected) (str_len hash).

Definition auth_verify_password (password stored : option string) : bool :=
  match password, stored with
  | Some password, Some stored =>
      if str_prefix PBKDF2_PREFIX stored then verify_pbkdf2 password (str_drop (str_len PBKDF2_PREFIX) stored)
      else
        match split_at "$" stored with
        | (_, None) => compare_hash (sha256_hex password) stored
        | (salt, Some expected) =>
            if (str_len salt =? 0)%nat || (32 <? str_len salt)%nat then false
            else compare_hash (sha256_hex (cbuf 580 (salt +:+ password))) expected
        end
  | _, _ => false
  end.
End with_stack.

Definition auth_password_needs_rehash (stored_hash : option string) : bool :=
  match stored_hash with
  | None => true
  | Some stored_hash =>
      if negb (str_prefix PBKDF2_PREFIX stored_hash) then true
      else negb (default 0 (fst <$> strtol (str_drop (str_len PBKDF2_PREFIX) stored_hash)) =? PBKDF2_ITERATIONS)
  end.

(** ** Hexadecimal round trip *)

Lemma hex_byte b : is_byte b →
  0 ≤ hex_value (hex_digit (Z.shiftr b 4)) ∧ 0 ≤ hex_value (hex_digit (Z.land b 15)) ∧
  u8 (Z.lor (Z.shiftl (hex_value (hex_digit (Z.shiftr b 4))) 4) (hex_value (hex_digit (Z.land b 15)))) = b ∧
  hex_digit (Z.shiftr b 4) ≠ "$"%char ∧ hex_digit (Z.land b 15) ≠ "$"%char.
Proof.
  intros Hb. pose (ok b := let h := hex_digit (Z.shiftr b 4) in let l := hex_digit (Z.land b 15) in
    (0 <=? hex_value h) && (0 <=? hex_value l) && (u8 (Z.lor (Z.shiftl (hex_value h) 4) (hex_value l)) =? b) &&
    negb (Ascii.eqb h "$") && negb (Ascii.eqb l "$")).
  assert (forallb (λ n, ok (Z.of_nat n)) (seq 0 256) = true) as H by by vm_compute.
  assert (ok b = true) as Hok.
  { rewrite forallb_forall in H. specialize (H (Z.to_nat b)). unfold is_byte in Hb.
    rewrite Z2Nat.id in H by lia. apply H, in_seq. lia. }
  unfold ok in Hok. cbv zeta in Hok. bool_prop.
  repeat split; first [assumption | by apply Ascii.eqb_neq].
Qed.

Lemma hex_loop_hex bs rest : Forall is_byte bs → hex_loop (length bs) (bytes_to_hex bs +:+ rest) = Some bs.
Proof.
  induction 1 as [|b bs Hb _ IH]; [done|]. destruct (hex_byte b Hb) as (Hh & Hl & Hv & _).
  cbn [length bytes_to_hex]. change (hex_loop (S ?n) (String ?h (String ?l ?s) +:+ ?r))
    with (hex_loop (S n) (String h (String l (s +:+ r)))). cbn [hex_loop]. rewrite (proj2 (Z.ltb_ge _ _) Hh), (proj2 (Z.ltb_ge _ _) Hl). simpl.
  rewrite IH. simpl. by rewrite Hv.
Qed.

Lemma bytes_to_hex_len bs : str_len (bytes_to_hex bs) = (2 * length bs)%nat.
Proof. induction bs; simpl; lia. Qed.

Lemma split_at_none c s : str_has c s = false → split_at c s = (s, None).
Proof.
  induction s as [|d s IH]; [done|]. simpl. intros [H1 H2]%orb_false_elim.
  rewrite (Ascii.eqb_sym d c), H1. by rewrite IH.
Qed.

Lemma split_at_app c s t : str_has c s = false → split_at c (s +:+ String c t) = (s, Some t).
Proof.
  induction s as [|d s IH]; simpl; [by rewrite Ascii.eqb_refl|]. intros [H1 H2]%orb_false_elim.
  rewrite (Ascii.eqb_sym d c), H1. by rewrite IH.
Qed.

Lemma bytes_to_hex_no_dollar bs : Forall is_byte bs → str_has "$" (bytes_to_hex bs) = false.
Proof.
  induction 1 as [|b bs Hb _ IH]; [done|]. destruct (hex_byte b Hb) as (_ & _ & _ & Hh & Hl).
  cbn [bytes_to_hex str_has]. rewrite IH.
  destruct (Ascii.eqb_spec "$" (hex_digit (Z.shiftr b 4))), (Ascii.eqb_spec "$" (hex_digit (Z.land b 15))); congruence || done.
Qed.

(** ** Comparison *)

Lemma ct_fold a b r i n : is_byte r → Forall is_byte a → Forall is_byte b →
  foldl (λ result i, u8 (Z.lor result (Z.lxor (nth i a 0) (nth i b 0)))) r (seq i n) = 0 ↔
  r = 0 ∧ ∀ j, (i ≤ j < i + n)%nat → nth j a 0 = nth j b 0.
Proof.
  intros Hr Ha Hb.
  assert (∀ l j, Forall is_byte l → is_byte (nth j l 0)) as Hnth.
  { intros l j Hl. revert j. induction Hl; intros [|j]; simpl; try done; unfold is_byte; auto; lia. }
  revert r i Hr. induction n as [|n IH]; intros r i Hr.
  - simpl. split; [intros ->|by intros []]. split; [done|lia].
  - simpl. rewrite u8_byte by auto with clib. rewrite IH by auto with clib.
    rewrite Z.lor_eq_0_iff. rewrite Z.lxor_eq_0_iff. split.
    + intros [[-> He] H]. split; [done|]. intros j Hj. destruct (decide (j = i)) as [->|]; [done|]. apply H. lia.
    + intros [-> H]. split; [split; [done|]; apply H; lia|]. intros j Hj. apply H. lia.
Qed.

Lemma ct_compare_spec a b n : length a = n → length b = n → Forall is_byte a → Forall is_byte b →
  ct_compare a b n = bool_decide (a = b).
Proof.
  intros La Lb Ha Hb. apply eq_true_iff_eq. unfold ct_compare. rewrite Z.eqb_eq, bool_decide_eq_true.
  rewrite ct_fold by (done || unfold is_byte; lia). split; [|by intros ->].
  intros [_ H]. apply nth_ext with 0 0; [lia|]. intros j Hj. apply H. lia.
Qed.

Lemma compare_hash_spec hash expected : compare_hash hash expected = String.eqb hash expected.
Proof.
  unfold compare_hash. destruct (str_len hash =? str_len expected)%nat eqn:E; simpl.
  - apply Nat.eqb_eq in E. rewrite ct_compare_spec by
      (rewrite ?bytes_of_string_length; auto using bytes_of_string_bytes).
    apply eq_true_iff_eq. rewrite bool_decide_eq_true, String.eqb_eq. split; [apply bytes_of_string_inj|by intros ->].
  - destruct (String.eqb_spec hash expected) as [->|]; [|done]. by rewrite Nat.eqb_refl in E.
Qed.

Lemma sha256_hex_spec stack s : length (ctx_data stack) = 64%nat →
  sha256_hex stack s = bytes_to_hex (sha256 (bytes_of_string s)).
Proof.
  intros H. unfold sha256_hex. f_equal. pose proof (streaming_sha256 stack [bytes_of_string s] H) as Hs.
  simpl in Hs. by rewrite app_nil_r in Hs.
Qed.

(** ** Stored passwords *)

(** Only a text whose part before the first [$] is that of the prefix is read
    as a PBKDF2 hash. *)
Lemma pbkdf2_prefix_split stored : str_prefix PBKDF2_PREFIX stored = true →
  (split_at "$" stored).1 = "pbkdf2-sha256" ∧ (split_at "$" stored).2 ≠ None.
Proof.
  intros H%str_prefix_drop. rewrite H. change (PBKDF2_PREFIX +:+ ?s) with ("pbkdf2-sha256" +:+ String "$" s).
  by rewrite split_at_app.
Qed.

Lemma strtol_iterations rest : strtol (dec PBKDF2_ITERATIONS +:+ String "$" rest) = Some (PBKDF2_ITERATIONS, String "$" rest).
Proof. reflexivity. Qed.

Definition pbkdf2_text (salt derived : list Z) : string :=
  dec PBKDF2_ITERATIONS +:+ "$" +:+ bytes_to_hex salt +:+ "$" +:+ bytes_to_hex derived.

Lemma verify_pbkdf2_text stack password salt derived :
  length (ctx_data stack) = 64%nat → length salt = 16%nat → Forall is_byte salt → digest derived →
  verify_pbkdf2 stack password (pbkdf2_text salt derived) =
  bool_decide (pbkdf2 (bytes_of_string password) salt (Z.to_nat PBKDF2_ITERATIONS) = derived).
Proof.
  intros Hs Hl Hsalt [Ld Hd]. unfold verify_pbkdf2, pbkdf2_text.
  change ("$" +:+ bytes_to_hex derived) with (String "$" (bytes_to_hex derived)).
  change ("$" +:+ (?s +:+ ?t)) with (String "$" (s +:+ t)). rewrite strtol_iterations.
  change ((PBKDF2_ITERATIONS <? 10000) || (10000000 <? PBKDF2_ITERATIONS)) with false. cbv iota.
  rewrite split_at_app by (by apply bytes_to_hex_no_dollar). rewrite !bytes_to_hex_len, Hl, Ld.
  change (negb (2 * 16 =? 32)%nat || negb (2 * 32 =? 64)%nat) with false. cbv iota.
  unfold hex_to_bytes. change (negb (Nat.even 32)) with false. change (negb (Nat.even 64)) with false. cbv iota.
  change (32 / 2)%nat with 16%nat. change (64 / 2)%nat with 32%nat.
  pose proof (hex_loop_hex salt (String "$" (bytes_to_hex derived)) Hsalt) as H1. rewrite Hl in H1. rewrite H1.
  pose proof (hex_loop_hex derived "" Hd) as H2. rewrite Ld, str_app_nil in H2. rewrite H2.
  rewrite pbkdf2_sha256_spec by (done || unfold PBKDF2_ITERATIONS; lia).
  pose proof (pbkdf2_digest (bytes_of_string password) salt (Z.to_nat PBKDF2_ITERATIONS)) as [La Ha].
  by apply ct_compare_spec; try assumption.
Qed.

Lemma hash_password_text stack password salt :
  length (ctx_data stack) = 64%nat → length salt = 16%nat →
  auth_hash_password stack (Some password) (Some salt) =
  Some (PBKDF2_PREFIX +:+ pbkdf2_text salt (pbkdf2 (bytes_of_string password) salt (Z.to_nat PBKDF2_ITERATIONS))).
Proof.
  intros Hs Hl. unfold auth_hash_password.
  rewrite pbkdf2_sha256_spec by (done || unfold PBKDF2_ITERATIONS; lia).
  pose proof (pbkdf2_digest (bytes_of_string password) salt (Z.to_nat PBKDF2_ITERATIONS)) as [La _].
  revert La. generalize (pbkdf2 (bytes_of_string password) salt (Z.to_nat PBKDF2_ITERATIONS)) as d. intros d La.
  cbv zeta. fold (pbkdf2_text salt d).
  assert (str_len (PBKDF2_PREFIX +:+ pbkdf2_text salt d) = 118%nat) as Hlen.
  { unfold pbkdf2_text. rewrite !str_len_app, !bytes_to_hex_len, Hl, La. reflexivity. }
  rewrite Hlen. cbn [Nat.ltb Nat.leb andb]. by rewrite cbuf_id by (rewrite Hlen; unfold AUTH_PASSWORD_HASH_LEN; lia).
Qed.

(** ** Properties *)



(** C34. A password hash made by the program is accepted by the verification
    for exactly the passwords with the same derived key, the original one
    among them, and needs no rehash; a legacy unsalted text is compared with
    the SHA-256 of the password, a legacy salted one with that of the salt
    and the password, provided that both fit the buffer, and both need a
    rehash. *)
Theorem password_verification_is_exact (stack : SHA256_CTX) (Hs : length (ctx_data stack) = 64%nat) :
  (∀ password password' salt, length salt = 16%nat → Forall is_byte salt →
     ∃ stored,
       auth_hash_password stack (Some password) (Some salt) = Some stored ∧
       auth_password_needs_rehash (Some stored) = false ∧
       auth_verify_password stack (Some password') (Some stored) =
         bool_decide (pbkdf2 (bytes_of_string password') salt (Z.to_nat PBKDF2_ITERATIONS) =
                      pbkdf2 (bytes_of_string password) salt (Z.to_nat PBKDF2_ITERATIONS))) ∧
  (∀ password stored, str_has "$" stored = false →
     auth_password_needs_rehash (Some stored) = true ∧
     auth_verify_password stack (Some password) (Some stored) =
       String.eqb (bytes_to_hex (sha256 (bytes_of_string password))) stored) ∧
  (∀ password salt expected, str_has "$" salt = false → salt ≠ "" → salt ≠ "pbkdf2-sha256" →
     (str_len salt ≤ 32)%nat → (str_len (salt +:+ password) < 580)%nat →
     auth_password_needs_rehash (Some (salt +:+ "$" +:+ expected)) = true ∧
     auth_verify_password stack (Some password) (Some (salt +:+ "$" +:+ expected)) =
       String.eqb (bytes_to_hex (sha256 (bytes_of_string (salt +:+ password)))) expected).
Proof.
  split_and!.
  - intros password password' salt Hl Hb. eexists. split; [by apply hash_password_text|].
    split; [reflexivity|]. unfold auth_verify_password. 
    change (str_prefix PBKDF2_PREFIX (PBKDF2_PREFIX +:+ ?t)) with true. cbv iota.
    change (str_drop (str_len PBKDF2_PREFIX) (PBKDF2_PREFIX +:+ ?t)) with t.
    apply verify_pbkdf2_text; [done..|apply pbkdf2_digest].
  - intros password stored Hno. unfold auth_password_needs_rehash, auth_verify_password.
    destruct (str_prefix _ _) eqn:E.
    { apply pbkdf2_prefix_split in E as [_ E]. by rewrite split_at_none in E. }
    split; [done|]. rewrite split_at_none by done. by rewrite compare_hash_spec, sha256_hex_spec.
  - intros password salt expected Hno Hne Hnp Hl Hfit. unfold auth_password_needs_rehash, auth_verify_password.
    change ("$" +:+ expected) with (String "$" expected). destruct (str_prefix _ _) eqn:E.
    { apply pbkdf2_prefix_split in E as [E _]. by rewrite split_at_app in E. }
    split; [done|]. rewrite split_at_app by done.
    destruct (str_len salt =? 0)%nat eqn:E0; [apply Nat.eqb_eq in E0; by destruct salt|].
    rewrite (proj2 (Nat.ltb_ge _ _) Hl). simpl. by rewrite compare_hash_spec, sha256_hex_spec, cbuf_id.
Qed.

Lemma password_verification_is_exact_witness :
  let stack := mkCtx (replicate 64 7) 3 9 [] in
  auth_verify_password stack (Some "secret") (Some "2bb80d537b1da3e38bd30361aa855686bde0eacd7162fef6a25fe97bf527a25b") = true ∧
  auth_verify_password stack (Some "other") (Some "2bb80d537b1da3e38bd30361aa855686bde0eacd7162fef6a25fe97bf527a25b") = false ∧
  auth_password_needs_rehash (Some ("salt" +:+ "$" +:+ "x")) = true ∧
  ∃ stored, auth_hash_password stack (Some "secret") (Some (replicate 16 5)) = Some stored ∧
    auth_verify_password stack (Some "secret") (Some stored) = true.
Proof.
  intros stack. pose proof (password_verification_is_exact stack eq_refl) as (H1 & H2 & H3). split_and!.
  - erewrite (λ h, proj2 (H2 "secret" _ h)) by by vm_compute. by vm_compute.
  - erewrite (λ h, proj2 (H2 "other" _ h)) by by vm_compute. by vm_compute.
  - apply (H3 "pw" "salt" "x"); [done..|simpl; lia|simpl; lia].
  - destruct (H1 "secret" "secret" (replicate 16 5)) as (stored & Hst & _ & Hv); [done|repeat constructor; unfold is_byte; lia|].
    exists stored. split; [exact Hst|]. rewrite Hv. exact (bool_decide_eq_true_2 _ eq_refl).
Defined.

Lemma resolve_some (key_hash : string) n d role user d' :
  db_resolve_api_key_full key_hash n d = (Some (role, user), d') →
  ∃ k, k ∈ t_api_keys (tables d) ∧ k_key_hash k = key_hash ∧ k_revoked k = 0 ∧
       (k_expires_at k ≤ 0 ∨ clock d ≤ k_expires_at k) ∧
       role = cbuf 16 (k_role k) ∧ user = cbuf n (k_user_id k).
Proof.
  unfold db_resolve_api_key_full. rewrite bind_step. destruct (query _ d) as [r d1] eqn:Eq. cbn [fst snd].
  apply query_spec in Eq as ((_ & _ & Hclk) & _ & Hrows). rewrite bind_step. cbn [fst snd st_gets].
  destruct (head (rows_of 1 r)) as [k|] eqn:Eh; [|done]. rewrite Hclk. destruct (_ && _) eqn:Eexp; [done|].
  intros [= <- <- _]. exists k.
  assert (k ∈ where_ (λ k, key_is key_hash k && (k_revoked k =? 0)) (t_api_keys (tables d))) as Hk.
  { apply head_Some_elem_of in Eh. destruct r as [[rows done]|]; [|by apply not_elem_of_nil in Eh].
    assert (rows `sublist_of` where_ (λ k, key_is key_hash k && (k_revoked k =? 0)) (t_api_keys (tables d))) as Hsub.
    { destruct done; [subst rows; apply sublist_take|]. destruct Hrows as [n' ->].
      etrans; [apply sublist_take|apply sublist_take]. }
    eapply elem_of_sublist; [|exact Hsub]. eapply elem_of_sublist; [exact Eh|apply sublist_take]. }
  apply where_elem in Hk as [Hk Hin]. apply andb_prop in Hk as [Hk Hrev]. unfold key_is in Hk.
  apply String.eqb_eq in Hk. apply Z.eqb_eq in Hrev. split_and!; [done..| |done|done].
  apply andb_false_iff in Eexp as [E|E]; apply Z.ltb_ge in E; auto.
Qed.

(** A key that has just been stored authenticates its user until it expires. *)
Lemma stored_key_authenticates (stack : SHA256_CTX) raw label role user expires now d :
  healthy_db d → str_len raw = 64%nat → str_forallb isxdigit raw = true → role ≠ "" →
  auth_hash_key stack raw ∉ k_key_hash <$> t_api_keys (tables d) →
  let '(rc, d') := db_insert_api_key_full (auth_hash_key stack raw) label (Some role) (Some user) expires d in
  rc = 0 ∧
  (auth_check_role_user stack (Some raw) (set_clock now d')).1 =
    if (0 <? expires) && (expires <? now) then None else Some (cbuf 16 role, cbuf 128 user).
Proof.
  intros (_ & Ho & Hos) Hl Hx Hrole Hnew.
  unfold db_insert_api_key_full, dml_rc. rewrite bind_step, dml_healthy by done.
  destruct (existsb _ _) eqn:Ee.
  { apply existsb_exists in Ee as (k & Hk & Hkey). exfalso. apply Hnew. unfold key_is in Hkey.
    apply String.eqb_eq in Hkey as <-. apply list_elem_of_fmap_2. by apply list_elem_of_In. }
  simpl. split; [done|].
  assert (extract_key_hash stack (Some raw) = Some (auth_hash_key stack raw)) as Hex.
  { unfold extract_key_hash. by rewrite Hl, Hx. }
  unfold auth_check_role_user. rewrite Hex, resolve_healthy by (by destruct d). simpl.
  assert (∀ t', tables (set_clock now (set_changes 1 (set_tables t' d))) = t' ∧
                clock (set_clock now (set_changes 1 (set_tables t' d))) = now) as Ht by (by destruct d).
  rewrite !(proj1 (Ht _)), (proj2 (Ht _)). destruct (tables d) as [? keys]. simpl in *.
  unfold where_. rewrite filter_app, filter_none.
  - rewrite filter_cons_True by (unfold key_is; simpl; by rewrite String.eqb_refl). simpl.
    by rewrite (proj2 (str_nonempty_spec role)).
  - intros k Hk [Hkey _]%andb_prop. unfold key_is in Hkey. apply String.eqb_eq in Hkey.
    apply Hnew. rewrite <- Hkey. by apply list_elem_of_fmap_2.
Qed.

(** C32. Whatever the database does, a request is authenticated only by a
    header of 64 hexadecimal digits whose SHA-256 is the hash of a key that
    is neither revoked nor expired, and as that key's role and user; and a
    key that has just been stored for a user authenticates that user until
    it expires, not after. *)
Theorem requests_authenticate_by_valid_keys_only (stack : SHA256_CTX) (Hs : length (ctx_data stack) = 64%nat) :
  (∀ hdr d role user d', auth_check_role_user stack hdr d = (Some (role, user), d') →
     ∃ raw k, hdr = Some raw ∧ str_len raw = 64%nat ∧ str_forallb isxdigit raw = true ∧
       k ∈ t_api_keys (tables d) ∧ k_key_hash k = bytes_to_hex (sha256 (bytes_of_string raw)) ∧
       k_revoked k = 0 ∧ (k_expires_at k ≤ 0 ∨ clock d ≤ k_expires_at k) ∧
       role = cbuf 16 (k_role k) ∧ user = cbuf 128 (k_user_id k)) ∧
  (∀ raw label role user expires now d, healthy_db d → str_len raw = 64%nat → str_forallb isxdigit raw = true →
     role ≠ "" →
     auth_hash_key stack raw ∉ k_key_hash <$> t_api_keys (tables d) →
     let '(rc, d') := db_insert_api_key_full (auth_hash_key stack raw) label (Some role) (Some user) expires d in
     rc = 0 ∧
     (auth_check_role_user stack (Some raw) (set_clock now d')).1 =
       if (0 <? expires) && (expires <? now) then None else Some (cbuf 16 role, cbuf 128 user)).
Proof.
  split.
  - intros hdr d role user d' H. unfold auth_check_role_user in H.
    destruct (extract_key_hash stack hdr) as [hash|] eqn:E; [|done].
    apply resolve_some in H as (k & Hk & Hh & Hrest). destruct hdr as [raw|]; [|done]. unfold extract_key_hash in E.
    destruct (_ =? 0)%nat; [done|]. destruct (str_len raw =? 64)%nat eqn:El; [|done].
    destruct (str_forallb isxdigit raw) eqn:Ex; [|done]. simpl in E. injection E as <-.
    rewrite sha256_hex_spec in Hh by done. exists raw, k. apply Nat.eqb_eq in El. by split_and!; try apply Hrest.
  - intros. by apply stored_key_authenticates.
Qed.

Lemma requests_authenticate_by_valid_keys_only_witness :
  let stack := mkCtx (replicate 64 7) 3 9 [] in
  let raw := "0123456789abcdef0123456789abcdef0123456789abcdef0123456789ABCDEF" in
  let d := mkDb true false None no_tables 0 1000 [] in
  let d' := (db_insert_api_key_full (auth_hash_key stack raw) "key" (Some "admin") (Some "alice") 2000 d).2 in
  (auth_check_role_user stack (Some raw) (set_clock 1500 d')).1 = Some ("admin", "alice") ∧
  (auth_check_role_user stack (Some raw) (set_clock 2500 d')).1 = None ∧
  ∃ raw' k, Some raw = Some raw' ∧ k ∈ t_api_keys (tables d') ∧ k_revoked k = 0.
Proof.
  intros stack raw d d'. destruct (requests_authenticate_by_valid_keys_only stack eq_refl) as [Hsound Hround].
  assert (∀ now, (auth_check_role_user stack (Some raw) (set_clock now d')).1 =
            if (0 <? 2000) && (2000 <? now) then None else Some ("admin", "alice")) as H.
  { intros now. pose proof (Hround raw "key" "admin" "alice" 2000 now d) as H. unfold d'.
    destruct (db_insert_api_key_full _ _ _ _ _ d) as [rc d2]. apply H; try done. apply not_elem_of_nil. }
  split_and!; [apply H|apply H|].
  destruct (Hsound (Some raw) (set_clock 1500 d') "admin" "alice" (set_clock 1500 d')) as (r & k & Hr & _ & _ & Hk & _ & Hrev & _).
  { by vm_compute. }
  exists r, k. split_and!; [done| |done]. clear -Hk. by destruct d'.
Defined.
