(* ===== verification/Probe.v ===== *)
(** The machine prober, src/resources/probe.c: reachability tests, the
    refresh of the registry, the background thread and Wake-on-LAN.  The
    socket calls and [system] are parameters; their answers may differ from
    one attempt to the next. *)
From S2P Require Import Prelude Registry Config Auth.

Inductive ProbeMethod := PROBE_PING | PROBE_TCP | PROBE_SSH.

(** What the socket calls answer: whether the name resolves and the socket is
    created, how many descriptors [poll] finds ready, and the error that is
    pending on the socket then. *)
Record Tcp := mkTcp { tcp_resolves : bool; tcp_socket : bool; tcp_ready : Z; tcp_so_error : Z }.

Section probe.
(** [connects r host port timeout]: what attempt [r] to open a TCP connection
    meets; [system r cmd]: what attempt [r] of a command returns; [now]:
    [time(NULL)]. *)
Context (connects : nat → string → string → Z → Tcp) (system : nat → string → Z) (now : Z).

Definition ping_host_char (c : ascii) : bool := is_alnum c || existsb (Ascii.eqb c) ["."; "-"; ":"]%char.
Definition ping_cmd (host : string) (timeout_ms : Z) : string :=
  cbuf 256 ("ping -c 1 -W " +:+ dec (Z.max 1 (Z.quot (timeout_ms + 999) 1000)) +:+ " " +:+ host +:+ " >/dev/null 2>&1").
Definition probe_ping (r : nat) (host : string) (timeout_ms : Z) : bool :=
  str_forallb ping_host_char host && (system r (ping_cmd host timeout_ms) =? 0).

Definition probe_tcp (r : nat) (host : string) (port timeout_ms : Z) : bool :=
  let t := connects r host (cbuf 8 (dec port)) timeout_ms in
  tcp_resolves t && tcp_socket t && (0 <? tcp_ready t) && (tcp_so_error t =? 0).

Definition machine_is_reachable (r : nat) (host : string) (method : ProbeMethod) (port timeout_ms : Z) : bool :=
  str_nonempty host &&
  match method with
  | PROBE_TCP => probe_tcp r host port timeout_ms
  | PROBE_SSH => probe_tcp r host 22 timeout_ms
  | PROBE_PING => probe_ping r host timeout_ms
  end.

Definition probe_host (m : Machine) : string := if str_nonempty (m_hostname m) then m_hostname m else m_ip m.
Definition is_local (m : Machine) : bool :=
  String.eqb (probe_host m) "localhost" || String.eqb (probe_host m) "127.0.0.1" || String.eqb (m_ip m) "127.0.0.1".

(** The loop over the attempts, [n] of them from attempt [r]. *)
Fixpoint probe_attempts (n r : nat) (host : string) (method : ProbeMethod) (port timeout_ms : Z) : bool :=
  match n with
  | O => false
  | S n =>
      if machine_is_reachable r host method port timeout_ms then true else probe_attempts n (S r) host method port timeout_ms
  end.

Definition is_static (m : Machine) : bool := match m_type m with MACHINE_TYPE_STATIC => true | _ => false end.

Definition probe_machine (method : ProbeMethod) (port timeout_ms retries : Z) (m : Machine) : ST Registry unit :=
  if negb (is_static m) || negb (m_enabled m) then mret tt else
  if is_local m then registry_update_probe (m_id m) MACHINE_ONLINE now 1 ;; mret tt else
  registry_update_probe (m_id m) MACHINE_PROBING now (-1) ;;
  let ok := probe_attempts (Z.to_nat (retries + 1)) 0 (probe_host m) method port timeout_ms in
  registry_update_probe (m_id m) (if ok then MACHINE_ONLINE else MACHINE_OFFLINE) now (if ok then 1 else 0) ;;
  mret tt.

Definition probe_refresh_all (malloc_ok : bool) (method : ProbeMethod) (port timeout_ms retries : Z) : ST Registry unit := λ l,
  match registry_snapshot malloc_ok l with
  | Some machines => st_iter (probe_machine method port timeout_ms retries) machines l
  | None => (tt, l)
  end.

(** *** In steps *)

(** Where a refresh is, between its calls of the registry: not begun, with
    machines of its snapshot left, or waiting for the answer of one. *)
Inductive ProbePc :=
  | PIdle
  | PNext (machines : list Machine)
  | PWaiting (m : Machine) (machines : list Machine).

Definition probe_section (malloc_ok : bool) (method : ProbeMethod) (port timeout_ms retries : Z) (pc : ProbePc) : ST Registry ProbePc :=
  match pc with
  | PIdle => machines ← st_gets (registry_snapshot malloc_ok); mret (match machines with Some ms => PNext ms | None => PIdle end)
  | PNext [] => mret PIdle
  | PNext (m :: machines) =>
      if negb (is_static m) || negb (m_enabled m) then mret (PNext machines) else
      if is_local m then registry_update_probe (m_id m) MACHINE_ONLINE now 1 ;; mret (PNext machines) else
      registry_update_probe (m_id m) MACHINE_PROBING now (-1) ;; mret (PWaiting m machines)
  | PWaiting m machines =>
      let ok := probe_attempts (Z.to_nat (retries + 1)) 0 (probe_host m) method port timeout_ms in
      registry_update_probe (m_id m) (if ok then MACHINE_ONLINE else MACHINE_OFFLINE) now (if ok then 1 else 0) ;;
      mret (PNext machines)
  end.

Fixpoint probe_sections (n : nat) (malloc_ok : bool) (method : ProbeMethod) (port timeout_ms retries : Z) (pc : ProbePc) : ST Registry ProbePc :=
  match n with
  | O => mret pc
  | S n => pc ← probe_section malloc_ok method port timeout_ms retries pc; probe_sections n malloc_ok method port timeout_ms retries pc
  end.

(** Undisturbed, the steps are a refresh. *)
Lemma probe_sections_machine malloc_ok method port timeout_ms retries m l :
  ∃ j, ∀ n ms, probe_sections (j + n) malloc_ok method port timeout_ms retries (PNext (m :: ms)) l =
    probe_sections n malloc_ok method port timeout_ms retries (PNext ms) (probe_machine method port timeout_ms retries m l).2.
Proof.
  unfold probe_machine. destruct (negb (is_static m) || negb (m_enabled m)) eqn:E1; [|destruct (is_local m) eqn:E2].
  - exists 1%nat. intros n ms. cbn [Nat.add probe_sections probe_section]. by rewrite bind_step, E1.
  - exists 1%nat. intros n ms. cbn [Nat.add probe_sections probe_section]. by rewrite bind_step, E1, E2, !bind_step.
  - exists 2%nat. intros n ms. cbn [Nat.add probe_sections probe_section]. rewrite bind_step, E1, E2, !bind_step.
    cbn [fst snd mret st_ret probe_section]. by rewrite !bind_step.
Qed.

Lemma probe_sections_refresh malloc_ok method port timeout_ms retries l :
  ∃ n, probe_sections (S n) malloc_ok method port timeout_ms retries PIdle l = (PIdle, (probe_refresh_all malloc_ok method port timeout_ms retries l).2).
Proof.
  assert (∀ machines k, ∃ n, probe_sections n malloc_ok method port timeout_ms retries (PNext machines) k =
    (PIdle, (st_iter (probe_machine method port timeout_ms retries) machines k).2)) as Hnext.
  { induction machines as [|m machines IH]; intros k; [by exists 1%nat|]. cbn [st_iter]. rewrite bind_step.
    destruct (IH (probe_machine method port timeout_ms retries m k).2) as [n Hn].
    destruct (probe_sections_machine malloc_ok method port timeout_ms retries m k) as [j Hj]. exists (j + n)%nat. by rewrite Hj. }
  unfold probe_refresh_all. destruct (registry_snapshot malloc_ok l) as [ms|] eqn:E.
  - destruct (Hnext ms l) as [n Hn]. exists n. cbn [probe_sections probe_section]. rewrite !bind_step. cbn [fst snd st_gets].
    rewrite E. exact Hn.
  - exists O. cbn [probe_sections probe_section]. rewrite !bind_step. cbn [fst snd st_gets]. by rewrite E.
Qed.

(** ** The background thread *)

Record ProbeConfig := mkProbeConfig { pc_interval_ms : Z; pc_method : ProbeMethod; pc_port : Z; pc_timeout_ms : Z; pc_retries : Z }.

Definition probe_config (interval_ms : Z) (method : ProbeMethod) (port timeout_ms retries : Z) : ProbeConfig :=
  mkProbeConfig (if 0 <? interval_ms then interval_ms else 60000) method (if 0 <? port then port else 22)
    (if 0 <? timeout_ms then timeout_ms else 3000) (if 0 <=? retries then retries else 2).

(** [running k]: the flag before slice [k].  The milliseconds slept and the
    final flag; [None] when [fuel] slices were not enough. *)
Fixpoint probe_wait (fuel : nat) (running : nat → bool) (k : nat) (remaining slept : Z) : option (Z * bool) :=
  if negb (running k) || (remaining <=? 0) then Some (slept, running k) else
  match fuel with
  | O => None
  | S fuel => let slice := Z.min 100 remaining in probe_wait fuel running (S k) (remaining - slice) (slept + slice)
  end.

(** A slice per started 100 ms. *)
Definition probe_wait_interruptible (running : nat → bool) (milliseconds : Z) : option (Z * bool) :=
  probe_wait (Z.to_nat ((milliseconds + 99) / 100)) running 0 milliseconds 0.

(** The thread and its flag.  [probe_thread_turn] is what the thread does
    until it next reads the flag: a round is a refresh and a wait. *)
Inductive ThreadState := NoThread | InLoop | Ended.
Record Prober := mkProber { s_probe_running : bool; s_probe_cfg : ProbeConfig; s_probe_thread : ThreadState; pr_rounds : nat }.

Definition probe_start_background (thread_ok : bool) (interval_ms : Z) (method : ProbeMethod) (port timeout_ms retries : Z) (p : Prober) : Prober :=
  if s_probe_running p then p else
  mkProber thread_ok (probe_config interval_ms method port timeout_ms retries)
    (if thread_ok then InLoop else s_probe_thread p) (pr_rounds p).

Definition probe_thread_turn (p : Prober) : Prober :=
  match s_probe_thread p with
  | InLoop => if s_probe_running p then mkProber true (s_probe_cfg p) InLoop (S (pr_rounds p))
              else mkProber false (s_probe_cfg p) Ended (pr_rounds p)
  | _ => p
  end.

(** [probe_stop_background] up to the join, and whether it joins, which waits
    for the end of the thread. *)
Definition probe_stop_request (p : Prober) : bool * Prober :=
  if s_probe_running p then (true, mkProber false (s_probe_cfg p) (s_probe_thread p) (pr_rounds p)) else (false, p).
Definition probe_stop_join (p : Prober) : option Prober :=
  match s_probe_thread p with
  | InLoop => None
  | _ => Some (mkProber (s_probe_running p) (s_probe_cfg p) NoThread (pr_rounds p))
  end.

(** After the request the thread ends at its next test, without another
    round, and the prober can be started again. *)
Lemma probe_stop_ends p : s_probe_running p = true → let q := probe_thread_turn (probe_stop_request p).2 in
  pr_rounds q = pr_rounds p ∧ ∃ q', probe_stop_join q = Some q' ∧ s_probe_running q' = false ∧ s_probe_thread q' = NoThread.
Proof. destruct p as [running cfg [| |] rounds]; cbn; intros ->; cbn; eauto. Qed.

Definition probe_method_of (name : string) : ProbeMethod :=
  if String.eqb name "ping" then PROBE_PING else if String.eqb name "ssh" then PROBE_SSH else PROBE_TCP.

Definition probe_refresh (cfg : Config) (malloc_ok : bool) : ST Registry unit :=
  probe_refresh_all malloc_ok (probe_method_of (cfg_str cfg probe_method)) (cfg_int cfg probe_port)
    (cfg_int cfg probe_timeout_ms) (cfg_int cfg probe_retries).

(** What one refresh makes of a machine. *)
Definition probed (method : ProbeMethod) (port timeout_ms retries : Z) (m : Machine) : Machine :=
  if negb (is_static m) || negb (m_enabled m) then m else
  if is_local m || probe_attempts (Z.to_nat (retries + 1)) 0 (probe_host m) method port timeout_ms
  then with_probe MACHINE_ONLINE now 0 m
  else with_probe MACHINE_OFFLINE now (m_probe_fail_count m + 1) m.
End probe.

(** ** Wake-on-LAN *)

(** [%02x] of sscanf: blanks, then at most two characters of a sign, a [0x]
    prefix and hexadecimal digits, with at least one digit. *)
Definition scan_digits (width : nat) (neg : bool) (s : string) : option (Z * string) :=
  match s with
  | String c s' =>
      if hex_value c <? 0 then None else
      match width, s' with
      | S (S _), String d s'' =>
          if Ascii.eqb c "0" && (Ascii.eqb d "x" || Ascii.eqb d "X") then Some (0, s'')
          else if hex_value d <? 0 then Some ((if neg then -1 else 1) * hex_value c, s')
          else Some (hex_value c * 16 + hex_value d, s'')
      | _, _ => Some ((if neg then -1 else 1) * hex_value c, s')
      end
  | EmptyString => None
  end.

Definition scan_hex2 (s : string) : option (Z * string) :=
  match trim_left is_c_space s with
  | String "-" s => scan_digits 1 true s
  | String "+" s => scan_digits 1 false s
  | s => scan_digits 2 false s
  end.

(** [n] numbers, with a colon before each but the first. *)
Fixpoint scan_mac (n : nat) (first : bool) (s : string) : option (list Z) :=
  match n with
  | O => Some []
  | S n =>
      s ← (if first then Some s else match s with String ":" s => Some s | _ => None end);
      r ← scan_hex2 s;
      rest ← scan_mac n false r.2;
      Some (r.1 mod 256 :: rest)
  end.

Definition parse_mac (mac : string) : option (list Z) := scan_mac 6 true mac.

Definition magic_packet (mac : list Z) : list Z := replicate 6 255 ++ concat (replicate 16 mac).

(** [sendto address packet]: whether the socket opens and the packet is
    sent. *)
Definition wol_send (sendto : string → list Z → bool) (mac_address : string) (broadcast_ip : option string) : Z :=
  if negb (str_nonempty mac_address) then -1 else
  match parse_mac mac_address with
  | None => -1
  | Some mac =>
      let bcast := match broadcast_ip with Some ip => if str_nonempty ip then ip else "255.255.255.255" | None => "255.255.255.255" end in
      if sendto bcast (magic_packet mac) then 0 else -1
  end.

(** ** Properties *)

Lemma update_probe_at pre m suf status time reachable :
  NoDup (m_id <$> pre ++ m :: suf) →
  registry_update_probe (m_id m) status time reachable (pre ++ m :: suf) =
    (0, pre ++ with_probe status time (if 0 <? reachable then 0 else if reachable =? 0 then m_probe_fail_count m + 1
                                       else m_probe_fail_count m) m :: suf).
Proof.
  intros Hnd. unfold registry_update_probe.
  assert ((pre ++ m :: suf) !! length pre = Some m) as Hm by (by rewrite lookup_app_r, Nat.sub_diag by lia).
  rewrite (find_machine_lookup _ _ _ Hnd Hm), Hm. do 2 f_equal. by rewrite insert_app_r_alt, Nat.sub_diag by lia.
Qed.

Section probed.
Context (connects : nat → string → string → Z → Tcp) (system : nat → string → Z) (now : Z).
Context (method : ProbeMethod) (port timeout_ms retries : Z).

Lemma probed_id m : m_id (probed connects system now method port timeout_ms retries m) = m_id m.
Proof. unfold probed. repeat case_match; by destruct m. Qed.

Lemma probe_machine_at pre m suf :
  NoDup (m_id <$> pre ++ m :: suf) →
  (probe_machine connects system now method port timeout_ms retries m (pre ++ m :: suf)).2 =
    pre ++ probed connects system now method port timeout_ms retries m :: suf.
Proof.
  intros Hnd. unfold probe_machine, probed. destruct (negb (is_static m) || negb (m_enabled m)); [done|].
  destruct (is_local m); [rewrite bind_step, update_probe_at by done; done|].
  rewrite bind_step, update_probe_at by done. cbn [fst snd].
  set (m' := with_probe _ _ _ m). assert (m_id m' = m_id m) as Hid by (by destruct m).
  rewrite <- Hid. rewrite bind_step, update_probe_at by (rewrite fmap_app, fmap_cons, Hid in *; done).
  cbn [snd orb]. destruct (probe_attempts _ _ _ _ _ _ _ _); by destruct m.
Qed.

Lemma probe_iter_at suf : ∀ pre, NoDup (m_id <$> pre ++ suf) →
  (st_iter (probe_machine connects system now method port timeout_ms retries) suf (pre ++ suf)).2 =
    pre ++ (probed connects system now method port timeout_ms retries <$> suf).
Proof.
  induction suf as [|m suf IH]; intros pre Hnd; [done|]. cbn [st_iter]. rewrite bind_step, probe_machine_at by done.
  rewrite (app_assoc pre [_] suf : pre ++ _ :: suf = _). rewrite IH.
  - by rewrite <- app_assoc.
  - rewrite <- app_assoc. rewrite fmap_app in *. cbn [app] in *. rewrite fmap_cons in *. by rewrite probed_id.
Qed.
End probed.


Definition demo_machine (id host : string) : Machine :=
  mkMachine id host "10.0.0.9" true (mkRes 8 0 16000 0) (mkRes 2 0 100 0) MACHINE_PROBING 0 3 MACHINE_TYPE_STATIC "" "" 0 0 0 "".
Definition demo_connects (r : nat) (host port : string) (timeout_ms : Z) : Tcp :=
  mkTcp true true 1 (if (2 <=? r)%nat && String.eqb host "n1" && String.eqb port "22" then 0 else 111).


Example mac_forms :
  parse_mac "aa:BB:0:1f:+2:FF" = Some [170; 187; 0; 31; 2; 255] ∧ parse_mac "aa-bb-cc-dd-ee-ff" = None ∧
  length (magic_packet [170; 187; 0; 31; 2; 255]) = 102%nat.
Proof. vm_compute. done. Qed.
