(* ===== verification/Http.v ===== *)
(** Requests, replies and the state of the HTTP thread, with the static
    helpers at the top of src/http/routes.c.  mongoose parses the request:
    its header and query lookups are fields of the request.  A reply is its
    status code with an error text, a JSON tree, a text, the path of the file
    that is sent, the snapshot that opens an event stream, or the headers
    of a CORS preflight. *)
From S2P Require Import Prelude Job Uuid Json Events Httpd Config System Sha256.

(** ** Requests and replies *)

(** [rq_header name] is [mg_http_get_header]; [rq_query name size] is
    [mg_http_get_var] with a buffer of that size, [None] when it returns zero
    or less; [rq_url_decode] is [mg_url_decode] with a buffer of that size. *)
Record Request := mkRequest {
  rq_method : string;
  rq_uri : string;
  rq_body : string;
  rq_header : string → option string;
  rq_query : string → nat → option string;
  rq_url_decode : string → nat → option string;
  rq_ip : Z;
  rq_conn : nat
}.

Inductive Reply :=
  | http_error (status_code : Z) (msg : string)
  | http_json_reply (status_code : Z) (body : cJSON)
  | http_text (status_code : Z) (body : string)
  | http_file (content_type path : string)
  | http_sse (snapshot : cJSON)
  | http_preflight (headers : string).

Definition status_of (r : Reply) : Z :=
  match r with
  | http_error c _ | http_json_reply c _ | http_text c _ => c
  | http_file _ _ | http_sse _ => 200
  | http_preflight _ => 204
  end.

(** [http_json_reply(c, code, "{\"ok\":true}")] *)
Definition reply_ok : Reply := http_json_reply 200 (JObject [("ok", JBool true)]).

(** ** State *)

Definition LOGIN_RL_SLOTS : nat := 64.
Record LoginRL := mkLoginRL { rl_ip : Z; rl_attempts : Z; rl_window_start : Z }.

(** The process with the static variables of routes.c and the subscribers of
    httpd.c; [w_cfg] is [g_config], which one handler updates. *)
Record Web := mkWeb {
  w_sys : Sys;
  w_cfg : Config;
  w_accepting_jobs : bool;
  w_login_rl : list LoginRL;
  w_sse : list SseClient
}.

Definition wsys {A} (m : ST Sys A) : ST Web A := λ w,
  let '(a, s) := m (w_sys w) in (a, mkWeb s (w_cfg w) (w_accepting_jobs w) (w_login_rl w) (w_sse w)).
Definition set_w_cfg (v : Config) (w : Web) : Web := mkWeb (w_sys w) v (w_accepting_jobs w) (w_login_rl w) (w_sse w).
Definition set_w_accepting_jobs (v : bool) (w : Web) : Web := mkWeb (w_sys w) (w_cfg w) v (w_login_rl w) (w_sse w).
Definition set_w_login_rl (v : list LoginRL) (w : Web) : Web := mkWeb (w_sys w) (w_cfg w) (w_accepting_jobs w) v (w_sse w).
Definition set_w_sse (v : list SseClient) (w : Web) : Web := mkWeb (w_sys w) (w_cfg w) (w_accepting_jobs w) (w_login_rl w) v.

(** What one request finds: the environment of the system, the random bytes
    that the generator gives ([None] when it fails), whether the request's own
    allocations have memory, cJSON's printer (which may run out of it), the
    stack under the hash contexts, the path of the executable, the library
    functions [atof] and SQLite's [strftime], and whether a datagram for an
    address is sent. *)
Record Call := mkCall {
  ca_env : Env;
  ca_random : nat → option (list Z);
  ca_alloc_ok : bool;
  ca_print : cJSON → option string;
  ca_stack : SHA256_CTX;
  ca_exe : option string;
  ca_atof : string → double;
  ca_strftime : string → Z → string;
  ca_sendto : string → list Z → bool
}.

(** The environment with the configuration of the moment. *)
Definition with_cfg (cfg : Config) (e : Env) : Env :=
  mkEnv cfg (en_print_object e) (en_parse e) (en_popen e) (en_system e) (en_uuid_source e) (en_presim_solver_cmd e)
    (en_alloc e) (en_malloc_ok e) (en_queue_realloc_ok e) (en_thread_ok e) (en_can_write e).

(** ** Helpers of routes.c *)

Definition clamp_int (v : double) (lo hi : Z) : Z :=
  if dlt v (d_of_Z lo) then lo else if dgt v (d_of_Z hi) then hi else d_trunc v.

(** [cJSON_IsNumber(item) ? clamp_int(item->valuedouble, lo, hi) : fallback] *)
Definition clamp_item (item : option cJSON) (lo hi fallback : Z) : Z :=
  if cJSON_IsNumber item then clamp_int (valuedouble item) lo hi else fallback.

(** The value, or [None] for -1.  A value that [strtol] saturates is outside
    the bounds either way. *)
Definition parse_query_int (rq : Request) (name : string) (default_value min_value max_value : Z) : option Z :=
  match rq_query rq name 64 with
  | None => Some default_value
  | Some value =>
      match strtol value with
      | Some (parsed, EmptyString) =>
          if (parsed <? min_value) || (max_value <? parsed) || (INT_MAX <? parsed) then None else Some parsed
      | _ => None
      end
  end.

(** 0 is [Some None], 1 is [Some] of the value, -1 is [None]. *)
Definition json_optional_int (object : cJSON) (name : string) (min_value max_value : Z) : option (option Z) :=
  match cJSON_GetObjectItemCaseSensitive object name with
  | None => Some None
  | Some item =>
      let v := valuedouble (Some item) in
      if negb (cJSON_IsNumber (Some item)) || negb (isfinite v) || negb (d_integral v)
         || dlt v (d_of_Z min_value) || dgt v (d_of_Z max_value)
      then None else Some (Some (d_trunc v))
  end.

Definition copy_optional_string (object : cJSON) (name : string) (out_len : nat) : option (option string) :=
  match cJSON_GetObjectItemCaseSensitive object name with
  | None => Some None
  | Some item =>
      if negb (cJSON_IsString (Some item)) || (out_len <=? str_len (valuestring (Some item)))%nat
      then None else Some (Some (valuestring (Some item)))
  end.

Definition chars_in (extra value : string) : bool := str_forallb (λ c, is_alnum c || str_has c extra) value.

Definition safe_cloud_arg (value : string) : bool :=
  str_nonempty value && negb (str_prefix "-" value) && chars_in "-_./:,=" value.

Definition safe_cli_name (name : string) : bool :=
  str_nonempty name && (str_len name <=? 64)%nat && chars_in "_-" name.

Definition safe_cli_value (value : string) : bool :=
  (str_len value <=? 256)%nat && chars_in " _-./:@+,=" value.

Definition safe_display_text (value : string) (maximum_length : nat) : bool :=
  (str_len value <=? maximum_length)%nat && str_forallb (λ c, negb (in_range 0 31 c) && negb (char_code c =? 127)) value.

Definition is_slash (c : ascii) : bool := Ascii.eqb c "/".
Definition skip_slashes : string → string := trim_left is_slash.
Definition skip_segment : string → string := trim_left (λ c, negb (is_slash c)).

Fixpoint take_until (p : ascii → bool) (s : string) : string :=
  match s with
  | String c s => if p c then EmptyString else String c (take_until p s)
  | EmptyString => EmptyString
  end.

Definition extract_segment (uri : string) (seg_index : nat) (out_len : nat) : string :=
  cbuf out_len (take_until is_slash (Nat.iter seg_index (λ p, skip_slashes (skip_segment p)) (skip_slashes uri))).

Definition job_status_from_text (text : string) : Z :=
  if negb (str_nonempty text) then -1
  else if String.eqb text "IN_QUEUE" || String.eqb text "QUEUED" then status_code JOB_STATUS_QUEUED
  else if String.eqb text "STARTING" then status_code JOB_STATUS_RUNNING
  else if String.eqb text "RUNNING" then status_code JOB_STATUS_RUNNING
  else if String.eqb text "FINISHED" || String.eqb text "SUCCEEDED" then status_code JOB_STATUS_SUCCEEDED
  else if String.eqb text "CANCELLED" then status_code JOB_STATUS_CANCELLED
  else if String.eqb text "FAILED" then status_code JOB_STATUS_FAILED
  else if String.eqb text "HELD" || String.eqb text "CREATED" then status_code JOB_STATUS_CREATED
  else -2.

Definition JZ (z : Z) : cJSON := JNumber (d_of_Z z).

Definition job_to_json (job : Job) : cJSON :=
  JObject
    [("id", JString (j_id job)); ("command", JString (j_command job)); ("status", JString (job_status_str (j_status job)));
     ("priority", JZ (j_priority job)); ("req_cores", JZ (j_req_cores job)); ("req_gpu", JZ (j_req_gpu job));
     ("req_ram_mb", JZ (j_req_ram_mb job)); ("req_disk_mb", JZ (j_req_disk_mb job));
     ("machine_id", JString (j_machine_id job)); ("submitted_at", JZ (j_submitted_at job));
     ("started_at", JZ (j_started_at job)); ("ended_at", JZ (j_ended_at job)); ("exit_code", JZ (j_exit_code job));
     ("timeout_seconds", JZ (j_timeout_seconds job)); ("status_reason", JString (j_status_reason job));
     ("input_files", JString (j_input_files job)); ("user_id", JString (j_user_id job)); ("app_id", JString (j_app_id job));
     ("depends_on", JString (j_depends_on job)); ("workflow_id", JString (j_workflow_id job));
     ("batch_id", JString (j_batch_id job)); ("same_machine_as", JString (j_same_machine_as job))].

(** A valid role or an access test: [strcmp(auth_role, "admin") == 0]. *)
Definition is_admin (role : string) : bool := String.eqb role "admin".

(** [atoll] and [atoi]; glibc's saturate at the bounds of [long]. *)
Definition atoll (s : string) : Z :=
  match strtol s with
  | Some (v, _) => Z.max (- 9223372036854775808) (Z.min 9223372036854775807 v)
  | None => 0
  end.
Definition atoi (s : string) : Z := (atoll s + 2147483648) mod 4294967296 - 2147483648.
