(* ===== verification/Batches.v ===== *)
(** Batch submission, src/http/batches.c: a request with up to a thousand jobs
    is stored in one transaction and then queued.  cJSON's parser and printer,
    the random identifier and the allocations are arguments; the reply is the
    status code with the error text or the JSON tree. *)
From S2P Require Import Prelude Job Uuid Heap Queue Events Json Registry Sql Db DbAdmin Allocator DbProps JobOps JobProps System Config SysFixture Auth Http.

Definition MAX_BATCH_JOBS : Z := 1000.
Definition MAX_BATCH_BODY : Z := 16 * 1024 * 1024.

Definition bounded_int (value : option cJSON) (default_value min max : Z) : Z :=
  if negb (cJSON_IsNumber value) then default_value
  else if dlt (valuedouble value) (d_of_Z min) then min
  else if dgt (valuedouble value) (d_of_Z max) then max
  else d_trunc (valuedouble value).

(** [random] is what the system's generator gives: sixteen bytes, printed as
    two digits each, or a failure. *)
Definition generate_batch_id (random : option (list Z)) : option string := (λ raw, bytes_to_hex (take 16 raw)) <$> random.

Definition batch_to_json (batch : BatchRecord) (stats : JobStats) : cJSON :=
  let number z := JNumber (d_of_Z z) in
  let completed := js_succeeded stats + js_failed stats + js_cancelled stats in
  JObject [("id", JString (b_id batch)); ("name", JString (b_name batch)); ("user_id", JString (b_user_id batch));
           ("created_at", number (b_created_at batch)); ("total", number (js_total stats));
           ("created", number (js_created stats)); ("queued", number (js_queued stats));
           ("running", number (js_running stats)); ("succeeded", number (js_succeeded stats));
           ("failed", number (js_failed stats)); ("cancelled", number (js_cancelled stats));
           ("completed", number completed);
           ("progress", JNumber (if 0 <? js_total stats then ddiv (d_of_Z completed) (d_of_Z (js_total stats)) else S754_zero false))].

(** The check of one element of ["jobs"]. *)
Definition valid_definition (definition : cJSON) : bool :=
  let command := cJSON_GetObjectItemCaseSensitive definition "command" in
  cJSON_IsObject (Some definition) && cJSON_IsString command && str_nonempty (valuestring command) &&
  (str_len (valuestring command) <? JOB_CMD_LEN)%nat.

(** The environment of one call of [job_create_ex]. *)
Definition with_malloc (ok : bool) (e : Env) : Env :=
  mkEnv (en_cfg e) (en_print_object e) (en_parse e) (en_popen e) (en_system e) (en_uuid_source e) (en_presim_solver_cmd e)
    (en_alloc e) ok (en_queue_realloc_ok e) (en_thread_ok e) (en_can_write e).

Definition batch_job_create (e : Env) (batch : BatchRecord) (definition : cJSON) : ST Sys (option Job) :=
  let item := cJSON_GetObjectItemCaseSensitive definition in
  sys_job_create_ex e (valuestring (item "command"))
    (bounded_int (item "priority") 50 0 100)
    (bounded_int (item "req_cores") 1 1 10000)
    (bounded_int (item "req_gpu") 0 0 1000)
    (bounded_int (item "req_ram_mb") 0 0 10000000)
    (bounded_int (item "req_disk_mb") 0 0 10000000)
    (b_user_id batch) (if cJSON_IsString (item "app_id") then valuestring (item "app_id") else "").

(** The body of the first loop; [None] is the jump to [transaction_failed]. *)
Definition batch_job (e : Env) (batch : BatchRecord) (definition : cJSON) : ST Sys (option Job) :=
  job ← batch_job_create e batch definition;
  match job with
  | None => mret None
  | Some job =>
      let job := with_batch_id (cbuf 64 (b_id batch)) job in
      let job := with_timeout_seconds
        (bounded_int (cJSON_GetObjectItemCaseSensitive definition "timeout_seconds") 0 0 604800) job in
      rc ← ydb (db_update_job_batch_id (j_id job) (b_id batch));
      if negb (rc =? 0) then mret None else
      rc ← (if 0 <? j_timeout_seconds job then ydb (db_update_job_timeout (j_id job) (j_timeout_seconds job)) else mret 0);
      if negb (rc =? 0) then mret None else mret (Some job)
  end.

(** The first loop, from job [i]; [malloc_ok i] is the allocation of that
    job. *)
Fixpoint batch_jobs (e : Env) (malloc_ok : nat → bool) (batch : BatchRecord) (i : nat) (definitions : list cJSON) :
    ST Sys (option (list Job)) :=
  match definitions with
  | [] => mret (Some [])
  | definition :: definitions =>
      job ← batch_job (with_malloc (malloc_ok i) e) batch definition;
      match job with
      | None => mret None
      | Some job =>
          jobs ← batch_jobs e malloc_ok batch (S i) definitions;
          mret (cons job <$> jobs)
      end
  end.

(** The second loop; a job that the queue refuses is freed, and its row
    stays. *)
Definition batch_push (e : Env) (job : Job) : ST Sys unit :=
  store_init_job_dirs (j_id job) ;; sys_queue_push e job ;; mret tt.

Definition transaction_failed : ST Sys Reply :=
  ydb db_rollback ;; mret (http_error 500 "Batch submission failed; no jobs were committed").

(** From BEGIN to the reply. *)
Definition batch_transaction (e : Env) (malloc_ok : nat → bool) (batch : BatchRecord) (definitions : list cJSON) :
    ST Sys Reply :=
  rc ← ydb db_begin;
  if negb (rc =? 0) then transaction_failed else
  rc ← ydb (db_insert_batch batch);
  if negb (rc =? 0) then transaction_failed else
  jobs ← batch_jobs e malloc_ok batch 0 definitions;
  match jobs with
  | None => transaction_failed
  | Some jobs =>
      rc ← ydb db_commit;
      if negb (rc =? 0) then transaction_failed else
      st_iter (batch_push e) jobs ;;
      stats ← ydb (db_get_batch_stats (b_id batch));
      mret (http_json_reply 201 (batch_to_json batch stats.2))
  end.

(** [copy_ok] and [array_ok]: the allocations of the body's copy and of the
    array of jobs. *)
Definition batches_submit (e : Env) (copy_ok array_ok : bool) (malloc_ok : nat → bool) (random : option (list Z))
    (body : string) (auth_user_id : option string) : ST Sys Reply :=
  if (str_len body =? 0)%nat || (MAX_BATCH_BODY <? Z.of_nat (str_len body))
  then mret (http_error 413 "Batch body must be between 1 byte and 16 MB") else
  if negb copy_ok then mret (http_error 500 "Out of memory") else
  match en_parse e body with
  | None => mret (http_error 400 "Invalid JSON")
  | Some request =>
      let job_defs := cJSON_GetObjectItemCaseSensitive request "jobs" in
      let count := if cJSON_IsArray job_defs then cJSON_GetArraySize job_defs else 0 in
      if (count <? 1) || (MAX_BATCH_JOBS <? count) then mret (http_error 400 "'jobs' must contain between 1 and 1000 jobs") else
      if negb (forallb valid_definition (array_items job_defs))
      then mret (http_error 400 "Every batch job requires a command shorter than 512 bytes") else
      match generate_batch_id random with
      | None => mret (http_error 500 "Failed to generate batch id")
      | Some id =>
          let name := cJSON_GetObjectItemCaseSensitive request "name" in
          now ← y_now;
          let batch := mkBatch id (if cJSON_IsString name then cbuf 256 (valuestring name) else "")
                         (cbuf 128 (default "" auth_user_id)) now in
          if negb array_ok then mret (http_error 500 "Out of memory") else
          batch_transaction e malloc_ok batch (array_items job_defs)
      end
  end.

Definition batches_get (batch_id auth_user_id auth_role : string) : ST Sys Reply :=
  batch ← ydb (db_get_batch batch_id);
  match batch with
  | None => mret (http_error 404 "Batch not found")
  | Some batch =>
      if negb (String.eqb auth_role "admin") && negb (String.eqb (b_user_id batch) auth_user_id)
      then mret (http_error 404 "Batch not found") else
      stats ← ydb (db_get_batch_stats batch_id);
      if negb (stats.1 =? 0) then mret (http_error 500 "Failed to read batch stats")
      else mret (http_json_reply 200 (batch_to_json batch stats.2))
  end.

(** ** Clamped numbers *)

(** The integer part of any number between two integers. *)
Lemma d_trunc_range x lo hi :
  isfinite x = true → d_exact lo = true → d_exact hi = true →
  dlt x (d_of_Z lo) = false → dgt x (d_of_Z hi) = false → lo ≤ d_trunc x ≤ hi.
Proof.
  intros Hx Hlo Hhi H1 H2. destruct (d_integral x) eqn:Hint; [by apply d_range|].
  destruct (Z.leb_spec 0 (d_exp x)) as [He|He].
  { unfold d_integral in Hint. rewrite Hx, (proj2 (Z.leb_le _ _) He) in Hint. done. }
  unfold d_exact in Hlo, Hhi. apply andb_prop in Hlo as [Hilo Hlo], Hhi as [Hihi Hhi]. bool_prop.
  unfold d_trunc. rewrite (proj2 (Z.leb_gt _ _) He). set (q := 2 ^ (- d_exp x)).
  assert (0 < q) as Hq by (apply Z.pow_pos_nonneg; lia).
  assert (∀ b, d_integral (d_of_Z b) = true → ∃ w, 0 < w ∧
    dlt x (d_of_Z b) = (d_man x * w <? d_trunc (d_of_Z b) * q * w) ∧
    dlt (d_of_Z b) x = (d_trunc (d_of_Z b) * q * w <? d_man x * w)) as Hcmp.
  { intros b Hb. pose proof (andb_prop _ _ Hb) as [Fb _].
    set (k := Z.min 0 (Z.min (d_exp x) (d_exp (d_of_Z b)))). exists (2 ^ (d_exp x - k)).
    split; [apply Z.pow_pos_nonneg; lia|].
    assert (d_trunc (d_of_Z b) * q * 2 ^ (d_exp x - k) = d_scaled k (d_of_Z b)) as ->.
    { rewrite d_integral_scaled by (done || lia). unfold q. rewrite <- Z.mul_assoc, <- Z.pow_add_r by lia. do 2 f_equal. lia. }
    split; [by destruct x, (d_of_Z b)|]. unfold k. rewrite (Z.min_comm (d_exp x)). by destruct x, (d_of_Z b). }
  destruct (Hcmp lo Hilo) as (w & Hw & E1 & _), (Hcmp hi Hihi) as (v & Hv & _ & E2).
  unfold dgt in H2. rewrite E1, Hlo in H1. rewrite E2, Hhi in H2. bool_prop. split.
  - rewrite <- (Z.quot_mul lo q) by lia. apply Z.quot_le_mono; nia.
  - rewrite <- (Z.quot_mul hi q) by lia. apply Z.quot_le_mono; nia.
Qed.

Lemma bounded_int_range value d lo hi :
  lo ≤ d ≤ hi → d_exact lo = true → d_exact hi = true → d_isnan (valuedouble value) = false ∨ lo ≤ 0 ≤ hi →
  lo ≤ bounded_int value d lo hi ≤ hi.
Proof.
  intros Hd Hlo Hhi Hnan. unfold bounded_int. destruct (cJSON_IsNumber value); simpl; [|done].
  destruct (dlt _ _) eqn:E1; [lia|]. destruct (dgt _ _) eqn:E2; [lia|].
  destruct (isfinite (valuedouble value)) eqn:Ef; [by apply d_trunc_range|].
  unfold dgt in E2. destruct (valuedouble value) as [|[]| |] eqn:Ev; try done.
  - unfold d_exact, d_integral in Hlo. by destruct (d_of_Z lo) as [|[]| |].
  - unfold d_exact, d_integral in Hhi. by destruct (d_of_Z hi) as [|[]| |].
  - destruct Hnan as [|Hz]; [done|exact Hz].
Qed.

(** ** What a call leaves alone *)

(** Everything but the database and the counter of identifiers. *)
Record quiet (s s' : Sys) : Prop := {
  qt_queue : y_queue s' = y_queue s;
  qt_events : y_events s' = y_events s;
  qt_active : y_active s' = y_active s;
  qt_registry : y_registry s' = y_registry s;
  qt_ledger : y_ledger s' = y_ledger s;
  qt_commands : y_commands s' = y_commands s;
  qt_files : y_files s' = y_files s }.

#[export] Instance quiet_preorder : PreOrder quiet.
Proof. split; [by intros s; split|]. intros a b c [] []. split; congruence. Qed.

Lemma quiet_db d s : quiet s (set_y_alloc (mkAllocState (y_registry s) (y_ledger s) d) s).
Proof. destruct s as [[]]. by split. Qed.

Lemma ydb_spec {A} (m : ST Db A) s r s' : ydb m s = (r, s') → m (y_db s) = (r, y_db s') ∧ quiet s s'.
Proof.
  destruct (m (y_db s)) as [a d] eqn:E. rewrite (ydb_run m s a d E). intros [= <- <-]. split; [|apply quiet_db].
  by destruct s as [[]].
Qed.

Lemma dml_rc_in_txn t0 f d rc d' :
  in_txn t0 d → dml_rc f d = (rc, d') →
  clock d' = clock d ∧
  (rc = 0 ∧ in_txn t0 d' ∧ (∃ n, f (clock d) (tables d) = Some (tables d', n)) ∨ rc = -1 ∧ in_failed_txn t0 d').
Proof.
  intros Hi. unfold dml_rc. rewrite bind_step. destruct (dml f d) as [ok d1] eqn:E. cbn [fst snd]. intros [= <- <-].
  apply (dml_in_txn t0) in E as [Hc [(-> & Hin & n & Hf & _)|[-> Hf]]]; [| |done]; split; eauto 10.
Qed.

Lemma ydb_dml_in_txn t0 f s rc s' :
  in_txn t0 (y_db s) → ydb (dml_rc f) s = (rc, s') →
  quiet s s' ∧ clock (y_db s') = clock (y_db s) ∧
  (rc = 0 ∧ in_txn t0 (y_db s') ∧ (∃ n, f (clock (y_db s)) (tables (y_db s)) = Some (tables (y_db s'), n)) ∨
   rc = -1 ∧ in_failed_txn t0 (y_db s')).
Proof. intros Hi [E Hq]%ydb_spec. by apply (dml_rc_in_txn t0) in E as [Hc H]. Qed.

(** ** One job of the batch *)

(** The job that the first loop makes of a definition. *)
Definition job_of_definition (e : Env) (batch : BatchRecord) (uuid : string) (now : Z) (definition : cJSON) : Job :=
  let item := cJSON_GetObjectItemCaseSensitive definition in
  with_timeout_seconds (bounded_int (item "timeout_seconds") 0 0 604800)
    (with_batch_id (cbuf 64 (b_id batch))
      (new_job (en_work_dir e) uuid (valuestring (item "command"))
        (bounded_int (item "priority") 50 0 100) (bounded_int (item "req_cores") 1 1 10000)
        (bounded_int (item "req_gpu") 0 0 1000) (bounded_int (item "req_ram_mb") 0 0 10000000)
        (bounded_int (item "req_disk_mb") 0 0 10000000) (b_user_id batch)
        (if cJSON_IsString (item "app_id") then valuestring (item "app_id") else "") now)).

Lemma update_last (job_id : string) (f : Job → Job) l r :
  existsb (job_is job_id) l = false → job_is job_id r = true →
  update_where (job_is job_id) f (l ++ [r]) = l ++ [f r].
Proof.
  intros Hno Hr. unfold update_where. rewrite map_app. simpl. rewrite Hr. f_equal.
  apply (update_where_none (job_is job_id)). intros x Hx.
  destruct (job_is job_id x) eqn:E; [|done]. rewrite <- Hno. symmetry. apply existsb_exists. exists x.
  split; [by apply list_elem_of_In|done].
Qed.

Lemma on_jenv_spec {A} (m : ST JEnv A) s r s' :
  on_jenv m s = (r, s') →
  ∃ je, m (mkJEnv (y_db s) (y_events s)) = (r, je) ∧ y_db s' = je_db je ∧
    (je_events je = y_events s → quiet s s').
Proof.
  unfold on_jenv. destruct (m _) as [a je]. intros [= <- <-]. exists je. split; [done|].
  destruct s as [[]], je. simpl. split; [done|]. intros ->. by split.
Qed.

Lemma job_create_ex_in_txn wd t0 ok uuid command p c g r d u a je res je' :
  in_txn t0 (je_db je) → job_create_ex wd ok uuid command p c g r d u a je = (res, je') →
  je_events je' = je_events je ∧ clock (je_db je') = clock (je_db je) ∧
  match res with
  | None => in_failed_txn t0 (je_db je')
  | Some job =>
      job = new_job wd uuid command p c g r d u a (clock (je_db je)) ∧ in_txn t0 (je_db je') ∧
      existsb (job_is (j_id job)) (t_jobs (tables (je_db je))) = false ∧
      tables (je_db je') = set_t_jobs (t_jobs (tables (je_db je)) ++ [job_row job]) (tables (je_db je))
  end.
Proof.
  intros Hi. unfold job_create_ex. destruct ok; cbn [negb]; [|intros [= <- <-]; eauto with clib].
  rewrite bind_jdb. cbn [fst snd st_gets]. destruct je as [db ev]. cbn [je_db je_events] in *.
  rewrite bind_jdb. cbn [je_db je_events]. set (job := new_job _ _ _ _ _ _ _ _ _ _ _).
  destruct (db_insert_job job db) as [rc db'] eqn:E. cbn [fst snd]. intros [= <- <-].
  apply (dml_rc_in_txn t0) in E as [Hc [(-> & Hin & n & Hf)|[-> Hf]]]; [| |done]; simpl; split_and!; try done.
  - by destruct (existsb _ _).
  - destruct (existsb _ _); [done|]. by injection Hf as <-.
Qed.

Lemma batch_job_in_txn t0 e batch definition s res s' :
  (str_len (b_id batch) < 64)%nat → in_txn t0 (y_db s) → batch_job e batch definition s = (res, s') →
  quiet s s' ∧ clock (y_db s') = clock (y_db s) ∧
  match res with
  | None => in_failed_txn t0 (y_db s')
  | Some job =>
      (∃ uuid, job = job_of_definition e batch uuid (clock (y_db s)) definition) ∧ in_txn t0 (y_db s') ∧
      existsb (job_is (j_id job)) (t_jobs (tables (y_db s))) = false ∧
      tables (y_db s') = set_t_jobs (t_jobs (tables (y_db s)) ++ [job_row job]) (tables (y_db s))
  end.
Proof.
  intros Hid Hi. unfold batch_job, batch_job_create, sys_job_create_ex.
  set (item := cJSON_GetObjectItemCaseSensitive definition).
  rewrite bind_step. rewrite bind_step. rewrite bind_step. cbn [fst snd st_gets st_modify].
  set (s0 := set_y_created _ s).
  assert (quiet s s0 ∧ y_db s0 = y_db s) as [Hq0 Hd0] by (subst s0; destruct s; by repeat split).
  destruct (on_jenv _ s0) as [r1 s1] eqn:E1. cbn [fst snd].
  apply on_jenv_spec in E1 as (je & E1 & Hdb1 & Hq1). rewrite Hd0 in E1.
  apply (job_create_ex_in_txn _ t0) in E1 as (Hev & Hc1 & H1); [|done].
  specialize (Hq1 Hev). cbn [je_db je_events] in *. rewrite <- Hdb1 in Hc1, H1. pose proof (transitivity Hq0 Hq1) as Hq01.
  destruct r1 as [job|]; [|intros [= <- <-]; done].
  destruct H1 as (-> & Hi1 & Hnew & Ht1). set (job0 := new_job _ _ _ _ _ _ _ _ _ _ _) in *.
  set (job := with_timeout_seconds _ (with_batch_id _ job0)).
  assert (j_id job = j_id job0) as Hjid by done.
  rewrite bind_step. destruct (ydb _ s1) as [rc2 s2] eqn:E2. cbn [fst snd].
  apply (ydb_dml_in_txn t0) in E2 as (Hq2 & Hc2 & H2); [|done]. pose proof (transitivity Hq01 Hq2) as Hq02.
  destruct H2 as [(-> & Hi2 & n2 & Hf2)|[-> Hf2]]; cbn [Z.eqb negb]; [|intros [= <- <-]; split_and!; [done|congruence|done]].
  unfold update_jobs in Hf2. injection Hf2 as Ht2 _. rewrite Ht1, t_jobs_set, set_t_jobs_twice in Ht2.
  change (cbuf JOB_ID_LEN (en_uuid e (y_created s))) with (j_id job0) in Ht2.
  rewrite (update_last _ _ _ _ Hnew) in Ht2 by apply String.eqb_refl.
  assert (with_batch_id (b_id batch) (job_row job0) = job_row (with_batch_id (cbuf 64 (b_id batch)) job0)) as Hrow2
    by by rewrite cbuf_id.
  rewrite Hrow2 in Ht2. rewrite bind_step.
  assert (∃ uuid, job = job_of_definition e batch uuid (clock (y_db s)) definition) as Hval.
  { exists (en_uuid e (y_created s)). done. }
  destruct (0 <? j_timeout_seconds job) eqn:Htm.
  - destruct (ydb _ s2) as [rc3 s3] eqn:E3. cbn [fst snd].
    apply (ydb_dml_in_txn t0) in E3 as (Hq3 & Hc3 & H3); [|done]. pose proof (transitivity Hq02 Hq3) as Hq03.
    destruct H3 as [(-> & Hi3 & n3 & Hf3)|[-> Hf3]]; cbn [Z.eqb negb]; intros [= <- <-]; (split; [done|split; [congruence|]]); [|done].
    split_and!; [done|done|done|]. unfold update_jobs in Hf3. injection Hf3 as Ht3 _.
    rewrite <- Ht2, t_jobs_set, set_t_jobs_twice in Ht3.
    change (cbuf JOB_ID_LEN (en_uuid e (y_created s))) with (j_id job0) in Ht3.
    rewrite (update_last _ _ _ _ Hnew) in Ht3 by apply String.eqb_refl. by rewrite <- Ht3.
  - cbn [fst snd mret st_ret Z.eqb negb]. intros [= <- <-]. split_and!; [done|congruence|done|done|done|].
    rewrite <- Ht2. do 3 f_equal.
    assert (j_timeout_seconds job = 0) as H0.
    { change (j_timeout_seconds job) with (bounded_int (item "timeout_seconds") 0 0 604800) in *. bool_prop.
      pose proof (bounded_int_range (item "timeout_seconds") 0 0 604800 ltac:(lia) eq_refl eq_refl ltac:(right; lia)). lia. }
    change (j_timeout_seconds job) with (bounded_int (item "timeout_seconds") 0 0 604800) in H0. unfold job. by rewrite H0.
Qed.

(** ** The transaction *)

Definition jobs_of_definitions (e : Env) (batch : BatchRecord) (now : Z) : list cJSON → list Job → Prop :=
  Forall2 (λ definition job, ∃ uuid, job = job_of_definition e batch uuid now definition).

Lemma batch_jobs_in_txn t0 e malloc_ok batch definitions i s res s' :
  (str_len (b_id batch) < 64)%nat → in_txn t0 (y_db s) → batch_jobs e malloc_ok batch i definitions s = (res, s') →
  quiet s s' ∧ clock (y_db s') = clock (y_db s) ∧
  match res with
  | None => in_failed_txn t0 (y_db s')
  | Some jobs =>
      jobs_of_definitions e batch (clock (y_db s)) definitions jobs ∧ in_txn t0 (y_db s') ∧
      tables (y_db s') = set_t_jobs (t_jobs (tables (y_db s)) ++ map job_row jobs) (tables (y_db s))
  end.
Proof.
  intros Hid. revert i s res s'. induction definitions as [|d ds IH]; intros i s res s' Hi; cbn [batch_jobs].
  { intros [= <- <-]. split; [done|]. split; [done|]. split; [constructor|]. split; [done|].
    rewrite app_nil_r. by destruct (tables (y_db s)). }
  rewrite bind_step. destruct (batch_job _ batch d s) as [r1 s1] eqn:E1. cbn [fst snd].
  apply (batch_job_in_txn t0) in E1 as (Hq1 & Hc1 & H1); [|done|done].
  destruct r1 as [job|]; [|by intros [= <- <-]]. destruct H1 as (Hv & Hi1 & _ & Ht1).
  rewrite bind_step. destruct (batch_jobs e malloc_ok batch (S i) ds s1) as [r2 s2] eqn:E2. cbn [fst snd].
  apply IH in E2 as (Hq2 & Hc2 & H2); [|done]. intros [= <- <-]. split; [by transitivity s1|]. split; [congruence|].
  destruct r2 as [jobs|]; simpl; [|done]. destruct H2 as (Hvs & Hi2 & Ht2). split; [|split; [done|]].
  - constructor; [exact Hv|by rewrite <- Hc1].
  - by rewrite Ht2, Ht1, t_jobs_set, set_t_jobs_twice, <- app_assoc.
Qed.

(** What pushing does to the system: only the queue changes, and a queue that
    can grow and is open receives every job. *)
Definition queued (e : Env) (jobs : list Job) (s s' : Sys) : Prop :=
  y_db s' = y_db s ∧
  ∀ q, y_queue s = Some q → q_shutdown q = false → en_queue_realloc_ok e = true →
    ∃ q', y_queue s' = Some q' ∧ q_shutdown q' = false ∧ q_heap q' ≡ₚ jobs ++ q_heap q.

Lemma batch_push_queues e job s : queued e [job] s (batch_push e job s).2.
Proof.
  unfold batch_push. rewrite bind_step. cbn [fst snd store_init_job_dirs mret st_ret]. rewrite bind_step.
  unfold sys_queue_push. destruct (y_queue s) as [q|] eqn:Eq; cbn [fst snd mret st_ret]; [|by split; [|rewrite Eq; intros q [=]]].
  destruct (queue_push _ job q) as [rc q'] eqn:Ep. cbn [fst snd]. split; [by destruct s|].
  rewrite Eq. intros q0 [= <-] Hsh Hre. exists q'. split; [by destruct s|]. unfold queue_push in Ep. rewrite Hsh, Hre, andb_false_r in Ep.
  injection Ep as _ <-. split; [done|]. simpl. apply heap_push_perm.
Qed.

Lemma batch_pushes_queue e jobs s : queued e jobs s (st_iter (batch_push e) jobs s).2.
Proof.
  revert s. induction jobs as [|job jobs IH]; intros s; [split; [done|]; intros q Hq ? _; by exists q|].
  cbn [st_iter]. rewrite bind_step. destruct (batch_push_queues e job s) as [Hd1 Hq1].
  destruct (IH (batch_push e job s).2) as [Hd2 Hq2]. split; [congruence|]. intros q Hq Hsh Hre.
  destruct (Hq1 q Hq Hsh Hre) as (q1 & E1 & Hs1 & Hp1). destruct (Hq2 q1 E1 Hs1 Hre) as (q2 & E2 & Hs2 & Hp2).
  exists q2. split_and!; [done..|]. rewrite Hp2, Hp1. simpl. by rewrite Permutation_middle.
Qed.

(** The outcome of the transaction. *)
Definition batch_stored (e : Env) (batch : BatchRecord) (definitions : list cJSON) (s s' : Sys) : Prop :=
  ∃ jobs, jobs_of_definitions e batch (clock (y_db s)) definitions jobs ∧
    tables (y_db s') = set_t_jobs (t_jobs (tables (y_db s)) ++ map job_row jobs)
                         (set_t_batches (t_batches (tables (y_db s)) ++ [batch]) (tables (y_db s))) ∧
    ∀ q, y_queue s = Some q → q_shutdown q = false → en_queue_realloc_ok e = true →
      ∃ q', y_queue s' = Some q' ∧ q_heap q' ≡ₚ jobs ++ q_heap q.

Definition nothing_stored (s s' : Sys) : Prop := tables (y_db s') = tables (y_db s) ∧ quiet s s'.

Lemma transaction_failed_restores t0 s1 s reply s' :
  in_failed_txn t0 (y_db s1) ∨ idle (y_db s1) ∧ tables (y_db s1) = t0 → t0 = tables (y_db s) → quiet s s1 →
  transaction_failed s1 = (reply, s') → status_of reply = 500 ∧ nothing_stored s s' ∧ idle (y_db s').
Proof.
  intros Hf -> Hq. unfold transaction_failed. rewrite bind_step. destruct (ydb db_rollback s1) as [rc s2] eqn:E. cbn [fst snd].
  apply ydb_spec in E as [E Hq2]. intros [= <- <-]. split; [done|]. unfold nothing_stored.
  assert (tables (y_db s2) = tables (y_db s) ∧ idle (y_db s2)) as [Ht Hi].
  { destruct Hf as [Hf|[Hi Ht]].
    - apply db_rollback_restores in Hf. rewrite E in Hf. simpl in Hf. tauto.
    - unfold db_rollback in E. destruct Hi as [Ha Hs]. rewrite Ha, orb_true_r in E. injection E as _ <-. by split; [|split]. }
  split; [split; [done|by transitivity s1]|done].
Qed.

Lemma batch_transaction_spec e malloc_ok batch definitions s reply s' :
  (str_len (b_id batch) < 64)%nat → idle (y_db s) → batch_transaction e malloc_ok batch definitions s = (reply, s') →
  idle (y_db s') ∧
  (status_of reply = 201 ∧ batch_stored e batch definitions s s' ∨ status_of reply = 500 ∧ nothing_stored s s').
Proof.
  intros Hid Hi. unfold batch_transaction. rewrite bind_step. destruct (ydb db_begin s) as [rc1 s1] eqn:E1. cbn [fst snd].
  apply ydb_spec in E1 as [E1 Hq1]. apply db_begin_spec in E1 as (Hc1 & Ht1 & _ & H1); [|done].
  destruct H1 as [[-> Hin1]|[-> Hi1]]; cbn [Z.eqb negb].
  2:{ intros E%(transaction_failed_restores (tables (y_db s)) _ s); [|by right|done|done]. tauto. }
  rewrite bind_step. destruct (ydb _ s1) as [rc2 s2] eqn:E2. cbn [fst snd].
  apply (ydb_dml_in_txn (tables (y_db s))) in E2 as (Hq2 & Hc2 & H2); [|done]. pose proof (transitivity Hq1 Hq2) as Hq02.
  destruct H2 as [(-> & Hin2 & n2 & Hf2)|[-> Hf2]]; cbn [Z.eqb negb].
  2:{ intros E%(transaction_failed_restores (tables (y_db s)) _ s); [|by left|done|done]. tauto. }
  rewrite bind_step. destruct (batch_jobs _ _ _ _ _ s2) as [r3 s3] eqn:E3. cbn [fst snd].
  apply (batch_jobs_in_txn (tables (y_db s))) in E3 as (Hq3 & Hc3 & H3); [|done|done]. pose proof (transitivity Hq02 Hq3) as Hq03.
  destruct r3 as [jobs|].
  2:{ intros E%(transaction_failed_restores (tables (y_db s)) _ s); [|by left|done|done]. tauto. }
  destruct H3 as (Hvs & Hin3 & Ht3). rewrite bind_step. destruct (ydb db_commit s3) as [rc4 s4] eqn:E4. cbn [fst snd].
  apply ydb_spec in E4 as [E4 Hq4]. apply (db_commit_spec (tables (y_db s))) in E4 as (Hi4 & Hc4 & _ & H4); [|done].
  pose proof (transitivity Hq03 Hq4) as Hq04. destruct H4 as [[-> Ht4]|[-> Ht4]]; cbn [Z.eqb negb].
  2:{ intros E%(transaction_failed_restores (tables (y_db s)) _ s); [|by right|done|done]. tauto. }
  rewrite bind_step. destruct (batch_pushes_queue e jobs s4) as [Hd5 Hq5]. set (s5 := (st_iter _ _ _).2) in *.
  rewrite bind_step. destruct (ydb _ s5) as [st s6] eqn:E6. cbn [fst snd]. intros [= <- <-].
  apply ydb_spec in E6 as [E6 Hq6]. rewrite Hd5 in E6.
  assert (idle (y_db s6) ∧ tables (y_db s6) = tables (y_db s4)) as [Hi6 Ht6].
  { unfold db_get_batch_stats in E6. rewrite bind_step in E6. destruct (query _ (y_db s4)) as [r d] eqn:Eq. cbn [fst snd] in E6.
    apply query_idle in Eq as ([Hid' _] & Ht & _); [|done]. by destruct r as [[]|]; injection E6 as _ <-. }
  split; [done|]. left. split; [done|]. exists jobs. split; [by rewrite Hc2, Hc1 in Hvs|]. split.
  - rewrite Ht6, Ht4, Ht3. destruct (existsb _ _); [done|]. injection Hf2 as Hf2 _. rewrite <- Hf2, Ht1.
    by destruct (tables (y_db s)).
  - intros q Hq Hsh Hre. rewrite <- (qt_queue _ _ Hq04) in Hq. destruct (Hq5 q Hq Hsh Hre) as (q' & Hq' & _ & Hp).
    exists q'. by rewrite (qt_queue _ _ Hq6).
Qed.

Lemma job_of_definition_bounds e batch uuid now d :
  let job := job_of_definition e batch uuid now d in
  j_status job = JOB_STATUS_QUEUED ∧ j_batch_id job = cbuf 64 (b_id batch) ∧ j_user_id job = cbuf JOB_USER_LEN (b_user_id batch) ∧
  0 ≤ j_priority job ≤ 100 ∧ 1 ≤ j_req_cores job ≤ 10000 ∧ 0 ≤ j_req_gpu job ≤ 1000 ∧
  0 ≤ j_req_ram_mb job ≤ 10000000 ∧ 0 ≤ j_req_disk_mb job ≤ 10000000 ∧ 0 ≤ j_timeout_seconds job ≤ 604800.
Proof.
  intros job.
  assert (∀ v d hi, 0 ≤ d ≤ hi → d_exact hi = true → 0 ≤ bounded_int v d 0 hi ≤ hi) as Hb.
  { intros v dv hi Hdv Hhi. apply bounded_int_range; [done|done|done|]. right. lia. }
  assert (∀ v, (if 0 <? bounded_int v 1 1 10000 then bounded_int v 1 1 10000 else 1) ≤ 10000) as Hcores.
  { intros v. destruct (0 <? _) eqn:E; [|lia]. bool_prop. destruct (d_isnan (valuedouble v)) eqn:En.
    - unfold bounded_int in *. destruct (valuedouble v); try done. by destruct (cJSON_IsNumber v).
    - pose proof (bounded_int_range v 1 1 10000 ltac:(lia) eq_refl eq_refl (or_introl En)). lia. }
  assert (∀ z, 0 ≤ z → (if 0 <? z then z else 0) = z) as Hpos by (intros z Hz; destruct (0 <? z) eqn:E; bool_prop; lia).
  split_and!; try done; try (apply Hb; [lia|done]); cbn; rewrite ?Hpos by (apply Hb; [lia|done]);
    try (apply Hb; [lia|done]); [|apply Hcores]. destruct (0 <? _) eqn:E; bool_prop; lia.
Qed.

(** A request is either refused before the database is touched or is run as
    a transaction. *)
Lemma batches_submit_cases e copy_ok array_ok malloc_ok random body user s :
  (∃ code msg, code ∈ [400; 413; 500] ∧
     batches_submit e copy_ok array_ok malloc_ok random body user s = (http_error code msg, s)) ∨
  (∃ request batch, en_parse e body = Some request ∧
     let definitions := array_items (cJSON_GetObjectItemCaseSensitive request "jobs") in
     1 ≤ Z.of_nat (length definitions) ≤ 1000 ∧ Forall (λ d, valid_definition d = true) definitions ∧
     (str_len (b_id batch) < 64)%nat ∧
     batches_submit e copy_ok array_ok malloc_ok random body user s = batch_transaction e malloc_ok batch definitions s).
Proof.
  assert (∀ code msg (r : Reply * Sys), code ∈ [400; 413; 500] → r = (http_error code msg, s) →
    ∃ code msg, code ∈ [400; 413; 500] ∧ r = (http_error code msg, s)) as Hno by eauto.
  unfold batches_submit.
  destruct (_ || _); [left; apply (Hno 413 _ _ ltac:(set_solver) eq_refl)|].
  destruct copy_ok; [|left; apply (Hno 500 _ _ ltac:(set_solver) eq_refl)]. cbn [negb].
  destruct (en_parse e body) as [request|]; [|left; apply (Hno 400 _ _ ltac:(set_solver) eq_refl)].
  set (defs := cJSON_GetObjectItemCaseSensitive request "jobs"). cbv zeta.
  destruct (_ || _) eqn:Ecount; [left; apply (Hno 400 _ _ ltac:(set_solver) eq_refl)|].
  destruct (forallb _ _) eqn:Evalid; [|left; apply (Hno 400 _ _ ltac:(set_solver) eq_refl)]. cbn [negb].
  destruct random as [raw|]; [|left; apply (Hno 500 _ _ ltac:(set_solver) eq_refl)].
  cbn [generate_batch_id fmap option_fmap option_map]. rewrite bind_step. cbn [fst snd y_now st_gets].
  destruct array_ok; [|left; apply (Hno 500 _ _ ltac:(set_solver) eq_refl)]. cbn [negb]. right.
  exists request. eexists. split; [done|]. apply orb_false_iff in Ecount as [E1 E2].
  unfold cJSON_GetArraySize, MAX_BATCH_JOBS in *. fold defs.
  destruct (cJSON_IsArray defs) eqn:Ea; bool_prop; [|lia]. split; [lia|]. split.
  { apply Forall_forall. intros d Hd. rewrite forallb_forall in Evalid. apply Evalid. by apply list_elem_of_In. }
  split; [|reflexivity]. cbn [b_id]. rewrite bytes_to_hex_len, length_take. lia.
Qed.

(** ** Properties *)


