(* ===== verification/Apps.v ===== *)
(** Application templates, the middle part of src/http/routes.c: validation of
    a definition, conversion of the parameters to text, and the command that
    a template and its parameters give.  An error is its message ([inl]); the
    definitions are files, and cJSON's parser and printer are arguments. *)
From S2P Require Import Prelude Job Json Config Http.

(** ** Errors *)

Notation res := (sum string).
#[export] Instance res_ret : MRet res := λ A x, inr x.
#[export] Instance res_bind : MBind res := λ A B f m, match m with inl e => inl e | inr x => f x end.

(** [snprintf(err_buf, 256, ...); return -1;] *)
Definition err {A} (msg : string) : res A := inl (cbuf 256 msg).
Definition require (b : bool) (msg : string) : res unit := if b then inr tt else err msg.

Fixpoint res_iter {A} (f : A → res unit) (l : list A) : res unit :=
  match l with
  | [] => mret tt
  | x :: l => f x ;; res_iter f l
  end.

Fixpoint res_fold {A B} (f : A → B → res A) (a : A) (l : list B) : res A :=
  match l with
  | [] => mret a
  | x :: l => a ← f a x; res_fold f a l
  end.

(** ** [%.15g] *)

Definition dec_digits (z : Z) : Z := Z.of_nat (str_len (dec z)).

(** The exponent of the leading decimal digit of [num / den]. *)
Definition floor_log10 (num den : Z) : Z :=
  if den <=? num then dec_digits (num / den) - 1
  else let c := (den + num - 1) / num in - (if c =? 1 then 0 else dec_digits (c - 1)).

Definition div_half_even (a b : Z) : Z :=
  let q := a / b in
  let r := 2 * (a mod b) in
  if (b <? r) || ((r =? b) && Z.odd q) then q + 1 else q.

Definition is_zero_char (c : ascii) : bool := Ascii.eqb c "0".
(** A point and the digits after it, without trailing zeros. *)
Definition fraction (digits : string) : string :=
  match trim_right is_zero_char digits with
  | EmptyString => EmptyString
  | d => "." +:+ d
  end.
Definition zeros (n : nat) : string := Nat.iter n (String "0") EmptyString.

Definition fmt_g15_digits (d x : Z) : string :=
  let s := dec d in
  if (x <? -4) || (15 <=? x) then
    str_take 1 s +:+ fraction (str_drop 1 s) +:+ "e" +:+ (if x <? 0 then "-" else "+")
    +:+ (if Z.abs x <? 10 then "0" else "") +:+ dec (Z.abs x)
  else if 0 <=? x then
    str_take (Z.to_nat (x + 1)) s +:+ fraction (str_drop (Z.to_nat (x + 1)) s)
  else "0" +:+ fraction (zeros (Z.to_nat (- x - 1)) +:+ s).

Definition fmt_g15 (v : double) : string :=
  match v with
  | S754_zero s => if s then "-0" else "0"
  | S754_infinity s => if s then "-inf" else "inf"
  | S754_nan => "nan"
  | S754_finite s m e =>
      let num := if 0 <=? e then Zpos m * 2 ^ e else Zpos m in
      let den := if 0 <=? e then 1 else 2 ^ (- e) in
      let x := floor_log10 num den in
      let d := if x <=? 14 then div_half_even (num * 10 ^ (14 - x)) den else div_half_even num (den * 10 ^ (x - 14)) in
      let '(d, x) := if d =? 10 ^ 15 then (10 ^ 14, x + 1) else (d, x) in
      (if s then "-" else "") +:+ fmt_g15_digits d x
  end.

(** ** Parameters *)

Record AppResources := mkAppResources { ar_cores : Z; ar_gpu : Z; ar_ram_mb : Z; ar_disk_mb : Z }.
Definition app_resources_defaults : AppResources := mkAppResources 1 0 0 0.

Definition object_members (o : option cJSON) : list (string * cJSON) :=
  match o with Some (JObject ms) => ms | _ => [] end.

(** The number of children of an array or object. *)
Definition array_size (o : option cJSON) : nat :=
  match o with Some (JArray l) => length l | Some (JObject ms) => length ms | _ => O end.

Definition is_string_eq (o : option cJSON) (s : string) : bool := cJSON_IsString o && String.eqb (valuestring o) s.

Definition find_app_field (fields : option cJSON) (name : string) : option cJSON :=
  List.find (λ field, is_string_eq (cJSON_GetObjectItemCaseSensitive field "name") name) (array_items fields).

Definition type_of_definition (definition : cJSON) : string :=
  let t := cJSON_GetObjectItemCaseSensitive definition "type" in
  if cJSON_IsString t then valuestring t else "text".

Definition parameter_to_text (name : string) (definition value : cJSON) : res string :=
  let item := cJSON_GetObjectItemCaseSensitive definition in
  let type := type_of_definition definition in
  let v := valuedouble (Some value) in
  let text := valuestring (Some value) in
  if String.eqb type "checkbox" then
    if negb (cJSON_IsBool (Some value)) then err ("Parameter '" +:+ name +:+ "' must be a boolean")
    else mret (if cJSON_IsTrue (Some value) then "true" else "false")
  else if String.eqb type "number" then
    if negb (cJSON_IsNumber (Some value)) || negb (isfinite v) then err ("Parameter '" +:+ name +:+ "' must be a finite number")
    else if (cJSON_IsNumber (item "min") && dlt v (valuedouble (item "min")))
         || (cJSON_IsNumber (item "max") && dgt v (valuedouble (item "max")))
    then err ("Parameter '" +:+ name +:+ "' is outside its allowed range")
    else mret (cbuf 257 (fmt_g15 v))
  else if negb (cJSON_IsString (Some value)) then err ("Parameter '" +:+ name +:+ "' must be a string")
  else if negb (safe_cli_value text) then err ("Parameter '" +:+ name +:+ "' contains unsupported characters")
  else
    (if String.eqb type "select" then
       if negb (cJSON_IsArray (item "options")) then err ("Parameter '" +:+ name +:+ "' has no valid option list")
       else require (existsb (λ option, is_string_eq (Some option) text) (array_items (item "options")))
              ("Parameter '" +:+ name +:+ "' is not an allowed option")
     else require (String.eqb type "text") ("Parameter '" +:+ name +:+ "' has unsupported type '" +:+ type +:+ "'")) ;;
    let max_length := item "max_length" in
    if cJSON_IsNumber max_length && dge (valuedouble max_length) (d_of_Z 0)
       && (d_trunc (valuedouble max_length) <? Z.of_nat (str_len text))
    then err ("Parameter '" +:+ name +:+ "' is too long")
    else mret (cbuf 257 text).

Definition read_app_resource (app : cJSON) (key : string) (fallback minimum maximum : Z) : res Z :=
  match cJSON_GetObjectItemCaseSensitive app key with
  | None => mret fallback
  | Some item =>
      let v := valuedouble (Some item) in
      if negb (cJSON_IsNumber (Some item)) || negb (isfinite v) || dlt v (d_of_Z minimum) || dgt v (d_of_Z maximum)
         || negb (d_integral v)
      then err ("App resource '" +:+ key +:+ "' is invalid") else mret (d_trunc v)
  end.

Definition read_app_resources (app : cJSON) : res AppResources :=
  cores ← read_app_resource app "req_cores" 1 1 10000;
  gpu ← read_app_resource app "req_gpu" 0 0 1000;
  ram ← read_app_resource app "req_ram_mb" 0 0 10000000;
  disk ← read_app_resource app "req_disk_mb" 0 0 10000000;
  mret (mkAppResources cores gpu ram disk).

(** ** Validation of a definition *)

Definition present {A} (o : option A) : bool := match o with Some _ => true | None => false end.
Definition display_text_ok (o : option cJSON) (maximum_length : nat) : bool :=
  negb (present o) || (cJSON_IsString o && safe_display_text (valuestring o) maximum_length).
Definition finite_ok (o : option cJSON) : bool :=
  negb (present o) || (cJSON_IsNumber o && isfinite (valuedouble o)).

(** The options of a select, in order; [seen] are the earlier ones. *)
Fixpoint validate_options (name : string) (seen : list string) (options : list cJSON) : res unit :=
  match options with
  | [] => mret tt
  | option :: options =>
      let text := valuestring (Some option) in
      require (cJSON_IsString (Some option) && safe_cli_value text) ("Parameter '" +:+ name +:+ "' contains an invalid option") ;;
      require (negb (existsb (String.eqb text) seen)) ("Parameter '" +:+ name +:+ "' contains duplicate options") ;;
      validate_options name (text :: seen) options
  end.

Definition validate_app_parameter (name : string) (definition : cJSON) (require_type : bool) : res unit :=
  let item := cJSON_GetObjectItemCaseSensitive definition in
  require (safe_cli_name name && cJSON_IsObject (Some definition)) "Invalid app parameter definition" ;;
  require (negb (require_type && negb (cJSON_IsString (item "type"))) && negb (present (item "type") && negb (cJSON_IsString (item "type"))))
    ("Parameter '" +:+ name +:+ "' must declare a valid type") ;;
  let type := type_of_definition definition in
  require (String.eqb type "checkbox" || String.eqb type "select" || String.eqb type "text" || String.eqb type "number")
    ("Parameter '" +:+ name +:+ "' has unsupported type '" +:+ type +:+ "'") ;;
  require (display_text_ok (item "label") 128 && display_text_ok (item "placeholder") 256)
    ("Parameter '" +:+ name +:+ "' has invalid display text") ;;
  require (finite_ok (item "min") && finite_ok (item "max")
           && negb (cJSON_IsNumber (item "min") && cJSON_IsNumber (item "max")
                    && dgt (valuedouble (item "min")) (valuedouble (item "max"))))
    ("Parameter '" +:+ name +:+ "' has an invalid numeric range") ;;
  let max_length := valuedouble (item "max_length") in
  require (negb (present (item "max_length"))
           || (cJSON_IsNumber (item "max_length") && isfinite max_length && d_integral max_length
               && negb (dlt max_length (d_of_Z 0)) && negb (dgt max_length (d_of_Z 256))))
    ("Parameter '" +:+ name +:+ "' has an invalid max_length") ;;
  (if String.eqb type "select" then
     let options := array_items (item "options") in
     require ((1 <=? length options)%nat && (length options <=? 100)%nat) ("Parameter '" +:+ name +:+ "' must define 1-100 options") ;;
     validate_options name [] options
   else mret tt) ;;
  match item "default" with
  | Some default_value => parameter_to_text name definition default_value ;; mret tt
  | None => mret tt
  end.

(** The members of ["parameters"]; [seen] are the names before. *)
Fixpoint validate_parameters (seen : list string) (members : list (string * cJSON)) : res unit :=
  match members with
  | [] => mret tt
  | (name, definition) :: members =>
      validate_app_parameter name definition false ;;
      require (negb (existsb (String.eqb name) seen)) ("Duplicate parameter '" +:+ name +:+ "'") ;;
      validate_parameters (name :: seen) members
  end.

(** The elements of ["fields"]; the first error leaves the message empty. *)
Fixpoint validate_fields (parameters : option cJSON) (seen : list string) (fields : list cJSON) : res unit :=
  match fields with
  | [] => mret tt
  | field :: fields =>
      let field_name := cJSON_GetObjectItemCaseSensitive field "name" in
      let name := valuestring field_name in
      (if cJSON_IsString field_name then mret tt else inl "") ;;
      validate_app_parameter name field true ;;
      require (negb (present (get_item parameters name))) ("Duplicate parameter '" +:+ name +:+ "'") ;;
      require (negb (existsb (String.eqb name) seen)) ("Duplicate field '" +:+ name +:+ "'") ;;
      validate_fields parameters (name :: seen) fields
  end.

Definition has_newline (s : string) : bool := str_has CR s || str_has NL s.

Definition env_entry_ok (entry : string * cJSON) : bool :=
  safe_cli_name entry.1 && cJSON_IsString (Some entry.2) && (str_len (valuestring (Some entry.2)) <=? 1024)%nat
  && negb (has_newline (valuestring (Some entry.2))).

Definition validate_app_definition (app : cJSON) : res unit :=
  let item := cJSON_GetObjectItemCaseSensitive app in
  require (cJSON_IsObject (Some app)) "App definition must be an object" ;;
  let command := valuestring (item "command_template") in
  require (cJSON_IsString (item "app_id") && safe_cli_name (valuestring (item "app_id"))
           && cJSON_IsString (item "name") && str_nonempty (valuestring (item "name"))
           && safe_display_text (valuestring (item "name")) 128
           && cJSON_IsString (item "command_template") && str_nonempty command
           && (str_len command <? JOB_CMD_LEN)%nat && negb (has_newline command))
    "App id, name or command template is invalid" ;;
  read_app_resources app ;;
  let parameters := item "parameters" in
  let fields := item "fields" in
  require ((negb (present parameters) || cJSON_IsObject parameters) && (negb (present fields) || cJSON_IsArray fields)
           && (array_size parameters <=? 64)%nat && (array_size fields <=? 64)%nat)
    "App fields or parameters are invalid" ;;
  validate_parameters [] (object_members parameters) ;;
  validate_fields parameters [] (array_items fields) ;;
  match item "env" with
  | None => mret tt
  | Some env =>
      require (cJSON_IsObject (Some env) && (array_size (Some env) <=? 64)%nat) "App environment is invalid" ;;
      require (forallb env_entry_ok (object_members (Some env))) "App environment contains an invalid entry"
  end.

(** ** Files of definitions *)

(** [strrchr(s, '/')]: the part up to the last slash, with it. *)
Fixpoint upto_last_slash (s : string) : option string :=
  match s with
  | EmptyString => None
  | String c s =>
      match upto_last_slash s with
      | Some t => Some (String c t)
      | None => if is_slash c then Some (String c EmptyString) else None
      end
  end.

(** [exe] is what reading /proc/self/exe gives. *)
Definition exe_relative_path (exe : option string) (suffix : string) (buf_len : nat) : string :=
  match exe with
  | Some path =>
      match upto_last_slash (cbuf 512 path) with
      | Some dir => cbuf (buf_len - 1) (dir +:+ suffix)
      | None => cbuf buf_len suffix
      end
  | None => cbuf buf_len suffix
  end.

Definition apps_dir_path (cfg : Config) (exe : option string) (len : nat) : string :=
  let dir := cfg_str cfg apps_dir in
  let absolute :=
    match dir with
    | String c rest => Ascii.eqb c "/" || Ascii.eqb c "\" || match rest with String d _ => Ascii.eqb d ":" | _ => false end
    | EmptyString => false
    end in
  cbuf len (if absolute then dir else exe_relative_path exe dir 512).

Definition app_path (dir app_id : string) : string := cbuf 768 (dir +:+ "/" +:+ app_id +:+ ".json").

(** ** Substitution *)

Definition placeholder (name : string) : string := cbuf 140 ("{{" +:+ name +:+ "}}").

Fixpoint count_brace (s : string) : nat :=
  match s with
  | EmptyString => O
  | String c s => ((if Ascii.eqb c "{" then 1 else 0) + count_brace s)%nat
  end.

(** The loop that replaces every occurrence; [None] when it has not ended
    after [fuel] rounds. *)
Fixpoint replace_loop (fuel : nat) (ph val resolved : string) : option string :=
  match strstr ph resolved with
  | None => Some resolved
  | Some (before, after) =>
      match fuel with
      | O => None
      | S fuel => replace_loop fuel ph val (cbuf JOB_CMD_LEN (before +:+ val +:+ after))
      end
  end.

(** A round removes an opening brace. *)
Definition replace_all (ph val resolved : string) : option string :=
  replace_loop (count_brace resolved) ph val resolved.

Definition append_cmd (resolved text : string) : string := cbuf JOB_CMD_LEN (resolved +:+ text).

(** ** Resolving a command *)

Section resolve.
Context (parse : string → option cJSON) (print : cJSON → option string).
Context (fs : gmap string string) (dir : string) (alloc_ok : bool).

(** The file of an application, read and parsed. *)
Definition read_app_file (app_id : string) : res cJSON :=
  match fs !! app_path dir app_id with
  | None => err ("App not found: " +:+ app_id)
  | Some data =>
      if (str_len data =? 0)%nat || (65536 <? Z.of_nat (str_len data)) then err "App file invalid or too large"
      else if negb alloc_ok then err "Failed to read app definition"
      else match parse data with Some app => inr app | None => err "App JSON parse error" end
  end.

Definition load_app_definition (app_id : string) : res cJSON :=
  require (safe_cli_name app_id) "Invalid app_id characters" ;;
  app ← read_app_file app_id;
  validate_app_definition app ;;
  require (is_string_eq (cJSON_GetObjectItemCaseSensitive app "app_id") app_id) "App id does not match its filename" ;;
  mret app.

Definition forbidden (c : ascii) : bool := str_has c ";|&`$(){}\<>!" || Ascii.eqb c NL || Ascii.eqb c CR.

(** One user parameter; the outer option is the end of the loop. *)
Definition substitute_param (app_id : string) (app_params jfields : option cJSON) (acc : res string)
    (p : string * cJSON) : option (res string) :=
  match acc with
  | inl e => Some (inl e)
  | inr resolved =>
      if negb (cJSON_IsString (Some p.2)) then Some (inr resolved) else
      let val := valuestring (Some p.2) in
      if negb (str_forallb (λ c, negb (forbidden c)) val) then Some (err ("Forbidden character in parameter '" +:+ p.1 +:+ "'"))
      else if present app_params && negb (present (get_item app_params p.1)) && negb (present (find_app_field jfields p.1))
      then Some (err ("Unknown parameter '" +:+ p.1 +:+ "' for app '" +:+ app_id +:+ "'"))
      else inr <$> replace_all (placeholder p.1) val resolved
  end.

(** One declared parameter whose placeholder is still there. *)
Definition substitute_default (acc : res string) (decl : string * cJSON) : option (res string) :=
  match acc with
  | inl e => Some (inl e)
  | inr resolved =>
      if negb (has_substring (placeholder decl.1) resolved) then Some (inr resolved) else
      let jdef := cJSON_GetObjectItemCaseSensitive decl.2 "default" in
      if negb (cJSON_IsString jdef) then Some (err ("Required parameter '" +:+ decl.1 +:+ "' not provided"))
      else inr <$> replace_all (placeholder decl.1) (valuestring jdef) resolved
  end.

(** One field that the template does not mention becomes a flag. *)
Definition append_field (template : string) (user_params : cJSON) (resolved : string) (field : cJSON) : string :=
  let jfname := cJSON_GetObjectItemCaseSensitive field "name" in
  let jftype := cJSON_GetObjectItemCaseSensitive field "type" in
  if negb (cJSON_IsString jfname) || negb (cJSON_IsString jftype) then resolved else
  let fname := valuestring jfname in
  if has_substring (placeholder fname) template then resolved else
  let pval := cJSON_GetObjectItemCaseSensitive user_params fname in
  let jdef := cJSON_GetObjectItemCaseSensitive field "default" in
  if String.eqb (valuestring jftype) "checkbox" then
    let is_true :=
      match pval with Some _ => cJSON_IsTrue pval || is_string_eq pval "true" | None => cJSON_IsTrue jdef end in
    if is_true then append_cmd (append_cmd resolved " --") fname else resolved
  else
    let val :=
      match pval with
      | Some _ => if cJSON_IsString pval then valuestring pval else ""
      | None => if cJSON_IsString jdef then valuestring jdef else ""
      end in
    if str_nonempty val
    then append_cmd (append_cmd (append_cmd (append_cmd resolved " --") fname) " ") val else resolved.

(** The command and the text of the environment block. *)
Definition resolve_app_command_legacy (app_id : string) (user_params : cJSON) : option (res (string * option string)) :=
  if negb (chars_in "_-" app_id) then Some (err "Invalid app_id characters") else
  match read_app_file app_id with
  | inl e => Some (inl e)
  | inr app =>
      let jtpl := cJSON_GetObjectItemCaseSensitive app "command_template" in
      if negb (cJSON_IsString jtpl) || negb (str_nonempty (valuestring jtpl)) then Some (err "App missing 'command_template'") else
      let template := valuestring jtpl in
      let app_params := cJSON_GetObjectItemCaseSensitive app "parameters" in
      let jfields := cJSON_GetObjectItemCaseSensitive app "fields" in
      r ← option_fold (substitute_param app_id app_params jfields) (inr (cbuf JOB_CMD_LEN template))
            (object_members (Some user_params));
      r ← option_fold substitute_default r (object_members app_params);
      Some (match r with
            | inl e => inl e
            | inr resolved =>
                let out_cmd := foldl (append_field template user_params) resolved (array_items jfields) in
                let jenv := cJSON_GetObjectItemCaseSensitive app "env" in
                inr (out_cmd, match jenv with Some env => if cJSON_IsObject jenv then print env else None | None => None end)
            end)
  end.

(** A supplied parameter must be declared and convertible. *)
Definition check_supplied (app_id : string) (app_params fields : option cJSON) (p : string * cJSON) : res unit :=
  let definition :=
    match find_app_field fields p.1 with Some f => Some f | None => get_item app_params p.1 end in
  require (safe_cli_name p.1 && cJSON_IsObject definition) ("Unknown parameter '" +:+ p.1 +:+ "' for app '" +:+ app_id +:+ "'") ;;
  match definition with
  | Some d => parameter_to_text p.1 d p.2 ;; mret tt
  | None => mret tt
  end.

(** [None] for a value that is neither supplied nor defaulted. *)
Definition effective_value (user_params : option cJSON) (definition : cJSON) (name : string) : option cJSON :=
  match get_item user_params name with
  | Some v => Some v
  | None => cJSON_GetObjectItemCaseSensitive definition "default"
  end.

Definition required_missing {A} (template name : string) (x : A) : res A :=
  if has_substring (placeholder name) template then err ("Required parameter '" +:+ name +:+ "' not provided") else inr x.

(** [normalized], extended by a declared parameter. *)
Definition normalize_param (template : string) (user_params : option cJSON) (normalized : list (string * cJSON))
    (p : string * cJSON) : res (list (string * cJSON)) :=
  require (safe_cli_name p.1 && cJSON_IsObject (Some p.2)) "Invalid app parameter definition" ;;
  match effective_value user_params p.2 p.1 with
  | None => required_missing template p.1 normalized
  | Some value => text ← parameter_to_text p.1 p.2 value; mret (normalized ++ [(p.1, JString text)])
  end.

(** [normalized], extended by a field. *)
Definition normalize_field (template : string) (user_params : option cJSON) (normalized : list (string * cJSON))
    (field : cJSON) : res (list (string * cJSON)) :=
  let name_item := cJSON_GetObjectItemCaseSensitive field "name" in
  let type_item := cJSON_GetObjectItemCaseSensitive field "type" in
  let name := valuestring name_item in
  require (cJSON_IsString name_item && safe_cli_name name && cJSON_IsString type_item) "Invalid app field definition" ;;
  if present (cJSON_GetObjectItemCaseSensitive (JObject normalized) name) then mret normalized else
  match effective_value user_params field name with
  | None =>
      if String.eqb (valuestring type_item) "checkbox" then mret (normalized ++ [(name, JString "false")])
      else required_missing template name normalized
  | Some value => text ← parameter_to_text name field value; mret (normalized ++ [(name, JString text)])
  end.

Record Resolved := mkResolved { rs_cmd : string; rs_env_json : option string; rs_resources : AppResources }.

(** The parameters as strings, with the resources of the application. *)
Definition normalize_app (app_id : string) (user_params : option cJSON) : res (AppResources * cJSON) :=
  require (negb (present user_params) || cJSON_IsObject user_params) "'parameters' must be an object" ;;
  app ← load_app_definition app_id;
  let template := valuestring (cJSON_GetObjectItemCaseSensitive app "command_template") in
  let app_params := cJSON_GetObjectItemCaseSensitive app "parameters" in
  let fields := cJSON_GetObjectItemCaseSensitive app "fields" in
  require (cJSON_IsString (cJSON_GetObjectItemCaseSensitive app "command_template") && str_nonempty template
           && (negb (present app_params) || cJSON_IsObject app_params) && (negb (present fields) || cJSON_IsArray fields))
    "Invalid app definition" ;;
  resources ← read_app_resources app;
  res_iter (check_supplied app_id app_params fields) (object_members user_params) ;;
  normalized ← res_fold (normalize_param template user_params) [] (object_members app_params);
  normalized ← res_fold (normalize_field template user_params) normalized (array_items fields);
  mret (resources, JObject normalized).

Definition resolve_app_command (app_id : string) (user_params : option cJSON) : option (res Resolved) :=
  match normalize_app app_id user_params with
  | inl e => Some (inl e)
  | inr (resources, normalized) =>
      r ← resolve_app_command_legacy app_id normalized;
      Some ('(out_cmd, env) ← r;
            require (negb (has_substring "{{" out_cmd) && negb (has_substring "}}" out_cmd))
              "Command template contains an undeclared placeholder" ;;
            mret (mkResolved out_cmd env resources))
  end.
End resolve.
