(* ===== verification/AppsProps.v ===== *)
(** Properties of application commands: resolving a command ends, and the
    characters outside the safe set that it holds all come from the template,
    in their order, whatever the parameters are. *)
From Stdlib Require Import DecimalString.
From S2P Require Import Prelude Job Json Config Http Apps.

(** ** Characters that a parameter may not bring *)

Definition cli_char (c : ascii) : bool := is_alnum c || str_has c " _-./:@+,=".

(** The other characters of a string, in order. *)
Fixpoint risky (s : string) : list ascii :=
  match s with
  | EmptyString => []
  | String c s => if cli_char c then risky s else c :: risky s
  end.

Lemma risky_app a b : risky (a +:+ b) = risky a ++ risky b.
Proof.
  induction a as [|c a IH]; [done|]. change (String c a +:+ b) with (String c (a +:+ b)). cbn [risky].
  rewrite IH. by destruct (cli_char c).
Qed.

Lemma risky_take n s : risky (str_take n s) `sublist_of` risky s.
Proof.
  revert s; induction n as [|n IH]; intros [|c s]; cbn; try apply sublist_nil_l.
  destruct (cli_char c); [apply IH | apply sublist_skip, IH].
Qed.

Lemma risky_nil s : risky s = [] ↔ str_forallb cli_char s = true.
Proof.
  induction s as [|c s IH]; cbn; [done|]. by destruct (cli_char c).
Qed.

Lemma risky_cbuf n s : risky s = [] → risky (cbuf n s) = [].
Proof. intros H. apply sublist_nil_r. rewrite <- H. apply risky_take. Qed.

Lemma chars_in_risky extra s : (∀ c, str_has c extra = true → cli_char c = true) → chars_in extra s = true → risky s = [].
Proof.
  intros He H. apply risky_nil. revert H. apply str_forallb_impl. intros c [H|H]%orb_prop; [|by apply He].
  unfold cli_char. by rewrite H.
Qed.

Lemma safe_cli_value_risky s : safe_cli_value s = true → risky s = [].
Proof. intros [_ H]%andb_prop. by apply risky_nil. Qed.

Lemma str_has_cons c d s : str_has c (String d s) = true → c = d ∨ str_has c s = true.
Proof. cbn. intros [H|H]%orb_prop; [left; by apply Ascii.eqb_eq | by right]. Qed.

Lemma safe_cli_name_risky s : safe_cli_name s = true → risky s = [].
Proof.
  intros [_ H]%andb_prop. revert H. apply chars_in_risky.
  intros c [->|[->|H]%str_has_cons]%str_has_cons; done.
Qed.

(** ** Decimal text *)

Lemma forallb_zeros n : str_forallb cli_char (zeros n) = true.
Proof. induction n as [|n IH]; [done|]. cbn. exact IH. Qed.

Lemma string_of_uint_cli d : str_forallb cli_char (NilEmpty.string_of_uint d) = true.
Proof. induction d; cbn; auto. Qed.

Lemma dec_cli z : str_forallb cli_char (dec z) = true.
Proof.
  unfold dec. destruct (Z.to_int z) as [d|d]; cbn [NilZero.string_of_int str_forallb];
    unfold NilZero.string_of_uint; destruct d; try done; cbn; apply string_of_uint_cli.
Qed.

Lemma fraction_cli s : str_forallb cli_char s = true → str_forallb cli_char (fraction s) = true.
Proof.
  intros H. unfold fraction. pose proof (forallb_trim_right _ is_zero_char _ H) as T.
  by destruct (trim_right is_zero_char s).
Qed.

Lemma fmt_g15_cli v : str_forallb cli_char (fmt_g15 v) = true.
Proof.
  destruct v as [[]|[]| |s m e]; try done. unfold fmt_g15.
  set (num := if 0 <=? e then _ else _). set (den := if 0 <=? e then _ else _). set (x := floor_log10 num den).
  set (d := if x <=? 14 then _ else _). clearbody d x. destruct (if d =? 10 ^ 15 then _ else _) as [d' x']. rewrite forallb_app.
  apply andb_true_intro; split; [by destruct s|]. unfold fmt_g15_digits. pose proof (dec_cli d') as Hd.
  destruct (_ || _); [|destruct (0 <=? x')]; rewrite ?forallb_app, ?fraction_cli, ?forallb_take, ?dec_cli; auto using forallb_drop.
  - by destruct (x' <? 0), (Z.abs x' <? 10).
  - by rewrite forallb_app, forallb_zeros, Hd.
Qed.

(** ** The error monad *)

Lemma require_ok b msg u : require b msg = inr u → b = true.
Proof. by destruct b. Qed.

Lemma res_bind_ok {A B} (m : res A) (f : A → res B) y : m ≫= f = inr y → ∃ x, m = inr x ∧ f x = inr y.
Proof. destruct m as [e|x]; [done|]. intros H. by exists x. Qed.

(** Split a successful sequence of checks into its parts. *)
Ltac res_inv :=
  repeat match goal with
  | H : (?m ≫= ?f) = inr _ |- _ =>
      let x := fresh "x" in let H' := fresh "Hr" in apply res_bind_ok in H as (x & H' & H); cbn beta iota zeta in H
  | H : require _ _ = inr _ |- _ => apply require_ok in H
  | H : mret _ = inr _ |- _ => injection H as H
  end.

Lemma res_fold_ok {A B} (f : A → B → res A) (P : A → Prop) (Q : B → Prop) l a a' :
  (∀ a b a', P a → Q b → f a b = inr a' → P a') → Forall Q l → P a → res_fold f a l = inr a' → P a'.
Proof.
  intros Hf Hl. revert a. induction Hl as [|b l Hb Hl IH]; intros a Ha H; cbn in H; [by injection H as <-|].
  apply res_bind_ok in H as (a1 & H1 & H2). eauto.
Qed.

Lemma parameter_to_text_safe name d v t : parameter_to_text name d v = inr t → risky t = [].
Proof.
  unfold parameter_to_text. cbv zeta. destruct (String.eqb _ "checkbox").
  { case_match; [done|]. intros [= <-]. by case_match. }
  destruct (String.eqb _ "number").
  { do 2 (case_match; [done|]). intros [= <-]. by apply risky_cbuf, risky_nil, fmt_g15_cli. }
  case_match; [done|]. destruct (safe_cli_value _) eqn:E; [|done]. cbn [negb]. intros Hrun. res_inv. revert Hrun.
  clear Hr. case_match; [done|]. intros [= <-]. by apply risky_cbuf, safe_cli_value_risky.
Qed.

(** A text that is converted is safe itself. *)
Lemma parameter_to_text_string name d s t : parameter_to_text name d (JString s) = inr t → risky s = [].
Proof.
  unfold parameter_to_text. cbv zeta. destruct (String.eqb _ "checkbox"); [done|].
  destruct (String.eqb _ "number"); [done|]. cbn [cJSON_IsString negb valuestring].
  destruct (safe_cli_value s) eqn:E; [|done]. intros _. by apply safe_cli_value_risky.
Qed.

(** ** Substitution *)

Lemma count_brace_app a b : count_brace (a +:+ b) = (count_brace a + count_brace b)%nat.
Proof.
  induction a as [|c a IH]; [done|]. change (String c a +:+ b) with (String c (a +:+ b)). cbn [count_brace]. rewrite IH. lia.
Qed.

Lemma count_brace_take n s : (count_brace (str_take n s) ≤ count_brace s)%nat.
Proof. revert s; induction n as [|n IH]; intros [|c s]; cbn; try lia. specialize (IH s). lia. Qed.

(** A text without braces. *)
Lemma risky_no_brace s : risky s = [] → count_brace s = O.
Proof.
  induction s as [|c s IH]; cbn; [done|]. destruct (cli_char c) eqn:E; [|done]. intros H. rewrite IH by done.
  destruct (Ascii.eqb_spec c "{") as [->|]; [done|lia].
Qed.

Lemma placeholder_brace name : (0 < count_brace (placeholder name))%nat.
Proof. unfold placeholder, cbuf. cbn [Nat.sub]. change ("{{" +:+ ?s) with (String "{" (String "{" s)). cbn. lia. Qed.

Lemma cbuf_cmd_len s : (str_len (cbuf JOB_CMD_LEN s) < JOB_CMD_LEN)%nat.
Proof. apply cbuf_len. by apply Nat.ltb_lt. Qed.

(** A command in its buffer, without other risky characters than those of [base]. *)
Definition within (base : list ascii) (s : string) : Prop :=
  risky s `sublist_of` base ∧ (str_len s < JOB_CMD_LEN)%nat.

Lemma within_cbuf base s : risky s `sublist_of` base → within base (cbuf JOB_CMD_LEN s).
Proof. intros H. split; [etransitivity; [apply risky_take | exact H] | apply cbuf_cmd_len]. Qed.

(** A round lowers the number of opening braces; the text that is left has
    no new risky character and no longer the placeholder. *)
Lemma replace_loop_spec fuel base ph val s :
  (0 < count_brace ph)%nat → risky val = [] → (count_brace s ≤ fuel)%nat → within base s →
  ∃ r, replace_loop fuel ph val s = Some r ∧ within base r ∧ strstr ph r = None.
Proof.
  intros Hph Hval. revert s; induction fuel as [|fuel IH]; intros s Hs Hw; cbn [replace_loop];
    (destruct (strstr ph s) as [[b a]|] eqn:E; [|by exists s]); apply strstr_Some in E as ->;
    rewrite !count_brace_app in Hs; [lia|]. apply IH.
  - unfold cbuf. etransitivity; [apply count_brace_take|]. rewrite !count_brace_app, (risky_no_brace val Hval). lia.
  - apply within_cbuf. destruct Hw as [Hw _]. rewrite !risky_app in Hw. rewrite !risky_app, Hval.
    etransitivity; [|exact Hw]. apply sublist_app; [done|]. apply sublist_inserts_l, reflexivity.
Qed.

Lemma replace_all_spec base name val s :
  risky val = [] → within base s →
  ∃ r, replace_all (placeholder name) val s = Some r ∧ within base r ∧ strstr (placeholder name) r = None.
Proof. intros H Hs. by apply replace_loop_spec; [apply placeholder_brace| | |]. Qed.

Lemma append_cmd_within base s t : risky t = [] → within base s → within base (append_cmd s t).
Proof. intros H [Hs _]. apply within_cbuf. by rewrite risky_app, H, app_nil_r. Qed.

(** ** What the validation of a definition gives *)

(** A declared parameter or field, as the later stages use it. *)
Record declared (name : string) (d : cJSON) : Prop := {
  declared_name : safe_cli_name name = true;
  declared_default : ∀ s, cJSON_GetObjectItemCaseSensitive d "default" = Some (JString s) → risky s = []
}.

Lemma validate_app_parameter_ok name d b u : validate_app_parameter name d b = inr u → declared name d.
Proof.
  unfold validate_app_parameter. cbv zeta. intros H. res_inv. split; [by bool_prop|].
  intros s Hs. rewrite Hs in H. apply res_bind_ok in H as (t & H & _). by eapply parameter_to_text_string.
Qed.

Lemma validate_parameters_ok seen ms u : validate_parameters seen ms = inr u → Forall (λ p, declared p.1 p.2) ms.
Proof.
  revert seen; induction ms as [|[name d] ms IH]; intros seen H; [constructor|]. cbn [validate_parameters] in H.
  res_inv. constructor; [by eapply validate_app_parameter_ok | by eapply IH].
Qed.

Definition declared_field (f : cJSON) : Prop :=
  ∃ name, cJSON_GetObjectItemCaseSensitive f "name" = Some (JString name) ∧ declared name f.

Lemma validate_fields_ok ps seen fs u : validate_fields ps seen fs = inr u → Forall declared_field fs.
Proof.
  revert seen; induction fs as [|f fs IH]; intros seen H; [constructor|]. cbn [validate_fields] in H.
  res_inv. constructor; [|by eapply IH].
  destruct (cJSON_GetObjectItemCaseSensitive f "name") as [[]|] eqn:E; try done.
  eexists; split; [exact E|]. by eapply validate_app_parameter_ok.
Qed.

Lemma validate_app_definition_ok app u :
  validate_app_definition app = inr u →
  Forall (λ p, declared p.1 p.2) (object_members (cJSON_GetObjectItemCaseSensitive app "parameters")) ∧
  Forall declared_field (array_items (cJSON_GetObjectItemCaseSensitive app "fields")).
Proof.
  unfold validate_app_definition. cbv zeta. intros H. res_inv.
  split; [by eapply validate_parameters_ok | by eapply validate_fields_ok].
Qed.

(** ** The stages of a resolution *)

(** Parameters after conversion: strings that bring nothing risky. *)
Definition text_member (p : string * cJSON) : Prop :=
  safe_cli_name p.1 = true ∧ ∃ t, p.2 = JString t ∧ risky t = [].

Lemma text_member_of name d v t : safe_cli_name name = true → parameter_to_text name d v = inr t → text_member (name, JString t).
Proof. intros Hn Ht. split; [done|]. exists t. split; [done|]. by eapply parameter_to_text_safe. Qed.

Lemma normalize_param_text template ps acc p acc' :
  Forall text_member acc → normalize_param template ps acc p = inr acc' → Forall text_member acc'.
Proof.
  unfold normalize_param. intros Hacc H. res_inv. bool_prop.
  destruct (effective_value _ _ _); [|unfold required_missing in H; case_match; [done|]; by injection H as <-].
  res_inv. subst acc'. apply Forall_app. split; [done|]. apply Forall_singleton. by eapply text_member_of.
Qed.

Lemma normalize_field_text template ps acc f acc' :
  Forall text_member acc → normalize_field template ps acc f = inr acc' → Forall text_member acc'.
Proof.
  unfold normalize_field. cbv zeta. intros Hacc H. res_inv. bool_prop.
  destruct (present _); [by injection H as <-|]. destruct (effective_value _ _ _).
  { res_inv. subst acc'. apply Forall_app. split; [done|]. apply Forall_singleton. by eapply text_member_of. }
  destruct (String.eqb _ _).
  - injection H as <-. apply Forall_app. split; [done|]. apply Forall_singleton. split; [done|]. by exists "false".
  - unfold required_missing in H. case_match; [done|]. by injection H as <-.
Qed.

Lemma read_app_resource_range app key fallback lo hi z :
  d_exact lo = true → d_exact hi = true → lo ≤ fallback ≤ hi →
  read_app_resource app key fallback lo hi = inr z → lo ≤ z ≤ hi.
Proof.
  intros Hlo Hhi Hf. unfold read_app_resource. destruct (cJSON_GetObjectItemCaseSensitive app key); [|by intros [= <-]].
  cbv zeta. destruct (_ || negb (d_integral _)) eqn:E; [done|]. intros [= <-].
  apply orb_false_elim in E as [E Hi]. apply orb_false_elim in E as [E Hgt]. apply orb_false_elim in E as [_ Hlt].
  apply negb_false_iff in Hi. by apply d_range.
Qed.

Definition resources_in_range (r : AppResources) : Prop :=
  1 ≤ ar_cores r ≤ 10000 ∧ 0 ≤ ar_gpu r ≤ 1000 ∧ 0 ≤ ar_ram_mb r ≤ 10000000 ∧ 0 ≤ ar_disk_mb r ≤ 10000000.

Lemma read_app_resources_range app r : read_app_resources app = inr r → resources_in_range r.
Proof.
  unfold read_app_resources. intros H. res_inv. subst r.
  repeat match goal with H : read_app_resource _ _ _ _ _ = inr _ |- _ => apply read_app_resource_range in H; [|done|done|lia] end.
  done.
Qed.

Lemma foldl_ok {A B} (f : A → B → A) (P : A → Prop) (Q : B → Prop) l a :
  (∀ a b, P a → Q b → P (f a b)) → Forall Q l → P a → P (foldl f a l).
Proof. intros Hf Hl. revert a. induction Hl; cbn; eauto. Qed.

Definition res_ok {A} (P : A → Prop) (r : res A) : Prop := match r with inl _ => True | inr x => P x end.

Lemma substitute_param_ok app_id aps fs base acc p :
  res_ok (within base) acc → text_member p → ∃ acc', substitute_param app_id aps fs acc p = Some acc' ∧ res_ok (within base) acc'.
Proof.
  intros Hacc (_ & t & Ht & Hs). destruct acc as [e|s]; [by exists (inl e)|]. unfold substitute_param. rewrite Ht. cbn [cJSON_IsString negb valuestring].
  destruct (str_forallb _ t); [|by eexists]. destruct (_ && _); [by eexists|]. cbn [negb].
  destruct (replace_all_spec base p.1 t s Hs Hacc) as (r & -> & Hr & _). by exists (inr r).
Qed.

Lemma substitute_default_ok base acc p :
  res_ok (within base) acc → declared p.1 p.2 → ∃ acc', substitute_default acc p = Some acc' ∧ res_ok (within base) acc'.
Proof.
  intros Hacc Hd. destruct acc as [e|s]; [by exists (inl e)|]. unfold substitute_default.
  destruct (negb (has_substring _ s)); [by eexists|]. cbv zeta.
  destruct (cJSON_GetObjectItemCaseSensitive p.2 "default") as [[| | |t| |]|] eqn:E; try by eexists.
  cbn [cJSON_IsString negb valuestring].
  destruct (replace_all_spec base p.1 t s (declared_default _ _ Hd t E) Hacc) as (r & -> & Hr & _). by exists (inr r).
Qed.

Lemma object_lookup_text ms name v :
  Forall text_member ms → cJSON_GetObjectItemCaseSensitive (JObject ms) name = Some v → ∃ t, v = JString t ∧ risky t = [].
Proof.
  intros Hms H. unfold cJSON_GetObjectItemCaseSensitive in H. destruct (head _) as [p|] eqn:E; [|done]. injection H as <-.
  assert (p ∈ ms) as Hp. { apply head_Some_elem_of in E. by apply list_elem_of_filter in E as [_ E]. }
  rewrite Forall_forall in Hms. by destruct (Hms p Hp) as (_ & Ht).
Qed.

Lemma append_field_within base template ms s f :
  Forall text_member ms → within base s → declared_field f → within base (append_field template (JObject ms) s f).
Proof.
  intros Hms Hs (name & Hn & [Hname Hdef]). unfold append_field. rewrite Hn. cbv zeta. cbn [cJSON_IsString negb valuestring orb].
  apply safe_cli_name_risky in Hname.
  destruct (negb (cJSON_IsString _)); [done|]. destruct (has_substring _ _); [done|].
  destruct (String.eqb _ "checkbox").
  { destruct (match _ with Some _ => _ | None => _ end); [|done]. by repeat apply append_cmd_within. }
  set (val := match cJSON_GetObjectItemCaseSensitive _ _ with Some _ => _ | None => _ end).
  assert (risky val = []) as Hval.
  { subst val. destruct (cJSON_GetObjectItemCaseSensitive (JObject ms) name) as [v|] eqn:E.
    - destruct (object_lookup_text _ _ _ Hms E) as (t & -> & Ht). done.
    - destruct (cJSON_GetObjectItemCaseSensitive f "default") as [[| | |t| |]|] eqn:Ed; try done. by apply Hdef. }
  destruct (str_nonempty val); [|done]. by repeat apply append_cmd_within.
Qed.

Section resolve.
Context (parse : string → option cJSON) (print : cJSON → option string).
Context (fs : gmap string string) (dir : string) (alloc_ok : bool).
Let load := load_app_definition parse fs dir alloc_ok.

Definition app_template (app : cJSON) : string := valuestring (cJSON_GetObjectItemCaseSensitive app "command_template").

Lemma load_app_definition_ok app_id app :
  load app_id = inr app →
  chars_in "_-" app_id = true ∧ read_app_file parse fs dir alloc_ok app_id = inr app ∧
  Forall (λ p, declared p.1 p.2) (object_members (cJSON_GetObjectItemCaseSensitive app "parameters")) ∧
  Forall declared_field (array_items (cJSON_GetObjectItemCaseSensitive app "fields")).
Proof.
  unfold load, load_app_definition. intros H. res_inv. subst. unfold safe_cli_name in *. bool_prop.
  split; [done|]. split; [done|]. by eapply validate_app_definition_ok.
Qed.

(** The command made from converted parameters. *)
Lemma resolve_legacy_ok app_id app ms :
  load app_id = inr app → Forall text_member ms →
  ∃ r, resolve_app_command_legacy parse print fs dir alloc_ok app_id (JObject ms) = Some r ∧
       res_ok (λ p, within (risky (app_template app)) p.1) r.
Proof.
  intros (Hid & Hread & Hps & Hfs)%load_app_definition_ok Hms. unfold resolve_app_command_legacy. rewrite Hid, Hread.
  cbn [negb]. cbv zeta. destruct (_ || _); [by eexists|].
  destruct (option_fold_ok (substitute_param app_id (cJSON_GetObjectItemCaseSensitive app "parameters")
    (cJSON_GetObjectItemCaseSensitive app "fields")) (res_ok (within (risky (app_template app)))) text_member ms
    (inr (cbuf JOB_CMD_LEN (app_template app)))) as (r1 & E1 & H1); [by intros; apply substitute_param_ok | done | by apply within_cbuf |].
  destruct (option_fold_ok substitute_default (res_ok (within (risky (app_template app)))) (λ p, declared p.1 p.2)
    (object_members (cJSON_GetObjectItemCaseSensitive app "parameters")) r1) as (r2 & E2 & H2);
    [by intros; apply substitute_default_ok | done | done |].
  unfold app_template in E1. cbn [object_members]. rewrite E1. cbn [mbind option_bind]. rewrite E2. cbn [mbind option_bind].
  eexists; split; [done|]. destruct r2 as [e|s]; [done|]. cbn [res_ok fst].
  apply (foldl_ok _ _ declared_field); [|done|done]. intros s' f Hs' Hf. by apply append_field_within.
Qed.

Lemma normalize_app_ok app_id ps resources normalized :
  normalize_app parse fs dir alloc_ok app_id ps = inr (resources, normalized) →
  resources_in_range resources ∧ ∃ app ms, load app_id = inr app ∧ normalized = JObject ms ∧ Forall text_member ms.
Proof.
  unfold normalize_app. intros H. res_inv. simplify_eq. split; [by eapply read_app_resources_range|].
  eexists _, _. split; [done|]. split; [done|].
  match goal with Hf : res_fold (normalize_field ?t ?ps) ?x ?l = inr ?y |- Forall _ ?y =>
    refine (res_fold_ok _ (Forall text_member) (λ _, True) l x y _ _ _ Hf) end;
    [by intros; eapply normalize_field_text | by apply Forall_true |].
  match goal with Hf : res_fold (normalize_param ?t ?ps) ?x ?l = inr ?y |- Forall _ ?y =>
    refine (res_fold_ok _ (Forall text_member) (λ _, True) l x y _ _ _ Hf) end;
    [by intros; eapply normalize_param_text | by apply Forall_true | constructor].
Qed.
End resolve.

(** C38. Resolving an application command always ends, with a command or an
    error: the substitution loops cannot run for ever, whatever the
    definition file holds and the caller supplies.  Values are converted
    first, so none brings the brace of a placeholder, and string defaults are
    checked when the definition is loaded. *)
Theorem resolve_app_command_terminates parse print fs dir alloc_ok app_id ps :
  is_Some (resolve_app_command parse print fs dir alloc_ok app_id ps).
Proof.
  unfold resolve_app_command. destruct (normalize_app _ _ _ _ _ _) as [e|[resources normalized]] eqn:E; [done|].
  apply normalize_app_ok in E as (_ & app & ms & Hload & -> & Hms).
  destruct (resolve_legacy_ok parse print fs dir alloc_ok app_id app ms Hload Hms) as (r & -> & _). done.
Qed.

(** C16. A resolved command is free of injection: the characters outside
    letters, digits and [ _-./:@+,=] that it holds (quotes, [;], [&], [|],
    [$], line ends, ...) are all taken from the template of the loaded
    definition, in their order; no value of the caller adds one.  The command
    fits its buffer, has no placeholder left, and the resources that go with
    it are within the bounds of a definition. *)
Theorem resolved_command_has_no_injection parse print fs dir alloc_ok app_id ps r :
  resolve_app_command parse print fs dir alloc_ok app_id ps = Some (inr r) →
  ∃ app, load_app_definition parse fs dir alloc_ok app_id = inr app ∧
    risky (rs_cmd r) `sublist_of` risky (valuestring (cJSON_GetObjectItemCaseSensitive app "command_template")) ∧
    (str_len (rs_cmd r) < JOB_CMD_LEN)%nat ∧
    has_substring "{{" (rs_cmd r) = false ∧ has_substring "}}" (rs_cmd r) = false ∧
    resources_in_range (rs_resources r).
Proof.
  unfold resolve_app_command. destruct (normalize_app _ _ _ _ _ _) as [e|[resources normalized]] eqn:E; [done|].
  apply normalize_app_ok in E as (Hres & app & ms & Hload & -> & Hms).
  destruct (resolve_legacy_ok parse print fs dir alloc_ok app_id app ms Hload Hms) as (r1 & -> & H1).
  cbn [mbind option_bind]. intros [= H]. destruct r1 as [e|[cmd env]]; [done|]. cbn in H. res_inv. bool_prop. subst r.
  destruct H1 as [Hsub Hlen]. exists app. split_and!; try done; apply Hres.
Qed.

(** A definition with a parameter in the template, a default and a flag. *)
Definition demo_app : cJSON :=
  JObject [("app_id", JString "cfd"); ("name", JString "CFD"); ("command_template", JString "run '{{case}}' -n {{np}} && echo done");
           ("req_cores", JZ 4);
           ("parameters", JObject [("case", JObject [("type", JString "text")]); ("np", JObject [("type", JString "number"); ("default", JZ 8)])]);
           ("fields", JArray [JObject [("name", JString "verbose"); ("type", JString "checkbox")]])].
Definition demo_fs : gmap string string := {[ "/apps/cfd.json" := "..." ]}.
Definition demo_resolve (ps : list (string * cJSON)) : option (res Resolved) :=
  resolve_app_command (λ _, Some demo_app) (λ _, None) demo_fs "/apps" true "cfd" (Some (JObject ps)).

Example demo_resolved :
  demo_resolve [("case", JString "wing-3"); ("verbose", JBool true)]
  = Some (inr (mkResolved "run 'wing-3' -n 8 && echo done --verbose" None (mkAppResources 4 0 0 0))).
Proof. vm_compute. reflexivity. Qed.

Example demo_refused :
  demo_resolve [("case", JString "x'; rm -rf /")] = Some (err "Parameter 'case' contains unsupported characters") ∧
  demo_resolve [("other", JString "x")] = Some (err "Unknown parameter 'other' for app 'cfd'") ∧
  demo_resolve [] = Some (err "Required parameter 'case' not provided").
Proof. vm_compute. done. Qed.

Lemma resolved_command_has_no_injection_witness :
  ∃ app, load_app_definition (λ _, Some demo_app) demo_fs "/apps" true "cfd" = inr app ∧
    risky "run 'wing-3' -n 8 && echo done --verbose"
      `sublist_of` risky (valuestring (cJSON_GetObjectItemCaseSensitive app "command_template")) ∧
    (str_len "run 'wing-3' -n 8 && echo done --verbose" < JOB_CMD_LEN)%nat ∧
    has_substring "{{" "run 'wing-3' -n 8 && echo done --verbose" = false ∧
    has_substring "}}" "run 'wing-3' -n 8 && echo done --verbose" = false ∧
    resources_in_range (mkAppResources 4 0 0 0).
Proof.
  apply (resolved_command_has_no_injection (λ _, Some demo_app) (λ _, None) demo_fs "/apps" true "cfd"
    (Some (JObject [("case", JString "wing-3"); ("verbose", JBool true)]))
    (mkResolved "run 'wing-3' -n 8 && echo done --verbose" None (mkAppResources 4 0 0 0))).
  vm_compute. reflexivity.
Defined.

(** The loop by itself does not end on a value that holds its placeholder. *)
Example replace_loop_can_spin fuel : replace_loop fuel "{{a}}" "{{a}}" "{{a}}" = None.
Proof. induction fuel as [|fuel IH]; [done|]. exact IH. Qed.
