(* ===== verification/Submit.v ===== *)
(** The job handlers of src/http/routes.c that change state: submission,
    release, cancellation, retry, purge, and the upload of input files.  A
    handler gives the reply; [None] where the process ends in the removal of
    a directory. *)
From S2P Require Import Prelude Job Heap Queue Events Json Registry Sql Db DbAdmin Allocator JobOps Transfer Config System Store Executor Scheduler Http Apps.

(** ** Submission *)

(** -1 is [None], 0 is [Some None]. *)
Definition extract_idempotency_key (rq : Request) (out_len : nat) : option (option string) :=
  match rq_header rq "Idempotency-Key" with
  | None | Some EmptyString => Some None
  | Some header =>
      if (out_len <=? str_len header)%nat then None
      else if chars_in "_-.:" header then Some (Some header) else None
  end.

(** The first [job] of that key, for a repeated request; [None] when the
    request goes on. *)
Definition repeated_submission (c : Call) (auth_user_id key : string) : ST Sys (option Reply) :=
  lookup ← ydb (db_get_submission_job auth_user_id key JOB_ID_LEN);
  if lookup.1 <? 0 then mret (Some (http_error 500 "Failed to check idempotency key")) else
  if negb (0 <? lookup.1) then mret None else
  existing_job ← ydb (db_get_job lookup.2);
  match existing_job with
  | None => mret (Some (http_error 500 "Idempotency record is inconsistent"))
  | Some job =>
      let response := job_to_json job in
      mret (Some (if present (ca_print c response) then http_json_reply 200 response else http_error 500 "Out of memory"))
  end.

(** [resolve_app_command] with the buffers of its callers; it always ends. *)
Definition resolve_app (c : Call) (cfg : Config) (fs : gmap string string) (app_id : string) (params : option cJSON) : res Resolved :=
  match resolve_app_command (en_parse (ca_env c)) (ca_print c) fs (apps_dir_path cfg (ca_exe c) 512) (ca_alloc_ok c) app_id params with
  | Some r => r
  | None => inl ""
  end.

Definition app_only (cfg : Config) : bool := String.eqb (cfg_str cfg command_mode) "app_only".

(** The command, the environment of the application and, in app-only mode,
    the resources of the application; an error is a reply 400. *)
Definition submit_command (c : Call) (cfg : Config) (fs : gmap string string) (req : cJSON) :
    res (string * option string * option AppResources) :=
  let jcmd := cJSON_GetObjectItemCaseSensitive req "command" in
  let japp := cJSON_GetObjectItemCaseSensitive req "app_id" in
  let has_app := cJSON_IsString japp && str_nonempty (valuestring japp) in
  if app_only cfg then
    if cJSON_IsString jcmd then inl "Raw 'command' not allowed in app_only mode; use 'app_id' + 'parameters'" else
    if negb has_app then inl "Missing 'app_id' (required in app_only mode)" else
    r ← resolve_app c cfg fs (valuestring japp) (cJSON_GetObjectItemCaseSensitive req "parameters");
    mret (rs_cmd r, rs_env_json r, Some (rs_resources r))
  else
    if negb (cJSON_IsString jcmd) then inl "Missing 'command'" else
    let env := if has_app then match resolve_app c cfg fs (valuestring japp) None with inr r => rs_env_json r | inl _ => None end
               else None in
    mret (cbuf JOB_CMD_LEN (valuestring jcmd), env, None).

(** One name of ["input_files"], appended to a [char\[2048\]]. *)
Definition add_input_file (input_files_str : string) (f : cJSON) : res string :=
  let name := valuestring (Some f) in
  if negb (cJSON_IsString (Some f)) || negb (transfer_valid_filename name) then inl "Invalid input filename" else
  let used := str_len input_files_str in
  let sep := if (used =? 0)%nat then "" else "," in
  if (2048 <? used + str_len sep + str_len name + 1)%nat then inl "Input file list is too long"
  else inr (input_files_str +:+ sep +:+ name).

Definition submit_input_files (req : cJSON) : res string :=
  let jfiles := cJSON_GetObjectItemCaseSensitive req "input_files" in
  if present jfiles && negb (cJSON_IsArray jfiles) then inl "'input_files' must be an array"
  else res_fold add_input_file "" (array_items jfiles).

(** A job that the caller may name: of an administrator, or its own. *)
Definition dep_visible (auth_user_id auth_role : string) (job : option Job) : bool :=
  match job with
  | None => false
  | Some depjob => is_admin auth_role || (str_nonempty (j_user_id depjob) && String.eqb (j_user_id depjob) auth_user_id)
  end.

(** [strncat(s, ",", ...)] unless empty, and the identifier. *)
Definition append_dep (depends_on_str dep : string) : string :=
  cbuf 2048 ((if str_nonempty depends_on_str then cbuf 2048 (depends_on_str +:+ ",") else "") +:+ dep).

Fixpoint collect_deps (auth_user_id auth_role : string) (deps : list cJSON) (depends_on_str : string) : ST Sys (res string) :=
  match deps with
  | [] => mret (inr depends_on_str)
  | dep :: deps =>
      let id := valuestring (Some dep) in
      if negb (cJSON_IsString (Some dep) && str_nonempty id) then collect_deps auth_user_id auth_role deps depends_on_str else
      depjob ← ydb (db_get_job id);
      if negb (dep_visible auth_user_id auth_role depjob) then mret (err ("Dependency job not found: " +:+ id))
      else collect_deps auth_user_id auth_role deps (append_dep depends_on_str id)
  end.

(** An array, or a single identifier. *)
Definition submit_depends_on (auth_user_id auth_role : string) (req : cJSON) : ST Sys (res string) :=
  let jdeps := cJSON_GetObjectItemCaseSensitive req "depends_on" in
  match jdeps with
  | Some (JArray deps) => collect_deps auth_user_id auth_role deps ""
  | Some (JString dep) => collect_deps auth_user_id auth_role [JString dep] ""
  | _ => mret (inr "")
  end.

Definition field_or (req : cJSON) (key alias : string) : option cJSON :=
  match cJSON_GetObjectItemCaseSensitive req key with
  | Some item => Some item
  | None => cJSON_GetObjectItemCaseSensitive req alias
  end.

(** The resources: those of the application, or the fields of the request. *)
Definition submit_resources (req : cJSON) (app : option AppResources) : AppResources :=
  match app with
  | Some resources => resources
  | None =>
      mkAppResources (clamp_item (field_or req "req_cores" "cores") 1 10000 1)
        (clamp_item (field_or req "req_gpu" "gpu") 0 1000 0)
        (clamp_item (field_or req "req_ram_mb" "ram_mb") 0 10000000 0)
        (clamp_item (field_or req "req_disk_mb" "disk_mb") 0 10000000 0)
  end.

Definition write_file (e : Env) (path data : string) : ST Sys unit := λ s,
  (tt, if en_can_write e path then set_y_files (<[path := data]> (y_files s)) s else s).

(** [job_create_ex] with the fields of the request. *)
Definition submit_create (e : Env) (auth_user_id : string) (req : cJSON) (command : string) (app : option AppResources) :
    ST Sys (option Job) :=
  let item := cJSON_GetObjectItemCaseSensitive req in
  let r := submit_resources req app in
  sys_job_create_ex e command (clamp_item (item "priority") 0 100 50) (ar_cores r) (ar_gpu r) (ar_ram_mb r) (ar_disk_mb r)
    (if str_nonempty auth_user_id then auth_user_id
     else if cJSON_IsString (item "user_id") then valuestring (item "user_id") else "")
    (if cJSON_IsString (item "app_id") then valuestring (item "app_id") else "").

Definition held_reason (depends_on_str input_files_str : string) : string :=
  cbuf 256 (if str_nonempty depends_on_str && str_nonempty input_files_str then "Waiting for dependencies and input files"
            else if str_nonempty depends_on_str then "Waiting for dependencies: " +:+ depends_on_str
            else "Waiting for input files: " +:+ input_files_str).

(** The job waits in CREATED. *)
Definition hold_job (job : Job) (depends_on_str input_files_str : string) : ST Sys Job :=
  ydb (db_update_job_status (j_id job) JOB_STATUS_CREATED 0 0) ;;
  (if str_nonempty input_files_str then ydb (db_update_input_files (j_id job) input_files_str) else mret 0) ;;
  let reason := held_reason depends_on_str input_files_str in
  ydb (db_update_status_reason (j_id job) reason) ;;
  store_init_job_dirs (j_id job) ;;
  mret (with_status_reason reason (with_status JOB_STATUS_CREATED (with_input_files (cbuf 2048 input_files_str) job))).

(** From the created job to the reply. *)
Definition submit_finish (e : Env) (auth_user_id : string) (key : option string) (app_env_json : option string)
    (timeout : Z) (depends_on_str input_files_str : string) (job : Job) : ST Sys (option Reply) :=
  match app_env_json with
  | Some json => store_init_job_dirs (j_id job) ;; write_file e (cbuf 768 (j_input_dir job +:+ "/.app_env.json")) json
  | None => mret tt
  end ;;
  job ← (if str_nonempty depends_on_str then
           ydb (db_update_depends_on (j_id job) depends_on_str) ;; mret (with_depends_on (cbuf 2048 depends_on_str) job)
         else mret job);
  job ← (if 0 <? timeout then
           ydb (db_update_job_timeout (j_id job) timeout) ;; mret (with_timeout_seconds timeout job)
         else mret job);
  stored ← match key with Some key => ydb (db_store_submission_key auth_user_id key (j_id job)) | None => mret 0 end;
  if negb (stored =? 0) then
    sys_set_status_r e job JOB_STATUS_FAILED "Failed to persist idempotency key" ;;
    ended ← sys_remove (store_cleanup_job (en_work_dir e) (j_id job));
    mret (if ended : bool then Some (http_error 500 "Failed to persist idempotency key") else None)
  else
    job ← (if str_nonempty input_files_str || str_nonempty depends_on_str
           then hold_job job depends_on_str input_files_str
           else sys_queue_push e job ;; mret job);
    mret (Some (http_json_reply 201 (job_to_json job))).

(** The body is parsed from a copy in [char\[4096\]]. *)
Definition submit_request (e : Env) (c : Call) (rq : Request) (auth_user_id auth_role : string) (key : option string) :
    ST Sys (option Reply) :=
  match en_parse e (cbuf 4096 (rq_body rq)) with
  | None => mret (Some (http_error 400 "Invalid JSON"))
  | Some req =>
      fs ← st_gets y_files;
      match submit_command c (en_cfg e) fs req with
      | inl msg => mret (Some (http_error 400 msg))
      | inr (command, app_env_json, app) =>
          match submit_input_files req with
          | inl msg => mret (Some (http_error 400 msg))
          | inr input_files_str =>
              deps ← submit_depends_on auth_user_id auth_role req;
              match deps with
              | inl msg => mret (Some (http_error 400 msg))
              | inr depends_on_str =>
                  job ← submit_create e auth_user_id req command app;
                  match job with
                  | None => mret (Some (http_error 500 "Failed to create job"))
                  | Some job =>
                      submit_finish e auth_user_id key app_env_json
                        (clamp_item (cJSON_GetObjectItemCaseSensitive req "timeout_seconds") 0 604800 0)
                        depends_on_str input_files_str job
                  end
              end
          end
      end
  end.

Definition submit_job (e : Env) (c : Call) (accepting_jobs : bool) (rq : Request) (auth_user_id auth_role : string) :
    ST Sys (option Reply) :=
  match extract_idempotency_key rq 129 with
  | None => mret (Some (http_error 400 "Idempotency-Key must be 1-128 safe characters and requires a bound user"))
  | Some key =>
      if present key && negb (str_nonempty auth_user_id)
      then mret (Some (http_error 400 "Idempotency-Key must be 1-128 safe characters and requires a bound user")) else
      repeated ← match key with Some key => repeated_submission c auth_user_id key | None => mret None end;
      match repeated with
      | Some reply => mret (Some reply)
      | None =>
          if negb accepting_jobs then mret (Some (http_error 503 "Scheduler is draining and not accepting new jobs"))
          else submit_request e c rq auth_user_id auth_role key
      end
  end.

(** ** Release, cancellation, retry *)

Definition terminal_row (job : Job) : bool := is_terminal (j_status job).

Definition release_job (e : Env) (job_id : string) : ST Sys Reply :=
  job ← ydb (db_get_job job_id);
  match job with
  | None => mret (http_error 404 "Job not found")
  | Some job =>
      if negb (status_in [JOB_STATUS_CREATED] job) then mret (http_error 409 "Job is not in CREATED state") else
      r ← sys_set_status_r e job JOB_STATUS_QUEUED "Released manually by user";
      sys_queue_push e r.2 ;;
      mret (http_json_reply 200 (job_to_json r.2))
  end.

Definition cancel_job (e : Env) (job_id : string) : ST Sys Reply :=
  job ← ydb (db_get_job job_id);
  match job with
  | None => mret (http_error 404 "Job not found")
  | Some job =>
      if terminal_row job then mret (http_error 409 "Job already in terminal state") else
      rc ← scheduler_cancel_job e job_id "Cancelled by user";
      if negb (rc =? 0) then mret (http_error 409 "Job could not be cancelled") else
      job ← ydb (db_get_job job_id);
      mret (match job with None => http_error 404 "Job not found" | Some job => http_json_reply 200 (job_to_json job) end)
  end.

Definition retry_failed (job_id : string) : ST Sys (option Reply) :=
  now ← y_now;
  ydb (db_update_job_status job_id JOB_STATUS_FAILED (-1) now) ;;
  mret (Some (http_error 500 "Failed to queue retry")).

Definition retry_job (e : Env) (c : Call) (job_id : string) : ST Sys (option Reply) :=
  previous ← ydb (db_get_job job_id);
  match previous with
  | None => mret (Some (http_error 404 "Job not found"))
  | Some previous =>
      if negb (status_in [JOB_STATUS_FAILED; JOB_STATUS_CANCELLED] previous)
      then mret (Some (http_error 409 "Only FAILED or CANCELLED jobs can be retried")) else
      active ← st_gets (executor_is_active job_id);
      if active : bool then mret (Some (http_error 409 "Previous process is still terminating")) else
      sys_queue_remove_by_id job_id ;;
      rc ← ydb (db_retry_job job_id);
      if negb (rc =? 0) then mret (Some (http_error 409 "Job could not be retried")) else
      ended ← sys_remove (store_reset_job_outputs (en_work_dir e) job_id);
      if negb ended then mret None else
      retry ← ydb (db_get_job job_id);
      match retry with
      | None => retry_failed job_id
      | Some retry =>
          if negb (present (ca_print c (job_to_json retry))) then retry_failed job_id else
          rc ← sys_queue_push e retry;
          if negb (rc =? 0) then retry_failed job_id else mret (Some (http_json_reply 200 (job_to_json retry)))
      end
  end.

(** ** Purge *)

(** The directories of the finished jobs that are listed; [None] when a
    removal does not end, otherwise their number. *)
Fixpoint purge_dirs (e : Env) (jobs : list Job) (cleaned : Z) : ST Sys (option Z) :=
  match jobs with
  | [] => mret (Some cleaned)
  | job :: jobs =>
      if negb (terminal_row job) then purge_dirs e jobs cleaned else
      ended ← sys_remove (store_cleanup_job (en_work_dir e) (j_id job));
      if negb ended then mret None else purge_dirs e jobs (cleaned + 1)
  end.

Definition purge_jobs (e : Env) (c : Call) : ST Sys (option Reply) :=
  if negb (ca_alloc_ok c) then mret (Some (http_error 500 "Out of memory")) else
  jobs ← ydb (db_list_jobs 4096);
  cleaned ← purge_dirs e jobs 0;
  match cleaned with
  | None => mret None
  | Some cleaned =>
      deleted ← ydb db_purge_jobs;
      mret (Some (http_json_reply 200 (JObject [("deleted", JZ deleted); ("cleaned", JZ cleaned)])))
  end.

(** ** Input files *)

(** A name of the list is there; [fopen] opens directories too. *)
Definition input_present (fs : gmap string string) (input_dir tok : string) : bool :=
  let tok := trim_left is_space tok in
  transfer_valid_filename tok && present (fs_stat fs (cbuf 768 (input_dir +:+ "/" +:+ tok))).

Definition check_and_auto_release (e : Env) (job_id : string) : ST Sys unit :=
  job ← ydb (db_get_job job_id);
  match job with
  | None => mret tt
  | Some job =>
      if negb (status_in [JOB_STATUS_CREATED] job) || negb (str_nonempty (j_input_files job)) then mret tt else
      fs ← st_gets y_files;
      if forallb (input_present fs (store_input_dir (en_work_dir e) job_id 512)) (strtok_commas (j_input_files job)) then
        r ← sys_set_status_r e job JOB_STATUS_QUEUED "All input files received via upload";
        sys_queue_push e r.2 ;; mret tt
      else mret tt
  end.

(** A decoded NUL makes the length differ from [strlen]. *)
Definition decode_filename_segment (rq : Request) (encoded : string) : option string :=
  match rq_url_decode rq encoded 256 with
  | Some decoded => if negb (str_has "000" decoded) && transfer_valid_filename decoded then Some decoded else None
  | None => None
  end.

(** [upload_handle] on the files of the process. *)
Definition sys_upload (e : Env) (job_id filename data : string) : ST Sys Z := λ s,
  let len := Z.of_nat (str_len data) in
  let path := upload_path (en_work_dir e) job_id filename in
  let '(rc, opened) := upload_handle (en_work_dir e) job_id filename len (if en_can_write e path then Some len else None) true in
  (rc, match opened with Some path => set_y_files (<[path := data]> (y_files s)) s | None => s end).

Definition upload_input (e : Env) (rq : Request) (job_id filename : string) : ST Sys Reply :=
  if 512 * 1024 * 1024 <? Z.of_nat (str_len (rq_body rq)) then mret (http_error 413 "Upload too large (max 512 MB)") else
  match decode_filename_segment rq filename with
  | None => mret (http_error 400 "Invalid filename")
  | Some decoded_filename =>
      written ← sys_upload e job_id decoded_filename (rq_body rq);
      if written <? 0 then mret (http_error 500 "Upload failed") else
      check_and_auto_release e job_id ;;
      mret (http_json_reply 200 (JObject [("bytes", JZ written)]))
  end.

Definition download_output (e : Env) (rq : Request) (job_id filename : string) : ST Sys Reply :=
  fs ← st_gets y_files;
  mret (match decode_filename_segment rq filename ≫= download_path (en_work_dir e) (λ p, present (fs_stat fs p)) job_id with
        | Some path => http_file "application/octet-stream" path
        | None => http_error 404 "Output file not found"
        end).
