(* ===== verification/SubmitProps.v ===== *)
(** Properties of the job handlers: a keyed submission happens once, and what
    the automatic release after an upload does. *)
From S2P Require Import Prelude Job Uuid Heap Queue Events Json Registry Sql Db DbAdmin DbInv Allocator DbProps JobOps JobProps Transfer Config System SysFixture Store Executor Scheduler Sha256 Http Batches Apps AppsProps Submit.

(** ** What the steps of a submission leave alone *)

(** The identifiers of the jobs and the idempotency keys stay. *)
Definition same_ids (s s' : Sys) : Prop :=
  idle (y_db s) → idle (y_db s') ∧ s_open (y_db s') = s_open (y_db s) ∧
  j_id <$> t_jobs (tables (y_db s')) = j_id <$> t_jobs (tables (y_db s)) ∧
  t_submission_keys (tables (y_db s')) = t_submission_keys (tables (y_db s)).

#[export] Instance same_ids_preorder : PreOrder same_ids.
Proof.
  split; [done|]. intros a b c H1 H2 Hi. destruct (H1 Hi) as (Hb & ? & ? & ?), (H2 Hb) as (? & ? & ? & ?).
  split_and!; [done|congruence..].
Qed.

Lemma ydb_db {A} (m : ST Db A) s r s' : ydb m s = (r, s') → m (y_db s) = (r, y_db s').
Proof.
  destruct (m (y_db s)) as [a d] eqn:E. rewrite (ydb_run m s a d E). intros [= <- <-]. by destruct s as [[]].
Qed.

Lemma y_db_set_alloc s d : y_db (set_y_alloc (mkAllocState (y_registry s) (y_ledger s) d) s) = d.
Proof. by destruct s as [[]]. Qed.

Lemma same_ids_update p f : (∀ j, j_id (f j) = j_id j) → keeps same_ids (ydb (dml_rc (λ _, update_jobs p f))).
Proof.
  intros Hf s rc s' H%ydb_db Hi. apply (dml_rc_idle _ _ _ _ Hi) in H as [(Hi' & Ho & _) [(_ & n & [= H _])|(_ & H)]];
    split_and!; try done; [| |by rewrite H|by rewrite H]; rewrite <- H.
  - rewrite t_jobs_set. by apply update_where_fmap.
  - by destruct (tables (y_db s)).
Qed.

Lemma same_ids_query {A} (m : ST Db A) :
  (∀ d r d', m d = (r, d') → idle d → idle d' ∧ s_open d' = s_open d ∧ tables d' = tables d) → keeps same_ids (ydb m).
Proof. intros Hm s r s' H%ydb_db Hi. destruct (Hm _ _ _ H Hi) as (? & ? & ->). done. Qed.

Lemma same_ids_db {A} (m : ST Sys A) : (∀ s, y_db (m s).2 = y_db s) → keeps same_ids m.
Proof. intros H s r s' Hrun Hi. specialize (H s). rewrite Hrun in H. cbn in H. by rewrite H. Qed.

Lemma sys_queue_push_db e j s : y_db (sys_queue_push e j s).2 = y_db s.
Proof. unfold sys_queue_push. destruct (y_queue s); [|done]. destruct (queue_push _ _ _). by destruct s. Qed.

Lemma write_file_db e path data s : y_db (write_file e path data s).2 = y_db s.
Proof. unfold write_file. destruct (en_can_write e path); by destruct s. Qed.

#[export] Hint Resolve same_ids_update same_ids_db sys_queue_push_db write_file_db : clib.

Ltac keeps_ids := repeat first
  [ apply keeps_bind; [apply _| |intros ?]
  | apply keeps_ret; apply _
  | apply same_ids_update; intros []; reflexivity
  | apply same_ids_db; auto with clib; fail
  | case_match ].

Lemma hold_job_ids job deps files : keeps same_ids (hold_job job deps files).
Proof. unfold hold_job, store_init_job_dirs. keeps_ids. Qed.

(** ** One job per key *)

(** The key is bound to a job whose row is there. *)
Definition key_bound (user key id : string) (t : Tables) : Prop :=
  where_ (λ s, String.eqb (sk_user_id s) user && String.eqb (sk_key s) key) (t_submission_keys t) ≠ [] ∧
  (∀ s, s ∈ where_ (λ s, String.eqb (sk_user_id s) user && String.eqb (sk_key s) key) (t_submission_keys t) → sk_job_id s = id) ∧
  id ∈ j_id <$> t_jobs t.

Lemma key_bound_same s s' user key id :
  idle (y_db s) → same_ids s s' → key_bound user key id (tables (y_db s)) → idle (y_db s') ∧ key_bound user key id (tables (y_db s')).
Proof. intros Hi Hs. destruct (Hs Hi) as (Hi' & _ & Hids & Hkeys). unfold key_bound. by rewrite Hids, Hkeys. Qed.

Lemma store_key_binds user key id s s' :
  idle (y_db s) → id ∈ j_id <$> t_jobs (tables (y_db s)) → ydb (db_store_submission_key user key id) s = (0, s') →
  idle (y_db s') ∧ key_bound user key id (tables (y_db s')).
Proof.
  intros Hi Hid H%ydb_db. apply (dml_rc_idle _ _ _ _ Hi) in H as [(Hi' & _) [(_ & n & [= H _])|[? _]]]; [|done].
  split; [done|]. rewrite <- H. set (same := λ s : SubmissionKey, _).
  assert (∀ t v, t_submission_keys (set_t_submission_keys v t) = v ∧ t_jobs (set_t_submission_keys v t) = t_jobs t) as Hset by by intros [].
  unfold key_bound. rewrite (proj1 (Hset _ _)), (proj2 (Hset _ _)). unfold where_. rewrite filter_app.
  assert (same (mkSubmissionKey user key id (clock (y_db s))) = true) as Hsame by (unfold same; cbn; by rewrite !String.eqb_refl).
  rewrite (filter_none _ (delete_where _ _)).
  2: { intros y [Hy _]%where_elem Hy'. apply negb_true_iff in Hy. unfold same in Hy. congruence. }
  rewrite app_nil_l, filter_cons, decide_True by exact Hsame. rewrite filter_nil. split_and!; [done| |done].
  intros y Hy. apply list_elem_of_singleton in Hy as ->. done.
Qed.

Lemma submit_finish_binds e user key env t deps files job s tree s' :
  idle (y_db s) → j_id job ∈ j_id <$> t_jobs (tables (y_db s)) →
  submit_finish e user (Some key) env t deps files job s = (Some (http_json_reply 201 tree), s') →
  idle (y_db s') ∧ key_bound user key (j_id job) (tables (y_db s')) ∧ ∃ job', tree = job_to_json job' ∧ j_id job' = j_id job.
Proof.
  intros Hi Hid. unfold submit_finish.
  rewrite bind_step. set (m1 := match env with Some _ => _ | None => _ end).
  assert (keeps same_ids m1) as K1 by (unfold m1, store_init_job_dirs; destruct env; keeps_ids).
  destruct (m1 s) as [[] s1] eqn:E1. apply K1 in E1. clear m1 K1. destruct (E1 Hi) as (Hi1 & _ & Hids1 & _). rewrite <- Hids1 in Hid. clear Hi E1.
  cbn [fst snd]. rewrite bind_step. set (m2 := if str_nonempty deps then _ else _).
  assert (keeps same_ids m2) as K2 by (unfold m2; keeps_ids).
  assert (j_id (m2 s1).1 = j_id job) as Hj2.
  { unfold m2. destruct (str_nonempty deps); [|done]. rewrite bind_step. by destruct job. }
  destruct (m2 s1) as [job2 s2] eqn:E2. apply K2 in E2. cbn [fst snd] in *. clear m2 K2.
  destruct (E2 Hi1) as (Hi2 & _ & Hids2 & _). rewrite <- Hids2 in Hid. clear Hi1 E2 Hids2.
  rewrite bind_step. set (m3 := if 0 <? t then _ else _).
  assert (keeps same_ids m3) as K3 by (unfold m3; keeps_ids).
  assert (j_id (m3 s2).1 = j_id job) as Hj3.
  { unfold m3. destruct (0 <? t); [|done]. rewrite bind_step. by destruct job2. }
  destruct (m3 s2) as [job3 s3] eqn:E3. apply K3 in E3. cbn [fst snd] in *. clear m3 K3.
  destruct (E3 Hi2) as (Hi3 & _ & Hids3 & _). rewrite <- Hids3 in Hid. clear Hi2 E3 Hids3.
  rewrite bind_step. destruct (ydb _ s3) as [rc s4] eqn:E4. cbn [fst snd]. rewrite Hj3 in E4.
  destruct (rc =? 0) eqn:Erc; cbn [negb].
  2: { rewrite bind_step, bind_step. destruct (sys_remove _ _) as [[] ?]; cbn; intros [= ]; done. }
  bool_prop. subst rc. apply store_key_binds in E4 as [Hi4 Hb]; [|done|done].
  rewrite bind_step. set (m5 := if _ || _ then _ else _).
  assert (keeps same_ids m5) as K5 by (unfold m5; destruct (_ || _); [apply hold_job_ids|keeps_ids]).
  assert (j_id (m5 s4).1 = j_id job) as Hj5.
  { unfold m5. destruct (_ || _); [|by rewrite bind_step]. unfold hold_job. by rewrite !bind_step; destruct job3. }
  destruct (m5 s4) as [job5 s5] eqn:E5. apply K5 in E5. cbn [fst snd mret st_ret] in *. intros [= <- <-].
  destruct (key_bound_same _ _ _ _ _ Hi4 E5 Hb). split_and!; [done|done|]. by exists job5.
Qed.

Lemma ydb_read {A} (m : ST Db A) s a : m (y_db s) = (a, y_db s) → ydb m s = (a, s).
Proof. intros H. rewrite (ydb_run _ _ _ _ H). by destruct s as [[]]. Qed.

Lemma db_get_job_healthy job_id d : healthy_db d →
  db_get_job job_id d = (row_to_job <$> head (where_ (job_is job_id) (t_jobs (tables d))), d).
Proof.
  intros (_ & Ho & Hos). unfold db_get_job. rewrite bind_step, query_healthy by done. cbn [fst snd mret st_ret]. do 2 f_equal.
  cbn [rows_of]. by destruct (where_ _ _).
Qed.

Lemma submission_lookup user key id d :
  healthy_db d → key_bound user key id (tables d) → (str_len id < JOB_ID_LEN)%nat →
  db_get_submission_job user key JOB_ID_LEN d = ((1, id), d).
Proof.
  intros (_ & Ho & Hos) (Hne & Hall & Hid) Hlen. unfold db_get_submission_job. cbn [Nat.ltb Nat.leb JOB_ID_LEN].
  rewrite bind_step, query_healthy by done. cbn [fst snd]. 
  destruct (where_ _ (t_submission_keys _)) as [|k ks] eqn:E; [done|]. cbn [mbind list_bind].
  assert (sk_job_id k = id) as Hk by (apply Hall; set_solver).
  destruct (where_ (job_is (sk_job_id k)) (t_jobs (tables d))) as [|j js] eqn:Ej.
  - exfalso. apply list_elem_of_fmap in Hid as (j & -> & Hj).
    assert (j ∈ where_ (job_is (sk_job_id k)) (t_jobs (tables d))) as Hin
      by (apply where_elem; split; [unfold job_is; rewrite Hk; apply String.eqb_refl|done]).
    rewrite Ej in Hin. set_solver.
  - rewrite Hk. cbn [mbind list_bind app]. by rewrite cbuf_id.
Qed.

Lemma first_row (id : string) l : id ∈ j_id <$> l → ∃ r, head (where_ (job_is id) l) = Some r ∧ r ∈ l ∧ j_id r = id.
Proof.
  intros (j & -> & Hj)%list_elem_of_fmap.
  assert (j ∈ where_ (job_is (j_id j)) l) as Hin by (apply where_elem; split; [apply String.eqb_refl|done]).
  destruct (where_ (job_is (j_id j)) l) as [|r rs] eqn:E; [set_solver|]. exists r. split; [done|].
  assert (r ∈ where_ (job_is (j_id j)) l) as [Hr Hl]%where_elem by (rewrite E; set_solver). split; [done|]. by apply String.eqb_eq.
Qed.

Lemma repeated_submission_found user key id s :
  healthy_db (y_db s) → key_bound user key id (tables (y_db s)) → (str_len id < JOB_ID_LEN)%nat →
  ∃ r, r ∈ t_jobs (tables (y_db s)) ∧ j_id r = id ∧ ∀ c,
    repeated_submission c user key s =
      (Some (if present (ca_print c (job_to_json (row_to_job r))) then http_json_reply 200 (job_to_json (row_to_job r))
             else http_error 500 "Out of memory"), s).
Proof.
  intros Hh Hb Hlen. destruct (first_row id (t_jobs (tables (y_db s)))) as (r & Hr & Hin & Hid); [apply Hb|].
  exists r. split; [done|]. split; [done|]. intros c. unfold repeated_submission. rewrite bind_step.
  rewrite (ydb_read _ _ (1, id)) by by apply submission_lookup. cbn [fst snd Z.ltb Z.compare negb].
  rewrite bind_step, (ydb_read _ _ (Some (row_to_job r))) by (rewrite db_get_job_healthy by done; by rewrite Hr). done.
Qed.

Lemma sys_job_create_ids e command p c g r d u a s job s' :
  idle (y_db s) → sys_job_create_ex e command p c g r d u a s = (Some job, s') →
  idle (y_db s') ∧ j_id job ∈ j_id <$> t_jobs (tables (y_db s')) ∧ (str_len (j_id job) < JOB_ID_LEN)%nat.
Proof.
  intros Hi. unfold sys_job_create_ex. rewrite bind_step, bind_step. cbn [fst snd st_gets st_modify].
  set (s0 := set_y_created _ s). assert (y_db s0 = y_db s) as Hd by (unfold s0; by destruct s). clearbody s0.
  intros H. apply on_jenv_spec in H as (je & E & Hdb & _). rewrite Hd in E. rewrite Hdb. revert E.
  unfold job_create_ex. destruct (en_malloc_ok e); cbn [negb]; [|done]. rewrite bind_jdb. cbn [fst snd st_gets je_db je_events].
  rewrite bind_jdb. cbn [je_db je_events]. set (j := new_job _ _ _ _ _ _ _ _ _ _ _).
  destruct (db_insert_job j (y_db s)) as [rc d'] eqn:Ed. cbn [fst snd mret st_ret]. intros [= Hj <-]. cbn [je_db].
  destruct (rc =? 0) eqn:Erc; [|done]. cbn [negb] in Hj. injection Hj as <-. bool_prop. subst rc.
  apply (dml_rc_idle _ _ _ _ Hi) in Ed as [(Hi' & _) [(_ & n & Hf)|[? _]]]; [|done]. split; [done|].
  destruct (existsb _ _); [done|]. injection Hf as Hf _. rewrite <- Hf, t_jobs_set. split; [|apply cbuf_len; by apply Nat.ltb_lt].
  rewrite fmap_app. apply elem_of_app. right. by left.
Qed.

Lemma db_get_job_ids job_id : keeps same_ids (ydb (db_get_job job_id)).
Proof.
  apply same_ids_query. intros db r d' H Hi. unfold db_get_job in H. rewrite bind_step in H.
  destruct (query _ db) as [q d1] eqn:E. cbn in H. injection H as _ <-. by apply query_idle in E as ((? & ? & _) & ? & _).
Qed.

Lemma submission_job_ids user key n : keeps same_ids (ydb (db_get_submission_job user key n)).
Proof.
  apply same_ids_query. intros d r d' E Hd. unfold db_get_submission_job in E. destruct (n <? 1)%nat; [by injection E as _ <-|].
  rewrite bind_step in E. destruct (query _ d) as [q d1] eqn:Eq. apply query_idle in Eq as ((? & ? & _) & ? & _); [|done].
  cbn [fst snd] in E. assert (d' = d1) as -> by (repeat case_match; injection E; congruence). done.
Qed.

Lemma repeated_submission_ids c user key : keeps same_ids (repeated_submission c user key).
Proof.
  unfold repeated_submission. apply keeps_bind; [apply _|apply submission_job_ids|intros l].
  destruct (_ <? 0); [apply keeps_ret, _|]. destruct (negb _); [apply keeps_ret, _|].
  apply keeps_bind; [apply _|apply db_get_job_ids|intros j]. destruct j; apply keeps_ret, _.
Qed.

Lemma repeated_not_201 c user key s tree s' : repeated_submission c user key s ≠ (Some (http_json_reply 201 tree), s').
Proof.
  unfold repeated_submission. rewrite bind_step. destruct (_ <? 0); [done|]. destruct (negb _); [done|]. rewrite bind_step.
  destruct (ydb _ _) as [[j|] ?]; cbn; [|done]. by destruct (present _).
Qed.

Lemma collect_deps_ids user role deps acc : keeps same_ids (collect_deps user role deps acc).
Proof.
  revert acc; induction deps as [|d deps IH]; intros acc; cbn [collect_deps]; [apply keeps_ret, _|].
  destruct (negb _); [apply IH|]. apply keeps_bind; [apply _|apply db_get_job_ids|intros j].
  destruct (negb _); [apply keeps_ret, _|apply IH].
Qed.

Lemma submit_request_binds e c rq user role key s tree s' :
  idle (y_db s) → submit_request e c rq user role (Some key) s = (Some (http_json_reply 201 tree), s') →
  ∃ job, tree = job_to_json job ∧ (str_len (j_id job) < JOB_ID_LEN)%nat ∧ idle (y_db s') ∧
    key_bound user key (j_id job) (tables (y_db s')).
Proof.
  intros Hi. unfold submit_request. destruct (en_parse e _) as [req|]; [|done]. rewrite bind_step. cbn [fst snd st_gets].
  destruct (submit_command _ _ _ _) as [msg|[[command env] app]]; [done|].
  destruct (submit_input_files req) as [msg|files]; [done|]. rewrite bind_step.
  assert (keeps same_ids (submit_depends_on user role req)) as Kd.
  { unfold submit_depends_on. repeat case_match; try apply collect_deps_ids; apply keeps_ret, _. }
  destruct (submit_depends_on user role req s) as [r s1] eqn:E1. apply Kd in E1. destruct (E1 Hi) as (Hi1 & _). clear Hi E1 Kd.
  cbn [fst snd]. destruct r as [msg|deps]; [done|]. rewrite bind_step.
  destruct (submit_create _ _ _ _ _ s1) as [[job|] s2] eqn:E2; cbn [fst snd]; [|done].
  apply sys_job_create_ids in E2 as (Hi2 & Hin & Hlen); [|done]. intros H.
  apply submit_finish_binds in H as (Hi' & Hb & job' & -> & Hj); [|done|done]. exists job'. by rewrite Hj.
Qed.


Lemma on_jenv_run {A} (m : ST JEnv A) s a je :
  m (mkJEnv (y_db s) (y_events s)) = (a, je) →
  ∃ s', on_jenv m s = (a, s') ∧ y_db s' = je_db je ∧ y_queue s' = y_queue s.
Proof. unfold on_jenv. intros ->. eexists. split; [reflexivity|]. by destruct s as [[]]. Qed.

Definition demo_request : Request :=
  mkRequest "POST" "/jobs" "{...}" (λ h, if String.eqb h "Idempotency-Key" then Some "order-17" else None)
    (λ _ _, None) (λ s _, Some s) 0 0.
Definition demo_call : Call :=
  mkCall (mkEnv config_defaults (λ _, None)
            (λ s, if String.eqb s "..." then Some demo_app
                  else Some (JObject [("app_id", JString "cfd"); ("parameters", JObject [("case", JString "wing")])]))
            (λ _, None) (λ _, 0)
            (λ n, NoUrandom 0 (Z.of_nat n)) None (mkAllocEnv true true) true true true (λ _, true))
    (λ _, None) true (λ _, Some "...") (mkCtx [] 0 0 []) None (λ _, d_of_Z 0) (λ _ _, "...") (λ _ _, true).

Definition reply_json (r : option Reply) : cJSON := match r with Some (http_json_reply _ t) => t | _ => JNull end.
Definition app_system : Sys :=
  set_y_files {[ app_path (apps_dir_path config_defaults None 512) "cfd" := "..." ]} (small_system [] [] []).
Definition demo_submit (s : Sys) : option Reply * Sys :=
  submit_job (ca_env demo_call) demo_call true demo_request "alice" "user" s.


(** Uploading the last input file of a held job queues the job whether
    or not the jobs it depends on have finished: the automatic release looks
    at the files only, while the scheduler's own check of held jobs waits for
    the dependencies too. *)
Theorem upload_release_ignores_dependencies e job_id r s q :
  healthy_db (y_db s) → where_ (job_is job_id) (t_jobs (tables (y_db s))) = [r] → cbuf JOB_ID_LEN job_id = job_id →
  j_status r = JOB_STATUS_CREATED → j_input_files (row_to_job r) ≠ "" →
  forallb (input_present (y_files s) (store_input_dir (en_work_dir e) job_id 512)) (strtok_commas (j_input_files (row_to_job r))) = true →
  (db_check_deps_status (j_depends_on r) (y_db s)).1 = 1 →
  y_queue s = Some q → q_shutdown q = false → en_queue_realloc_ok e = true →
  ∃ s' q' j, check_and_auto_release e job_id s = (tt, s') ∧ y_queue s' = Some q' ∧ q_heap q' ≡ₚ j :: q_heap q ∧
    j_id j = job_id ∧ j_status j = JOB_STATUS_QUEUED ∧ j_depends_on j = j_depends_on (row_to_job r) ∧
    ∀ row, row ∈ t_jobs (tables (y_db s')) → j_id row = job_id → j_status row = JOB_STATUS_QUEUED.
Proof.
  intros Hh Hr Hid Hst Hfiles Hall _ Hq Hsh Hre. unfold check_and_auto_release.
  rewrite bind_step, (ydb_read _ _ (Some (row_to_job r))) by (rewrite db_get_job_healthy by done; by rewrite Hr). cbn [fst snd].
  set (job := row_to_job r) in *.
  assert (j_id r = job_id) as Hrid.
  { assert (r ∈ where_ (job_is job_id) (t_jobs (tables (y_db s)))) as [H _]%where_elem by (rewrite Hr; set_solver). by apply String.eqb_eq. }
  assert (j_id job = job_id ∧ j_status job = JOB_STATUS_CREATED) as [Hjid Hjst] by (unfold job, row_to_job; cbn; by rewrite Hrid).
  unfold status_in. rewrite Hjst. apply str_nonempty_spec in Hfiles. rewrite Hfiles, bool_decide_true by (by left). cbn [negb orb].
  rewrite bind_step. cbn [fst snd st_gets]. rewrite Hall. rewrite bind_step.
  destruct (job_set_status_r_persists (en_print_object e) job JOB_STATUS_QUEUED "All input files received via upload"
    (mkJEnv (y_db s) (y_events s))) as (je & Hrun & _ & _ & Ht); [done|by rewrite Hjst|]. cbn [je_db] in *.
  destruct (on_jenv_run _ s _ _ Hrun) as (s1 & E1 & Hd1 & Hq1). rewrite Hq in Hq1.
  unfold sys_set_status_r. rewrite E1. cbn [fst snd]. set (job' := status_changed _ _ _ _) in *.
  rewrite bind_step. unfold sys_queue_push. rewrite Hq1. unfold queue_push. rewrite Hsh, Hre, andb_false_r. cbn [fst snd mret st_ret].
  eexists _, _, job'. split; [reflexivity|]. 
  assert (j_id job' = j_id job ∧ j_status job' = JOB_STATUS_QUEUED ∧ j_depends_on job' = j_depends_on job) as (J1 & J2 & J3)
    by (unfold job', status_changed; by destruct job).
  split; [by destruct s1|]. split; [apply heap_push_perm|]. split_and!; [congruence|done|done|].
  intros row Hrow Hrowid.
  match type of Hrow with context [y_db ?x] => assert (y_db x = je_db je) as Hx by (rewrite <- Hd1; by destruct s1) end.
  rewrite Hx, Ht, t_jobs_set in Hrow. apply update_where_elem in Hrow as (x & Hx1 & ->).
  destruct (job_is (j_id job) x) eqn:Ex.
  - unfold status_row. rewrite <- J2. by destruct job', x.
  - exfalso. apply String.eqb_neq in Ex. congruence.
Qed.

Definition held_row : Job :=
  mkJob "post" "run" "u" "x" JOB_STATUS_CREATED 50 1 0 0 0 "" "/w/in" "/w/out" "mesh.dat" 10 0 0 0 0 "" "pre" "" "" "".
Definition held_system : Sys :=
  set_y_files {[ store_input_dir (en_work_dir easy_env) "post" 512 +:+ "/mesh.dat" := "m" ]}
    (small_system [row "pre" "u" "x" JOB_STATUS_RUNNING 1; held_row] [] []).

Lemma upload_release_ignores_dependencies_witness :
  ∃ s' q' j, check_and_auto_release easy_env "post" held_system = (tt, s') ∧ y_queue s' = Some q' ∧ q_heap q' ≡ₚ [j] ∧
    j_id j = "post" ∧ j_status j = JOB_STATUS_QUEUED ∧ j_depends_on j = "pre" ∧
    ∀ row, row ∈ t_jobs (tables (y_db s')) → j_id row = "post" → j_status row = JOB_STATUS_QUEUED.
Proof.
  apply (upload_release_ignores_dependencies easy_env "post" held_row held_system (queue_of [])).
  - split; [split|split]; reflexivity.
  - reflexivity.
  - reflexivity.
  - reflexivity.
  - intros [=].
  - vm_compute. reflexivity.
  - reflexivity.
  - reflexivity.
  - reflexivity.
  - reflexivity.
Defined.
