(* ===== verification/Workflow.v ===== *)
(** Workflows, src/http/routes.c: the saved definitions, and the submission
    of a chain of jobs in one transaction. *)
From S2P Require Import Prelude Job Heap Queue Events Json Registry Sql Db DbAdmin Allocator JobOps Cloud Transfer Config System Store Auth Sha256 Http Batches Apps Submit.

(** ** Saved workflows *)

(** Thirty-two hexadecimal digits; without a generator the buffer keeps what
    the stack held. *)
Definition gen_wf_id (c : Call) : string := bytes_to_hex (take 16 (default (ctx_data (ca_stack c)) (ca_random c 16%nat))).

(** A text that does not parse is listed as an empty array. *)
Definition workflow_json (e : Env) (auth_user_id : string) (w : WorkflowDef) : ST Sys cJSON :=
  fav ← ydb (db_is_workflow_favorite auth_user_id (w_id w));
  mret (JObject [("id", JString (w_id w)); ("name", JString (w_name w)); ("owner_id", JString (w_owner_id w));
                 ("is_global", JBool (negb (w_is_global w =? 0))); ("steps", default (JArray []) (en_parse e (w_steps_json w)));
                 ("created_at", JZ (w_created_at w)); ("updated_at", JZ (w_updated_at w)); ("is_favorite", JBool fav)]).

Fixpoint st_map {S A B} (f : A → ST S B) (l : list A) : ST S (list B) :=
  match l with
  | [] => mret []
  | x :: l => y ← f x; ys ← st_map f l; mret (y :: ys)
  end.

Definition list_saved_workflows (e : Env) (c : Call) (auth_user_id auth_role : string) : ST Sys Reply :=
  if negb (ca_alloc_ok c) then mret (http_error 500 "Out of memory") else
  wfs ← ydb (db_list_workflows (if is_admin auth_role then "" else auth_user_id) 128);
  arr ← st_map (workflow_json e auth_user_id) wfs;
  mret (http_json_reply 200 (JArray arr)).

(** The update of an existing definition. *)
Definition update_saved_workflow (auth_user_id auth_role id name steps_str : string) (want_global : bool) (now : Z) : ST Sys Reply :=
  existing ← ydb (db_get_workflow id);
  match existing with
  | None => mret (http_error 404 "Workflow not found")
  | Some w =>
      if negb (String.eqb (w_owner_id w) auth_user_id) && negb (is_admin auth_role)
      then mret (http_error 403 "Cannot edit another user's workflow") else
      ydb (db_update_workflow (mkWorkflow (w_id w) (cbuf 256 name) (w_owner_id w) (if want_global then 1 else 0)
                                 (cbuf 16384 steps_str) (w_created_at w) now)) ;;
      mret reply_ok
  end.

(** The printer is called without a check of its result. *)
Definition save_workflow (e : Env) (c : Call) (rq : Request) (auth_user_id auth_role : string) : ST Sys Reply :=
  match en_parse e (cbuf 32768 (rq_body rq)) with
  | None => mret (http_error 400 "Invalid JSON")
  | Some req =>
      let item := cJSON_GetObjectItemCaseSensitive req in
      let name := valuestring (item "name") in
      let want_global := cJSON_IsTrue (item "is_global") in
      if negb (cJSON_IsString (item "name")) || negb (str_nonempty name) then mret (http_error 400 "Missing 'name'") else
      if negb (cJSON_IsArray (item "steps")) || (cJSON_GetArraySize (item "steps") <? 1)
      then mret (http_error 400 "Missing or empty 'steps' array") else
      if want_global && negb (is_admin auth_role) then mret (http_error 403 "Only admins can create global workflows") else
      let steps_str := default "" (item "steps" ≫= ca_print c) in
      now ← y_now;
      if cJSON_IsString (item "id") && str_nonempty (valuestring (item "id")) then
        update_saved_workflow auth_user_id auth_role (valuestring (item "id")) name steps_str want_global now
      else
        let w := mkWorkflow (gen_wf_id c) (cbuf 256 name) (cbuf 128 auth_user_id) (if want_global then 1 else 0)
                   (cbuf 16384 steps_str) now now in
        rc ← ydb (db_insert_workflow w);
        if negb (rc =? 0) then mret (http_error 500 "Failed to save workflow")
        else mret (http_json_reply 201 (JObject [("id", JString (w_id w)); ("name", JString (w_name w)); ("ok", JBool true)]))
  end.

Definition delete_saved_workflow (wf_id auth_user_id auth_role : string) : ST Sys Reply :=
  existing ← ydb (db_get_workflow wf_id);
  match existing with
  | None => mret (http_error 404 "Workflow not found")
  | Some w =>
      if negb (String.eqb (w_owner_id w) auth_user_id) && negb (is_admin auth_role)
      then mret (http_error 403 "Cannot delete another user's workflow")
      else ydb (db_delete_workflow wf_id) ;; mret reply_ok
  end.

Definition toggle_workflow_favorite (wf_id auth_user_id : string) : ST Sys Reply :=
  existing ← ydb (db_get_workflow wf_id);
  match existing with
  | None => mret (http_error 404 "Workflow not found")
  | Some _ =>
      favorite ← ydb (db_is_workflow_favorite auth_user_id wf_id);
      (if favorite : bool then ydb (db_remove_workflow_favorite auth_user_id wf_id)
       else ydb (db_add_workflow_favorite auth_user_id wf_id)) ;;
      mret (http_json_reply 200 (JObject [("is_favorite", JBool (negb favorite))]))
  end.

(** ** Submission *)

Definition MAX_WORKFLOW_STEPS : Z := 64.

Definition append_csv_value (buffer : string) (capacity : nat) (value : string) : option string :=
  let sep := if str_nonempty buffer then "," else "" in
  if (capacity <? str_len buffer + str_len sep + str_len value + 1)%nat then None else Some (buffer +:+ sep +:+ value).

(** [error_message] and [error_status]. *)
Definition step_error {A} (idx : nat) (msg : string) : Z * string + A :=
  inl (400, cbuf 320 ("Step " +:+ dec (Z.of_nat idx) +:+ ": " +:+ msg)).

Notation step_res := (sum (Z * string)).
#[export] Instance step_ret : MRet step_res := λ A x, inr x.
#[export] Instance step_bind : MBind step_res := λ A B f m, match m with inl e => inl e | inr x => f x end.

Fixpoint step_fold {A B} (f : A → B → step_res A) (a : A) (l : list B) : step_res A :=
  match l with
  | [] => inr a
  | x :: l => match f a x with inl e => inl e | inr a => step_fold f a l end
  end.

(** The command of a step with its application's environment and resources. *)
Definition step_command (c : Call) (cfg : Config) (fs : gmap string string) (idx : nat) (step : cJSON) :
    step_res (string * option string * option AppResources) :=
  let jcmd := cJSON_GetObjectItemCaseSensitive step "command" in
  let japp := cJSON_GetObjectItemCaseSensitive step "app_id" in
  let has_app := cJSON_IsString japp && str_nonempty (valuestring japp) in
  let resolved :=
    match resolve_app c cfg fs (valuestring japp) (cJSON_GetObjectItemCaseSensitive step "parameters") with
    | inl resolve_error => step_error idx resolve_error
    | inr r => inr (rs_cmd r, rs_env_json r, Some (rs_resources r))
    end in
  if app_only cfg then
    if cJSON_IsString jcmd then step_error idx "raw 'command' not allowed in app_only mode" else
    if negb has_app then step_error idx "missing 'app_id' (required in app_only mode)" else resolved
  else if cJSON_IsString jcmd && str_nonempty (valuestring jcmd) then inr (cbuf JOB_CMD_LEN (valuestring jcmd), None, None)
  else if has_app then resolved else step_error idx "missing 'command' or 'app_id'".

(** One element of ["depends_on_steps"]; [job_ids] are those of the earlier
    steps. *)
Definition add_step_dep (idx : nat) (job_ids : list string) (depends_on_str : string) (dependency_index : cJSON) : step_res string :=
  let v := valuedouble (Some dependency_index) in
  if negb (cJSON_IsNumber (Some dependency_index)) then step_error idx "dependency indices must be numbers" else
  let dep_idx := d_trunc v in
  match (if (dep_idx <? 0) || (Z.of_nat (length job_ids) <=? dep_idx) || negb (d_integral v) then None
         else job_ids !! Z.to_nat dep_idx) with
  | None => step_error idx ("depends_on_steps references invalid step " +:+ dec dep_idx)
  | Some id =>
      match append_csv_value depends_on_str 2048 id with
      | None => step_error idx "dependency list is too long"
      | Some s => inr s
      end
  end.

Definition step_deps (idx : nat) (job_ids : list string) (step : cJSON) : step_res string :=
  let jdep_s := cJSON_GetObjectItemCaseSensitive step "depends_on_steps" in
  if present jdep_s && negb (cJSON_IsArray jdep_s) then step_error idx "'depends_on_steps' must be an array"
  else step_fold (add_step_dep idx job_ids) "" (array_items jdep_s).

(** The elements of ["depends_on"]. *)
Fixpoint external_deps (idx : nat) (auth_user_id auth_role : string) (deps : list cJSON) (depends_on_str : string) :
    ST Sys (step_res string) :=
  match deps with
  | [] => mret (inr depends_on_str)
  | dependency :: deps =>
      let id := valuestring (Some dependency) in
      if negb (cJSON_IsString (Some dependency)) || negb (str_nonempty id)
      then mret (step_error idx "dependency IDs must be non-empty strings") else
      dependency_job ← ydb (db_get_job id);
      if negb (dep_visible auth_user_id auth_role dependency_job)
      then mret (step_error idx ("dependency job not found: " +:+ id)) else
      match append_csv_value depends_on_str 2048 id with
      | None => mret (step_error idx "dependency list is too long")
      | Some s => external_deps idx auth_user_id auth_role deps s
      end
  end.

Definition step_external_deps (idx : nat) (auth_user_id auth_role : string) (step : cJSON) (depends_on_str : string) :
    ST Sys (step_res string) :=
  let deps := cJSON_GetObjectItemCaseSensitive step "depends_on" in
  if present deps && negb (cJSON_IsArray deps) then mret (step_error idx "'depends_on' must be an array")
  else external_deps idx auth_user_id auth_role (array_items deps) depends_on_str.

Definition add_step_file (idx : nat) (input_files_str : string) (input_file : cJSON) : step_res string :=
  let name := valuestring (Some input_file) in
  match (if cJSON_IsString (Some input_file) && str_nonempty name && transfer_valid_filename name
         then append_csv_value input_files_str 2048 name else None) with
  | None => step_error idx "invalid or oversized input file list"
  | Some s => inr s
  end.

Definition step_input_files (idx : nat) (step : cJSON) : step_res string :=
  let input_files := cJSON_GetObjectItemCaseSensitive step "input_files" in
  if present input_files && negb (cJSON_IsArray input_files) then step_error idx "'input_files' must be an array"
  else step_fold (add_step_file idx) "" (array_items input_files).

(** The job of a step after its creation. *)
Definition step_job (wf_batch_id : string) (step : cJSON) (depends_on_str input_files_str : string) (job : Job) : Job :=
  let item := cJSON_GetObjectItemCaseSensitive step in
  let job := with_timeout_seconds (clamp_item (item "timeout_seconds") 0 604800 0)
    (with_input_files (cbuf 2048 input_files_str) (with_depends_on (cbuf 2048 depends_on_str)
      (with_workflow_id (cbuf 64 wf_batch_id) job))) in
  let job := if cJSON_IsTrue (item "same_machine") && str_nonempty depends_on_str
             then with_same_machine_as (cbuf JOB_ID_LEN (default depends_on_str (str_before "," depends_on_str))) job else job in
  if str_nonempty depends_on_str || str_nonempty input_files_str then
    with_status_reason (cbuf 256
      (if str_nonempty depends_on_str && str_nonempty input_files_str then "Waiting for dependencies and input files"
       else if str_nonempty depends_on_str then "Waiting for dependencies: " +:+ str_take 210 depends_on_str
       else "Waiting for input files: " +:+ str_take 220 input_files_str))
      (with_status JOB_STATUS_CREATED job)
  else job.

(** Storing the environment and the row of a created job. *)
Definition step_store (e : Env) (app_env_json : option string) (job : Job) : ST Sys (option (Z * string)) :=
  (if present app_env_json || status_in [JOB_STATUS_CREATED] job then store_init_job_dirs (j_id job) ;; mret tt else mret tt) ;;
  match app_env_json with
  | Some json =>
      let path := cbuf 768 (j_input_dir job +:+ "/.app_env.json") in
      if negb (en_can_write e path) then mret (Some (500, "Failed to store workflow application environment")) else
      write_file e path json ;;
      rc ← ydb (db_update_job_submission job);
      mret (if rc =? 0 then None else Some (500, "Failed to persist workflow job details"))
  | None =>
      rc ← ydb (db_update_job_submission job);
      mret (if rc =? 0 then None else Some (500, "Failed to persist workflow job details"))
  end.

(** A step: the job, once created, and the error. *)
Definition workflow_step (e : Env) (c : Call) (malloc_ok : bool) (auth_user_id auth_role wf_batch_id : string) (job_ids : list string)
    (step : cJSON) : ST Sys (option Job * option (Z * string)) :=
  let idx := length job_ids in
  let item := cJSON_GetObjectItemCaseSensitive step in
  if negb (cJSON_IsObject (Some step)) then mret (None, Some (400, "Each step must be a JSON object")) else
  fs ← st_gets y_files;
  match (cmd ← step_command c (en_cfg e) fs idx step; deps ← step_deps idx job_ids step; mret (cmd, deps)) with
  | inl error => mret (None, Some error)
  | inr (command, app_env_json, app, deps) =>
      deps ← step_external_deps idx auth_user_id auth_role step deps;
      match (deps ← deps; files ← step_input_files idx step; mret (deps, files)) with
      | inl error => mret (None, Some error)
      | inr (depends_on_str, input_files_str) =>
          let r := submit_resources step app in
          job ← sys_job_create_ex (with_malloc malloc_ok e) command (clamp_item (item "priority") 0 100 50)
                  (ar_cores r) (ar_gpu r) (ar_ram_mb r) (ar_disk_mb r) auth_user_id
                  (if cJSON_IsString (item "app_id") then valuestring (item "app_id") else "");
          match job with
          | None => mret (None, Some (500, "Failed to create workflow job"))
          | Some job =>
              let job := step_job wf_batch_id step depends_on_str input_files_str job in
              error ← step_store e app_env_json job;
              mret (Some job, error)
          end
      end
  end.

(** The loop over the steps: the jobs created, and the error that ended it.
    [malloc_ok i] is the allocation of the job of step [i]. *)
Fixpoint workflow_steps (e : Env) (c : Call) (malloc_ok : nat → bool) (auth_user_id auth_role wf_batch_id : string)
    (created : list Job) (steps : list cJSON) : ST Sys (list Job * option (Z * string)) :=
  match steps with
  | [] => mret (created, None)
  | step :: steps =>
      r ← workflow_step e c (malloc_ok (length created)) auth_user_id auth_role wf_batch_id (j_id <$> created) step;
      let created := created ++ (match r.1 with Some job => [job] | None => [] end) in
      match r.2 with
      | Some error => mret (created, Some error)
      | None => workflow_steps e c malloc_ok auth_user_id auth_role wf_batch_id created steps
      end
  end.

(** [false] when a removal does not end. *)
Fixpoint workflow_discard_jobs (e : Env) (jobs : list Job) : ST Sys bool :=
  match jobs with
  | [] => mret true
  | job :: jobs =>
      ended ← sys_remove (store_cleanup_job (en_work_dir e) (j_id job));
      if negb ended then mret false else workflow_discard_jobs e jobs
  end.

(** Queueing after the commit: the job of the response. *)
Definition workflow_queue (e : Env) (job : Job) : ST Sys Job :=
  if status_in [JOB_STATUS_CREATED] job then mret job else
  rc ← sys_queue_push e job;
  if rc =? 0 then mret job else r ← sys_set_status_r e job JOB_STATUS_FAILED "Scheduler queue unavailable"; mret (r.2 : Job).

Definition workflow_response (c : Call) (req : cJSON) (wf_batch_id : string) (jobs : list Job) : Reply :=
  let jname := cJSON_GetObjectItemCaseSensitive req "name" in
  let resp := JObject ([("jobs", JArray (job_to_json <$> jobs))]
                       ++ (if cJSON_IsString jname then [("name", JString (valuestring jname))] else [])
                       ++ [("workflow_id", JString wf_batch_id)]) in
  if present (ca_print c resp) then http_json_reply 201 resp else http_error 500 "Out of memory while serializing workflow response".

(** From BEGIN on. *)
Definition workflow_transaction (e : Env) (c : Call) (malloc_ok : nat → bool) (auth_user_id auth_role : string) (req : cJSON) :
    ST Sys (option Reply) :=
  let wf_batch_id := cbuf 64 (gen_wf_id c) in
  rc ← ydb db_begin;
  if negb (rc =? 0) then mret (Some (http_error 503 "Database is busy")) else
  r ← workflow_steps e c malloc_ok auth_user_id auth_role wf_batch_id []
        (array_items (cJSON_GetObjectItemCaseSensitive req "steps"));
  match r.2 with
  | Some (error_status, error_message) =>
      ydb db_rollback ;;
      ended ← workflow_discard_jobs e r.1;
      mret (if ended : bool then Some (http_error error_status error_message) else None)
  | None =>
      rc ← ydb db_commit;
      if negb (rc =? 0) then
        ended ← workflow_discard_jobs e r.1;
        mret (if ended : bool then Some (http_error 500 "Failed to commit workflow") else None)
      else
        response ← st_map (workflow_queue e) r.1;
        mret (Some (workflow_response c req wf_batch_id response))
  end.

Definition submit_workflow (e : Env) (c : Call) (accepting_jobs : bool) (malloc_ok : nat → bool) (rq : Request)
    (auth_user_id auth_role : string) : ST Sys (option Reply) :=
  if negb accepting_jobs then mret (Some (http_error 503 "Scheduler is draining and not accepting new jobs")) else
  match en_parse e (cbuf 32768 (rq_body rq)) with
  | None => mret (Some (http_error 400 "Invalid JSON"))
  | Some req =>
      let jsteps := cJSON_GetObjectItemCaseSensitive req "steps" in
      let n_steps := cJSON_GetArraySize jsteps in
      if negb (cJSON_IsArray jsteps) then mret (Some (http_error 400 "Missing 'steps' array")) else
      if (n_steps <? 1) || (MAX_WORKFLOW_STEPS <? n_steps)
      then mret (Some (http_error 400 ("'steps' must have 1-" +:+ dec MAX_WORKFLOW_STEPS +:+ " entries"))) else
      if negb (ca_alloc_ok c) then mret (Some (http_error 500 "Out of memory")) else
      workflow_transaction e c malloc_ok auth_user_id auth_role req
  end.
