(* ===== verification/WorkflowProps.v ===== *)
(** Workflow submission is atomic, and the jobs of a workflow depend on
    earlier steps only. *)
From S2P Require Import Prelude Job Uuid Heap Queue Events Json Registry Sql Db DbAdmin DbInv Allocator DbProps JobOps JobProps Cloud Transfer Config System SysFixture Store Sha256 Auth Http Batches Apps AppsProps Submit Workflow.

(** ** The fold over checked elements *)

(** The list that [append_csv_value] builds. *)
Definition csv_add (s v : string) : string := s +:+ (if str_nonempty s then "," else "") +:+ v.
Definition csv_of (l : list string) : string := foldl csv_add "" l.

Lemma csv_of_snoc l v : csv_of (l ++ [v]) = csv_add (csv_of l) v.
Proof. unfold csv_of. by rewrite foldl_app. Qed.

Lemma append_csv_value_ok buffer capacity v s :
  append_csv_value buffer capacity v = Some s → s = csv_add buffer v ∧ (str_len s < capacity)%nat.
Proof.
  unfold append_csv_value. destruct (capacity <? _)%nat eqn:E; [done|]. intros [= <-]. split; [done|].
  apply Nat.ltb_ge in E. rewrite !str_len_app. lia.
Qed.

Lemma step_fold_ok {A B} (f : A → B → step_res A) (P : A → list B → Prop) (l : list B) :
  (∀ a b a' seen, P a seen → f a b = inr a' → P a' (seen ++ [b])) →
  ∀ a seen a', P a seen → step_fold f a l = inr a' → P a' (seen ++ l).
Proof.
  intros Hf. induction l as [|b l IH]; intros a seen a' Ha H; cbn in H; [by simplify_eq; rewrite app_nil_r|].
  destruct (f a b) as [e|a1] eqn:E; [done|]. replace (seen ++ b :: l) with ((seen ++ [b]) ++ l) by by rewrite <- app_assoc.
  eapply IH; eauto.
Qed.

(** A dependency list of earlier jobs, then of named ones. *)
Definition deps_list (ids ext : list string) (s : string) : Prop :=
  (∃ deps, (∀ d, d ∈ deps → d ∈ ids) ∧ s = csv_of (deps ++ ext)) ∧ (str_len s < 2048)%nat.

Lemma step_deps_ok idx ids step s : step_deps idx ids step = inr s → deps_list ids [] s.
Proof.
  unfold step_deps. destruct (_ && _); [done|]. intros H.
  refine (step_fold_ok (add_step_dep idx ids) (λ s (_ : list cJSON), deps_list ids [] s) _ _ "" [] s _ H).
  - clear. intros s b s' _ [(deps & Hd & ->) Hl]. rewrite app_nil_r in *. unfold add_step_dep. cbv zeta. destruct (negb _); [done|].
    destruct (if (_ : bool) then @None string else ids !! _) as [id|] eqn:E; [|done].
    destruct (append_csv_value _ _ _) as [s1|] eqn:Ea; [|done]. intros [= <-].
    apply append_csv_value_ok in Ea as [-> Hlen]. split; [|done]. exists (deps ++ [id]). rewrite app_nil_r, csv_of_snoc. split; [|done].
    intros d [Hin|Hin]%elem_of_app; [by apply Hd|]. apply list_elem_of_singleton in Hin as ->.
    destruct (_ || _) in E; [done|]. by eapply list_elem_of_lookup_2.
  - split; [exists []; split; [set_solver|done]|]. cbn. lia.
Qed.

(** The step's own external identifiers. *)
Definition external_ids (step : cJSON) : list string :=
  (λ d, valuestring (Some d)) <$> array_items (cJSON_GetObjectItemCaseSensitive step "depends_on").

Lemma step_input_files_ok idx step s : step_input_files idx step = inr s → (str_len s < 2048)%nat.
Proof.
  unfold step_input_files. destruct (_ && _); [done|]. intros H.
  refine (step_fold_ok (add_step_file idx) (λ s (_ : list cJSON), (str_len s < 2048)%nat) _ _ "" [] s _ H); [|cbn; lia].
  clear. intros s b s' _ Hl. unfold add_step_file. cbv zeta. destruct (if (_ : bool) then append_csv_value _ _ _ else @None string) as [s1|] eqn:E; [|done].
  intros [= <-]. destruct (_ && _) in E; [|done]. by apply append_csv_value_ok in E as [_ ?].
Qed.

(** ** Inside the transaction *)

(** Everything outside the database and the files. *)
Record calm (s s' : Sys) : Prop := {
  ca_queue : y_queue s' = y_queue s;
  ca_events : y_events s' = y_events s;
  ca_active : y_active s' = y_active s;
  ca_registry : y_registry s' = y_registry s;
  ca_ledger : y_ledger s' = y_ledger s }.

#[export] Instance calm_preorder : PreOrder calm.
Proof. split; [by intros s; split|]. intros a b c [] []. split; congruence. Qed.

Lemma calm_quiet s s' : quiet s s' → calm s s'.
Proof. intros []. by split. Qed.

Lemma calm_files fs s : calm s (set_y_files fs s) ∧ y_db (set_y_files fs s) = y_db s.
Proof. by destruct s as [[]]. Qed.

Lemma query_in_txn {R} t0 (f : Z → Tables → list R) d r d' :
  in_txn t0 d → query f d = (r, d') →
  clock d' = clock d ∧ (in_txn t0 d' ∧ tables d' = tables d ∨ in_failed_txn t0 d' ∧ rows_of 1 r = []).
Proof.
  intros (Ho & Ha & Hs). unfold query. rewrite Ho. cbn [negb]. destruct (next_outcome d) as [o d1] eqn:E.
  apply next_outcome_frame in E as ((Ho1 & Ha1 & Hc1) & Ht & Hs1). rewrite Hs in Hs1. rewrite Ho in Ho1. rewrite Ha in Ha1.
  assert (in_txn t0 d1) as Hi1 by done.
  destruct o; intros [= <- <-]; [by split; [|left] .. |].
  unfold sq_abort. rewrite Hs1. destruct d1 as [? ? sv ? ? ? ?]; cbn in *. subst. split; [done|]. right. split; [|done].
  split_and!; [done|done|by right].
Qed.

Lemma get_job_in_txn t0 id s j s' :
  in_txn t0 (y_db s) → ydb (db_get_job id) s = (j, s') →
  quiet s s' ∧ clock (y_db s') = clock (y_db s) ∧
  (in_txn t0 (y_db s') ∧ tables (y_db s') = tables (y_db s) ∨ in_failed_txn t0 (y_db s') ∧ j = None).
Proof.
  intros Hi [E Hq]%ydb_spec. split; [done|]. unfold db_get_job in E. rewrite bind_step in E.
  destruct (query _ (y_db s)) as [r d1] eqn:Eq. cbn [fst snd mret st_ret] in E. injection E as <- <-.
  apply (query_in_txn t0) in Eq as [Hc [H|[H ->]]]; [| |done]; split; auto.
Qed.

(** What a loop inside the transaction does: it goes on with the tables
    unchanged or ends with an error. *)
Definition txn_read {A} (t0 : Tables) (s s' : Sys) (r : step_res A) : Prop :=
  quiet s s' ∧ clock (y_db s') = clock (y_db s) ∧
  match r with
  | inl _ => in_failed_txn t0 (y_db s')
  | inr _ => in_txn t0 (y_db s') ∧ tables (y_db s') = tables (y_db s)
  end.

Lemma txn_read_here {A} t0 s (r : step_res A) : in_txn t0 (y_db s) → txn_read t0 s s r.
Proof. intros H. split; [done|]. split; [done|]. destruct r; [by apply in_txn_failed|done]. Qed.

Lemma external_deps_in_txn t0 idx user role ids deps : ∀ ext acc s r s',
  in_txn t0 (y_db s) → deps_list ids ext acc → external_deps idx user role deps acc s = (r, s') →
  txn_read t0 s s' r ∧ match r with inr acc' => deps_list ids (ext ++ ((λ d, valuestring (Some d)) <$> deps)) acc' | inl _ => True end.
Proof.
  induction deps as [|dep deps IH]; intros ext acc s r s' Hi Hacc; cbn [external_deps].
  { intros [= <- <-]. split; [by apply (txn_read_here t0 s (inr acc))|]. cbn. by rewrite app_nil_r. }
  destruct (_ || _); [intros [= <- <-]; split; [by apply (txn_read_here t0 s (inl _))|done]|].
  rewrite bind_step. destruct (ydb (db_get_job _) s) as [j s1] eqn:E. cbn [fst snd].
  apply (get_job_in_txn t0) in E as (Hq1 & Hc1 & H1); [|done].
  destruct H1 as [[Hi1 Ht1]|[Hf ->]].
  2: { cbn [dep_visible negb mret st_ret]. intros [= <- <-]. split; [|done]. by split; [|split]. }
  destruct (negb (dep_visible _ _ _)).
  { intros [= <- <-]. split; [|done]. split; [done|]. split; [done|]. by apply in_txn_failed. }
  destruct (append_csv_value _ _ _) as [acc1|] eqn:Ea.
  2: { intros [= <- <-]. split; [|done]. split; [done|]. split; [done|]. by apply in_txn_failed. }
  apply append_csv_value_ok in Ea as [-> Hlen]. intros H.
  eapply (IH (ext ++ [valuestring (Some dep)])) in H as [(Hq2 & Hc2 & H2) Hr]; [|done|].
  2: { destruct Hacc as [(ds & Hds & ->) _]. split; [|done]. exists ds. split; [done|]. by rewrite app_assoc, csv_of_snoc. }
  split.
  - split; [by transitivity s1|]. split; [congruence|]. destruct r; [done|]. by rewrite <- Ht1.
  - destruct r; [done|]. by rewrite <- app_assoc in Hr.
Qed.

(** What is known of the job of a step, whose row is the job itself. *)
Record step_made (wf user : string) (ids : list string) (step : cJSON) (job : Job) : Prop := {
  sm_deps : ∃ deps, (∀ d, d ∈ deps → d ∈ ids) ∧ j_depends_on job = csv_of (deps ++ external_ids step);
  sm_status : j_status job = if str_nonempty (j_depends_on job) || str_nonempty (j_input_files job)
                             then JOB_STATUS_CREATED else JOB_STATUS_QUEUED;
  sm_workflow : j_workflow_id job = cbuf 64 wf;
  sm_user : j_user_id job = cbuf JOB_USER_LEN user }.

(** A created job with the columns of the second statement. *)
Definition submission_columns (job r : Job) : Job :=
  with_status (j_status job) (with_input_dir (j_input_dir job) (with_output_dir (j_output_dir job)
    (with_input_files (j_input_files job) (with_timeout_seconds (j_timeout_seconds job)
    (with_status_reason (j_status_reason job) (with_depends_on (j_depends_on job)
    (with_workflow_id (j_workflow_id job) (with_same_machine_as (j_same_machine_as job) r)))))))).

Lemma step_job_row wf step deps files wd uuid cmd p c g r d u a now :
  let job0 := new_job wd uuid cmd p c g r d u a now in
  let job := step_job wf step deps files job0 in
  submission_columns job (job_row job0) = job ∧ j_id job = j_id job0 ∧ j_depends_on job = cbuf 2048 deps ∧
  j_input_files job = cbuf 2048 files ∧ j_workflow_id job = cbuf 64 wf ∧ j_user_id job = cbuf JOB_USER_LEN u ∧
  j_status job = if str_nonempty deps || str_nonempty files then JOB_STATUS_CREATED else JOB_STATUS_QUEUED.
Proof.
  cbv zeta. unfold step_job. cbv zeta. destruct (_ && str_nonempty deps); destruct (_ || _); split_and!; reflexivity.
Qed.

Lemma step_made_job wf user ids step deps files wd uuid cmd p c g r d a now :
  deps_list ids (external_ids step) deps → (str_len files < 2048)%nat →
  step_made wf user ids step (step_job wf step deps files (new_job wd uuid cmd p c g r d user a now)).
Proof.
  intros [(ds & Hds & Hdeps) Hlen] Hf.
  destruct (step_job_row wf step deps files wd uuid cmd p c g r d user a now) as (_ & _ & E1 & E2 & E3 & E4 & E5).
  rewrite cbuf_id in E1, E2 by done. split; [|by rewrite E1, E2, E5|done|done].
  exists ds. split; [done|]. by rewrite E1, Hdeps.
Qed.

Lemma write_file_calm e path data s : calm s (write_file e path data s).2 ∧ y_db (write_file e path data s).2 = y_db s.
Proof. unfold write_file. destruct (en_can_write e path); [apply calm_files|by split]. Qed.

Lemma update_submission_in_txn t0 rows job r s rc s' :
  in_txn t0 (y_db s) → t_jobs (tables (y_db s)) = rows ++ [r] → existsb (job_is (j_id job)) rows = false → j_id r = j_id job →
  submission_columns job r = job → ydb (db_update_job_submission job) s = (rc, s') →
  quiet s s' ∧ clock (y_db s') = clock (y_db s) ∧
  (rc = 0 ∧ in_txn t0 (y_db s') ∧ tables (y_db s') = set_t_jobs (rows ++ [job]) (tables (y_db s)) ∨ rc ≠ 0 ∧ in_failed_txn t0 (y_db s')).
Proof.
  intros Hi Ht Hno Hid Hcols [E Hq]%ydb_spec. split; [done|]. unfold db_update_job_submission in E. rewrite bind_step in E.
  destruct (dml _ (y_db s)) as [ok d1] eqn:Ed. cbn [fst snd] in E. rewrite bind_step in E. cbn [fst snd st_gets mret st_ret] in E.
  injection E as <- <-. apply (dml_in_txn t0) in Ed as [Hc [(-> & Hi1 & n & Hf & _)|[-> Hf]]]; [| |done]; (split; [done|]).
  - unfold update_jobs in Hf. injection Hf as Hf _. rewrite Ht in Hf.
    rewrite update_last in Hf; [|done|unfold job_is; by rewrite Hid, String.eqb_refl].
    change (with_status _ _) with (submission_columns job r) in Hf.
    destruct (changes d1 =? 1); cbn [andb rc_of]; [left|right; split; [done|by apply in_txn_failed]].
    by rewrite <- Hf, Hcols.
  - right. done.
Qed.

Lemma step_store_in_txn t0 e env rows job r s err s' :
  in_txn t0 (y_db s) → t_jobs (tables (y_db s)) = rows ++ [r] → existsb (job_is (j_id job)) rows = false → j_id r = j_id job →
  submission_columns job r = job → step_store e env job s = (err, s') →
  calm s s' ∧ clock (y_db s') = clock (y_db s) ∧
  match err with
  | Some _ => in_failed_txn t0 (y_db s')
  | None => in_txn t0 (y_db s') ∧ tables (y_db s') = set_t_jobs (rows ++ [job]) (tables (y_db s))
  end.
Proof.
  intros Hi Ht Hno Hid Hcols. unfold step_store. rewrite bind_step. set (m := if _ || _ then _ else _).
  assert (m s = (tt, s)) as -> by (unfold m, store_init_job_dirs; by destruct (_ || _)). cbn [fst snd].
  assert (∀ s1, calm s s1 → y_db s1 = y_db s →
    (rc ← ydb (db_update_job_submission job); mret (if rc =? 0 then None else Some (500, "Failed to persist workflow job details"))) s1 = (err, s') →
    calm s s' ∧ clock (y_db s') = clock (y_db s) ∧
    match err with
    | Some _ => in_failed_txn t0 (y_db s')
    | None => in_txn t0 (y_db s') ∧ tables (y_db s') = set_t_jobs (rows ++ [job]) (tables (y_db s))
    end) as Hend.
  { intros s1 Hc1 Hd1. rewrite bind_step. destruct (ydb _ s1) as [rc s2] eqn:E. cbn [fst snd mret st_ret]. intros [= <- <-].
    eapply (update_submission_in_txn t0 rows job r) in E as (Hq & Hc & H); try done; rewrite ?Hd1 in *; try done.
    split; [transitivity s1; [done|by apply calm_quiet]|]. split; [done|].
    destruct H as [(-> & ? & ?)|[Hrc ?]]; [done|]. apply Z.eqb_neq in Hrc. by rewrite Hrc. }
  destruct env as [json|]; [|by apply Hend]. cbv zeta. destruct (negb (en_can_write _ _)).
  { intros [= <- <-]. split; [done|]. split; [done|]. by apply in_txn_failed. }
  rewrite bind_step. destruct (write_file_calm e (cbuf 768 (j_input_dir job +:+ "/.app_env.json")) json s) as [H1 H2].
  by apply Hend.
Qed.

(** One step of the loop. *)
Lemma workflow_step_in_txn t0 e c ok user role wf ids step s r s' :
  in_txn t0 (y_db s) → workflow_step e c ok user role wf ids step s = (r, s') →
  calm s s' ∧ clock (y_db s') = clock (y_db s) ∧
  match r.2 with
  | Some _ => in_failed_txn t0 (y_db s')
  | None => ∃ job, r.1 = Some job ∧ in_txn t0 (y_db s') ∧ step_made wf user ids step job ∧
              tables (y_db s') = set_t_jobs (t_jobs (tables (y_db s)) ++ [job]) (tables (y_db s))
  end.
Proof.
  intros Hi. unfold workflow_step. cbv zeta. pose proof (in_txn_failed _ _ Hi) as Hf.
  destruct (negb _); [by intros [= <- <-]|]. rewrite bind_step. cbn [fst snd st_gets].
  destruct (step_command _ _ _ _ _) as [error|[[command env] app]]; [by intros [= <- <-]|]. cbn [mbind step_bind].
  destruct (step_deps _ ids step) as [error|deps0] eqn:Edeps; [by intros [= <- <-]|]. apply step_deps_ok in Edeps.
  cbn [mbind step_bind mret step_ret]. rewrite bind_step. unfold step_external_deps. cbv zeta.
  destruct (_ && _); [by intros [= <- <-]|].
  destruct (external_deps _ _ _ _ _ s) as [r1 s1] eqn:E1. eapply (external_deps_in_txn t0 _ _ _ ids _ []) in E1 as [(Hq1 & Hc1 & H1) Hr1]; [|done|done].
  cbn [fst snd]. apply calm_quiet in Hq1. destruct r1 as [error|deps]; cbn [mbind step_bind]; [by intros [= <- <-]|].
  destruct H1 as [Hi1 Ht1]. destruct (step_input_files _ step) as [error|files] eqn:Efiles.
  { intros [= <- <-]. split; [done|]. split; [done|]. by apply in_txn_failed. }
  apply step_input_files_ok in Efiles. cbn [mbind step_bind mret step_ret]. rewrite bind_step.
  unfold sys_job_create_ex. rewrite bind_step, bind_step. cbn [fst snd st_gets st_modify].
  set (s2 := set_y_created _ s1). assert (quiet s1 s2 ∧ y_db s2 = y_db s1) as [Hq2 Hd2] by (unfold s2; destruct s1; by repeat split).
  destruct (on_jenv _ s2) as [r3 s3] eqn:E3. cbn [fst snd].
  apply on_jenv_spec in E3 as (je & E3 & Hdb3 & Hq3). rewrite Hd2 in E3.
  apply (job_create_ex_in_txn _ t0) in E3 as (Hev & Hc3 & H3); [|done].
  specialize (Hq3 Hev). cbn [je_db je_events] in *. rewrite <- Hdb3 in Hc3, H3.
  assert (calm s s3) as Hq03 by (transitivity s1; [done|]; transitivity s2; by apply calm_quiet).
  destruct r3 as [job0|].
  2: { intros [= <- <-]. split; [done|]. split; [congruence|done]. }
  destruct H3 as (Hjob0 & Hi3 & Hno & Ht3). rewrite bind_step.
  destruct (step_store _ _ _ s3) as [err s4] eqn:E4. cbn [fst snd mret st_ret]. intros [= <- <-].
  set (job := step_job wf step deps files job0) in *.
  destruct (step_job_row wf step deps files (en_work_dir e) (en_uuid (with_malloc ok e) (y_created s1)) command
    (clamp_item (cJSON_GetObjectItemCaseSensitive step "priority") 0 100 50) (ar_cores (submit_resources step app))
    (ar_gpu (submit_resources step app)) (ar_ram_mb (submit_resources step app)) (ar_disk_mb (submit_resources step app)) user
    (if cJSON_IsString (cJSON_GetObjectItemCaseSensitive step "app_id")
     then valuestring (cJSON_GetObjectItemCaseSensitive step "app_id") else "") (clock (y_db s1))) as (Hrow & Hjid & _).
  change (en_work_dir (with_malloc ok e)) with (en_work_dir e) in Hjob0. rewrite <- Hjob0 in Hrow, Hjid. fold job in Hrow, Hjid.
  eapply (step_store_in_txn t0 _ _ (t_jobs (tables (y_db s1))) _ (job_row job0)) in E4 as (Hq4 & Hc4 & H4); try done.
  2: { by rewrite Ht3, t_jobs_set. }
  2: { by rewrite Hjid. }
  split; [by transitivity s3|]. split; [congruence|]. cbn [fst snd]. destruct err; [done|]. destruct H4 as [Hi4 Ht4].
  exists job. split; [done|]. split; [done|]. split.
  - unfold job. rewrite Hjob0. by apply step_made_job.
  - by rewrite Ht4, Ht3, set_t_jobs_twice, Ht1.
  - rewrite Hjid. by destruct job0.
Qed.

(** ** The loop and the transaction *)

(** Every step's job is made for the jobs before it. *)
Definition chain_made (wf user : string) (steps : list cJSON) (jobs : list Job) : Prop :=
  length jobs = length steps ∧
  ∀ i step job, steps !! i = Some step → jobs !! i = Some job → step_made wf user (j_id <$> take i jobs) step job.

Lemma chain_made_snoc wf user steps jobs step job :
  chain_made wf user steps jobs → step_made wf user (j_id <$> jobs) step job → chain_made wf user (steps ++ [step]) (jobs ++ [job]).
Proof.
  intros [Hlen Hall] Hm. split; [rewrite !length_app; cbn; lia|]. intros i st j Hst Hj.
  destruct (decide (i < length jobs)%nat) as [Hi|Hi].
  - rewrite lookup_app_l in Hst by lia. rewrite lookup_app_l in Hj by lia. rewrite take_app_le by lia. by apply Hall.
  - pose proof (lookup_lt_Some _ _ _ Hj) as Hlt. rewrite length_app in Hlt. cbn in Hlt. assert (i = length jobs) as -> by lia.
    rewrite take_app_le, take_ge by lia. rewrite lookup_app_r in Hst by lia. rewrite lookup_app_r in Hj by lia. rewrite <- Hlen, Nat.sub_diag in Hst.
    rewrite Nat.sub_diag in Hj. by simplify_eq/=.
Qed.

Lemma workflow_steps_in_txn t0 e c ok user role wf steps : ∀ seen created s r s',
  in_txn t0 (y_db s) → chain_made wf user seen created → workflow_steps e c ok user role wf created steps s = (r, s') →
  calm s s' ∧ clock (y_db s') = clock (y_db s) ∧
  match r.2 with
  | Some _ => in_failed_txn t0 (y_db s')
  | None => in_txn t0 (y_db s') ∧ chain_made wf user (seen ++ steps) r.1 ∧
      ∃ more, r.1 = created ++ more ∧
        tables (y_db s') = set_t_jobs (t_jobs (tables (y_db s)) ++ more) (tables (y_db s))
  end.
Proof.
  induction steps as [|step steps IH]; intros seen created s r s' Hi Hch; cbn [workflow_steps].
  { intros [= <- <-]. split; [done|]. split; [done|]. cbn. rewrite app_nil_r. split; [done|]. split; [done|].
    exists []. rewrite !app_nil_r. by destruct (tables (y_db s)). }
  rewrite bind_step. destruct (workflow_step _ _ _ _ _ _ _ _ s) as [r1 s1] eqn:E1. cbn [fst snd].
  apply (workflow_step_in_txn t0) in E1 as (Hq1 & Hc1 & H1); [|done]. cbv zeta.
  destruct (r1.2) as [error|]; [by intros [= <- <-]|]. destruct H1 as (job & -> & Hi1 & Hm & Ht1).
  intros H. apply (IH (seen ++ [step])) in H as (Hq2 & Hc2 & H2); [|done|by apply chain_made_snoc].
  split; [by transitivity s1|]. split; [congruence|]. destruct (r.2); [done|]. destruct H2 as (Hi2 & Hch2 & more & Hr & Ht2).
  rewrite <- app_assoc in Hch2. split; [done|]. split; [done|]. exists (job :: more). rewrite Hr, <- app_assoc. split; [done|].
  by rewrite Ht2, Ht1, t_jobs_set, set_t_jobs_twice, <- app_assoc.
Qed.

Lemma discard_calm e jobs s : calm s (workflow_discard_jobs e jobs s).2 ∧ y_db (workflow_discard_jobs e jobs s).2 = y_db s.
Proof.
  revert s; induction jobs as [|job jobs IH]; intros s; cbn [workflow_discard_jobs]; [done|].
  rewrite bind_step. unfold sys_remove. destruct (store_cleanup_job _ _ _) as [fs|]; cbn [fst snd negb]; [|done].
  destruct (calm_files fs s) as [H1 H2], (IH (set_y_files fs s)) as [H3 H4]. split; [by transitivity (set_y_files fs s)|congruence].
Qed.

(** The jobs that the response loop pushes. *)
Definition runnable (jobs : list Job) : list Job := filter (λ j, j_status j ≠ JOB_STATUS_CREATED) jobs.

Lemma workflow_queue_run e jobs s q :
  y_queue s = Some q → q_shutdown q = false → en_queue_realloc_ok e = true →
  ∃ s' q', st_map (workflow_queue e) jobs s = (jobs, s') ∧ y_db s' = y_db s ∧ y_queue s' = Some q' ∧
    q_heap q' ≡ₚ runnable jobs ++ q_heap q.
Proof.
  intros Hq Hsh Hre. revert s q Hq Hsh. induction jobs as [|job jobs IH]; intros s q Hq Hsh; cbn [st_map]; [by exists s, q|].
  unfold runnable. rewrite filter_cons, bind_step.
  destruct (status_in [JOB_STATUS_CREATED] job) eqn:Est.
  - assert (workflow_queue e job s = (job, s)) as -> by (unfold workflow_queue; by rewrite Est). cbn [fst snd].
    unfold status_in in Est. apply bool_decide_eq_true, list_elem_of_singleton in Est. rewrite bind_step.
    destruct (IH s q Hq Hsh) as (s' & q' & E & H). rewrite E. cbn [fst snd mret st_ret]. exists s', q'. split; [done|].
    rewrite decide_False by auto. exact H.
  - set (q1 := mkQueue (heap_push job_before (q_heap q) job) (if q_size q =? q_capacity q then q_capacity q * 2 else q_capacity q) false).
    set (s1 := set_y_queue (Some q1) s).
    assert (workflow_queue e job s = (job, s1)) as ->.
    { unfold workflow_queue. rewrite Est, bind_step. unfold sys_queue_push. rewrite Hq. unfold queue_push.
      by rewrite Hsh, Hre, andb_false_r. }
    unfold status_in in Est. apply bool_decide_eq_false in Est. rewrite decide_True by (intros E; apply Est; rewrite E; by left).
    assert (y_queue s1 = Some q1 ∧ y_db s1 = y_db s) as [Hq1 Hd1] by (unfold s1; by destruct s).
    cbn [fst snd]. rewrite bind_step. destruct (IH s1 q1 Hq1 eq_refl) as (s' & q' & E & Hd & Hq' & Hp). rewrite E. cbn [fst snd mret st_ret].
    exists s', q'. split; [done|]. split; [congruence|]. split; [done|]. rewrite Hp. unfold q1; cbn [q_heap].
    rewrite heap_push_perm. unfold runnable. by rewrite <- Permutation_middle.
Qed.

(** Nothing happened to the tables or to the rest of the process. *)
Definition no_workflow (s s' : Sys) : Prop := tables (y_db s') = tables (y_db s) ∧ calm s s'.

Definition workflow_stored (wf user : string) (steps : list cJSON) (s s' : Sys) (q : Queue) : Prop :=
  ∃ jobs q', chain_made wf user steps jobs ∧
    tables (y_db s') = set_t_jobs (t_jobs (tables (y_db s)) ++ jobs) (tables (y_db s)) ∧
    y_queue s' = Some q' ∧ q_heap q' ≡ₚ runnable jobs ++ q_heap q.

Definition is_error (r : Reply) : Prop := ∃ code msg, r = http_error code msg.

Lemma workflow_transaction_spec e c ok user role req s q reply s' :
  idle (y_db s) → y_queue s = Some q → q_shutdown q = false → en_queue_realloc_ok e = true →
  workflow_transaction e c ok user role req s = (Some reply, s') →
  idle (y_db s') ∧
  (is_error reply ∧ no_workflow s s' ∨
   status_of reply ∈ [201; 500] ∧
   workflow_stored (cbuf 64 (gen_wf_id c)) user (array_items (cJSON_GetObjectItemCaseSensitive req "steps")) s s' q).
Proof.
  intros Hi Hq Hsh Hre. unfold workflow_transaction. cbv zeta. rewrite bind_step.
  destruct (ydb db_begin s) as [rc s1] eqn:E1. cbn [fst snd].
  apply ydb_spec in E1 as [E1 Hq1]. apply calm_quiet in Hq1. apply db_begin_spec in E1 as (Hc1 & Ht1 & _ & H1); [|done].
  destruct H1 as [[-> Hin1]|[-> Hi1]]; cbn [Z.eqb negb]; [|intros [= <- <-]; split; [done|left; split; [by eexists _, _|by split]]].
  rewrite bind_step. destruct (workflow_steps _ _ _ _ _ _ _ _ s1) as [[jobs err] s2] eqn:E2. cbn [fst snd].
  apply (workflow_steps_in_txn (tables (y_db s)) _ _ _ _ _ _ _ []) in E2 as (Hq2 & Hc2 & H2); [|done|by split].
  pose proof (transitivity Hq1 Hq2) as Hq02. cbn [fst snd] in *. destruct err as [[status msg]|].
  - rewrite bind_step. destruct (ydb db_rollback s2) as [rc3 s3] eqn:E3. cbn [fst snd]. apply ydb_spec in E3 as [E3 Hq3].
    apply calm_quiet in Hq3. pose proof (db_rollback_restores _ _ H2) as (Hi3 & Ht3 & _). rewrite E3 in Hi3, Ht3. cbn [snd] in *.
    rewrite bind_step. destruct (discard_calm e jobs s3) as [Hq4 Hd4]. destruct (workflow_discard_jobs e jobs s3) as [b s4].
    cbn [fst snd mret st_ret] in *. destruct b; [|done]. intros [= <- <-]. split; [by rewrite Hd4|]. left. split; [by eexists _, _|].
    split; [by rewrite Hd4|]. transitivity s2; [done|]. by transitivity s3.
  - destruct H2 as (Hin2 & Hch & more & Hmore & Ht2). rewrite bind_step. destruct (ydb db_commit s2) as [rc3 s3] eqn:E3. cbn [fst snd].
    apply ydb_spec in E3 as [E3 Hq3]. apply calm_quiet in Hq3.
    apply (db_commit_spec (tables (y_db s))) in E3 as (Hi3 & _ & _ & H3); [|done]. pose proof (transitivity Hq02 Hq3) as Hq03.
    destruct H3 as [[-> Ht3]|[-> Ht3]]; cbn [Z.eqb negb].
    + cbn [app] in Hmore. rewrite bind_step.
      destruct (workflow_queue_run e jobs s3 q) as (s4 & q' & E4 & Hd4 & Hq4 & Hp4); [by rewrite (ca_queue _ _ Hq03)|done|done|].
      rewrite E4. cbn [fst snd mret st_ret]. intros [= <- <-]. split; [by rewrite Hd4|]. right.
      split; [unfold workflow_response; cbv zeta; destruct (present _); cbn; set_solver|].
      exists jobs, q'. split; [done|]. split; [|done]. by rewrite Hd4, Ht3, Ht2, <- Hmore, Ht1.
    + rewrite bind_step. destruct (discard_calm e jobs s3) as [Hq4 Hd4]. destruct (workflow_discard_jobs e jobs s3) as [b s4].
      cbn [fst snd mret st_ret] in *. destruct b; [|done]. intros [= <- <-]. split; [by rewrite Hd4|]. left. split; [by eexists _, _|].
      split; [by rewrite Hd4|]. by transitivity s3.
Qed.

(** ** Property *)


Definition demo_step (deps : list Z) : cJSON :=
  JObject [("app_id", JString "cfd"); ("parameters", JObject [("case", JString "wing")]);
           ("depends_on_steps", JArray (JZ <$> deps)); ("same_machine", JBool true)].
Definition demo_workflow_env (steps : list cJSON) : Env :=
  mkEnv config_defaults (λ _, None)
    (λ s, if String.eqb s "..." then Some demo_app else Some (JObject [("name", JString "study"); ("steps", JArray steps)]))
    (λ _, None) (λ _, 0) (λ n, NoUrandom 0 (Z.of_nat n)) None (mkAllocEnv true true) true true true (λ _, true).
Definition demo_workflow (steps : list cJSON) : option Reply * Sys :=
  submit_workflow (demo_workflow_env steps)
    (mkCall (demo_workflow_env steps) (λ n, Some (replicate n 171)) true (λ _, Some "...") (mkCtx [] 0 0 []) None (λ _, d_of_Z 0) (λ _ _, "...") (λ _ _, true))
    true (λ _, true) (mkRequest "POST" "/workflows" "{...}" (λ _, None) (λ _ _, None) (λ s _, Some s) 0 0) "alice" "user"
    (set_y_files {[ app_path (apps_dir_path config_defaults None 512) "cfd" := "..." ]} (small_system [] [] [])).

Example demo_workflow_rows :
  (λ j, (j_id j, j_status j, j_depends_on j, j_same_machine_as j)) <$> t_jobs (tables (y_db (demo_workflow [demo_step []; demo_step [0]; demo_step [0; 1]]).2))
  = [("0-0", JOB_STATUS_QUEUED, "", ""); ("0-1", JOB_STATUS_CREATED, "0-0", "0-0");
     ("0-2", JOB_STATUS_CREATED, "0-0,0-1", "0-0")].
Proof. vm_compute. reflexivity. Qed.

