(* ===== verification/IdsProps.v ===== *)
(** The identifiers of [gen_uuid] where the program uses them: as names in
    paths and requests, and in the comma separated lists of dependencies that
    submission writes and the scheduler reads. *)
From S2P Require Import Prelude Job Uuid Json Registry Sql Db DbAdmin JobOps Config System Http Apps Submit Workflow.

(** ** Lists of names *)

(** What follows the first name of a list. *)
Definition comma_rest (l : list string) : string := foldr (λ x s, "," +:+ x +:+ s) EmptyString l.

(** A name without commas and blanks. *)
Definition plain (s : string) : Prop :=
  str_nonempty s = true ∧ str_forallb (λ c, negb (Ascii.eqb c ",") && negb (is_space c)) s = true.

Lemma str_app_nil_r s : s +:+ "" = s.
Proof. induction s as [|c s IH]; [done|]. by rewrite <- IH at 2. Qed.

Lemma comma_rest_len n l : Forall (λ x, str_len x ≤ n)%nat l → (str_len (comma_rest l) ≤ (n + 1) * length l)%nat.
Proof. induction 1 as [|x l Hx _ IH]; [cbn; lia|]. cbn [comma_rest foldr length]. rewrite !str_len_app. cbn [str_len] in *. fold (comma_rest l). lia. Qed.

Lemma split_on_plain c s t acc :
  str_forallb (λ d, negb (Ascii.eqb d c)) s = true → split_on c (s +:+ t) acc = split_on c t (acc +:+ s).
Proof.
  revert acc. induction s as [|d s IH]; intros acc; [by rewrite str_app_nil_r|].
  cbn [str_forallb]. intros [Hd%negb_true_iff Hs]%andb_true_iff. change (String d s +:+ t) with (String d (s +:+ t)).
  cbn [split_on]. rewrite Hd, IH by done. by rewrite str_app_assoc.
Qed.

Lemma plain_no_comma s : plain s → str_forallb (λ d, negb (Ascii.eqb d ",")) s = true.
Proof. intros [_ H]. revert H. apply str_forallb_impl. by intros c [? _]%andb_true_iff. Qed.

Lemma trim_plain s : plain s → trim_spaces s = s.
Proof.
  intros [_ H]. assert (str_forallb (λ c, negb (is_space c)) s = true) as Hs.
  { revert H. apply str_forallb_impl. by intros c [_ ?]%andb_true_iff. }
  unfold trim_spaces. clear H. assert (trim_left is_space s = s) as ->.
  { destruct s as [|c s]; [done|]. cbn in *. apply andb_true_iff in Hs as [->%negb_true_iff _]. done. }
  induction s as [|c s IH]; [done|]. cbn [str_forallb trim_right] in *. apply andb_true_iff in Hs as [Hc%negb_true_iff Hs].
  rewrite IH, Hc by done. by destruct s.
Qed.

Lemma csv_tokens_join x l : plain x → Forall plain l → csv_tokens (x +:+ comma_rest l) = x :: l.
Proof.
  intros Hx Hl. unfold csv_tokens, strtok_commas.
  assert (split_on "," (x +:+ comma_rest l) "" = x :: l) as ->.
  { rewrite split_on_plain by by apply plain_no_comma. cbn [String.append]. clear Hx. revert x.
    induction Hl as [|y l Hy Hl IH]; intros x; [done|].
    change (comma_rest (y :: l)) with (String "," (y +:+ comma_rest l)). cbn [split_on].
    rewrite Ascii.eqb_refl. f_equal. rewrite split_on_plain by by apply plain_no_comma. apply IH. }
  assert (Forall plain (x :: l)) as H by by constructor. clear Hx Hl.
  induction H as [|y k Hy _ IH]; [done|]. rewrite filter_cons, decide_True by apply Hy. cbn [map]. by rewrite trim_plain, IH.
Qed.

(** ** The lists that submission writes *)

Lemma comma_rest_snoc l y : comma_rest (l ++ [y]) = comma_rest l +:+ "," +:+ y.
Proof.
  induction l as [|z l IH]; [cbn; by rewrite str_app_nil_r|].
  change (comma_rest ((z :: l) ++ [y])) with ("," +:+ z +:+ comma_rest (l ++ [y])).
  change (comma_rest (z :: l)) with ("," +:+ z +:+ comma_rest l). by rewrite IH, !str_app_assoc.
Qed.

Lemma append_dep_join x l y :
  str_nonempty x = true → (str_len x + str_len (comma_rest l) + str_len y < 2047)%nat →
  append_dep (x +:+ comma_rest l) y = x +:+ comma_rest (l ++ [y]) ∧
  append_csv_value (x +:+ comma_rest l) 2048 y = Some (x +:+ comma_rest (l ++ [y])).
Proof.
  intros Hx Hlen. rewrite comma_rest_snoc.
  unfold append_dep, append_csv_value. assert (str_nonempty (x +:+ comma_rest l) = true) as -> by by destruct x.
  rewrite (cbuf_id 2048 (_ +:+ ",")) by (rewrite !str_len_app; cbn [str_len]; lia).
  rewrite (cbuf_id 2048) by (rewrite !str_len_app; cbn [str_len]; lia). rewrite !str_app_assoc. split; [done|].
  by rewrite (proj2 (Nat.ltb_ge _ _)) by (rewrite str_len_app; cbn [str_len]; lia).
Qed.

(** The lists of both submissions for the same names. *)
Definition dep_list (ids : list string) : string := foldl append_dep "" ids.
Definition csv_list (ids : list string) : option string :=
  foldl (λ buffer id, b ← buffer; append_csv_value b 2048 id) (Some "") ids.

Lemma lists_join n x l :
  str_nonempty x = true → Forall (λ y, str_len y ≤ n)%nat (x :: l) → ((n + 1) * length (x :: l) ≤ 2047)%nat →
  dep_list (x :: l) = x +:+ comma_rest l ∧ csv_list (x :: l) = Some (x +:+ comma_rest l).
Proof.
  intros Hx Hf Hlen. induction l as [|y l IH] using rev_ind.
  { inversion Hf as [|? ? Hn _]; subst. cbn [length] in Hlen. cbn [comma_rest foldr]. rewrite str_app_nil_r.
    unfold dep_list, csv_list, append_dep, append_csv_value. cbn [foldl mbind option_bind str_nonempty].
    change ("" +:+ x) with x. rewrite cbuf_id by lia. split; [done|].
    by rewrite (proj2 (Nat.ltb_ge _ _)) by (cbn [str_len length]; lia). }
  rewrite app_comm_cons in Hf. apply Forall_app in Hf as [Hf [Hy _]%Forall_cons_1].
  rewrite app_comm_cons, length_app in Hlen. cbn [length] in Hlen.
  destruct IH as [E1 E2]; [done|cbn [length]; lia|]. inversion Hf as [|? ? Hn Hf']; subst.
  pose proof (comma_rest_len n l Hf'). destruct (append_dep_join x l y) as [H1 H2]; [done|lia|].
  rewrite app_comm_cons. unfold dep_list, csv_list in *. rewrite !foldl_app, E1, E2. cbn [foldl mbind option_bind]. by rewrite H1, H2.
Qed.

(** ** Uniqueness *)

Lemma hex_char_inj a b : 0 ≤ a < 16 → 0 ≤ b < 16 → hex_char a = hex_char b → a = b.
Proof.
  intros Ha Hb. assert (forallb (λ n, forallb (λ m, negb (Ascii.eqb (hex_char (Z.of_nat n)) (hex_char (Z.of_nat m))) || (n =? m)%nat)
    (seq 0 16)) (seq 0 16) = true) as H by by vm_compute.
  rewrite forallb_forall in H. specialize (H (Z.to_nat a)). rewrite in_seq in H. specialize (H ltac:(lia)).
  rewrite forallb_forall in H. specialize (H (Z.to_nat b)). rewrite in_seq in H. specialize (H ltac:(lia)).
  rewrite !Z2Nat.id in H by lia. intros E. rewrite E, Ascii.eqb_refl in H. cbn in H. apply Nat.eqb_eq in H. lia.
Qed.

Lemma byte_nibbles b : 0 ≤ b < 256 → 0 ≤ Z.shiftr b 4 < 16 ∧ 0 ≤ Z.land b 15 < 16 ∧ b = Z.shiftr b 4 * 16 + Z.land b 15.
Proof.
  intros Hb. rewrite Z.shiftr_div_pow2 by lia. change 15 with (Z.ones 4). rewrite Z.land_ones by lia.
  change (2 ^ 4) with 16. pose proof (Z.div_mod b 16). pose proof (Z.mod_pos_bound b 16). lia.
Qed.

Lemma hex_bytes_inj l1 l2 r1 r2 :
  length l1 = length l2 → Forall (λ x, 0 ≤ x < 256) l1 → Forall (λ x, 0 ≤ x < 256) l2 →
  hex_bytes l1 +:+ r1 = hex_bytes l2 +:+ r2 → l1 = l2 ∧ r1 = r2.
Proof.
  revert l2. induction l1 as [|a l1 IH]; intros [|b l2]; try discriminate; [done|].
  intros [= Hl] Ha Hb. inversion Ha; inversion Hb; subst.
  change (hex_bytes (a :: l1)) with (hex02 a +:+ hex_bytes l1). change (hex_bytes (b :: l2)) with (hex02 b +:+ hex_bytes l2).
  rewrite !str_app_assoc. unfold hex02. cbn [String.append]. intros [= E1 E2 E3].
  destruct (byte_nibbles a) as (? & ? & ?), (byte_nibbles b) as (? & ? & ?); [done..|].
  apply hex_char_inj in E1, E2; [|done..]. destruct (IH l2) as [-> ->]; [done..|]. split; [f_equal; lia|done].
Qed.

Lemma uuid_bytes_ok b : source_ok (Urandom b) → source_ok (Urandom (uuid_bytes b)).
Proof.
  intros [Hl Hb]. unfold uuid_bytes. split; [by rewrite !length_insert|].
  assert (∀ i, 0 ≤ nth i b 0 < 256) as Hn.
  { intros i. destruct (nth_in_or_default i b 0) as [H| ->]; [|lia]. rewrite Forall_forall in Hb. by apply Hb, list_elem_of_In. }
  assert (forallb (λ n, let x := Z.of_nat n in (Z.lor (Z.land x 63) 128 <? 256) && (Z.lor (Z.land x 15) 64 <? 256)
    && (0 <=? Z.lor (Z.land x 63) 128) && (0 <=? Z.lor (Z.land x 15) 64)) (seq 0 256) = true) as H by by vm_compute.
  rewrite forallb_forall in H.
  apply Forall_insert; [apply Forall_insert; [done|]|].
  - specialize (H (Z.to_nat (nth 6 b 0))). rewrite in_seq, Z2Nat.id in H by apply Hn. specialize (Hn 6%nat). specialize (H ltac:(lia)). cbv zeta in H. bool_prop. lia.
  - specialize (H (Z.to_nat (nth 8 b 0))). rewrite in_seq, Z2Nat.id in H by apply Hn. specialize (Hn 8%nat). specialize (H ltac:(lia)). cbv zeta in H. bool_prop. lia.
Qed.

Lemma uuid_parts (u : list Z) :
  length u = 16%nat → u = take 4 (drop 0 u) ++ take 2 (drop 4 u) ++ take 2 (drop 6 u) ++ take 2 (drop 8 u) ++ take 6 (drop 10 u).
Proof. intros L. do 16 (destruct u as [|? u]; [discriminate L|]). by destruct u. Qed.

Lemma gen_uuid_inj b1 b2 :
  source_ok (Urandom b1) → source_ok (Urandom b2) → gen_uuid (Urandom b1) = gen_uuid (Urandom b2) → uuid_bytes b1 = uuid_bytes b2.
Proof.
  intros H1%uuid_bytes_ok H2%uuid_bytes_ok. unfold gen_uuid. cbn [source_ok] in *.
  set (u1 := uuid_bytes b1) in *. set (u2 := uuid_bytes b2) in *. clearbody u1 u2. destruct H1 as [L1 F1], H2 as [L2 F2].
  assert (∀ i n, length (take n (drop i u1)) = length (take n (drop i u2))) as Hl.
  { intros i n. rewrite !length_take, !length_drop. lia. }
  rewrite !cbuf_id by (unfold JOB_ID_LEN; rewrite !str_len_app, !hex_bytes_len, !length_take, !length_drop; cbn [str_len]; lia).
  assert (∀ i n r1 r2, hex_bytes (take n (drop i u1)) +:+ r1 = hex_bytes (take n (drop i u2)) +:+ r2 →
    take n (drop i u1) = take n (drop i u2) ∧ r1 = r2) as Hstep.
  { intros i n r1 r2. apply hex_bytes_inj; [apply Hl|by apply Forall_take, Forall_drop..]. }
  rewrite <- (str_app_nil_r (hex_bytes (take 6 (drop 10 u1)))), <- (str_app_nil_r (hex_bytes (take 6 (drop 10 u2)))).
  intros E. apply Hstep in E as [E1 E]. injection E as E. apply Hstep in E as [E2 E]. injection E as E.
  apply Hstep in E as [E3 E]. injection E as E. apply Hstep in E as [E4 E]. injection E as E. apply Hstep in E as [E5 _].
  rewrite (uuid_parts u1 L1), (uuid_parts u2 L2). congruence.
Qed.

(** ** Properties *)

Lemma gen_uuid_plain source : plain (gen_uuid source).
Proof.
  destruct (gen_uuid_chars source) as [H1 H2]. split; [destruct (gen_uuid source); [cbn in H2; lia|done]|].
  revert H1. apply str_forallb_impl. intros c. destruct c as [[] [] [] [] [] [] [] []]; vm_compute; congruence.
Qed.

Lemma take_until_all p s : str_forallb (λ c, negb (p c)) s = true → take_until p s = s.
Proof. induction s as [|c s IH]; [done|]. cbn. intros [->%negb_true_iff Hs]%andb_true_iff. by rewrite IH. Qed.

Lemma segment_of_id s :
  str_forallb (λ c, negb (is_slash c)) s = true → (str_len s < 128)%nat → extract_segment ("/jobs/" +:+ s) 1 128 = s.
Proof.
  intros Hs Hl. change (cbuf 128 (take_until is_slash (skip_slashes s)) = s).
  assert (skip_slashes s = s) as ->.
  { destruct s as [|c s]; [done|]. unfold skip_slashes. cbn in *. by apply andb_true_iff in Hs as [->%negb_true_iff _]. }
  rewrite take_until_all by done. by apply cbuf_id.
Qed.

(** The identifiers that the server makes work wherever identifiers are
    used: each is a name that the routes accept and that the path of a
    request gives back; up to 55 of them written as a list of dependencies,
    by the submission of a job or of a workflow, are read back by the
    scheduler as they were; and two of them from random bytes are equal only
    if all bits but the fixed six are. *)
Theorem job_ids_are_usable (sources : list UuidSource) :
  let ids := gen_uuid <$> sources in
  Forall (λ id, safe_cli_name id = true ∧ (str_len id < JOB_ID_LEN)%nat ∧ extract_segment ("/jobs/" +:+ id) 1 128 = id) ids ∧
  ((length ids ≤ 55)%nat → csv_tokens (cbuf 2048 (dep_list ids)) = ids ∧ csv_list ids = Some (dep_list ids)) ∧
  (∀ b1 b2, source_ok (Urandom b1) → source_ok (Urandom b2) →
     gen_uuid (Urandom b1) = gen_uuid (Urandom b2) → uuid_bytes b1 = uuid_bytes b2).
Proof.
  intros ids. split_and!; [|intros Hlen|apply gen_uuid_inj].
  - apply Forall_fmap, Forall_true. intros source. destruct (gen_uuid_chars source) as [H1 H2]. cbn [compose].
    split_and!; [|lia|].
    + unfold safe_cli_name. rewrite (proj1 (gen_uuid_plain source)). cbn [andb].
      rewrite (proj2 (Nat.leb_le _ _)) by (unfold JOB_ID_LEN in H2; lia). cbn [andb]. revert H1. apply str_forallb_impl.
      intros d. destruct d as [[] [] [] [] [] [] [] []]; vm_compute; congruence.
    + apply segment_of_id; [|unfold JOB_ID_LEN in H2; lia]. revert H1. apply str_forallb_impl.
      intros d. destruct d as [[] [] [] [] [] [] [] []]; vm_compute; congruence.
  - assert (Forall plain ids) as Hp by (apply Forall_fmap, Forall_true; intros; apply gen_uuid_plain).
    assert (Forall (λ y, str_len y ≤ 36)%nat ids) as Hl.
    { apply Forall_fmap, Forall_true. intros source. destruct (gen_uuid_chars source) as [_ H]. unfold JOB_ID_LEN in H. cbn [compose]. lia. }
    clearbody ids. destruct ids as [|x l]; [done|]. inversion Hp as [|? ? Hx Hr]; subst.
    destruct (lists_join 36 x l) as [-> E]; [apply Hx|done|lia|]. split; [|done].
    inversion Hl as [|? ? H1 H2]; subst. pose proof (comma_rest_len 36 l H2). cbn [length] in Hlen.
    rewrite cbuf_id by (rewrite str_len_app; lia). by apply csv_tokens_join.
Qed.

Lemma job_ids_are_usable_witness :
  let ids := gen_uuid <$> [Urandom (replicate 16 171); NoUrandom 1000 7] in
  ids = ["abababab-abab-4bab-abab-abababababab"; "3e8-7"] ∧ csv_tokens (cbuf 2048 (dep_list ids)) = ids.
Proof.
  intros ids. split; [vm_compute; reflexivity|].
  refine (proj1 (proj1 (proj2 (job_ids_are_usable [Urandom (replicate 16 171); NoUrandom 1000 7])) _)). cbn. lia.
Defined.

(** The 56th identifier does not fit: the submission of a job cuts it,
    where the submission of a workflow refuses the list. *)
Example dependency_56_is_cut :
  let ids := (λ n, gen_uuid (Urandom (replicate 16 (Z.of_nat n)))) <$> seq 0 56 in
  last (csv_tokens (dep_list ids)) = Some "37373737-373" ∧ csv_list ids = None.
Proof. vm_compute. done. Qed.
