(* ===== verification/Reports.v ===== *)
(** The statistics queries of src/persistence/db.c: the GROUP BY statements
    over jobs, allocations and events.  The date formatting of SQLite is a
    parameter. *)
From S2P Require Import Prelude Job Json Registry Sql Db DbAdmin.

(** ** GROUP BY *)

Section group.
Context {A : Type} (key : A → string).

Definition str_leb (a b : string) : bool := negb (strcmp_lt b a).

(** The groups in the order of their keys, each with its rows. *)
Definition group_by (l : list A) : list (string * list A) :=
  map (λ k, (k, where_ (λ x, String.eqb (key x) k) l)) (order_by str_leb (remove_dups (map key l))).
End group.

(** [COUNT( * )], [SUM(CASE WHEN p THEN 1 ELSE 0 END)] and [SUM(f)], read by
    sqlite3_column_int. *)
Definition count_rows {A} (l : list A) : Z := column_int (Z.of_nat (length l)).
Definition count_case {A} (p : A → bool) (l : list A) : Z := column_int (count_where p l).
Definition sum_rows {A} (f : A → Z) (l : list A) : Z := column_int (sumZ (map f l)).

(** [AVG] of integers; NULL, read as 0, without any. *)
Definition avg (l : list Z) : double :=
  match l with [] => S754_zero false | _ => ddiv (d_of_Z (sumZ l)) (d_of_Z (Z.of_nat (length l))) end.

Definition has_status (codes : list Z) (j : Job) : bool := existsb (Z.eqb (status_code (j_status j))) codes.

(** [AVG(CASE WHEN ended_at > started_at THEN ended_at - started_at ELSE NULL END)] *)
Definition avg_duration (l : list Job) : double :=
  avg (map (λ j, j_ended_at j - j_started_at j) (where_ (λ j, j_started_at j <? j_ended_at j) l)).

(** [t >= from_ts AND (to_ts = 0 OR t <= to_ts)] *)
Definition in_period (from_ts to_ts t : Z) : bool := (from_ts <=? t) && ((to_ts =? 0) || (t <=? to_ts)).

(** [ORDER BY COUNT( * ) DESC] *)
Definition by_count {A} : list (string * list A) → list (string * list A) :=
  order_by_keys (λ g, [- Z.of_nat (length g.2)]).

(** ** Users with jobs *)

Record UserInfo := mkUserInfo {
  ui_user_id : string; ui_total_jobs : Z; ui_running : Z; ui_in_queue : Z; ui_held : Z; ui_finished : Z; ui_failed : Z
}.

Definition user_info (g : string * list Job) : UserInfo :=
  mkUserInfo (cbuf 128 g.1) (count_rows g.2) (count_case (has_status [1; 2]) g.2) (count_case (has_status [0]) g.2)
    (count_case (has_status [6]) g.2) (count_case (has_status [3]) g.2) (count_case (has_status [5]) g.2).

Definition db_list_users (max_count : Z) : ST Db (list UserInfo) :=
  r ← query (λ _ t, limit max_count (group_by j_user_id (where_ (λ j, str_nonempty (j_user_id j)) (t_jobs t))));
  mret (map user_info (rows_of max_count r)).

(** ** Events *)

Definition db_count_events_by_type (category : string) (from_ts to_ts max_types : Z) : ST Db (list (string * Z)) :=
  r ← query (λ _ t, limit max_types (by_count (group_by e_event_type
        (where_ (λ e, (String.eqb category "" || String.eqb (e_category e) category)
                      && in_period from_ts to_ts (e_created_at e)) (t_events t)))));
  mret (map (λ g, (cbuf 64 g.1, count_rows g.2)) (rows_of max_types r)).

(** ** Jobs over time, per user and per application *)

Record JobTimeBucket := mkBucket {
  tb_period : string; tb_total : Z; tb_finished : Z; tb_failed : Z; tb_avg_duration_s : double
}.

Definition jobs_in (from_ts to_ts : Z) (t : Tables) : list Job :=
  where_ (λ j, in_period from_ts to_ts (j_submitted_at j)) (t_jobs t).

Definition period_format (granularity : string) : string :=
  if String.eqb granularity "hour" then "%Y-%m-%d %H:00" else if String.eqb granularity "month" then "%Y-%m" else "%Y-%m-%d".

Definition time_bucket (g : string * list Job) : JobTimeBucket :=
  mkBucket (cbuf 32 g.1) (count_rows g.2) (count_case (has_status [3]) g.2) (count_case (has_status [5]) g.2) (avg_duration g.2).

(** [strftime format time] is SQLite's, with 'unixepoch'. *)
Definition db_report_jobs_over_time (strftime : string → Z → string) (max_buckets : Z) (granularity : string) (from_ts to_ts : Z) :
    ST Db (list JobTimeBucket) :=
  r ← query (λ _ t, limit max_buckets
        (group_by (λ j, strftime (period_format granularity) (j_submitted_at j)) (jobs_in from_ts to_ts t)));
  mret (map time_bucket (rows_of max_buckets r)).

Record UserReport := mkUserReport {
  ur_user_id : string; ur_total_jobs : Z; ur_finished : Z; ur_failed : Z; ur_avg_duration_s : double;
  ur_total_cores_used : Z; ur_total_ram_mb_used : Z
}.

Definition user_report (g : string * list Job) : UserReport :=
  mkUserReport (cbuf 128 g.1) (count_rows g.2) (count_case (has_status [3]) g.2) (count_case (has_status [5]) g.2)
    (avg_duration g.2) (sum_rows j_req_cores g.2) (sum_rows j_req_ram_mb g.2).

Definition db_report_per_user (max_count from_ts to_ts : Z) : ST Db (list UserReport) :=
  r ← query (λ _ t, limit max_count (by_count (group_by j_user_id
        (where_ (λ j, str_nonempty (j_user_id j)) (jobs_in from_ts to_ts t)))));
  mret (map user_report (rows_of max_count r)).

Record AppReport := mkAppReport {
  pr_app_id : string; pr_total_jobs : Z; pr_finished : Z; pr_failed : Z; pr_avg_duration_s : double
}.

Definition app_report (g : string * list Job) : AppReport :=
  mkAppReport (cbuf 128 g.1) (count_rows g.2) (count_case (has_status [3]) g.2) (count_case (has_status [5]) g.2)
    (avg_duration g.2).

Definition db_report_per_app (max_count from_ts to_ts : Z) : ST Db (list AppReport) :=
  r ← query (λ _ t, limit max_count (by_count (group_by j_app_id
        (where_ (λ j, str_nonempty (j_app_id j)) (jobs_in from_ts to_ts t)))));
  mret (map app_report (rows_of max_count r)).

(** ** Machines *)

Record MachineReport := mkMachineReport {
  mr_machine_id : string; mr_total_allocations : Z; mr_total_cores_reserved : Z; mr_total_ram_mb_reserved : Z;
  mr_avg_utilization_pct : double
}.

(** [released_at > allocated_at] of a NULL is not true. *)
Definition was_used (a : Allocation) : bool :=
  match al_released_at a with Some r => al_allocated_at a <? r | None => false end.

Definition machine_report (g : string * list Allocation) : MachineReport :=
  mkMachineReport (cbuf 64 g.1) (count_rows g.2) (sum_rows (λ a, r_cores (al_res a)) g.2) (sum_rows (λ a, r_ram_mb (al_res a)) g.2)
    (avg (map (λ a, if was_used a then 100 else 0) g.2)).

Definition db_report_per_machine (max_count from_ts to_ts : Z) : ST Db (list MachineReport) :=
  r ← query (λ _ t, limit max_count (by_count (group_by al_machine_id
        (where_ (λ a, in_period from_ts to_ts (al_allocated_at a)) (t_allocations t)))));
  mret (map machine_report (rows_of max_count r)).
