(* ===== verification/Accounts.v ===== *)
(** Accounts, src/http/routes.c: the login with its rate limit, passwords,
    API keys, users and quotas. *)
From S2P Require Import Prelude Job Json Registry Sql Db DbAdmin Reports Config System Sha256 Auth Http Apps.

(** ** Login rate limit *)

Definition LOGIN_RL_MAX : Z := 5.
Definition LOGIN_RL_WINDOW : Z := 60.

Definition no_login : LoginRL := mkLoginRL 0 0 0.
(** [static LoginRL s_login_rl\[LOGIN_RL_SLOTS\]] *)
Definition login_rl_init : list LoginRL := replicate LOGIN_RL_SLOTS no_login.

(** The second loop of [login_rate_check], from slot [i]. *)
Fixpoint oldest_slot (rl slots : list LoginRL) (i oldest : nat) : nat :=
  match slots with
  | [] => oldest
  | s :: slots =>
      if rl_ip s =? 0 then i
      else oldest_slot rl slots (S i)
             (if rl_window_start s <? rl_window_start (nth oldest rl no_login) then i else oldest)
  end.

Definition login_rate_check (ip now : Z) (rl : list LoginRL) : bool * list LoginRL :=
  match find_index (λ s, rl_ip s =? ip) rl with
  | Some i =>
      let s := nth i rl no_login in
      if LOGIN_RL_WINDOW <? now - rl_window_start s then (true, <[i := mkLoginRL ip 1 now]> rl)
      else (rl_attempts s + 1 <=? LOGIN_RL_MAX, <[i := mkLoginRL ip (rl_attempts s + 1) (rl_window_start s)]> rl)
  | None => (true, <[oldest_slot rl rl 0 0 := mkLoginRL ip 1 now]> rl)
  end.

(** ** Login *)

(** The raw key and its hash. *)
Definition generate_api_key_for_user (c : Call) (user_id role : string) : ST Sys (option (string * string)) :=
  match ca_random c 32%nat with
  | None => mret None
  | Some raw =>
      let out_raw_hex := bytes_to_hex (take 32 raw) in
      let out_hash := auth_hash_key (ca_stack c) out_raw_hex in
      now ← y_now;
      rc ← ydb (db_insert_api_key_full out_hash "auto-login" (Some role) (Some user_id) (now + 86400));
      mret (if rc =? 0 then Some (out_raw_hex, out_hash) else None)
  end.

Definition login_fields_ok (juid jpwd : option cJSON) : bool :=
  cJSON_IsString juid && cJSON_IsString jpwd && str_nonempty (valuestring juid) && str_nonempty (valuestring jpwd)
  && safe_cli_name (valuestring juid) && (str_len (valuestring jpwd) <=? 128)%nat.

(** An old format is replaced; a failure is only logged. *)
Definition upgrade_password (c : Call) (uid password stored_hash : string) : ST Sys unit :=
  if auth_password_needs_rehash (Some stored_hash) then
    match auth_hash_password (ca_stack c) (Some password) (ca_random c 16%nat) with
    | Some upgraded_hash => ydb (db_set_user_password uid upgraded_hash) ;; mret tt
    | None => mret tt
    end
  else mret tt.

(** The session of an accepted login. *)
Definition login_session (c : Call) (uid : string) : ST Sys Reply :=
  previous ← ydb (db_find_user_key uid 65);
  key ← generate_api_key_for_user c uid "user";
  match key with
  | None => mret (http_error 500 "Failed to create login session")
  | Some (raw_hex, hash) =>
      match previous with Some key_hash => ydb (db_revoke_api_key key_hash) ;; mret tt | None => mret tt end ;;
      let resp := JObject [("user_id", JString uid); ("api_key", JString raw_hex); ("role", JString "user")] in
      if present (ca_print c resp) then mret (http_json_reply 200 resp)
      else ydb (db_revoke_api_key hash) ;; mret (http_error 500 "Out of memory")
  end.

(** After the rate limit. *)
Definition login_request (e : Env) (c : Call) (rq : Request) : ST Sys Reply :=
  match en_parse e (cbuf 2048 (rq_body rq)) with
  | None => mret (http_error 400 "Invalid JSON")
  | Some req =>
      let juid := cJSON_GetObjectItemCaseSensitive req "user_id" in
      let jpwd := cJSON_GetObjectItemCaseSensitive req "password" in
      if negb (login_fields_ok juid jpwd) then mret (http_error 400 "Invalid 'user_id' and/or 'password'") else
      let uid := cbuf 128 (valuestring juid) in
      let password := cbuf 256 (valuestring jpwd) in
      user ← ydb (db_get_user_auth uid AUTH_PASSWORD_HASH_LEN);
      match user with
      | None => mret (http_error 401 "Invalid user_id or password")
      | Some (stored_hash, enabled) =>
          if negb (auth_verify_password (ca_stack c) (Some password) (Some stored_hash))
          then mret (http_error 401 "Invalid user_id or password") else
          if enabled =? 0 then mret (http_error 403 "Account disabled") else
          upgrade_password c uid password stored_hash ;;
          login_session c uid
      end
  end.

Definition auth_login (e : Env) (c : Call) (rq : Request) : ST Web Reply := λ w,
  let '(allowed, rl) := login_rate_check (rq_ip rq) (clock (y_db (w_sys w))) (w_login_rl w) in
  let w := set_w_login_rl rl w in
  if negb allowed then (http_error 429 "Too many login attempts. Try again later.", w)
  else wsys (login_request e c rq) w.

Definition auth_change_password (e : Env) (c : Call) (rq : Request) (auth_user_id : string) : ST Sys Reply :=
  if negb (str_nonempty auth_user_id) then mret (http_error 403 "API key not bound to a user") else
  match en_parse e (cbuf 2048 (rq_body rq)) with
  | None => mret (http_error 400 "Invalid JSON")
  | Some req =>
      let jold := cJSON_GetObjectItemCaseSensitive req "old_password" in
      let jnew := cJSON_GetObjectItemCaseSensitive req "new_password" in
      let new_password := valuestring jnew in
      if negb (cJSON_IsString jold && cJSON_IsString jnew && str_nonempty (valuestring jold) && str_nonempty new_password)
      then mret (http_error 400 "Missing 'old_password' and/or 'new_password'") else
      user ← ydb (db_get_user_auth auth_user_id AUTH_PASSWORD_HASH_LEN);
      if negb (match user with
               | Some (stored_hash, _) => auth_verify_password (ca_stack c) (Some (valuestring jold)) (Some stored_hash)
               | None => false
               end)
      then mret (http_error 401 "Old password is incorrect") else
      if (str_len new_password <? 12)%nat || (128 <? str_len new_password)%nat
      then mret (http_error 400 "New password must contain 12-128 characters") else
      match auth_hash_password (ca_stack c) (Some new_password) (ca_random c 16%nat) with
      | None => mret (http_error 500 "Failed to generate password hash")
      | Some new_hash =>
          rc ← ydb (db_set_user_password auth_user_id new_hash);
          mret (if rc =? 0 then reply_ok else http_error 500 "Failed to update password")
      end
  end.

Definition auth_methods : Reply := http_json_reply 200 (JObject [("methods", JArray [JString "password"; JString "api_key"])]).

Definition auth_me (c : Call) (user_id role : string) : Reply :=
  let resp := JObject [("user_id", JString user_id); ("role", JString role)] in
  if present (ca_print c resp) then http_json_reply 200 resp else http_error 500 "Out of memory".

(** ** API keys *)

Definition masked_hash (key_hash : string) : string :=
  cbuf 20 (str_take 8 key_hash +:+ "..." +:+ str_drop (str_len key_hash - 4) key_hash).

Definition key_to_json (k : ApiKeyInfo) : cJSON :=
  JObject [("key_hash_masked", JString (masked_hash (k_key_hash k))); ("key_hash", JString (k_key_hash k));
           ("label", JString (k_label k)); ("role", JString (k_role k)); ("user_id", JString (k_user_id k));
           ("created_at", JZ (k_created_at k)); ("expires_at", JZ (k_expires_at k)); ("revoked", JBool (negb (k_revoked k =? 0)))].

Definition list_keys (c : Call) : ST Sys Reply :=
  if negb (ca_alloc_ok c) then mret (http_error 500 "Out of memory") else
  keys ← ydb (db_list_api_keys 256);
  mret (http_json_reply 200 (JArray (key_to_json <$> keys))).

(** An optional string field with its size, and the message when it is not a
    string or too long. *)
Definition key_field (req : cJSON) (name default_value : string) (size : nat) (not_string too_long : string) : res string :=
  match cJSON_GetObjectItemCaseSensitive req name with
  | None => inr default_value
  | Some j =>
      let v := valuestring (Some j) in
      if negb (cJSON_IsString (Some j)) then inl not_string
      else if (size <=? str_len v)%nat then inl too_long else inr v
  end.

Definition key_label (req : cJSON) : res string :=
  match cJSON_GetObjectItemCaseSensitive req "label" with
  | None => inr "default"
  | Some j =>
      let v := valuestring (Some j) in
      if negb (cJSON_IsString (Some j)) then inl "label must be a string"
      else if negb (str_nonempty v) || (128 <=? str_len v)%nat then inl "label must contain 1-127 characters"
      else if negb (safe_display_text v 127) then inl "label contains control characters"
      else inr v
  end.

Definition key_expiry (req : cJSON) (now : Z) : res Z :=
  expires_at ← match cJSON_GetObjectItemCaseSensitive req "expires_at" with
               | None => inr 0
               | Some j =>
                   let v := valuedouble (Some j) in
                   if negb (cJSON_IsNumber (Some j)) || negb (isfinite v) || negb (d_integral v) || dlt v (d_of_Z 0) || dgt v (d_of_Z 4102444800)
                   then inl "expires_at must be a valid Unix timestamp" else inr (d_trunc v)
               end;
  if negb (expires_at =? 0) && (expires_at <=? now) then inl "expires_at must be in the future" else inr expires_at.

(** Label, role, user and expiry of a new key. *)
Definition key_request (req : cJSON) (now : Z) : res (string * string * string * Z) :=
  label ← key_label req;
  role ← key_field req "role" "user" 16 "role must be a string" "role is too long";
  user_id ← key_field req "user_id" "" 128 "user_id must be a string" "user_id is too long";
  expires_at ← key_expiry req now;
  if negb (String.eqb role "admin") && negb (String.eqb role "user") then inl "role must be 'admin' or 'user'"
  else if (str_nonempty user_id && negb (safe_cli_name user_id)) || (String.eqb role "user" && negb (str_nonempty user_id))
  then inl "A user key requires a valid user_id"
  else inr (label, role, user_id, expires_at).

Definition create_key (e : Env) (c : Call) (rq : Request) : ST Sys Reply :=
  match en_parse e (cbuf 2048 (rq_body rq)) with
  | None => mret (http_error 400 "Invalid JSON")
  | Some req =>
      now ← y_now;
      match key_request req now with
      | inl msg => mret (http_error 400 msg)
      | inr (label, role, user_id, expires_at) =>
          user ← (if str_nonempty user_id then ydb (db_get_user user_id) else mret None);
          if str_nonempty user_id && negb (match user with Some u => negb (u_enabled u =? 0) | None => false end)
          then mret (http_error 400 "user_id does not reference an enabled user") else
          match ca_random c 32%nat with
          | None => mret (http_error 500 "Cannot generate random key")
          | Some raw =>
              let raw_hex := bytes_to_hex (take 32 raw) in
              rc ← ydb (db_insert_api_key_full (auth_hash_key (ca_stack c) raw_hex) label (Some role) (Some user_id) expires_at);
              if negb (rc =? 0) then mret (http_error 500 "Failed to create key (duplicate?)") else
              let resp := JObject [("api_key", JString raw_hex); ("label", JString label); ("role", JString role);
                                   ("user_id", JString user_id); ("expires_at", JZ expires_at)] in
              mret (if present (ca_print c resp) then http_json_reply 201 resp else http_error 500 "Out of memory")
          end
      end
  end.

Definition revoke_key (e : Env) (c : Call) (rq : Request) : ST Sys Reply :=
  match en_parse e (cbuf 1024 (rq_body rq)) with
  | None => mret (http_error 400 "Invalid JSON")
  | Some req =>
      let jkey := cJSON_GetObjectItemCaseSensitive req "api_key" in
      let jhash := cJSON_GetObjectItemCaseSensitive req "key_hash" in
      let identifier := if cJSON_IsString jhash then jhash else jkey in
      if negb (cJSON_IsString identifier) || negb (str_len (valuestring identifier) =? 64)%nat
         || negb (str_forallb isxdigit (valuestring identifier))
      then mret (http_error 400 "api_key or key_hash must contain 64 hexadecimal characters") else
      let hash := if cJSON_IsString jhash then cbuf 65 (valuestring jhash) else auth_hash_key (ca_stack c) (valuestring jkey) in
      rc ← ydb (db_revoke_api_key hash);
      mret (if rc =? 0 then reply_ok else http_error 404 "Key not found")
  end.

(** ** Users *)

Definition user_record_members (u : User) : list (string * cJSON) :=
  [("user_id", JString (u_user_id u)); ("display_name", JString (u_display_name u)); ("email", JString (u_email u));
   ("enabled", JBool (negb (u_enabled u =? 0))); ("created_at", JZ (u_created_at u))].
Definition user_record_to_json (u : User) : cJSON := JObject (user_record_members u).

(** A record with the counts of the user's jobs, when there are any. *)
Definition user_with_stats (info : list UserInfo) (u : User) : cJSON :=
  JObject (user_record_members u ++
    match List.find (λ i, String.eqb (ui_user_id i) (u_user_id u)) info with
    | Some i => [("total_jobs", JZ (ui_total_jobs i)); ("running", JZ (ui_running i)); ("in_queue", JZ (ui_in_queue i));
                 ("held", JZ (ui_held i)); ("finished", JZ (ui_finished i)); ("failed", JZ (ui_failed i))]
    | None => []
    end).

Definition list_users (c : Call) : ST Sys Reply :=
  if negb (ca_alloc_ok c) then mret (http_error 500 "Out of memory") else
  recs ← ydb (db_list_user_records 512);
  info ← ydb (db_list_users 512);
  mret (http_json_reply 200 (JArray (user_with_stats info <$> recs))).

(** The string field of [item] for a buffer, or what the buffer holds. *)
Definition text_field (item : cJSON) (name : string) (size : nat) (old : string) : string :=
  let j := cJSON_GetObjectItemCaseSensitive item name in if cJSON_IsString j then cbuf size (valuestring j) else old.
Definition enabled_field (item : cJSON) (old : Z) : Z :=
  let j := cJSON_GetObjectItemCaseSensitive item "enabled" in
  if cJSON_IsBool j then if cJSON_IsTrue j then 1 else 0 else old.

Definition user_error (user_id msg : string) : bool * cJSON := (false, JObject [("user_id", JString user_id); ("error", JString msg)]).

(** One element of the list: whether it was created, and its result. *)
Definition create_user (c : Call) (item : cJSON) : ST Sys (bool * cJSON) :=
  let juid := cJSON_GetObjectItemCaseSensitive item "user_id" in
  let jpwd := cJSON_GetObjectItemCaseSensitive item "password" in
  let user_id := valuestring juid in
  let password := valuestring jpwd in
  if negb (cJSON_IsString juid) || negb (str_nonempty user_id) then mret (false, JObject [("error", JString "missing user_id")]) else
  if negb (safe_cli_name user_id) then mret (user_error user_id "user_id must contain only letters, digits, '_' or '-'") else
  match (if negb (present jpwd) then Some None
         else if negb (cJSON_IsString jpwd) || (str_len password <? 12)%nat || (128 <? str_len password)%nat then None
         else Some <$> auth_hash_password (ca_stack c) (Some password) (ca_random c 16%nat)) with
  | None => mret (user_error user_id "password must contain 12-128 characters")
  | Some password_hash =>
      let u := mkUser (cbuf 128 user_id) (text_field item "display_name" 256 "") (text_field item "email" 256 "") ""
                 (enabled_field item 1) 0 in
      rc ← ydb (db_create_user u);
      if negb (rc =? 0) then mret (user_error (u_user_id u) "already exists or DB error") else
      rc ← match password_hash with Some hash => ydb (db_set_user_password (u_user_id u) hash) | None => mret 0 end;
      if negb (rc =? 0) then ydb (db_delete_user (u_user_id u)) ;; mret (user_error (u_user_id u) "failed to store password") else
      saved ← ydb (db_get_user (u_user_id u));
      mret (true, user_record_to_json (default u saved))
  end.

(** The loop: created, failed and the results. *)
Fixpoint create_user_list (c : Call) (items : list cJSON) (created failed : Z) : ST Sys (Z * Z * list cJSON) :=
  match items with
  | [] => mret (created, failed, [])
  | item :: items =>
      r ← create_user c item;
      rest ← create_user_list c items (if r.1 : bool then created + 1 else created) (if r.1 : bool then failed else failed + 1);
      mret (rest.1, (r.2 : cJSON) :: rest.2)
  end.

Definition create_users (e : Env) (c : Call) (rq : Request) : ST Sys Reply :=
  if negb (ca_alloc_ok c) then mret (http_error 500 "Out of memory") else
  match en_parse e (rq_body rq) with
  | None => mret (http_error 400 "Invalid JSON")
  | Some req =>
      r ← create_user_list c (match req with JArray items => items | _ => [req] end) 0 0;
      let '(created, failed, results) := r in
      mret (http_json_reply (if 0 <? created then 201 else 400)
              (JObject [("created", JZ created); ("failed", JZ failed); ("users", JArray results)]))
  end.

Definition update_user (e : Env) (rq : Request) : ST Sys Reply :=
  match en_parse e (cbuf 2048 (rq_body rq)) with
  | None => mret (http_error 400 "Invalid JSON")
  | Some req =>
      let juid := cJSON_GetObjectItemCaseSensitive req "user_id" in
      if negb (cJSON_IsString juid) || negb (str_nonempty (valuestring juid)) then mret (http_error 400 "Missing 'user_id'") else
      user ← ydb (db_get_user (valuestring juid));
      match user with
      | None => mret (http_error 404 "User not found")
      | Some u =>
          let u := mkUser (u_user_id u) (text_field req "display_name" 256 (u_display_name u)) (text_field req "email" 256 (u_email u)) ""
                     (enabled_field req (u_enabled u)) (u_created_at u) in
          rc ← ydb (db_update_user u);
          mret (if rc =? 0 then http_json_reply 200 (user_record_to_json u) else http_error 500 "Failed to update user")
      end
  end.

Definition delete_user (e : Env) (rq : Request) : ST Sys Reply :=
  match en_parse e (cbuf 1024 (rq_body rq)) with
  | None => mret (http_error 400 "Invalid JSON")
  | Some req =>
      let juid := cJSON_GetObjectItemCaseSensitive req "user_id" in
      if negb (cJSON_IsString juid) || negb (str_nonempty (valuestring juid)) then mret (http_error 400 "Missing 'user_id'") else
      rc ← ydb (db_delete_user (cbuf 128 (valuestring juid)));
      mret (if rc =? 0 then reply_ok else http_error 404 "User not found")
  end.

(** ** Quotas *)

Definition quota_to_json (q : Quota) : cJSON :=
  JObject [("user_id", JString (qt_user_id q)); ("app_id", JString (qt_app_id q)); ("max_jobs", JZ (qt_max_jobs q));
           ("max_ram_mb", JZ (qt_max_ram_mb q)); ("max_cores", JZ (qt_max_cores q)); ("max_concurrent", JZ (qt_max_concurrent q))].

Definition list_quotas (c : Call) : ST Sys Reply :=
  if negb (ca_alloc_ok c) then mret (http_error 500 "Out of memory") else
  qs ← ydb (db_list_quotas 256);
  mret (http_json_reply 200 (JArray (quota_to_json <$> qs))).

(** [(int)j->valuedouble] *)
Definition int_field (req : cJSON) (name : string) : Z :=
  let j := cJSON_GetObjectItemCaseSensitive req name in if cJSON_IsNumber j then d_trunc (valuedouble j) else 0.

Definition upsert_quota (e : Env) (rq : Request) : ST Sys Reply :=
  match en_parse e (cbuf 2048 (rq_body rq)) with
  | None => mret (http_error 400 "Invalid JSON")
  | Some req =>
      let q := mkQuota (text_field req "user_id" 128 "") (text_field req "app_id" 128 "") (int_field req "max_jobs")
                 (int_field req "max_ram_mb") (int_field req "max_cores") (int_field req "max_concurrent") in
      rc ← ydb (db_update_quota q);
      rc ← (if rc =? 0 then mret 0 else ydb (db_insert_quota q));
      mret (if rc =? 0 then http_json_reply 200 (quota_to_json q) else http_error 500 "Failed to save quota")
  end.

Definition delete_quota (e : Env) (rq : Request) : ST Sys Reply :=
  match en_parse e (cbuf 1024 (rq_body rq)) with
  | None => mret (http_error 400 "Invalid JSON")
  | Some req =>
      rc ← ydb (db_delete_quota (text_field req "user_id" 128 "") (text_field req "app_id" 128 ""));
      mret (if rc =? 0 then reply_ok else http_error 404 "Quota not found")
  end.
