(* ===== verification/AccountsProps.v ===== *)
(** Properties of accounts: the bound on login attempts, and that a user's
    key is always bound to a user. *)
From S2P Require Import Prelude Job Uuid Json Registry Sql Db DbAdmin DbInv DbProps Allocator JobOps Config System SysFixture Sha256 Auth Http Batches Apps AppsProps Submit SubmitProps Accounts.

(** ** The login rate limit *)

(** The entry that [login_rate_check] finds for an address. *)
Definition entry_of (ip : Z) (rl : list LoginRL) : option LoginRL := List.find (λ s, rl_ip s =? ip) rl.

(** The accepted attempts of [ip] in a sequence of attempts (address and
    time) of any addresses. *)
Fixpoint accepted (ip : Z) (attempts : list (Z * Z)) (rl : list LoginRL) : Z :=
  match attempts with
  | [] => 0
  | a :: attempts =>
      let '(ok, rl) := login_rate_check a.1 a.2 rl in
      (if (a.1 =? ip) && ok then 1 else 0) + accepted ip attempts rl
  end.

Lemma find_index_entry ip rl : 
  match find_index (λ s, rl_ip s =? ip) rl with
  | Some i => ∃ s, rl !! i = Some s ∧ nth i rl no_login = s ∧ rl_ip s = ip ∧ entry_of ip rl = Some s
  | None => entry_of ip rl = None
  end.
Proof.
  induction rl as [|s rl IH]; cbn; [done|]. destruct (rl_ip s =? ip) eqn:E; [exists s; bool_prop; done|].
  destruct (find_index _ rl) as [i|]; cbn; [|done]. destruct IH as (x & ? & ? & ? & ?). by exists x.
Qed.

Lemma entry_insert_other ip rl i s x :
  rl !! i = Some s → rl_ip s ≠ ip → rl_ip x ≠ ip → entry_of ip (<[i:=x]> rl) = entry_of ip rl.
Proof.
  revert i. induction rl as [|y rl IH]; intros [|i] H Hs Hx; simplify_eq/=.
  - by rewrite !(proj2 (Z.eqb_neq _ _)).
  - destruct (rl_ip y =? ip); [done|]. by apply IH.
Qed.

Lemma entry_insert_same ip rl i s x :
  rl !! i = Some s → entry_of ip rl = None ∨ entry_of ip rl = Some s ∧ find_index (λ s, rl_ip s =? ip) rl = Some i →
  rl_ip x = ip → entry_of ip (<[i:=x]> rl) = Some x.
Proof.
  revert i. induction rl as [|y rl IH]; intros [|i] H Hs Hx; simplify_eq/=.
  - by rewrite Z.eqb_refl.
  - destruct (rl_ip y =? rl_ip x); [destruct Hs as [?|[_ ?]]; done|]. apply (IH i); [done| |done].
    destruct Hs as [?|[? Hf]]; [by left|]. right. split; [done|]. by destruct (find_index _ rl); simplify_eq/=.
Qed.

(** A free slot is taken before an occupied one. *)
Lemma oldest_slot_free rl slots i o k :
  find_index (λ s, rl_ip s =? 0) slots = Some k → oldest_slot rl slots i o = (i + k)%nat.
Proof.
  revert i o k. induction slots as [|s slots IH]; intros i o k; cbn; [done|]. destruct (rl_ip s =? 0); [intros [= <-]; lia|].
  destruct (find_index _ slots) as [k'|]; cbn; [|done]. intros [= <-]. rewrite (IH _ _ k'); [lia|done].
Qed.

(** The occupied slots hold different addresses of [ips]. *)
Definition used (rl : list LoginRL) : list Z := filter (λ z, z ≠ 0) (rl_ip <$> rl).
Definition table_ok (ips : list Z) (rl : list LoginRL) : Prop :=
  length rl = LOGIN_RL_SLOTS ∧ NoDup (used rl) ∧ used rl ⊆ ips.

Lemma used_full rl : (∀ s, s ∈ rl → rl_ip s ≠ 0) → length (used rl) = length rl.
Proof.
  unfold used. induction rl as [|s rl IH]; intros H; [done|]. rewrite fmap_cons, filter_cons, decide_True by (apply H; set_solver).
  cbn. rewrite IH; [done|]. set_solver.
Qed.

Lemma free_slot ips rl ip :
  table_ok ips rl → (length ips ≤ LOGIN_RL_SLOTS)%nat → ip ∈ ips → ip ≠ 0 → entry_of ip rl = None →
  ∃ k s, find_index (λ s, rl_ip s =? 0) rl = Some k ∧ rl !! k = Some s ∧ rl_ip s = 0.
Proof.
  intros (Hl & Hnd & Hsub) Hlen Hip H0 Hnone.
  destruct (find_index (λ s, rl_ip s =? 0) rl) as [k|] eqn:E.
  - apply find_index_Some in E as (s & Hs & Hz & _). bool_prop. eauto.
  - exfalso. pose proof (used_full rl) as Hf. rewrite Hl in Hf.
    assert (length (used rl) = LOGIN_RL_SLOTS) as Hu.
    { apply Hf. intros s Hs. apply (find_index_None _ _ E) in Hs. by bool_prop. }
    assert (ip ∉ used rl) as Hni.
    { unfold used. intros [_ Hin]%list_elem_of_filter. apply list_elem_of_fmap in Hin as (s & -> & Hs).
      apply list_elem_of_In in Hs. unfold entry_of in Hnone. eapply List.find_none in Hnone; [|exact Hs]. cbn in Hnone. bool_prop. done. }
    assert (length (ip :: used rl) ≤ length ips)%nat as Hle.
    { apply submseteq_length, NoDup_submseteq; [by constructor|]. intros x [->|Hx]%elem_of_cons; [done|by apply Hsub]. }
    cbn in Hle. lia.
Qed.

Lemma used_insert rl i s x : rl !! i = Some s → rl_ip s = 0 → rl_ip x ≠ 0 → used (<[i:=x]> rl) ≡ₚ rl_ip x :: used rl.
Proof.
  revert i. unfold used. induction rl as [|y rl IH]; intros [|i] H Hs Hx; simplify_eq/=; rewrite !filter_cons.
  - rewrite decide_True, decide_False by (done || by intros []). done.
  - case_decide; rewrite (IH i) by done; [apply Permutation_swap|done].
Qed.

(** What one attempt does to the table. *)
Lemma login_step ips ip now rl :
  table_ok ips rl → (length ips ≤ LOGIN_RL_SLOTS)%nat → ip ∈ ips → ip ≠ 0 →
  let r := login_rate_check ip now rl in
  table_ok ips r.2 ∧ (∀ other, other ≠ ip → entry_of other r.2 = entry_of other rl ∨ other = 0) ∧
  match entry_of ip rl with
  | None => r.1 = true ∧ entry_of ip r.2 = Some (mkLoginRL ip 1 now)
  | Some s =>
      if LOGIN_RL_WINDOW <? now - rl_window_start s then r.1 = true ∧ entry_of ip r.2 = Some (mkLoginRL ip 1 now)
      else r.1 = (rl_attempts s + 1 <=? LOGIN_RL_MAX) ∧
           entry_of ip r.2 = Some (mkLoginRL ip (rl_attempts s + 1) (rl_window_start s))
  end.
Proof.
  intros Hok Hlen Hip H0. unfold login_rate_check. pose proof (find_index_entry ip rl) as Hf.
  destruct (find_index _ rl) as [i|] eqn:Ei.
  - destruct Hf as (s & Hs & Hnth & Hsip & He). rewrite He, Hnth.
    assert (∀ x, rl_ip x = ip → let rl' := <[i:=x]> rl in table_ok ips rl' ∧
        (∀ other, other ≠ ip → entry_of other rl' = entry_of other rl ∨ other = 0) ∧ entry_of ip rl' = Some x) as Hins.
    { intros x Hx rl'. unfold rl'. split_and!.
      - destruct Hok as (Hl & Hnd & Hsub). unfold table_ok, used. rewrite length_insert.
        rewrite (fmap_insert_same _ _ _ s) by (congruence || done). done.
      - intros other Ho. left. apply (entry_insert_other _ _ _ s); congruence.
      - apply (entry_insert_same _ _ _ s); auto. }
    destruct (LOGIN_RL_WINDOW <? _); cbn [fst snd].
    + destruct (Hins (mkLoginRL ip 1 now) eq_refl) as (? & ? & ?). done.
    + destruct (Hins (mkLoginRL ip (rl_attempts s + 1) (rl_window_start s)) eq_refl) as (? & ? & ?). done.
  - destruct (free_slot ips rl ip Hok Hlen Hip H0 Hf) as (k & s & Hk & Hs & Hz).
    rewrite (oldest_slot_free _ _ _ _ k Hk). cbn [Nat.add fst snd]. rewrite Hf. split_and!; [|intros other Ho|done|].
    + destruct Hok as (Hl & Hnd & Hsub). unfold table_ok. rewrite length_insert.
      pose proof (used_insert rl k s (mkLoginRL ip 1 now) Hs Hz H0) as Hu. rewrite Hu. cbn [rl_ip].
      split_and!; [done| |set_solver]. constructor; [|done].
      unfold used. intros [_ Hin]%list_elem_of_filter. apply list_elem_of_fmap in Hin as (y & -> & Hy).
      apply list_elem_of_In in Hy. unfold entry_of in Hf. eapply List.find_none in Hf; [|exact Hy]. cbn in Hf. bool_prop. done.
    + destruct (decide (other = 0)); [by right|]. left. apply (entry_insert_other _ _ _ s); [done|congruence|done].
    + apply (entry_insert_same _ _ _ s); auto.
Qed.

(** The attempts of [ip] that can still be accepted until [t1]. *)
Definition credit (t0 t1 : Z) (e : option LoginRL) : Z :=
  match e with
  | None => LOGIN_RL_MAX * (1 + (t1 - t0) / (LOGIN_RL_WINDOW + 1))
  | Some s => Z.max 0 (LOGIN_RL_MAX - rl_attempts s) + LOGIN_RL_MAX * ((t1 - rl_window_start s) / (LOGIN_RL_WINDOW + 1))
  end.

Lemma accepted_credit ips ip t0 t1 : (length ips ≤ LOGIN_RL_SLOTS)%nat → ∀ attempts rl,
  table_ok ips rl → Forall (λ a, a.1 ∈ ips ∧ a.1 ≠ 0 ∧ t0 ≤ a.2 ≤ t1) attempts → ip ≠ 0 →
  (∀ s, entry_of ip rl = Some s → t0 ≤ rl_window_start s ≤ t1) →
  t0 ≤ t1 → accepted ip attempts rl ≤ credit t0 t1 (entry_of ip rl).
Proof.
  intros Hlen attempts. induction attempts as [|[a now] attempts IH]; intros rl Hok Hall H0 Hw Ht; cbn [accepted fst snd].
  { assert (0 ≤ (t1 - t0) / (LOGIN_RL_WINDOW + 1)) by (apply Z.div_pos; unfold LOGIN_RL_WINDOW; lia).
    unfold credit. destruct (entry_of ip rl) as [s|] eqn:E; [|unfold LOGIN_RL_MAX; lia]. specialize (Hw s eq_refl).
    assert (0 ≤ (t1 - rl_window_start s) / (LOGIN_RL_WINDOW + 1)) by (apply Z.div_pos; unfold LOGIN_RL_WINDOW; lia).
    unfold LOGIN_RL_MAX. lia. }
  apply Forall_cons in Hall as [(Ha & Ha0 & Hnow) Hall]. cbn [fst snd] in *.
  pose proof (login_step ips a now rl Hok Hlen Ha Ha0) as Hstep.
  destruct (login_rate_check a now rl) as [ok rl']. cbn [fst snd] in Hstep. destruct Hstep as (Hok' & Hother & Hself).
  destruct (Z.eqb_spec a ip) as [->|Hne]; cbn [andb].
  2: { destruct (Hother ip) as [He|?]; [congruence| |done]. specialize (IH rl' Hok' Hall H0). rewrite He in IH. specialize (IH Hw Ht). lia. }
  specialize (IH rl' Hok' Hall H0). unfold LOGIN_RL_MAX, LOGIN_RL_WINDOW, credit in *.
  assert (∀ w, t0 ≤ w → w + 61 ≤ now → (t1 - now) / (60 + 1) + 1 ≤ (t1 - w) / (60 + 1)) as Hdiv1.
  { intros w _ Hle. rewrite <- Z.div_add by lia. apply Z.div_le_mono; lia. }
  assert ((t1 - now) / (60 + 1) ≤ (t1 - t0) / (60 + 1)) as Hdiv0 by (apply Z.div_le_mono; lia).
  destruct (entry_of ip rl) as [s|] eqn:He.
  - specialize (Hw s eq_refl). destruct (60 <? now - rl_window_start s) eqn:Ew; destruct Hself as [-> He']; rewrite He' in IH; cbn [rl_window_start rl_attempts] in IH.
    + bool_prop. specialize (Hdiv1 (rl_window_start s) ltac:(lia) ltac:(lia)).
      pose proof (IH ltac:(by intros ? [= <-]; cbn) Ht) as Hacc. unfold LOGIN_RL_MAX, LOGIN_RL_WINDOW in *. lia.
    + pose proof (IH ltac:(by intros ? [= <-]; cbn) Ht) as Hacc. unfold LOGIN_RL_MAX, LOGIN_RL_WINDOW in *. destruct (rl_attempts s + 1 <=? 5) eqn:Ea; bool_prop; lia.
  - destruct Hself as [-> He']; rewrite He' in IH; cbn [rl_window_start rl_attempts] in IH.
    pose proof (IH ltac:(by intros ? [= <-]; cbn) Ht) as Hacc. unfold LOGIN_RL_MAX, LOGIN_RL_WINDOW in *. lia.
Qed.

(** C28. Password guessing is bounded.  Starting from the empty table, as long
    as at most 64 addresses try to log in, an address gets at most five
    attempts accepted per started 61 seconds, however the attempts of all
    addresses are interleaved and whatever the clock does between [t0] and
    [t1]; the table never evicts an address that still counts. *)
Theorem login_attempts_are_bounded (attempts : list (Z * Z)) (ip t0 t1 : Z)
    (Hips : (length (remove_dups (fst <$> attempts)) ≤ LOGIN_RL_SLOTS)%nat)
    (Htimes : Forall (λ a, a.1 ≠ 0 ∧ t0 ≤ a.2 ≤ t1) attempts) (Ht : t0 ≤ t1) (Hip : ip ≠ 0) :
  accepted ip attempts login_rl_init ≤ 5 * (1 + (t1 - t0) / 61).
Proof.
  assert (entry_of ip login_rl_init = None) as He.
  { unfold entry_of, login_rl_init. clear -Hip. induction LOGIN_RL_SLOTS as [|n IH]; [done|]. cbn [List.find replicate].
    change (rl_ip no_login) with 0. rewrite (proj2 (Z.eqb_neq 0 ip)) by congruence. exact IH. }
  change (accepted ip attempts login_rl_init ≤ credit t0 t1 None). rewrite <- He.
  apply (accepted_credit (remove_dups (fst <$> attempts)) ip t0 t1 Hips attempts login_rl_init); try done.
  - split_and!; [done| |]; replace (used login_rl_init) with ([] : list Z) by (by vm_compute); [constructor|set_solver].
  - rewrite Forall_forall in *. intros a Ha. specialize (Htimes a Ha). split; [|done].
    apply elem_of_remove_dups. by apply list_elem_of_fmap_2.
  - by rewrite He.
Qed.

Lemma login_attempts_are_bounded_witness :
  let attempts := [(7, 100); (7, 101); (9, 101); (7, 102); (7, 103); (7, 104); (7, 105); (7, 106); (9, 107); (7, 161)] in
  accepted 7 attempts login_rl_init = 6 ∧ accepted 7 attempts login_rl_init ≤ 5 * (1 + (161 - 100) / 61).
Proof.
  intros attempts. split; [vm_compute; reflexivity|].
  apply (login_attempts_are_bounded attempts 7 100 161); [vm_compute; lia| |lia|lia].
  unfold attempts. repeat constructor; cbn; lia.
Defined.

(** ** Keys of users *)

(** Every key without the role of an administrator names its user. *)
Definition keys_bound (t : Tables) : Prop := ∀ k, k ∈ t_api_keys t → k_role k = "admin" ∨ k_user_id k ≠ "".
Definition bound_kept (s s' : Sys) : Prop := db_inv_kept keys_bound (y_db s) (y_db s').

#[export] Instance bound_kept_preorder : PreOrder bound_kept.
Proof. split; [by intros s H|]. intros a b c; unfold bound_kept, db_inv_kept; auto. Qed.

Lemma ydb_bound {A} (m : ST Db A) : keeps (db_inv_kept keys_bound) m → keeps bound_kept (ydb m).
Proof. intros H s r s' Hrun%ydb_db. exact (H _ _ _ Hrun). Qed.

Lemma dml_rc_bound f : (∀ now t t' n, keys_bound t → f now t = Some (t', n) → keys_bound t') → keeps (db_inv_kept keys_bound) (dml_rc f).
Proof. intros H. apply keeps_bind; [apply _|by apply dml_inv|intros; apply keeps_ret, _]. Qed.

Lemma dml_changed_bound f : (∀ now t t' n, keys_bound t → f now t = Some (t', n) → keys_bound t') → keeps (db_inv_kept keys_bound) (dml_changed f).
Proof.
  intros H. apply keeps_bind; [apply _|by apply dml_inv|]. intros ok. apply keeps_bind; [apply _|apply keeps_gets, _|intros; apply keeps_ret, _].
Qed.

Lemma insert_key_bound hash label role user expires :
  role = "admin" ∨ user ≠ "" → keeps bound_kept (ydb (db_insert_api_key_full hash label (Some role) (Some user) expires)).
Proof.
  intros Hb. apply ydb_bound, dml_rc_bound. intros now t t' n Hok. destruct (existsb _ _); [done|]. intros [= <- _] k.
  destruct t as [? keys]. cbn. intros [Hk| ->%list_elem_of_singleton]%elem_of_app; [by apply Hok|]. cbn.
  destruct Hb as [->|]; auto.
Qed.

Lemma revoke_key_bound hash : keeps bound_kept (ydb (db_revoke_api_key hash)).
Proof.
  apply ydb_bound, dml_rc_bound. intros now t t' n Hok [= <- _] k. destruct t as [? keys]. cbn.
  intros (k0 & Hk & ->)%update_where_elem. specialize (Hok k0 Hk). by destruct (key_is hash k0).
Qed.

Lemma set_password_bound user hash : keeps bound_kept (ydb (db_set_user_password user hash)).
Proof. apply ydb_bound, dml_changed_bound. intros now t t' n Hok [= <- _]. by destruct t. Qed.

Lemma read_bound {R A} (f : Z → Tables → list R) (g : option (list R * bool) → A) :
  keeps bound_kept (ydb (r ← query f; mret (g r))).
Proof. apply ydb_bound, keeps_bind; [apply _|apply query_inv|intros; apply keeps_ret, _]. Qed.

#[export] Hint Resolve revoke_key_bound set_password_bound : clib.

Ltac keeps_bound := repeat first
  [ apply keeps_bind; [apply _| |intros ?]
  | apply keeps_ret; apply _
  | apply keeps_gets; apply _
  | apply read_bound
  | progress auto with clib nocore
  | case_match ].

Lemma safe_cli_name_nonempty s : safe_cli_name s = true → s ≠ "".
Proof. by destruct s. Qed.

(** The checks of a request for a key. *)
Lemma key_request_bound req now label role user expires :
  key_request req now = inr (label, role, user, expires) → role = "admin" ∨ user ≠ "".
Proof.
  unfold key_request. intros (l & _ & H)%res_bind_ok. apply res_bind_ok in H as (ro & _ & H).
  apply res_bind_ok in H as (u & _ & H). apply res_bind_ok in H as (x & _ & H).
  destruct (negb _ && negb _) eqn:E1; [done|]. destruct (_ || _) eqn:E2; [done|]. injection H as -> -> -> ->.
  apply andb_false_iff in E1 as [E1|E1]; bool_prop; [by left|]. right. apply orb_false_elim in E2 as [_ E2].
  subst. cbn in E2. apply negb_false_iff, str_nonempty_spec in E2. done.
Qed.

Lemma create_key_bound e c rq : keeps bound_kept (create_key e c rq).
Proof.
  unfold create_key, y_now. destruct (en_parse e _) as [req|]; [|apply keeps_ret, _].
  apply keeps_bind; [apply _|apply keeps_gets, _|]. intros now.
  destruct (key_request req now) as [msg|[[[label role] user] expires]] eqn:E; [apply keeps_ret, _|].
  apply key_request_bound in E. pose proof (λ h, insert_key_bound h label role user expires E) as Hins.
  apply keeps_bind; [apply _|destruct (str_nonempty user); [apply read_bound|apply keeps_ret, _]|]. intros u.
  destruct (_ && _); [apply keeps_ret, _|]. destruct (ca_random c 32%nat); [|apply keeps_ret, _].
  apply keeps_bind; [apply _|apply Hins|]. intros rc. destruct (negb _); apply keeps_ret, _.
Qed.

Lemma generate_key_bound c user role : role = "admin" ∨ user ≠ "" → keeps bound_kept (generate_api_key_for_user c user role).
Proof.
  intros Hb. unfold generate_api_key_for_user, y_now. destruct (ca_random c 32%nat); [|apply keeps_ret, _].
  apply keeps_bind; [apply _|apply keeps_gets, _|]. intros now. apply keeps_bind; [apply _|by apply insert_key_bound|].
  intros rc. apply keeps_ret, _.
Qed.

Lemma login_request_bound e c rq : keeps bound_kept (login_request e c rq).
Proof.
  unfold login_request. destruct (en_parse e _) as [req|]; [|apply keeps_ret, _].
  destruct (login_fields_ok _ _) eqn:Ef; cbn [negb]; [|apply keeps_ret, _]. unfold login_fields_ok in Ef.
  apply andb_prop in Ef as [[_ Hsafe]%andb_prop _]. set (uid := cbuf 128 _).
  assert (uid ≠ "") as Huid.
  { unfold uid, safe_cli_name in *. by destruct (valuestring _). }
  apply keeps_bind; [apply _|apply read_bound|]. intros [[hash enabled]|]; [|apply keeps_ret, _].
  destruct (negb _); [apply keeps_ret, _|]. destruct (enabled =? 0); [apply keeps_ret, _|].
  apply keeps_bind; [apply _| |intros _].
  - unfold upgrade_password. keeps_bound.
  - unfold login_session. apply keeps_bind; [apply _|apply read_bound|]. intros previous.
    apply keeps_bind; [apply _|by apply generate_key_bound; right|]. intros [[raw h]|]; keeps_bound.
Qed.

(** C27. A user's key is always bound to a user: whatever statements of the
    database fail, neither the creation of a key by an administrator nor a
    login nor a revocation lets a key without the role of an administrator
    exist without a user; so whoever authenticates without that role has a
    non-empty user, as the checks of ownership assume. *)
Theorem user_keys_stay_bound (e : Env) (c : Call) (rq : Request) (w : Web)
    (Hb : db_inv keys_bound (y_db (w_sys w))) :
  db_inv keys_bound (y_db (w_sys (auth_login e c rq w).2)) ∧
  db_inv keys_bound (y_db (create_key e c rq (w_sys w)).2) ∧
  db_inv keys_bound (y_db (revoke_key e c rq (w_sys w)).2) ∧
  (∀ hdr role user d', auth_check_role_user (ca_stack c) hdr (y_db (w_sys w)) = (Some (role, user), d') →
     role = "admin" ∨ user ≠ "").
Proof.
  split_and!.
  - unfold auth_login. destruct (login_rate_check _ _ _) as [ok rl]. destruct ok; cbn [negb snd]; [|by destruct w].
    unfold wsys. destruct (login_request e c rq (w_sys (set_w_login_rl rl w))) as [r s] eqn:E. cbn.
    apply login_request_bound in E. apply E. by destruct w.
  - destruct (create_key e c rq (w_sys w)) as [r s] eqn:E. by apply (create_key_bound e c rq _ _ _ E).
  - destruct (revoke_key e c rq (w_sys w)) as [r s] eqn:E.
    assert (keeps bound_kept (revoke_key e c rq)) as Hk by (unfold revoke_key; keeps_bound).
    by apply (Hk _ _ _ E).
  - intros hdr role user d' H. unfold auth_check_role_user in H. destruct (extract_key_hash _ _) as [hash|]; [|done].
    apply resolve_some in H as (k & Hk & _ & _ & _ & -> & ->). destruct (proj1 Hb k Hk) as [->|Hu]; [by left|].
    right. by destruct (k_user_id k).
Qed.

Lemma user_keys_stay_bound_witness :
  let key := mkApiKey "h" "key" "user" "ann" 5 0 0 in
  let d := mkDb true false None (set_t_api_keys [key] no_tables) 0 1000 [] in
  let w := mkWeb (set_y_alloc (mkAllocState [] no_ledger d) (small_system [] [] [])) config_defaults true login_rl_init [] in
  let e := mkEnv config_defaults (λ _, None)
             (λ _, Some (JObject [("label", JString "ci"); ("role", JString "admin")])) (λ _, None) (λ _, 0) (λ n, NoUrandom 0 (Z.of_nat n)) None
             (mkAllocEnv true true) true true true (λ _, true) in
  let c := mkCall e (λ n, Some (replicate n 171)) true (λ _, Some "...") (mkCtx (replicate 64 0) 0 0 []) None (λ _, d_of_Z 0) (λ _ _, "") (λ _ _, true) in
  let rq := mkRequest "POST" "/admin/keys" "{...}" (λ _, None) (λ _ _, None) (λ s _, Some s) 7 1 in
  (λ k, (k_role k, k_user_id k)) <$> t_api_keys (tables (y_db (create_key e c rq (w_sys w)).2)) = [("user", "ann"); ("admin", "")] ∧
  db_inv keys_bound (y_db (create_key e c rq (w_sys w)).2).
Proof.
  intros key d w e c rq. split; [vm_compute; reflexivity|].
  refine (proj1 (proj2 (user_keys_stay_bound e c rq w _))). split; [|discriminate].
  intros k Hk. apply list_elem_of_singleton in Hk as ->. right. discriminate.
Defined.
