(* ===== verification/Views.v ===== *)
(** The handlers of src/http/routes.c and src/http/artifacts.c that only
    read: listings of jobs, files, machines, statistics and applications, and
    the opening of an event stream. *)
From S2P Require Import Prelude Job Json Events Httpd Registry Sql Db DbAdmin Allocator JobOps Transfer Cloud Config System Store Http Apps.

(** ** Jobs *)

Definition list_jobs (rq : Request) (c : Call) (auth_user_id auth_role : string) : ST Sys Reply :=
  match parse_query_int rq "limit" 100 1 500, parse_query_int rq "offset" 0 0 100000000 with
  | Some limit, Some offset =>
      let status := match rq_query rq "status" 128 with Some value => job_status_from_text value | None => -1 end in
      let app_filter := default "" (rq_query rq "app_id" 128) in
      let user_filter := if is_admin auth_role then default "" (rq_query rq "user_id" 128) else "" in
      if status =? -2 then mret (http_error 400 "Invalid job status filter") else
      if present (rq_query rq "app_id" 128) && negb (safe_cli_name app_filter) then mret (http_error 400 "Invalid app_id filter") else
      if is_admin auth_role && present (rq_query rq "user_id" 128) && negb (safe_cli_name user_filter)
      then mret (http_error 400 "Invalid user_id filter") else
      let owner_filter := if is_admin auth_role then user_filter else auth_user_id in
      r ← ydb (db_query_jobs owner_filter status app_filter limit offset);
      if r.1 <? 0 then mret (http_error 500 "Failed to query jobs") else
      if negb (ca_alloc_ok c) then mret (http_error 500 "Out of memory") else
      mret (http_json_reply 200 (JArray (job_to_json <$> r.2)))
  | _, _ => mret (http_error 400 "Invalid pagination parameters")
  end.

Definition queue_item (position : Z) (j : Job) : cJSON :=
  JObject [("position", JZ position); ("id", JString (j_id j)); ("batch_id", JString (j_batch_id j));
           ("status", JString (job_status_str (j_status j))); ("priority", JZ (j_priority j));
           ("submitted_at", JZ (j_submitted_at j)); ("req_cores", JZ (j_req_cores j)); ("req_gpu", JZ (j_req_gpu j));
           ("req_ram_mb", JZ (j_req_ram_mb j))].

(** The loop: the items from position [visible + 1]. *)
Fixpoint queue_items (is_admin : bool) (auth_user_id : string) (limit : Z) (jobs : list Job) (visible : Z) : list cJSON :=
  match jobs with
  | [] => []
  | j :: jobs =>
      if negb (visible <? limit) then []
      else if negb is_admin && negb (String.eqb (j_user_id j) auth_user_id) then queue_items is_admin auth_user_id limit jobs visible
      else queue_item (visible + 1) j :: queue_items is_admin auth_user_id limit jobs (visible + 1)
  end.

Definition list_queue (rq : Request) (c : Call) (auth_user_id auth_role : string) : ST Sys Reply :=
  let limit := match rq_query rq "limit" 32 with Some value => clamp_int (ca_atof c value) 1 1000 | None => 100 end in
  if negb (ca_alloc_ok c) then mret (http_error 500 "Out of memory") else
  jobs ← ydb (db_list_queued_jobs 1000 0);
  let array := JArray (queue_items (is_admin auth_role) auth_user_id limit jobs 0) in
  mret (if present (ca_print c array) then http_json_reply 200 array else http_error 500 "Failed to encode queue").

Definition get_job (job_id : string) : ST Sys Reply :=
  job ← ydb (db_get_job job_id);
  mret (match job with Some job => http_json_reply 200 (job_to_json job) | None => http_error 404 "Job not found" end).

(** One token of [depends_on]. *)
Definition dep_item (tok : string) : ST Sys cJSON :=
  dep ← ydb (db_get_job tok);
  mret (JObject (("job_id", JString tok) ::
    match dep with
    | Some dep => [("status", JString (job_status_str (j_status dep))); ("status_reason", JString (j_status_reason dep))]
    | None => [("status", JString "not_found")]
    end)).

Fixpoint dep_items (tokens : list string) : ST Sys (list cJSON) :=
  match tokens with
  | [] => mret []
  | tok :: tokens =>
      let tok := trim_left is_space tok in
      if negb (str_nonempty tok) then dep_items tokens else
      d ← dep_item tok; ds ← dep_items tokens; mret ((d : cJSON) :: ds)
  end.

Definition get_job_deps (job_id : string) : ST Sys Reply :=
  job ← ydb (db_get_job job_id);
  match job with
  | None => mret (http_error 404 "Job not found")
  | Some job =>
      deps ← dep_items (strtok_commas (cbuf 2048 (j_depends_on job)));
      overall ← ydb (db_check_deps_status (j_depends_on job));
      mret (http_json_reply 200 (JObject
        [("job_id", JString (j_id job)); ("depends_on", JString (j_depends_on job)); ("dependencies", JArray deps);
         ("deps_status", JString (if overall =? 0 then "satisfied" else if overall =? -1 then "failed" else "waiting"))]))
  end.

(** ** Files of a job *)

Definition log_path (e : Env) (job_id : string) (use_stderr : bool) : string :=
  if use_stderr then store_stderr_path (en_work_dir e) job_id 512 else store_stdout_path (en_work_dir e) job_id 512.

Definition get_job_log (e : Env) (job_id : string) (use_stderr : bool) : ST Sys Reply :=
  fs ← st_gets y_files;
  mret (match fs !! log_path e job_id use_stderr with
        | Some content => http_text 200 content
        | None => http_error 404 (if use_stderr then "stderr.log not found" else "stdout.log not found")
        end).

(** The regular files of a directory whose names do not start with a dot. *)
Definition dir_files (fs : gmap string string) (dir : string) : list cJSON :=
  omap (λ name,
    if str_prefix "." name then None else
    match fs_stat fs (cbuf 768 (dir +:+ "/" +:+ name)) with
    | Some (RegularFile size) => Some (JObject [("name", JString name); ("size", JZ size)])
    | _ => None
    end) (default [] (fs_readdir fs dir)).

Definition log_members (fs : gmap string string) (path size_name has_name : string) : list (string * cJSON) :=
  match fs !! path with
  | Some content => [(size_name, JZ (Z.of_nat (str_len content))); (has_name, JBool true)]
  | None => [(has_name, JBool false)]
  end.

Definition list_job_files (e : Env) (job_id : string) : ST Sys Reply :=
  fs ← st_gets y_files;
  mret (http_json_reply 200 (JObject
    [("input", JArray (dir_files fs (store_input_dir (en_work_dir e) job_id 512)));
     ("output", JArray (dir_files fs (store_output_dir (en_work_dir e) job_id 512)));
     ("logs", JObject (log_members fs (log_path e job_id false) "stdout_size" "has_stdout"
                       ++ log_members fs (log_path e job_id true) "stderr_size" "has_stderr"))])).

Definition artifact_to_json (a : ArtifactRecord) : cJSON :=
  JObject [("id", JZ (a_id a)); ("job_id", JString (a_job_id a)); ("type", JString (a_type a)); ("uri", JString (a_uri a));
           ("size_bytes", JZ (a_size_bytes a)); ("checksum", if str_nonempty (a_checksum a) then JString (a_checksum a) else JNull);
           ("created_at", JZ (a_created_at a))].

Definition ARTIFACT_API_LIMIT : Z := 4096.

Definition artifacts_list (c : Call) (job_id : string) : ST Sys Reply :=
  if negb (ca_alloc_ok c) then mret (http_error 500 "Out of memory") else
  items ← ydb (db_list_artifacts job_id ARTIFACT_API_LIMIT);
  match items with
  | None => mret (http_error 500 "Failed to list artifacts")
  | Some items =>
      let array := JArray (artifact_to_json <$> items) in
      mret (if present (ca_print c array) then http_json_reply 200 array else http_error 500 "Failed to encode artifacts")
  end.

(** ** The event stream *)

(** Whether a job is shown to the caller of [sse_subscribe]. *)
Definition snapshot_shows (auth_user_id auth_role : string) (j : Job) : bool :=
  is_admin auth_role || String.eqb (j_user_id j) auth_user_id.

Definition sse_subscribe (rq : Request) (c : Call) (auth_user_id auth_role : string) : ST Web Reply := λ w,
  let w := set_w_sse (httpd_sse_add_user (rq_conn rq) auth_user_id auth_role (w_sse w)) w in
  let '(jobs, w) := (if ca_alloc_ok c then wsys (ydb (db_list_jobs 256)) w else ([], w)) in
  (http_sse (JArray (job_to_json <$> where_ (snapshot_shows auth_user_id auth_role) jobs)), w).

(** ** Statistics *)

(** The low 32 bits of a sum in [int]. *)
Definition int_sum (f : Machine → Z) (ms : list Machine) : Z := column_int (sumZ (f <$> ms)).
Definition count_machines (p : Machine → bool) (ms : list Machine) : Z := count_where p ms.

Definition get_stats (e : Env) : ST Sys Reply :=
  stats ← ydb db_job_stats;
  l ← st_gets y_registry;
  let js := stats.2 in
  mret (match registry_snapshot (en_malloc_ok e) l with
    | None => http_error 500 "Failed to snapshot machines"
    | Some ms => http_json_reply 200 (JObject
        [("jobs", JObject
            [("total", JZ (js_total js)); ("created", JZ (js_created js)); ("queued", JZ (js_queued js));
             ("running", JZ (js_running js)); ("succeeded", JZ (js_succeeded js)); ("failed", JZ (js_failed js));
             ("cancelled", JZ (js_cancelled js))]);
         ("machines", JObject [("total", JZ (Z.of_nat (length ms))); ("enabled", JZ (count_machines m_enabled ms))]);
         ("resources", JObject
            [("cores_total", JZ (int_sum (λ m, r_cores (m_total m)) ms)); ("cores_used", JZ (int_sum (λ m, r_cores (m_reserved m)) ms));
             ("ram_mb_total", JZ (int_sum (λ m, r_ram_mb (m_total m)) ms)); ("ram_mb_used", JZ (int_sum (λ m, r_ram_mb (m_reserved m)) ms))])])
    end).

Definition is_offline (m : Machine) : bool := bool_decide (m_probe_status m = MACHINE_OFFLINE).

(** A sample: its series and its value. *)
Definition sample (name : string) (value : Z) : string := name +:+ " " +:+ dec value.
Definition label (family key value : string) : string := family +:+ "{" +:+ key +:+ "=" +:+ String DQ (value +:+ String DQ "}").

Definition metrics_lines (js : JobStats) (accepting_jobs : bool) (ms : list Machine) : list string :=
  let jobs state := sample (label "bhc_jobs" "state" state) in
  let machines state := sample (label "bhc_machines" "state" state) in
  let resource family kind := sample (label family "resource" kind) in
  let total f := sumZ ((λ m, f (m_total m)) <$> ms) in
  let reserved f := sumZ ((λ m, f (m_reserved m)) <$> ms) in
  [ "# HELP bhc_jobs Jobs by scheduler state."; "# TYPE bhc_jobs gauge";
    jobs "created" (js_created js); jobs "queued" (js_queued js); jobs "running" (js_running js);
    jobs "succeeded" (js_succeeded js); jobs "failed" (js_failed js); jobs "cancelled" (js_cancelled js);
    "# HELP bhc_machines Machines by availability state."; "# TYPE bhc_machines gauge";
    machines "enabled" (count_machines m_enabled ms); machines "online" (count_machines is_online ms);
    machines "offline" (count_machines is_offline ms);
    machines "probing" (count_machines (λ m, negb (is_online m) && negb (is_offline m)) ms);
    "# TYPE bhc_accepting_jobs gauge"; sample "bhc_accepting_jobs" (if accepting_jobs then 1 else 0);
    "# TYPE bhc_resource_total gauge"; resource "bhc_resource_total" "cores" (total r_cores); resource "bhc_resource_total" "ram_mb" (total r_ram_mb);
    "# TYPE bhc_resource_reserved gauge"; resource "bhc_resource_reserved" "cores" (reserved r_cores);
    resource "bhc_resource_reserved" "ram_mb" (reserved r_ram_mb) ].

Definition unlines (l : list string) : string := foldr (λ line text, line +:+ String NL text) "" l.

Definition get_metrics (e : Env) (accepting_jobs : bool) : ST Sys Reply :=
  stats ← ydb db_job_stats;
  if negb (stats.1 =? 0) then mret (http_error 500 "Failed to collect metrics") else
  l ← st_gets y_registry;
  mret (match registry_snapshot (en_malloc_ok e) l with
    | None => http_error 500 "Failed to snapshot machines"
    | Some ms =>
        let body := unlines (metrics_lines stats.2 accepting_jobs ms) in
        if (4096 <=? str_len body)%nat then http_error 500 "Metrics output too large" else http_text 200 body
    end).

(** ** Machines *)

Definition probe_text (m : Machine) : string :=
  match m_probe_status m with MACHINE_ONLINE => "online" | MACHINE_PROBING => "probing" | _ => "offline" end.

Definition worker_to_json (m : Machine) : cJSON :=
  JObject [("id", JString (m_id m)); ("hostname", JString (m_hostname m)); ("ip", JString (m_ip m)); ("enabled", JBool (m_enabled m));
           ("status", JString (probe_text m)); ("last_seen_at", JZ (m_last_probe_time m));
           ("cores_total", JZ (r_cores (m_total m))); ("cores_reserved", JZ (r_cores (m_reserved m)));
           ("gpu_total", JZ (r_gpu (m_total m))); ("gpu_reserved", JZ (r_gpu (m_reserved m)));
           ("ram_mb_total", JZ (r_ram_mb (m_total m))); ("ram_mb_reserved", JZ (r_ram_mb (m_reserved m)));
           ("disk_mb_total", JZ (r_disk_mb (m_total m))); ("disk_mb_reserved", JZ (r_disk_mb (m_reserved m)))].

(** An array with an item per machine of the snapshot. *)
Definition machine_listing (e : Env) (to_json : Machine → cJSON) : ST Sys Reply :=
  l ← st_gets y_registry;
  mret (match registry_snapshot (en_malloc_ok e) l with
        | None => http_error 500 "Failed to snapshot machines"
        | Some ms => http_json_reply 200 (JArray (to_json <$> ms))
        end).

Definition list_workers (e : Env) : ST Sys Reply := machine_listing e worker_to_json.

(** ** Applications *)

(** [cJSON_DeleteItemFromObjectCaseSensitive]: the first member of the name. *)
Fixpoint remove_member (key : string) (ms : list (string * cJSON)) : list (string * cJSON) :=
  match ms with
  | [] => []
  | m :: ms => if String.eqb m.1 key then ms else m :: remove_member key ms
  end.

Definition app_for_client (app : cJSON) : cJSON :=
  match app with JObject ms => JObject (remove_member "env" ms) | _ => app end.

(** [load_app_definition] with the directory of the configuration. *)
Definition load_app (c : Call) (cfg : Config) (fs : gmap string string) (app_id : string) : res cJSON :=
  load_app_definition (en_parse (ca_env c)) fs (apps_dir_path cfg (ca_exe c) 512) (ca_alloc_ok c) app_id.

(** [strrchr(name, '.')]: from the last dot on. *)
Fixpoint from_last_dot (s : string) : option string :=
  match s with
  | EmptyString => None
  | String c t => match from_last_dot t with Some u => Some u | None => if Ascii.eqb c "." then Some s else None end
  end.

Definition listed_app (c : Call) (cfg : Config) (fs : gmap string string) (name : string) : option cJSON :=
  let n := str_len name in
  if negb (bool_decide (from_last_dot name = Some ".json")) then None else
  if (n <=? 5)%nat || (64 <? n - 5)%nat then None else
  match load_app c cfg fs (str_take (n - 5) name) with inr app => Some (app_for_client app) | inl _ => None end.

Definition list_apps (c : Call) (cfg : Config) : ST Sys Reply :=
  fs ← st_gets y_files;
  if negb (ca_alloc_ok c) then mret (http_error 500 "Out of memory") else
  let arr := JArray (omap (listed_app c cfg fs) (default [] (fs_readdir fs (apps_dir_path cfg (ca_exe c) 512)))) in
  mret (if present (ca_print c arr) then http_json_reply 200 arr else http_error 500 "Out of memory").

Definition get_app (c : Call) (cfg : Config) (app_id : string) : ST Sys Reply :=
  fs ← st_gets y_files;
  if negb (safe_cli_name app_id) then mret (http_error 400 "Invalid app_id") else
  match load_app c cfg fs app_id with
  | inl error => mret (http_error 404 (if str_nonempty error then error else "App not found"))
  | inr app =>
      let public_app := app_for_client app in
      mret (if present (ca_print c public_app) then http_json_reply 200 public_app else http_error 500 "Out of memory")
  end.
