(* ===== verification/ViewsProps.v ===== *)
(** What the listings show: a user only its own jobs. *)
From S2P Require Import Prelude Job Json Events Httpd Registry Sql Db DbAdmin DbInv Allocator JobOps Transfer Config System SysFixture Batches SubmitProps Sha256 Http Apps Views.

(** ** Own jobs *)

(** [j] is read from a row of the table. *)
Definition stored (t : Tables) (j : Job) : Prop := ∃ row, row ∈ t_jobs t ∧ j = row_to_job row.
Definition own_stored (t : Tables) (user : string) (j : Job) : Prop := stored t j ∧ j_user_id j = user.

Lemma rows_from {R} (f : Z → Tables → list R) d r d' n x :
  query f d = (r, d') → x ∈ rows_of n r → x ∈ f (clock d) (tables d).
Proof.
  intros (_ & _ & H)%query_spec Hx. destruct r as [[rows ended]|]; [|by apply not_elem_of_nil in Hx]. cbn in Hx.
  assert (x ∈ rows) as Hin by (eapply elem_of_sublist; [exact Hx|apply sublist_take]).
  destruct ended; [by subst|]. destruct H as [k ->]. eapply elem_of_sublist; [exact Hin|apply sublist_take].
Qed.

Lemma limit_elem {A} n (l : list A) x : x ∈ limit n l → x ∈ l.
Proof. unfold limit. destruct (n <? 0); [done|]. intros H. eapply elem_of_sublist; [exact H|apply sublist_take]. Qed.
Lemma offset_elem {A} n (l : list A) x : x ∈ offset n l → x ∈ l.
Proof. unfold offset. intros H. eapply elem_of_sublist; [exact H|apply sublist_drop]. Qed.

Lemma query_jobs_own user status app lim off d n jobs d' :
  user ≠ "" → (str_len user < JOB_USER_LEN)%nat → db_query_jobs user status app lim off d = ((n, jobs), d') →
  Forall (own_stored (tables d) user) jobs.
Proof.
  intros Hne Hlen. unfold db_query_jobs. destruct (_ || _); [by intros [= _ <- _]|]. rewrite bind_step.
  destruct (query _ d) as [r d1] eqn:Eq. cbn [fst snd]. destruct r as [[rows ended]|]; [|by intros [= _ <- _]].
  cbv zeta. destruct (_ && _); [by intros [= _ <- _]|]. intros E.
  assert (jobs = map row_to_job (rows_of lim (Some (rows, ended)))) as -> by (unfold mret, st_ret in E; congruence). rewrite Forall_forall. intros j Hj.
  apply list_elem_of_fmap in Hj as (row & -> & Hrow). apply (rows_from _ _ _ _ _ _ Eq) in Hrow.
  apply limit_elem, offset_elem, order_by_elem, where_elem in Hrow as [Hp Hrow].
  apply andb_prop in Hp as [[Hu _]%andb_prop _]. apply orb_prop in Hu as [Hu|Hu]; bool_prop; [done|].
  split; [by exists row|]. change (cbuf JOB_USER_LEN (j_user_id row) = user). rewrite Hu. by apply cbuf_id.
Qed.

Lemma queue_items_own user limit jobs visible :
  ∃ shown, queue_items false user limit jobs visible = imap (λ i j, queue_item (visible + 1 + Z.of_nat i) j) shown ∧
    shown `sublist_of` jobs ∧ Forall (λ j, j_user_id j = user) shown.
Proof.
  revert visible. induction jobs as [|j jobs IH]; intros visible; cbn [queue_items]; [by exists []|].
  destruct (visible <? limit); cbn [negb]; [|exists []; split_and!; [done|apply sublist_nil_l|done]].
  destruct (String.eqb (j_user_id j) user) eqn:E; cbn [negb andb].
  - destruct (IH (visible + 1)) as (l & -> & Hsub & Hall). exists (j :: l). bool_prop. split_and!; [|by constructor|by constructor].
    cbn [imap]. f_equal; [by rewrite Z.add_0_r|]. apply imap_ext. intros i x _. cbn. f_equal. lia.
  - destruct (IH visible) as (l & -> & Hsub & Hall). exists l. split_and!; [done|by constructor|done].
Qed.

(** C26. A user's listings show its own jobs only.  For a caller that is not an
    administrator and has a user, whatever statements of the database fail,
    every job that GET /jobs shows and every job of the snapshot that opens an
    event stream is read from a row of that user, and GET /queue shows, in
    consecutive positions from 1, queued jobs of that user. *)
Theorem listings_show_own_jobs_only (c : Call) (rq : Request) (user role : string) (w : Web)
    (Hrole : role ≠ "admin") (Huser : user ≠ "") (Hlen : (str_len user < JOB_USER_LEN)%nat) :
  let t := tables (y_db (w_sys w)) in
  (∀ tree s', list_jobs rq c user role (w_sys w) = (http_json_reply 200 tree, s') →
     ∃ jobs, tree = JArray (job_to_json <$> jobs) ∧ Forall (own_stored t user) jobs) ∧
  (∀ tree s', list_queue rq c user role (w_sys w) = (http_json_reply 200 tree, s') →
     ∃ jobs, tree = JArray (imap (λ i j, queue_item (Z.of_nat i + 1) j) jobs) ∧
       Forall (λ j, own_stored t user j ∧ j_status j = JOB_STATUS_QUEUED) jobs) ∧
  (∃ jobs, (sse_subscribe rq c user role w).1 = http_sse (JArray (job_to_json <$> jobs)) ∧ Forall (own_stored t user) jobs).
Proof.
  intros t. assert (is_admin role = false) as Hadm by by apply String.eqb_neq. split_and!.
  - intros tree s'. unfold list_jobs. rewrite Hadm. destruct (parse_query_int rq "limit" 100 1 500), (parse_query_int rq "offset" 0 0 100000000); try done.
    cbv zeta. destruct (_ =? -2); [done|]. destruct (_ && negb _); [done|]. destruct (_ && negb _); [done|]. rewrite bind_step.
    destruct (ydb _ _) as [[n jobs] s1] eqn:E. apply ydb_db, (query_jobs_own _ _ _ _ _ _ _ _ _ Huser Hlen) in E.
    cbn [fst snd]. destruct (n <? 0); [done|]. destruct (negb _); [done|]. intros [= <- _]. by exists jobs.
  - intros tree s'. unfold list_queue. cbv zeta. destruct (negb (ca_alloc_ok c)); [done|]. rewrite bind_step, Hadm.
    destruct (ydb _ _) as [jobs s1] eqn:E. apply ydb_db in E. cbn [fst snd].
    set (limit := match rq_query rq "limit" 32 with Some _ => _ | None => _ end).
    destruct (queue_items_own user limit jobs 0) as (shown & -> & Hsub & Hall).
    destruct (present _); [|done]. intros [= <- _]. exists shown. split.
    { f_equal. apply imap_ext. intros i x _. cbn. f_equal. lia. }
    unfold db_list_queued_jobs in E. rewrite bind_step in E. destruct (query _ _) as [r d1] eqn:Eq. apply (f_equal fst) in E. cbn [fst mret st_ret] in E. subst jobs.
    rewrite Forall_forall in *. intros j Hj. specialize (Hall j Hj). eapply elem_of_sublist in Hj; [|exact Hsub].
    apply list_elem_of_fmap in Hj as (row & -> & Hrow). apply (rows_from _ _ _ _ _ _ Eq) in Hrow.
    apply limit_elem, offset_elem, order_by_elem, where_elem in Hrow as [Hst Hrow]. split; [split; [by exists row|done]|].
    apply bool_decide_eq_true, list_elem_of_singleton in Hst. exact Hst.
  - unfold sse_subscribe. destruct (ca_alloc_ok c); [|by exists []].
    unfold wsys. destruct (ydb _ _) as [jobs s1] eqn:E. apply ydb_db in E. cbn [fst snd].
    exists (where_ (snapshot_shows user role) jobs). split; [done|]. rewrite Forall_forall. intros j [Hshow Hj]%where_elem.
    unfold snapshot_shows in Hshow. rewrite Hadm in Hshow. apply String.eqb_eq in Hshow.
    unfold db_list_jobs in E. rewrite bind_step in E. destruct (query _ _) as [r d1] eqn:Eq. apply (f_equal fst) in E. cbn [fst mret st_ret] in E. subst jobs.
    apply list_elem_of_fmap in Hj as (row & -> & Hrow). apply (rows_from _ _ _ _ _ _ Eq) in Hrow.
    apply limit_elem, order_by_elem in Hrow. split; [exists row; by destruct w|done].
Qed.

Definition queued_row (id user : string) : Job := with_status JOB_STATUS_QUEUED (mkJob id "run" user "" JOB_STATUS_QUEUED 50 1 0 0 0 "" "" "" "" 7 0 0 0 0 "" "" "" "" "").

Lemma listings_show_own_jobs_only_witness :
  let w := mkWeb (small_system [queued_row "j1" "ann"; queued_row "j2" "bob"; queued_row "j3" "ann"] [] []) config_defaults true [] [] in
  let c := mkCall easy_env (λ _, None) true (λ _, Some "...") (mkCtx [] 0 0 []) None (λ _, d_of_Z 2) (λ _ _, "") (λ _ _, true) in
  let rq := mkRequest "GET" "/queue" "" (λ _, None) (λ _ _, None) (λ s _, Some s) 7 1 in
  (list_queue rq c "ann" "user" (w_sys w)).1
    = http_json_reply 200 (JArray [queue_item 1 (queued_row "j1" "ann"); queue_item 2 (queued_row "j3" "ann")]) ∧
  ∃ jobs, (sse_subscribe rq c "ann" "user" w).1 = http_sse (JArray (job_to_json <$> jobs)) ∧
    Forall (own_stored (tables (y_db (w_sys w))) "ann") jobs.
Proof.
  intros w c rq. split; [vm_compute; reflexivity|].
  refine (proj2 (proj2 (listings_show_own_jobs_only c rq "ann" "user" w _ _ _))); [discriminate|discriminate|].
  apply Nat.ltb_lt. reflexivity.
Defined.
