(* ===== verification/Admin.v ===== *)
(** The administration handlers of src/http/routes.c: maintenance, machines,
    application definitions, events and reports, cloud machines, Wake-on-LAN
    and the presimulation settings. *)
From S2P Require Import Prelude Job Json Registry Sql Db DbAdmin Reports Allocator JobOps Cloud Config System Store Probe Http Apps Submit Views.

(** ** Maintenance *)

(** The state of the scheduler's intake. *)
Definition maintenance_reply (c : Call) (accepting_jobs : bool) (js : JobStats) : Reply :=
  let response := JObject [("accepting_jobs", JBool accepting_jobs); ("active_jobs", JZ (js_running js));
                           ("queued_jobs", JZ (js_queued js + js_created js))] in
  if negb (ca_alloc_ok c) || negb (present (ca_print c response)) then http_error 500 "Out of memory" else http_json_reply 200 response.

Definition admin_maintenance (e : Env) (c : Call) (rq : Request) (update : bool) : ST Web Reply :=
  let requested := match en_parse e (rq_body rq) with Some r => cJSON_GetObjectItemCaseSensitive r "accepting_jobs" | None => None end in
  if update && negb (cJSON_IsBool requested) then mret (http_error 400 "'accepting_jobs' boolean is required") else
  (if update then
     let accepting := cJSON_IsTrue requested in
     st_modify (set_w_accepting_jobs accepting) ;;
     wsys (sys_events_push_persistent e "system" (if accepting then "drain_disabled" else "drain_enabled")
             (if accepting then "Job submissions enabled" else "Job submissions paused") "")
   else mret tt) ;;
  stats ← wsys (ydb db_job_stats);
  accepting ← st_gets w_accepting_jobs;
  mret (maintenance_reply c accepting (stats.2)).

(** ** Machines *)

Definition sys_registry {A} (m : ST Registry A) : ST Sys A := on_cloud (on_registry m).

(** The fields of the request; [None] when one is invalid. *)
Definition request_machine (req : cJSON) : option Machine :=
  id ← copy_optional_string req "id" 64;
  hostname ← copy_optional_string req "hostname" 256;
  ip ← copy_optional_string req "ip" 46;
  cores ← json_optional_int req "cores" 1 10000;
  gpu ← json_optional_int req "gpu_count" 0 1000;
  ram ← json_optional_int req "ram_mb" 0 10000000;
  disk ← json_optional_int req "disk_mb" 0 10000000;
  enabled ← match cJSON_GetObjectItemCaseSensitive req "enabled" with
            | None => Some true
            | Some j => if cJSON_IsBool (Some j) then Some (cJSON_IsTrue (Some j)) else None
            end;
  Some (mkMachine (or_empty id) (or_empty hostname) (or_empty ip) enabled
          (mkRes (or_zero cores) (or_zero gpu) (or_zero ram) (or_zero disk)) res0
          MACHINE_PROBING 0 0 MACHINE_TYPE_STATIC "" "" 0 0 0 "").

Definition safe_host (s : string) : bool := chars_in "._-:" s.

Definition add_machine (e : Env) (rq : Request) : ST Sys Reply :=
  match en_parse e (cbuf 1024 (rq_body rq)) with
  | None => mret (http_error 400 "Invalid JSON")
  | Some req =>
      match request_machine req with
      | None => mret (http_error 400 "Invalid machine parameters")
      | Some m =>
          if negb (str_nonempty (m_id m)) || (r_cores (m_total m) <? 1) then mret (http_error 400 "Invalid machine parameters") else
          if negb (safe_host (m_id m) && safe_host (m_hostname m) && safe_host (m_ip m))
          then mret (http_error 400 "Invalid characters in machine field") else
          rc ← sys_registry (registry_upsert m);
          mret (if rc =? 0 then http_json_reply 201 (JObject [("ok", JBool true)])
                else http_error 409 "Machine registry is full or machine is invalid")
      end
  end.

Definition remove_machine (machine_id : string) : ST Sys Reply :=
  result ← sys_registry (registry_remove machine_id);
  mret (if result =? -2 then http_error 409 "Machine still has reserved resources"
        else if result =? 0 then reply_ok else http_error 404 "Machine not found").

Definition machine_status_to_json (m : Machine) : cJSON :=
  JObject [("id", JString (m_id m)); ("hostname", JString (m_hostname m)); ("ip", JString (m_ip m)); ("enabled", JBool (m_enabled m));
           ("status", JString (probe_text m)); ("last_probe_time", JZ (m_last_probe_time m));
           ("probe_fail_count", JZ (m_probe_fail_count m));
           ("type", JString (match m_type m with MACHINE_TYPE_CLOUD => "cloud" | _ => "static" end));
           ("cloud_provider", JString (m_cloud_provider m)); ("cloud_instance_id", JString (m_cloud_instance_id m));
           ("mac_address", JString (m_mac_address m)); ("cores_total", JZ (r_cores (m_total m)));
           ("cores_reserved", JZ (r_cores (m_reserved m))); ("ram_mb_total", JZ (r_ram_mb (m_total m)));
           ("ram_mb_reserved", JZ (r_ram_mb (m_reserved m)))].

Definition admin_machines_status (e : Env) : ST Sys Reply := machine_listing e machine_status_to_json.

(** ** Application definitions *)

Definition delete_file (path : string) : ST Sys unit := st_modify (λ s, set_y_files (delete path (y_files s)) s).

(** [rename(from, to)] *)
Definition rename_file (from to_ : string) : ST Sys unit :=
  st_modify (λ s, match y_files s !! from with
                  | Some data => set_y_files (<[to_ := data]> (delete from (y_files s))) s
                  | None => s
                  end).

(** The definition is written beside the file and renamed over it.
    [written]: whether the whole text was written and flushed; [renamed]:
    whether rename succeeds. *)
Definition upsert_app (e : Env) (c : Call) (written renamed : bool) (rq : Request) : ST Sys Reply :=
  let len := Z.of_nat (str_len (rq_body rq)) in
  if (len =? 0) || (65536 <? len) then mret (http_error 413 "App definition must not exceed 64 KiB") else
  match en_parse e (rq_body rq) with
  | None => mret (http_error 400 "Invalid JSON")
  | Some req =>
      match validate_app_definition req with
      | inl msg => mret (http_error 400 msg)
      | inr _ =>
          let app_id := valuestring (cJSON_GetObjectItemCaseSensitive req "app_id") in
          let fpath := app_path (apps_dir_path (en_cfg e) (ca_exe c) 512) app_id in
          match ca_print c req with
          | None => mret (http_error 500 "JSON format error")
          | Some pretty =>
              if 65536 <? Z.of_nat (str_len pretty) then mret (http_error 413 "Formatted app definition exceeds 64 KiB") else
              let temp_path := cbuf 800 (fpath +:+ ".tmp") in
              if negb (en_can_write e temp_path) then mret (http_error 500 "Cannot write app file") else
              write_file e temp_path pretty ;;
              if negb written then delete_file temp_path ;; mret (http_error 500 "Cannot write app file") else
              if negb renamed then delete_file temp_path ;; mret (http_error 500 "Cannot replace app file") else
              rename_file temp_path fpath ;;
              mret reply_ok
          end
      end
  end.

Definition delete_app (e : Env) (c : Call) (app_id : string) : ST Sys Reply :=
  if negb (safe_cli_name app_id) then mret (http_error 400 "Invalid app_id") else
  let fpath := app_path (apps_dir_path (en_cfg e) (ca_exe c) 512) app_id in
  exists_ ← file_exists fpath;
  if negb exists_ then mret (http_error 404 "App not found") else
  delete_file fpath ;; mret reply_ok.

(** ** Events and reports *)

(** The query parameters [from] and [to]. *)
Definition query_time (rq : Request) (name : string) : Z :=
  match rq_query rq name 64 with Some tmp => atoll tmp | None => 0 end.

Definition event_to_json (ev : EventRecord) : cJSON :=
  JObject [("id", JZ (e_id ev)); ("category", JString (e_category ev)); ("event_type", JString (e_event_type ev));
           ("detail", JString (e_detail ev)); ("user_id", JString (e_user_id ev)); ("job_id", JString (e_job_id ev));
           ("machine_id", JString (e_machine_id ev)); ("created_at", JZ (e_created_at ev))].

Definition admin_list_events (c : Call) (rq : Request) : ST Sys Reply :=
  let category := default "" (rq_query rq "category" 64) in
  let limit := match rq_query rq "limit" 64 with
               | Some tmp => if (0 <? atoi tmp) && (atoi tmp <=? 1000) then atoi tmp else 200
               | None => 200
               end in
  if negb (ca_alloc_ok c) then mret (http_error 500 "Out of memory") else
  evts ← ydb (db_list_events limit category (query_time rq "from") (query_time rq "to"));
  mret (http_json_reply 200 (JArray (event_to_json <$> evts))).

(** An array of report rows. *)
Definition report_reply {A} (to_json : A → cJSON) (m : ST Db (list A)) : ST Sys Reply :=
  rows ← ydb m; mret (http_json_reply 200 (JArray (to_json <$> rows))).

Definition bucket_to_json (b : JobTimeBucket) : cJSON :=
  JObject [("period", JString (tb_period b)); ("total", JZ (tb_total b)); ("finished", JZ (tb_finished b));
           ("failed", JZ (tb_failed b)); ("avg_duration_s", JNumber (tb_avg_duration_s b))].

Definition admin_report_jobs (c : Call) (rq : Request) : ST Sys Reply :=
  let gran := match rq_query rq "granularity" 64 with
              | Some tmp => if str_in tmp ["hour"; "day"; "month"] then tmp else "day"
              | None => "day"
              end in
  report_reply bucket_to_json (db_report_jobs_over_time (ca_strftime c) 365 gran (query_time rq "from") (query_time rq "to")).

Definition user_report_to_json (r : UserReport) : cJSON :=
  JObject [("user_id", JString (ur_user_id r)); ("total_jobs", JZ (ur_total_jobs r)); ("finished", JZ (ur_finished r));
           ("failed", JZ (ur_failed r)); ("avg_duration_s", JNumber (ur_avg_duration_s r));
           ("total_cores_used", JZ (ur_total_cores_used r)); ("total_ram_mb_used", JZ (ur_total_ram_mb_used r))].
Definition admin_report_users (rq : Request) : ST Sys Reply :=
  report_reply user_report_to_json (db_report_per_user 100 (query_time rq "from") (query_time rq "to")).

Definition app_report_to_json (r : AppReport) : cJSON :=
  JObject [("app_id", JString (pr_app_id r)); ("total_jobs", JZ (pr_total_jobs r)); ("finished", JZ (pr_finished r));
           ("failed", JZ (pr_failed r)); ("avg_duration_s", JNumber (pr_avg_duration_s r))].
Definition admin_report_apps (rq : Request) : ST Sys Reply :=
  report_reply app_report_to_json (db_report_per_app 100 (query_time rq "from") (query_time rq "to")).

Definition machine_report_to_json (r : MachineReport) : cJSON :=
  JObject [("machine_id", JString (mr_machine_id r)); ("total_allocations", JZ (mr_total_allocations r));
           ("total_cores_reserved", JZ (mr_total_cores_reserved r)); ("total_ram_mb_reserved", JZ (mr_total_ram_mb_reserved r));
           ("avg_utilization_pct", JNumber (mr_avg_utilization_pct r))].
Definition admin_report_machines (rq : Request) : ST Sys Reply :=
  report_reply machine_report_to_json (db_report_per_machine 100 (query_time rq "from") (query_time rq "to")).

(** ** Cloud machines *)

Definition known_provider (provider : string) : bool := str_in provider ["aws"; "gcp"; "azure"].

(** The fields of a provisioning request; the tags are checked and not
    used. *)
Definition request_spec (body : cJSON) : option CloudMachineSpec :=
  provider ← copy_optional_string body "provider" 32;
  instance_type ← copy_optional_string body "instance_type" 64;
  region ← copy_optional_string body "region" 64;
  image_id ← copy_optional_string body "image_id" 128;
  tags ← copy_optional_string body "tags" 512;
  cores ← json_optional_int body "cores" 0 10000;
  gpu ← json_optional_int body "gpu_count" 0 1000;
  ram ← json_optional_int body "ram_mb" 0 10000000;
  disk ← json_optional_int body "disk_mb" 0 10000000;
  cores_min ← json_optional_int body "cores_min" 0 10000;
  ram_mb_min ← json_optional_int body "ram_mb_min" 0 10000000;
  disk_mb_min ← json_optional_int body "disk_mb_min" 0 10000000;
  Some (mkSpec (or_empty provider) (or_empty instance_type) (or_empty region) (or_empty image_id)
          (mkRes (or_zero cores) (or_zero gpu) (or_zero ram) (or_zero disk)) (or_zero cores_min) (or_zero ram_mb_min) (or_zero disk_mb_min)).

Definition optional_cloud_arg (s : string) : bool := negb (str_nonempty s) || safe_cloud_arg s.

Definition spec_acceptable (spec : CloudMachineSpec) : bool :=
  known_provider (sp_provider spec) && optional_cloud_arg (sp_instance_type spec) && optional_cloud_arg (sp_region spec)
  && optional_cloud_arg (sp_image_id spec) && negb (String.eqb (sp_provider spec) "aws" && negb (str_nonempty (sp_image_id spec))).

(** The minimums against the totals that the provider's record will have. *)
Definition minimums_fit (spec : CloudMachineSpec) : bool :=
  let r := sp_res spec in
  (sp_cores_min spec <=? (if 0 <? r_cores r then r_cores r else 2))
  && (sp_ram_mb_min spec <=? (if 0 <? r_ram_mb r then r_ram_mb r else 4096))
  && (sp_disk_mb_min spec <=? (if 0 <? r_disk_mb r then r_disk_mb r else 50000)).

Definition admin_cloud_provision (e : Env) (rq : Request) : ST Sys Reply :=
  match en_parse e (rq_body rq) with
  | None => mret (http_error 400 "Invalid JSON")
  | Some body =>
      match request_spec body with
      | None => mret (http_error 400 "Invalid cloud provisioning parameters")
      | Some spec =>
          if negb (spec_acceptable spec) then mret (http_error 400 "Invalid cloud provisioning parameters") else
          if negb (minimums_fit spec) then mret (http_error 400 "Cloud resource minimums cannot exceed totals") else
          r ← sys_cloud_provision e spec 128;
          if negb (r.1 =? 0) then mret (http_error 500 "Cloud provisioning failed") else
          sys_events_push_persistent e "cloud" "provision" r.2 "" ;;
          mret (http_json_reply 201 (JObject [("machine_id", JString r.2); ("provider", JString (sp_provider spec));
                                              ("status", JString "provisioning")]))
      end
  end.

Definition has_reservations (m : Machine) : bool :=
  (0 <? r_cores (m_reserved m)) || (0 <? r_gpu (m_reserved m)) || (0 <? r_ram_mb (m_reserved m)) || (0 <? r_disk_mb (m_reserved m)).

(** Why a registered machine may not be terminated. *)
Definition deprovision_refusal (provider : string) (registered : option Machine) : option Reply :=
  match registered with
  | None => None
  | Some m =>
      if negb (String.eqb (m_cloud_provider m) provider) then Some (http_error 409 "Cloud provider does not match registered machine")
      else if has_reservations m then Some (http_error 409 "Cloud machine still has reserved resources") else None
  end.

Definition admin_cloud_deprovision (e : Env) (rq : Request) : ST Sys Reply :=
  match en_parse e (rq_body rq) with
  | None => mret (http_error 400 "Invalid JSON")
  | Some body =>
      let provider := copy_optional_string body "provider" 32 in
      let instance_id := copy_optional_string body "instance_id" 128 in
      let provider_text := or_empty (default None provider) in
      let id := or_empty (default None instance_id) in
      if negb (present provider) || negb (present instance_id) || negb (known_provider provider_text) || negb (safe_cloud_arg id)
      then mret (http_error 400 "Invalid provider or instance_id") else
      l ← st_gets y_registry;
      match deprovision_refusal provider_text (registry_get_copy (cbuf 160 ("cloud-" +:+ id)) l) with
      | Some reply => mret reply
      | None =>
          rc ← sys_cloud_deprovision e provider_text id;
          if negb (rc =? 0) then mret (http_error 500 "Cloud deprovision failed") else
          sys_events_push_persistent e "cloud" "deprovision" id "" ;;
          mret reply_ok
      end
  end.

(** ** Wake-on-LAN *)

Definition admin_wol (e : Env) (c : Call) (rq : Request) : ST Sys Reply :=
  match en_parse e (rq_body rq) with
  | None => mret (http_error 400 "Invalid JSON")
  | Some body =>
      let text name size := let j := cJSON_GetObjectItemCaseSensitive body name in
                            if cJSON_IsString j then cbuf size (valuestring j) else "" in
      let machine_id := text "machine_id" 64%nat in
      if negb (str_nonempty machine_id) then mret (http_error 400 "Missing machine_id") else
      l ← st_gets y_registry;
      match registry_get_copy machine_id l with
      | None => mret (http_error 404 "Machine not found")
      | Some m =>
          if negb (str_nonempty (m_mac_address m)) then mret (http_error 400 "Machine has no MAC address configured") else
          if negb (wol_send (ca_sendto c) (m_mac_address m) (Some (text "broadcast_ip" 46%nat)) =? 0)
          then mret (http_error 500 "WoL send failed") else
          sys_events_push_persistent e "machine" "wol" (m_id m) "" ;;
          mret (http_json_reply 200 (JObject [("ok", JBool true); ("message", JString "WoL packet sent")]))
      end
  end.

(** ** Presimulation settings *)

Definition admin_get_presim_config (cfg : Config) : Reply :=
  let num f := JNumber (cfg_dbl cfg f) in
  let str f := JString (cfg_str cfg f) in
  http_json_reply 200 (JObject
    [("presim_threshold_max", num presim_threshold_max); ("presim_refine_multiplier", num presim_refine_multiplier);
     ("presim_high_multiplier", num presim_high_multiplier); ("presim_uncertainty_weight", num presim_uncertainty_weight);
     ("presim_fidelity_map", str presim_fidelity_map); ("presim_domains", str presim_domains)]).

Definition update_dbl (body : cJSON) (name : string) (f : DblField) (c : Config) : Config :=
  let j := cJSON_GetObjectItemCaseSensitive body name in if cJSON_IsNumber j then set_dbl f (valuedouble j) c else c.
Definition update_str (body : cJSON) (name : string) (f : StrField) (c : Config) : Config :=
  let j := cJSON_GetObjectItemCaseSensitive body name in if cJSON_IsString j then set_str f (cbuf (str_size f) (valuestring j)) c else c.

Definition updated_presim (body : cJSON) (c : Config) : Config :=
  let c := update_dbl body "presim_threshold_max" presim_threshold_max c in
  let c := update_dbl body "presim_refine_multiplier" presim_refine_multiplier c in
  let c := update_dbl body "presim_high_multiplier" presim_high_multiplier c in
  let c := update_dbl body "presim_uncertainty_weight" presim_uncertainty_weight c in
  let c := update_str body "presim_fidelity_map" presim_fidelity_map c in
  update_str body "presim_domains" presim_domains c.

Definition admin_update_presim_config (e : Env) (rq : Request) : ST Web Reply := λ w,
  match en_parse e (rq_body rq) with
  | None => (http_error 400 "Invalid JSON", w)
  | Some body => (reply_ok, set_w_cfg (updated_presim body (w_cfg w)) w)
  end.
