(* ===== verification/Router.v ===== *)
(** [routes_handler] of src/http/routes.c: the public routes with the static
    files of the web interface, the check of the API key, and the dispatch of
    the authenticated routes, with the headers of src/http/response.c.  The
    decisions of the dispatch that need no state are the function [dispatch];
    [run_endpoint] calls the handler it names. *)
From S2P Require Import Prelude Job Json Events Httpd Registry Sql Db DbAdmin JobOps Transfer Config System Auth Http Batches Apps Submit Workflow Accounts Views Admin.

(** ** Headers *)

Definition CRLF (s : string) : string := String CR (String NL s).

Definition base_headers (content_type : string) : string :=
  "Content-Type: " +:+ content_type +:+ CRLF ("X-Content-Type-Options: nosniff" +:+ CRLF ("X-Frame-Options: DENY"
  +:+ CRLF ("Referrer-Policy: no-referrer" +:+ CRLF
  ("Content-Security-Policy: default-src 'self'; script-src 'self'; style-src 'self' 'unsafe-inline'; img-src 'self' data:; connect-src 'self'; object-src 'none'; base-uri 'none'; form-action 'self'; frame-ancestors 'none'"
   +:+ CRLF "")))).

Definition hsts_header : string := "Strict-Transport-Security: max-age=31536000; includeSubDomains" +:+ CRLF "".
Definition origin_headers (origin : string) : string := "Access-Control-Allow-Origin: " +:+ origin +:+ CRLF ("Vary: Origin" +:+ CRLF "").

Definition http_build_headers (cfg : Config) (out_len : nat) (content_type : string) : string :=
  let h := base_headers content_type in
  if (out_len <=? str_len h)%nat then cbuf out_len h else
  let h := if cfg_int cfg require_https =? 0 then h else h +:+ hsts_header in
  if (out_len <=? str_len h)%nat then cbuf out_len h else
  let origin := cfg_str cfg cors_allowed_origin in
  if str_nonempty origin && negb (str_has CR origin) && negb (str_has NL origin) then cbuf out_len (h +:+ origin_headers origin) else h.

Definition preflight_headers (cfg : Config) : string :=
  cbuf 1792 (http_build_headers cfg 1792 "text/plain; charset=utf-8"
    +:+ "Access-Control-Allow-Methods: GET, POST, PUT, DELETE, OPTIONS" +:+ CRLF
       ("Access-Control-Allow-Headers: Content-Type, X-API-Key, Idempotency-Key" +:+ CRLF
       ("Access-Control-Max-Age: 86400" +:+ CRLF ""))).

(** ** Static files *)

Definition mime_for_ext (path : string) : string :=
  match from_last_dot path with
  | None => "application/octet-stream"
  | Some dot =>
      if String.eqb dot ".html" then "text/html; charset=utf-8"
      else if String.eqb dot ".css" then "text/css; charset=utf-8"
      else if String.eqb dot ".js" then "application/javascript; charset=utf-8"
      else if String.eqb dot ".json" then "application/json; charset=utf-8"
      else if String.eqb dot ".png" then "image/png"
      else if String.eqb dot ".svg" then "image/svg+xml"
      else if String.eqb dot ".ico" then "image/x-icon"
      else "application/octet-stream"
  end.

Definition traversal (file_path : string) : bool :=
  has_substring ".." file_path || str_has "\" file_path || str_prefix "/" file_path
  || has_substring "%2e" file_path || has_substring "%2E" file_path || has_substring "%00" file_path.

Definition web_path (c : Call) (file_path : string) : string := exe_relative_path (ca_exe c) (cbuf 511 ("web/" +:+ file_path)) 512.

Definition serve_web_file (c : Call) (file_path : string) : ST Sys Reply :=
  if traversal file_path then mret (http_error 403 "Forbidden") else
  let path := web_path c file_path in
  fs ← st_gets y_files;
  mret (match fs !! path with
        | None => http_error 404 "Not found"
        | Some data =>
            if 16 * 1024 * 1024 <? Z.of_nat (str_len data) then http_error 413 "Static file too large"
            else if negb (ca_alloc_ok c) then http_error 500 "Out of memory"
            else http_file (mime_for_ext file_path) path
        end).

Definition serve_web_ui (c : Call) : ST Sys Reply := serve_web_file c "index.html".

(** The loop that appends the segments up to an empty one. *)
Fixpoint append_segments (rel : string) (segs : list string) : string :=
  match segs with
  | [] => rel
  | s :: segs => if str_nonempty s then append_segments (cbuf 256 (cbuf 256 (rel +:+ "/") +:+ s)) segs else rel
  end.
Definition web_relative (seg : nat → string) : string := append_segments (cbuf 256 (seg 1%nat)) [seg 2%nat; seg 3%nat; seg 4%nat].

(** ** The authenticated routes *)

Inductive JobAction :=
  | JGet | JCancel | JRetry | JRelease | JUpload (filename : string) | JDownload (filename : string)
  | JFiles | JArtifacts | JDeps | JLog (use_stderr : bool).

(** [seg\[2\]] and [seg\[3\]] of a path below a job. *)
Definition job_action (method s2 s3 : string) : option JobAction :=
  let at_ m seg := String.eqb method m && String.eqb s2 seg in
  let bare := negb (str_nonempty s3) in
  if at_ "GET" "" then Some JGet
  else if at_ "DELETE" "" then Some JCancel
  else if at_ "POST" "cancel" && bare then Some JCancel
  else if at_ "POST" "retry" && bare then Some JRetry
  else if at_ "POST" "release" && bare then Some JRelease
  else if at_ "POST" "input" && str_nonempty s3 then Some (JUpload s3)
  else if at_ "GET" "output" && str_nonempty s3 then Some (JDownload s3)
  else if at_ "GET" "files" && bare then Some JFiles
  else if at_ "GET" "artifacts" && bare then Some JArtifacts
  else if at_ "GET" "deps" && bare then Some JDeps
  else if at_ "GET" "log" then Some (JLog (String.eqb s3 "stderr"))
  else if at_ "GET" "logs" then Some (JLog (String.eqb s3 "stderr"))
  else None.

Inductive Endpoint :=
  | Refused (code : Z) (msg : string)
  | AuthMe | AuthChangePassword
  | GetPresim | UpdatePresim | Maintenance (update : bool) | Metrics
  | SubmitJob | ListJobs | PurgeJobs | SubscribeEvents | OnJob (job_id : string) (action : option JobAction)
  | ListQueue | SubmitBatch | GetBatch (batch_id : string) | ListApps | GetApp (app_id : string)
  | ListWorkflows | SaveWorkflow | RunWorkflow | DeleteWorkflow (wf_id : string) | FavoriteWorkflow (wf_id : string)
  | ListWorkers | AddMachine | RemoveMachine (machine_id : string) | Stats
  | ListQuotas | UpsertQuota | DeleteQuota | ListKeys | CreateKey | RevokeKey
  | UpsertApp | DeleteApp (app_id : string) | ListUsers | CreateUsers | UpdateUser | DeleteUser
  | ListEvents | ReportJobs | ReportUsers | ReportApps | ReportMachines | MachinesStatus
  | CloudProvision | CloudDeprovision | WakeOnLan.

Definition NotFound : Endpoint := Refused 404 "Not found".
Definition Forbidden : Endpoint := Refused 403 "Forbidden: admin role required".
Definition Disabled : Endpoint := Refused 404 "Experimental feature disabled".

Section dispatch.
(** The method, the segments of the path, the role of the key, and
    [g_config.experimental_features_enabled]. *)
Context (method : string) (seg : nat → string) (admin experimental : bool).

Definition meth (m : string) : bool := String.eqb method m.
Definition seg_is (i : nat) (s : string) : bool := String.eqb (seg i) s.
Definition seg_empty (i : nat) : bool := negb (str_nonempty (seg i)).

(** Paths below /admin, for an administrator. *)
Definition dispatch_admin : Endpoint :=
  if seg_is 1 "presim-config" then
    if negb experimental then Disabled else if meth "GET" then GetPresim else if meth "POST" then UpdatePresim else NotFound
  else if seg_is 1 "maintenance" then
    if meth "GET" then Maintenance false else if meth "POST" then Maintenance true else NotFound
  else if seg_is 1 "quotas" && seg_empty 2 then
    if meth "GET" then ListQuotas else if meth "POST" || meth "PUT" then UpsertQuota else if meth "DELETE" then DeleteQuota else NotFound
  else if seg_is 1 "keys" && seg_empty 2 then
    if meth "GET" then ListKeys else if meth "POST" then CreateKey else if meth "DELETE" then RevokeKey else NotFound
  else if seg_is 1 "apps" then
    if (meth "POST" || meth "PUT") && seg_empty 2 then UpsertApp
    else if meth "DELETE" && negb (seg_empty 2) then DeleteApp (seg 2) else NotFound
  else if seg_is 1 "users" && seg_empty 2 then
    if meth "GET" then ListUsers else if meth "POST" then CreateUsers
    else if meth "PUT" then UpdateUser else if meth "DELETE" then DeleteUser else NotFound
  else if seg_is 1 "events" && meth "GET" then ListEvents
  else if seg_is 1 "reports" && meth "GET" then
    if seg_is 2 "jobs" then ReportJobs else if seg_is 2 "users" then ReportUsers
    else if seg_is 2 "apps" then ReportApps else if seg_is 2 "machines" then ReportMachines else NotFound
  else if seg_is 1 "machines" && seg_is 2 "status" && meth "GET" then MachinesStatus
  else if seg_is 1 "cloud" then
    if negb experimental then Disabled
    else if meth "POST" && seg_is 2 "provision" then CloudProvision
    else if meth "POST" && seg_is 2 "deprovision" then CloudDeprovision else NotFound
  else if seg_is 1 "wol" then
    if negb experimental then Disabled else if meth "POST" then WakeOnLan else NotFound
  else NotFound.

Definition dispatch_jobs : Endpoint :=
  if seg_empty 1 && meth "POST" then SubmitJob
  else if seg_empty 1 && meth "GET" then ListJobs
  else if seg_empty 1 && meth "DELETE" then if admin then PurgeJobs else Forbidden
  else if meth "GET" && seg_is 1 "events" then SubscribeEvents
  else if seg_empty 1 then NotFound
  else if negb (safe_cli_name (seg 1)) then Refused 404 "Job not found"
  else OnJob (seg 1) (job_action method (seg 2) (seg 3)).

Definition dispatch_workflows : Endpoint :=
  if negb experimental then Disabled
  else if meth "GET" && seg_empty 1 then ListWorkflows
  else if meth "POST" && seg_empty 1 then SaveWorkflow
  else if meth "POST" && seg_is 1 "run" && seg_empty 2 then RunWorkflow
  else if meth "DELETE" && negb (seg_empty 1) && seg_empty 2 then DeleteWorkflow (seg 1)
  else if meth "POST" && negb (seg_empty 1) && seg_is 2 "favorite" && seg_empty 3 then FavoriteWorkflow (seg 1)
  else NotFound.

Definition dispatch_workers : Endpoint :=
  if meth "GET" && seg_empty 1 then ListWorkers
  else if negb admin then Forbidden
  else if meth "POST" && seg_empty 1 then AddMachine
  else if meth "DELETE" && negb (seg_empty 1) && seg_empty 2 then RemoveMachine (seg 1)
  else NotFound.

Definition dispatch : Endpoint :=
  if seg_is 0 "auth" then
    if meth "GET" && seg_is 1 "me" then AuthMe
    else if meth "POST" && seg_is 1 "change-password" then AuthChangePassword else NotFound
  else if seg_is 0 "admin" then if admin then dispatch_admin else Forbidden
  else if seg_is 0 "metrics" then
    if negb admin then Forbidden else if meth "GET" && seg_empty 1 then Metrics else NotFound
  else if seg_is 0 "jobs" then dispatch_jobs
  else if seg_is 0 "queue" then if meth "GET" && seg_empty 1 then ListQueue else NotFound
  else if seg_is 0 "batches" then
    if meth "POST" && seg_empty 1 then SubmitBatch
    else if meth "GET" && negb (seg_empty 1) && seg_empty 2 then GetBatch (seg 1) else NotFound
  else if seg_is 0 "apps" then
    if meth "GET" && seg_empty 1 then ListApps
    else if meth "GET" && negb (seg_empty 1) && seg_empty 2 then GetApp (seg 1) else NotFound
  else if seg_is 0 "workflows" then dispatch_workflows
  else if seg_is 0 "workers" then dispatch_workers
  else if seg_is 0 "resources" && meth "GET" then ListWorkers
  else if seg_is 0 "stats" && meth "GET" then Stats
  else if seg_is 0 "provision" then
    if negb admin then Forbidden
    else if meth "POST" && seg_empty 1 then AddMachine
    else if meth "DELETE" && negb (seg_empty 1) then RemoveMachine (seg 1) else NotFound
  else NotFound.
End dispatch.

(** ** Calling the handlers *)

(** The answers of the allocator and of the file system that single handlers
    ask for. *)
Record HandlerIo := mkIo { io_copy_ok : bool; io_array_ok : bool; io_malloc_ok : nat → bool; io_written : bool; io_renamed : bool }.

Section run.
Context (c : Call) (io : HandlerIo) (rq : Request) (auth_user_id auth_role : string).

Definition answered (m : ST Sys Reply) : ST Web (option Reply) := r ← wsys m; mret (Some r).
Definition reply (r : Reply) : ST Web (option Reply) := mret (Some r).

Definition run_action (e : Env) (job_id : string) (action : option JobAction) : ST Web (option Reply) :=
  match action with
  | None => reply (http_error 404 "Not found")
  | Some JGet => answered (get_job job_id)
  | Some JCancel => answered (cancel_job e job_id)
  | Some JRetry => wsys (retry_job e c job_id)
  | Some JRelease => answered (release_job e job_id)
  | Some (JUpload filename) => answered (upload_input e rq job_id filename)
  | Some (JDownload filename) => answered (download_output e rq job_id filename)
  | Some JFiles => answered (list_job_files e job_id)
  | Some JArtifacts => answered (artifacts_list c job_id)
  | Some JDeps => answered (get_job_deps job_id)
  | Some (JLog use_stderr) => answered (get_job_log e job_id use_stderr)
  end.

(** The caller is an administrator, or the job is its own. *)
Definition owns_job (job : option Job) : bool :=
  match job with Some j => str_nonempty (j_user_id j) && String.eqb (j_user_id j) auth_user_id | None => false end.

Definition on_job (e : Env) (job_id : string) (action : option JobAction) : ST Web (option Reply) :=
  if is_admin auth_role then run_action e job_id action else
  job ← wsys (ydb (db_get_job job_id));
  if owns_job job then run_action e job_id action else reply (http_error 404 "Job not found").

Definition run_endpoint (ep : Endpoint) : ST Web (option Reply) :=
  w ← st_get;
  let cfg := w_cfg w in
  let e := with_cfg cfg (ca_env c) in
  let accepting := w_accepting_jobs w in
  match ep with
  | Refused code msg => reply (http_error code msg)
  | AuthMe => reply (auth_me c auth_user_id auth_role)
  | AuthChangePassword => answered (auth_change_password e c rq auth_user_id)
  | GetPresim => reply (admin_get_presim_config cfg)
  | UpdatePresim => r ← admin_update_presim_config e rq; reply r
  | Maintenance update => r ← admin_maintenance e c rq update; reply r
  | Metrics => answered (get_metrics e accepting)
  | SubmitJob => wsys (submit_job e c accepting rq auth_user_id auth_role)
  | ListJobs => answered (list_jobs rq c auth_user_id auth_role)
  | PurgeJobs => wsys (purge_jobs e c)
  | SubscribeEvents => r ← sse_subscribe rq c auth_user_id auth_role; reply r
  | OnJob job_id action => on_job e job_id action
  | ListQueue => answered (list_queue rq c auth_user_id auth_role)
  | SubmitBatch =>
      answered (batches_submit e (io_copy_ok io) (io_array_ok io) (io_malloc_ok io) (ca_random c 16%nat) (rq_body rq) (Some auth_user_id))
  | GetBatch batch_id => answered (batches_get batch_id auth_user_id auth_role)
  | ListApps => answered (list_apps c cfg)
  | GetApp app_id => answered (get_app c cfg app_id)
  | ListWorkflows => answered (list_saved_workflows e c auth_user_id auth_role)
  | SaveWorkflow => answered (save_workflow e c rq auth_user_id auth_role)
  | RunWorkflow => wsys (submit_workflow e c accepting (io_malloc_ok io) rq auth_user_id auth_role)
  | DeleteWorkflow wf_id => answered (delete_saved_workflow wf_id auth_user_id auth_role)
  | FavoriteWorkflow wf_id => answered (toggle_workflow_favorite wf_id auth_user_id)
  | ListWorkers => answered (list_workers e)
  | AddMachine => answered (add_machine e rq)
  | RemoveMachine machine_id => answered (remove_machine machine_id)
  | Stats => answered (get_stats e)
  | ListQuotas => answered (list_quotas c)
  | UpsertQuota => answered (upsert_quota e rq)
  | DeleteQuota => answered (delete_quota e rq)
  | ListKeys => answered (list_keys c)
  | CreateKey => answered (create_key e c rq)
  | RevokeKey => answered (revoke_key e c rq)
  | UpsertApp => answered (upsert_app e c (io_written io) (io_renamed io) rq)
  | DeleteApp app_id => answered (delete_app e c app_id)
  | ListUsers => answered (list_users c)
  | CreateUsers => answered (create_users e c rq)
  | UpdateUser => answered (update_user e rq)
  | DeleteUser => answered (delete_user e rq)
  | ListEvents => answered (admin_list_events c rq)
  | ReportJobs => answered (admin_report_jobs c rq)
  | ReportUsers => answered (admin_report_users rq)
  | ReportApps => answered (admin_report_apps rq)
  | ReportMachines => answered (admin_report_machines rq)
  | MachinesStatus => answered (admin_machines_status e)
  | CloudProvision => answered (admin_cloud_provision e rq)
  | CloudDeprovision => answered (admin_cloud_deprovision e rq)
  | WakeOnLan => answered (admin_wol e c rq)
  end.
End run.

(** ** The handler *)

Definition request_method (rq : Request) : string := cbuf 16 (rq_method rq).
Definition segment (rq : Request) (i : nat) : string := extract_segment (cbuf 256 (rq_uri rq)) i 128.

(** The routes that need no key; [None] when the request goes on to the
    check of the key. *)
Definition public_route (c : Call) (rq : Request) : ST Web (option Reply) :=
  w ← st_get;
  let cfg := w_cfg w in
  let e := with_cfg cfg (ca_env c) in
  let method := request_method rq in
  let seg := segment rq in
  let via m := String.eqb method m in
    if negb (cfg_int cfg require_https =? 0) && negb (bool_decide (rq_header rq "X-Forwarded-Proto" = Some "https"))
  then reply (http_error 426 "HTTPS required") else
  if via "OPTIONS" then
    let origin := cfg_str cfg cors_allowed_origin in
    if negb (str_nonempty origin) || negb (bool_decide (rq_header rq "Origin" = Some origin))
    then reply (http_error 403 "Cross-origin request denied") else reply (http_preflight (preflight_headers cfg))
  else
    let no_ui := cfg_int cfg web_ui_enabled =? 0 in
    if negb (str_nonempty (seg 0%nat)) || String.eqb (seg 0%nat) "ui" then
      if no_ui then reply (http_error 403 "Web UI disabled (bastion/API-only mode)") else answered (serve_web_ui c)
    else if String.eqb (seg 0%nat) "web" && via "GET" && str_nonempty (seg 1%nat) then
      if no_ui then reply (http_error 403 "Web UI disabled (bastion/API-only mode)") else answered (serve_web_file c (web_relative seg))
    else if String.eqb (seg 0%nat) "auth" && via "POST" && String.eqb (seg 1%nat) "login" then (r ← auth_login e c rq; reply r)
    else if String.eqb (seg 0%nat) "auth" && via "GET" && String.eqb (seg 1%nat) "methods" then reply auth_methods
    else mret None.

(** [None]: the process has ended in the removal of a directory. *)
Definition routes_handler (c : Call) (io : HandlerIo) (rq : Request) : ST Web (option Reply) :=
  public ← public_route c rq;
  match public with
  | Some r => reply r
  | None =>
      auth ← wsys (ydb (auth_check_role_user (ca_stack c) (rq_header rq "X-API-Key")));
      match auth with
      | None => reply (http_error 401 "Unauthorized")
      | Some (auth_role, auth_user_id) =>
          w ← st_get;
          run_endpoint c io rq auth_user_id auth_role
            (dispatch (request_method rq) (segment rq) (is_admin auth_role) (negb (cfg_int (w_cfg w) experimental_features_enabled =? 0)))
      end
  end.
