(* ===== verification/SysInv.v ===== *)
(** The invariant of the whole process and the rules by which its functions
    keep it: the ledger and the registry agree, keys are unique, every job is
    well formed, and every reservation is held for an active execution. *)
From S2P Require Import Prelude Job Uuid Heap Queue Events Json Registry Sql Db DbAdmin DbInv Allocator AllocatorSpec AllocatorProps JobOps Cloud Transfer Config Shell System Store Decision Executor Scheduler.

(** ** Programs that keep a predicate *)

Definition triple {S A} (P : S → Prop) (m : ST S A) (Q : A → S → Prop) : Prop := ∀ s, P s → Q (m s).1 (m s).2.

(** [m] keeps [P], and its result satisfies [φ]. *)
Definition yields {S A} (P : S → Prop) (m : ST S A) (φ : A → Prop) : Prop := triple P m (λ a s, φ a ∧ P s).
Notation maintains P m := (yields P m (λ _, True)).

Section triple.
Context {S : Type}.
Implicit Types P : S → Prop.

Lemma triple_bind {A B} P (m : ST S A) (f : A → ST S B) Q R :
  triple P m Q → (∀ a, triple (Q a) (f a) R) → triple P (m ≫= f) R.
Proof. intros Hm Hf s Hs. rewrite bind_step. apply Hf, Hm, Hs. Qed.

Lemma triple_weaken {A} P (m : ST S A) (Q R : A → S → Prop) :
  triple P m Q → (∀ a s, Q a s → R a s) → triple P m R.
Proof. intros Hm Hq s Hs. by apply Hq, Hm. Qed.

Lemma triple_pure {A} P (m : ST S A) Q (φ : Prop) : (φ → triple P m Q) → triple (λ s, φ ∧ P s) m Q.
Proof. intros H s [Hφ Hs]. by apply H. Qed.

Lemma triple_bind_yields {A B} P (m : ST S A) (f : A → ST S B) φ R :
  yields P m φ → (∀ a, φ a → triple P (f a) R) → triple P (m ≫= f) R.
Proof. intros Hm Hf. eapply triple_bind; [exact Hm|]. intros a. by apply triple_pure, Hf. Qed.

Lemma triple_then_ret {A B} P (m : ST S A) (g : A → B) Q : triple P m (λ _, Q) → triple P (a ← m; mret (g a)) (λ _, Q).
Proof. intros Hm s Hs. rewrite bind_step. by apply Hm. Qed.

Lemma yields_bind {A B} P (m : ST S A) (f : A → ST S B) φ ψ :
  yields P m φ → (∀ a, φ a → yields P (f a) ψ) → yields P (m ≫= f) ψ.
Proof. apply triple_bind_yields. Qed.

Lemma yields_ret {A} P (x : A) (φ : A → Prop) : φ x → yields P (mret x) φ.
Proof. by intros Hx s Hs. Qed.

Lemma yields_gets {A} P (f : S → A) (φ : A → Prop) : (∀ s, P s → φ (f s)) → yields P (st_gets f) φ.
Proof. intros Hf s Hs. split; [by apply Hf|done]. Qed.

Lemma yields_modify P (f : S → S) : (∀ s, P s → P (f s)) → maintains P (st_modify f).
Proof. intros Hf s Hs. split; [done|by apply Hf]. Qed.

Lemma yields_weaken {A} P (m : ST S A) (φ ψ : A → Prop) : yields P m φ → (∀ a, φ a → ψ a) → yields P m ψ.
Proof. intros Hm H. eapply triple_weaken; [exact Hm|]. naive_solver. Qed.

Lemma yields_any {A} P (m : ST S A) (φ : A → Prop) : yields P m φ → maintains P m.
Proof. intros H. by eapply yields_weaken. Qed.

Lemma yields_iter {A} P (f : A → ST S unit) l : (∀ x, x ∈ l → maintains P (f x)) → maintains P (st_iter f l).
Proof.
  induction l as [|x l IH]; intros Hf; cbn [st_iter]; [by apply yields_ret|].
  eapply yields_bind; [apply Hf; set_solver|]. intros _ _. apply IH. set_solver.
Qed.

Lemma yields_keeps {A} P (m : ST S A) : keeps (λ s s', P s → P s') m → maintains P m.
Proof. intros H s Hs. split; [done|]. destruct (m s) as [a s'] eqn:E. by eapply H. Qed.
End triple.

(** ** The database *)

(** The resources of a job are those of a C [int], and an identifier fits
    its buffer. *)
Definition INTS : Res := mkRes INT_MAX INT_MAX INT_MAX INT_MAX.
Definition job_fits (j : Job) : Prop := res_le (job_req j) INTS.
Definition job_ok (j : Job) : Prop := job_fits j ∧ (str_len (j_id j) < JOB_ID_LEN)%nat.

Definition rows_ok (t : Tables) : Prop := tables_ok t ∧ Forall job_fits (t_jobs t).

(** What is known of the transaction: that none is open, or that
    [db_begin] opened one.  Single statements keep either. *)
Definition open_txn (d : Db) : Prop := s_open d = true ∧ s_transaction_active d = true.

Class TxnState (T : Db → Prop) : Prop :=
  txn_kept d d' : T d → same_conn d d' → sq_saved d' = sq_saved d ∨ sq_saved d' = None → T d'.

#[export] Instance idle_txn : TxnState idle.
Proof. intros d d' [Ha Hs] (_ & Ha' & _) H. split; [congruence|]. destruct H; congruence. Qed.
#[export] Instance open_txn_txn : TxnState open_txn.
Proof. intros d d' [Ho Ha] (Ho' & Ha' & _) _. split; congruence. Qed.

Definition rows_kept (f : Z → Tables → option (Tables * Z)) : Prop :=
  ∀ now t t' n, Forall job_fits (t_jobs t) → f now t = Some (t', n) → Forall job_fits (t_jobs t').

Section db.
Context (T : Db → Prop) `{!TxnState T}.

Definition db_fine (d : Db) : Prop := db_inv rows_ok d ∧ T d.

Lemma yields_dml f : preserves f → rows_kept f → maintains db_fine (dml f).
Proof.
  intros Hp Hr. apply yields_keeps. intros d ok d' E [Hi Ht]. pose proof E as E'.
  split; [|apply dml_spec in E' as (Hc & E'); eapply txn_kept; [done|done|]; naive_solver].
  revert E Hi. apply dml_inv. intros now t t' n [H1 H2] Hf. split; [by eapply Hp|by eapply Hr].
Qed.

Lemma yields_query {R} (f : Z → Tables → list R) :
  yields db_fine (query f) (λ r, ∀ rows b, r = Some (rows, b) → ∃ now t, rows_ok t ∧ ∀ x, x ∈ rows → x ∈ f now t).
Proof.
  intros d [Hi Ht]. destruct (query f d) as [r d'] eqn:E. pose proof E as E'. apply query_spec in E as (Hc & Hs & Hr). cbn [fst snd].
  split; [|split; [by eapply query_inv|eapply txn_kept; [done|done|]; naive_solver]].
  intros rows b ->. exists (clock d), (tables d). split; [exact (proj1 Hi)|]. destruct b; cbn in Hr; [by subst rows|].
  destruct Hr as [n ->]. intros x (i & Hx & _)%elem_of_take. by eapply list_elem_of_lookup_2.
Qed.

Lemma query_maintains {R} (f : Z → Tables → list R) : maintains db_fine (query f).
Proof. eapply yields_any, yields_query. Qed.

Lemma yields_dml_rc f : preserves f → rows_kept f → maintains db_fine (dml_rc f).
Proof. intros. eapply yields_bind; [by apply yields_dml|]. intros. by apply yields_ret. Qed.

Lemma yields_dml_changed f : preserves f → rows_kept f → maintains db_fine (dml_changed f).
Proof.
  intros. eapply yields_bind; [by apply yields_dml|]. intros. eapply yields_bind; [by apply (yields_gets _ _ (λ _, True))|].
  intros. by apply yields_ret.
Qed.
End db.

(** The rows of the jobs table under each statement. *)
Lemma update_jobs_rows p f : (∀ j, job_fits j → job_fits (f j)) → rows_kept (λ _, update_jobs p f).
Proof.
  intros Hf now t t' n Ht [= <- <-]. destruct t; simpl in *. unfold update_where. apply Forall_fmap.
  eapply Forall_impl; [exact Ht|]. intros j Hj. cbn. destruct (p j); auto.
Qed.
Lemma update_jobs_rows' p f : (∀ now j, job_fits j → job_fits (f now j)) → rows_kept (λ now, update_jobs p (f now)).
Proof. intros Hf now. exact (update_jobs_rows p (f now) (Hf now) now). Qed.

Lemma delete_jobs_rows p n : rows_kept (λ _ t, Some (set_t_jobs (delete_where p (t_jobs t)) t, n t)).
Proof.
  intros now t t' k Ht [= <- <-]. destruct t; simpl in *. apply Forall_forall. intros x [_ Hx]%where_elem.
  by rewrite Forall_forall in Ht; apply Ht.
Qed.

Lemma insert_job_rows job : job_fits job → rows_kept (λ _ t,
  if existsb (job_is (j_id job)) (t_jobs t) then None else Some (set_t_jobs (t_jobs t ++ [job_row job]) t, 1)).
Proof.
  intros Hj now t t' n Ht. destruct (existsb _ _); [done|]. intros [= <- <-]. destruct t; simpl in *.
  apply Forall_app. split; [done|]. apply Forall_singleton. by destruct job.
Qed.

Ltac job_fits_cases := first [done | by intros [] | by intros ? []].
Create HintDb inv discriminated.
#[export] Hint Constants Opaque : inv.
#[export] Hint Variables Opaque : inv.
#[export] Hint Extern 2 (rows_kept (λ _, update_jobs _ _)) => apply update_jobs_rows; job_fits_cases : inv.
#[export] Hint Extern 3 (rows_kept (λ _, update_jobs _ _)) => apply update_jobs_rows'; job_fits_cases : inv.
#[export] Hint Resolve delete_jobs_rows : inv.
(** A statement on another table. *)
Ltac other_table :=
  let u := fresh "u" in intros ? u ? ? ?; unfold update_users, release_open_allocations; cbn; intros;
  repeat (case_match; try done); simplify_eq; first [done | by destruct u].
#[export] Hint Extern 4 (rows_kept _) => solve [other_table] : inv.
#[export] Hint Extern 2 (preserves _) => solve [eauto 3 with dbk] : inv.
#[export] Hint Resolve yields_dml yields_dml_rc yields_dml_changed query_maintains : inv.

(** What is known of a result. *)
Ltac got :=
  let a := fresh "a" in let H := fresh "Hgot" in
  intros a H; cbv beta in H; try lazymatch type of H with True => clear H end.

(** Prove [maintains P m] by following [m]. *)
Ltac follow_step :=
  match goal with
  | |- yields _ (mbind _ _) _ =>
      first [eapply yields_bind; [solve [eauto 3 with inv]|] | apply (yields_bind _ _ _ (λ _, True))]; [..|got]
  | |- yields _ (if ?b then _ else _) _ => destruct b
  | |- yields _ (match ?x with _ => _ end) _ => destruct x
  | |- yields _ (mret _) _ => by apply yields_ret
  | |- yields _ (st_gets _) (λ _, True) => by apply yields_gets
  | |- yields _ (let _ := _ in _) _ => cbv zeta
  | |- yields _ _ _ => progress eauto 3 with inv
  end.
Ltac follow := repeat follow_step.

Section db_ops.
Context (T : Db → Prop) `{!TxnState T}.
#[local] Notation "'keeps_db' m" := (maintains (db_fine T) m) (at level 20).

Lemma check_deps_yields tokens : keeps_db (check_deps tokens).
Proof.
  induction tokens as [|tok tokens IH]; cbn [check_deps]; [follow|]. destruct (str_nonempty tok); cbn [negb]; [|done].
  eapply yields_bind; [by apply query_maintains|]. intros [[[|s l] b]|] _; [follow| |follow]. do 2 (case_match; [follow|]). done.
Qed.

Lemma first_quota_yields l : keeps_db (first_quota l).
Proof.
  induction l as [|[u a] l IH]; cbn [first_quota]; [follow|].
  apply (yields_bind _ _ _ (λ _, True)); [unfold db_get_quota; follow|]. intros [q|] _; [follow|done].
Qed.

Lemma row_to_job_ok j : job_fits j → job_ok (row_to_job j).
Proof. intros Hj. split; [exact Hj|]. cbn [row_to_job j_id]. apply cbuf_len. unfold JOB_ID_LEN. lia. Qed.

Lemma rows_of_elem {R} n (r : option (list R * bool)) x : x ∈ rows_of n r → ∃ rows b, r = Some (rows, b) ∧ x ∈ rows.
Proof.
  unfold rows_of. destruct r as [[rows b]|]; [|set_solver]. intros (i & Hx & _)%elem_of_take.
  exists rows, b. split; [done|]. by eapply list_elem_of_lookup_2.
Qed.

Lemma query_jobs_fit (f : Z → Tables → list Job) n (r : option (list Job * bool)) x :
  (∀ rows b, r = Some (rows, b) → ∃ (now : Z) t, rows_ok t ∧ ∀ j, j ∈ rows → j ∈ f now t) →
  (∀ (now : Z) t j, j ∈ f now t → j ∈ t_jobs t) → x ∈ rows_of n r → job_fits x.
Proof.
  intros Hr Hf (rows & b & -> & Hx)%rows_of_elem. destruct (Hr _ _ eq_refl) as (now & t & [_ Ht] & Hin).
  rewrite Forall_forall in Ht. by eapply Ht, Hf, Hin.
Qed.

Lemma get_job_yields job_id : yields (db_fine T) (db_get_job job_id) (λ o, ∀ j, o = Some j → job_ok j).
Proof.
  unfold db_get_job. eapply yields_bind; [by apply yields_query|]. intros r Hr. apply yields_ret. intros j E.
  destruct (head (rows_of 1 r)) as [j0|] eqn:E0; [|done]. injection E as <-. apply row_to_job_ok.
  eapply query_jobs_fit; [exact Hr| |by apply head_Some_elem_of]. by intros now t j [_ Hj]%where_elem.
Qed.

Lemma load_jobs_yields status : yields (db_fine T) (db_load_jobs_by_status status) (λ r, Forall job_ok r.2).
Proof.
  unfold db_load_jobs_by_status. cbv zeta. eapply yields_bind; [by apply query_maintains|]. intros [[rows b]|] _; [|by apply yields_ret].
  destruct (_ <=? 0); [by apply yields_ret|]. eapply yields_bind; [by apply yields_query|]. intros r Hr.
  destruct r as [x|]; apply yields_ret; [|done]. cbn [snd]. apply Forall_fmap, Forall_forall. intros j Hj.
  assert (job_ok (row_to_job j)) as Hok; [|by destruct j].
  apply row_to_job_ok. eapply query_jobs_fit; [exact Hr| |exact Hj].
  by intros now t j' [_ Hj']%order_by_elem%where_elem.
Qed.
End db_ops.

#[export] Hint Resolve check_deps_yields first_quota_yields get_job_yields load_jobs_yields : inv.

(** The calls of db.c that run single statements. *)
Inductive db_stmt : ∀ {A : Type}, ST Db A → Prop :=
  | st_update_job_status i s c e : db_stmt (db_update_job_status i s c e)
  | st_update_job_started i m t : db_stmt (db_update_job_started i m t)
  | st_load_jobs_by_status s : db_stmt (db_load_jobs_by_status s)
  | st_get_job i : db_stmt (db_get_job i)
  | st_list_jobs n : db_stmt (db_list_jobs n)
  | st_query_jobs u s a l o : db_stmt (db_query_jobs u s a l o)
  | st_list_held_jobs n : db_stmt (db_list_held_jobs n)
  | st_list_running_jobs n : db_stmt (db_list_running_jobs n)
  | st_list_queued_jobs n o : db_stmt (db_list_queued_jobs n o)
  | st_get_submission_job u k n : db_stmt (db_get_submission_job u k n)
  | st_store_submission_key u k i : db_stmt (db_store_submission_key u k i)
  | st_update_job_batch_id i b : db_stmt (db_update_job_batch_id i b)
  | st_insert_batch b : db_stmt (db_insert_batch b)
  | st_get_batch b : db_stmt (db_get_batch b)
  | st_get_batch_stats b : db_stmt (db_get_batch_stats b)
  | st_job_stats : db_stmt db_job_stats
  | st_upsert_artifact a : db_stmt (db_upsert_artifact a)
  | st_list_artifacts i n : db_stmt (db_list_artifacts i n)
  | st_insert_allocation i m r : db_stmt (db_insert_allocation i m r)
  | st_release_allocation i : db_stmt (db_release_allocation i)
  | st_update_input_files i f : db_stmt (db_update_input_files i f)
  | st_update_job_timeout i n : db_stmt (db_update_job_timeout i n)
  | st_update_depends_on i s : db_stmt (db_update_depends_on i s)
  | st_update_workflow_id i s : db_stmt (db_update_workflow_id i s)
  | st_update_same_machine_as i s : db_stmt (db_update_same_machine_as i s)
  | st_update_status_reason i s : db_stmt (db_update_status_reason i s)
  | st_update_job_submission j : db_stmt (db_update_job_submission j)
  | st_check_deps_status s : db_stmt (db_check_deps_status s)
  | st_audit e s : db_stmt (db_audit e s)
  | st_insert_api_key_full h l r u e : db_stmt (db_insert_api_key_full h l r u e)
  | st_resolve_api_key_full h n : db_stmt (db_resolve_api_key_full h n)
  | st_list_api_keys n : db_stmt (db_list_api_keys n)
  | st_revoke_api_key h : db_stmt (db_revoke_api_key h)
  | st_create_user u : db_stmt (db_create_user u)
  | st_set_user_password u h : db_stmt (db_set_user_password u h)
  | st_check_user_password u h : db_stmt (db_check_user_password u h)
  | st_get_user_auth u n : db_stmt (db_get_user_auth u n)
  | st_find_user_key u n : db_stmt (db_find_user_key u n)
  | st_update_user u : db_stmt (db_update_user u)
  | st_delete_user u : db_stmt (db_delete_user u)
  | st_get_user u : db_stmt (db_get_user u)
  | st_list_user_records n : db_stmt (db_list_user_records n)
  | st_insert_quota q : db_stmt (db_insert_quota q)
  | st_update_quota q : db_stmt (db_update_quota q)
  | st_delete_quota u a : db_stmt (db_delete_quota u a)
  | st_list_quotas n : db_stmt (db_list_quotas n)
  | st_quota_check u a c m n : db_stmt (db_quota_check u a c m n)
  | st_insert_workflow w : db_stmt (db_insert_workflow w)
  | st_update_workflow w : db_stmt (db_update_workflow w)
  | st_delete_workflow w : db_stmt (db_delete_workflow w)
  | st_get_workflow w : db_stmt (db_get_workflow w)
  | st_list_workflows u n : db_stmt (db_list_workflows u n)
  | st_add_favorite u w : db_stmt (db_add_workflow_favorite u w)
  | st_remove_favorite u w : db_stmt (db_remove_workflow_favorite u w)
  | st_is_favorite u w : db_stmt (db_is_workflow_favorite u w)
  | st_insert_event c t s u j m : db_stmt (db_insert_event c t s u j m)
  | st_list_events n c f t : db_stmt (db_list_events n c f t).

Lemma stmt_yields (T : Db → Prop) `{!TxnState T} {A} (m : ST Db A) : db_stmt m → maintains (db_fine T) m.
Proof.
  intros Hm. destruct Hm; try (eauto 3 with inv; fail).
  all: lazymatch goal with |- yields _ ?m _ => let h := eval red in m in change m with h end; unfold resolve_quota; follow.
Qed.

(** ** Transactions *)

(** After [db_begin] the outcome decides the state of the transaction. *)
Lemma begin_triple : triple (db_fine idle) db_begin (λ rc d, if rc =? 0 then db_fine open_txn d else db_fine idle d).
Proof.
  intros d [Hi Hd]. destruct (db_begin d) as [rc d'] eqn:E. pose proof (db_begin_inv rows_ok _ _ _ E Hi) as Hi'.
  apply db_begin_spec in E as (_ & _ & _ & H); [|done]. cbn [fst snd]. destruct H as [[-> (Ho & Ha & _)]|[-> Hd']]; by split.
Qed.

Lemma commit_triple : triple (db_fine open_txn) db_commit (λ _, db_fine idle).
Proof.
  intros d [Hi [Ho Ha]]. destruct (db_commit d) as [rc d'] eqn:E. pose proof (db_commit_inv rows_ok _ _ _ E Hi) as Hi'.
  split; [done|]. clear Hi'. revert E. cbn [snd]. unfold db_commit. rewrite Ho, Ha. cbn [negb orb].
  destruct (sq_commit d) as [ok d1] eqn:E1. intros [= _ <-]. unfold sq_commit in E1. rewrite Ho in E1. cbn [negb] in E1.
  destruct (next_outcome d) as [o d2]. destruct ok; [|unfold sq_rollback, sq_abort; by destruct d1 as [? ? [] ? ? ? ?]].
  destruct o, (sq_saved d2); try done; by injection E1 as <-; destruct d2.
Qed.

Lemma rollback_triple : triple (db_fine open_txn) db_rollback (λ _, db_fine idle).
Proof.
  intros d [Hi [Ho Ha]]. destruct (db_rollback d) as [rc d'] eqn:E. pose proof (db_rollback_inv rows_ok _ _ _ E Hi) as Hi'.
  split; [done|]. clear Hi'. revert E. cbn [snd]. unfold db_rollback. rewrite Ho, Ha. cbn [negb orb].
  unfold sq_rollback, sq_abort. destruct d as [? ? [t|] ? ? ? ?]; by intros [= _ <-].
Qed.

(** Without a transaction [db_rollback] does nothing. *)
Lemma rollback_idle d : idle d → (db_rollback d).2 = d.
Proof. intros [Ha _]. unfold db_rollback. by rewrite Ha, orb_true_r. Qed.

Lemma rollback_calm : maintains (db_fine idle) db_rollback.
Proof. intros d Hd. split; [done|]. rewrite rollback_idle; [done|apply Hd]. Qed.

Lemma begin_bind {A} (k : Z → ST Db A) Q :
  (∀ rc, rc ≠ 0 → triple (db_fine idle) (k rc) Q) → triple (db_fine open_txn) (k 0) Q → triple (db_fine idle) (db_begin ≫= k) Q.
Proof.
  intros H1 H2. eapply triple_bind; [apply begin_triple|]. intros rc. cbv beta. destruct (Z.eqb_spec rc 0) as [->|]; [done|by apply H1].
Qed.

(** Roll back and leave. *)
Lemma rollback_leave {A} (x : A) : triple (db_fine open_txn) (db_rollback ;; mret x) (λ _, db_fine idle).
Proof. eapply triple_bind; [apply rollback_triple|]. by intros _ d Hd. Qed.

Lemma triple_maintains {S A} (P : S → Prop) (m : ST S A) : triple P m (λ _, P) → maintains P m.
Proof. intros H s Hs. split; [done|by apply H]. Qed.
Lemma maintains_triple {S A} (P : S → Prop) (m : ST S A) : maintains P m → triple P m (λ _, P).
Proof. intros H s Hs. by apply H. Qed.

Lemma purge_yields : maintains (db_fine idle) db_purge_jobs.
Proof.
  apply triple_maintains. unfold db_purge_jobs. apply begin_bind.
  { intros rc Hrc. rewrite (proj2 (Z.eqb_neq rc 0) Hrc). by intros d Hd. }
  cbn [Z.eqb negb]. eapply triple_bind_yields; [apply yields_dml; [apply _|eauto 3 with dbk|eauto 3 with inv]|]. intros [] _; cbn [negb]; [|apply rollback_leave].
  eapply triple_bind_yields; [apply yields_dml; [apply _|eauto 3 with dbk|eauto 3 with inv]|]. intros ok _.
  eapply triple_bind_yields; [by apply (yields_gets _ _ (λ _, True))|]. intros n _. destruct (_ <? 0); [apply rollback_leave|].
  eapply triple_bind; [apply commit_triple|]. intros rc. apply maintains_triple. destruct (negb _); [|by apply yields_ret].
  eapply yields_bind; [apply rollback_calm|]. intros. by apply yields_ret.
Qed.

Lemma recover_yields : maintains (db_fine idle) db_recover_after_restart.
Proof.
  apply triple_maintains. unfold db_recover_after_restart. apply begin_bind.
  { intros rc Hrc. rewrite (proj2 (Z.eqb_neq rc 0) Hrc). by intros d Hd. }
  cbn [Z.eqb negb]. eapply triple_bind_yields; [apply yields_dml; [apply _|eauto 3 with dbk|]|].
  { unfold fail_interrupted. apply (update_jobs_rows' interrupted). by intros ? []. }
  intros [] _; cbn [negb]; [|apply rollback_leave].
  eapply triple_bind_yields; [by apply (yields_gets _ _ (λ _, True))|]. intros n _.
  eapply triple_bind_yields; [apply yields_dml; [apply _|eauto 3 with dbk|eauto 3 with inv]|]. intros [] _; cbn [negb]; [|apply rollback_leave].
  eapply triple_bind; [apply commit_triple|]. intros rc. apply maintains_triple. destruct (negb _); by apply yields_ret.
Qed.

(** [db_retry_job] opens its transaction behind the back of [db_begin]. *)
Definition raw_txn (d : Db) : Prop := s_transaction_active d = false.
#[export] Instance raw_txn_txn : TxnState raw_txn.
Proof. intros d d' H (_ & Ha & _) _. unfold raw_txn in *. congruence. Qed.

Lemma sq_rollback_leave {A} (x : A) : triple (db_fine raw_txn) (sq_rollback ;; mret x) (λ _, db_fine idle).
Proof.
  intros d [Hi Ha]. rewrite bind_step. destruct (sq_rollback d) as [ok d'] eqn:E. pose proof (sq_rollback_inv rows_ok _ _ _ E Hi) as Hi'.
  split; [done|]. clear Hi'. revert E. unfold raw_txn in Ha. cbn [fst snd mret st_ret]. unfold sq_rollback, sq_abort, idle.
  destruct d as [? ? [t|] ? ? ? ?]; by intros [= _ <-].
Qed.

Lemma retry_yields job_id : maintains (db_fine idle) (db_retry_job job_id).
Proof.
  apply triple_maintains. unfold db_retry_job. intros d [Hi Hd]. rewrite bind_step.
  destruct (sq_begin d) as [ok d1] eqn:E. pose proof (sq_begin_inv rows_ok _ _ _ E Hi) as Hi1. cbn [fst snd].
  assert (s_transaction_active d1 = false ∧ (ok = false → sq_saved d1 = None)) as [Ha1 Hs1].
  { destruct Hd as [Ha Hs]. revert E. unfold sq_begin, next_outcome. destruct d as [? ? ? ? ? ? [|o os]]; simpl in *; subst;
      repeat case_match; by intros [= <- <-]. }
  destruct ok; cbn [negb]; [|split; [done|]; split; [done|by apply Hs1]].
  assert (db_fine raw_txn d1) as Hd1 by by split. revert Hd1. generalize d1. clear.
  match goal with |- ∀ d, _ → db_fine idle (?m d).2 => change (triple (db_fine raw_txn) m (λ _, db_fine idle)) end.
  unfold retry_body, retry_rollback, retry_update, retry_delete_artifacts.
  eapply triple_bind_yields; [apply yields_dml; [apply _|eauto 3 with dbk|eauto 3 with inv]|]. intros [] _; cbn [negb]; [|apply sq_rollback_leave].
  eapply triple_bind_yields; [by apply (yields_gets _ _ (λ _, True))|]. intros n _. destruct (negb _); [apply sq_rollback_leave|].
  eapply triple_bind_yields; [apply yields_dml; [apply _|eauto 3 with dbk|eauto 3 with inv]|]. intros [] _; cbn [negb]; [|apply sq_rollback_leave].
  intros d [Hi Ha]. rewrite bind_step. destruct (sq_commit d) as [ok d'] eqn:E. pose proof (sq_commit_inv rows_ok _ _ _ E Hi) as Hi'. cbn [fst snd].
  assert (raw_txn d' ∧ (ok = true → sq_saved d' = None)) as [Ha' Hs'].
  { revert E. unfold sq_commit, next_outcome, sq_abort. destruct d as [? ? sv ? ? ? [|o os]]; unfold raw_txn in *; simpl in *; subst;
      repeat case_match; simplify_eq/=; intros; by simplify_eq/=. }
  destruct ok; cbn [negb]; [split; [done|]; split; [done|by apply Hs']|]. by apply sq_rollback_leave.
Qed.

#[export] Hint Resolve purge_yields recover_yields retry_yields rollback_calm : inv.

(** ** The process *)

(** The allocator's invariant without its last part: it holds inside a
    transaction too. *)
Record ledger_ok (a : AllocState Registry) : Prop := {
  lo_store : reg_ok (a_store a);
  lo_booked : ∀ id, store_reserved (a_store a) id = booked id (ledger_records a);
  lo_slots : Forall (λ r, Forall slot_ok (ar_slots r)) (ledger_records a);
  lo_jobs : NoDup (active_jobs (l_allocs (a_ledger a)));
}.

Lemma alloc_inv_iff a : alloc_inv a ↔ ledger_ok a ∧ idle (a_db a).
Proof. split; [intros []; by split|]. intros [[] ?]. by split. Qed.

Lemma ledger_ok_db st L d d' : ledger_ok (mkAllocState st L d) → ledger_ok (mkAllocState st L d').
Proof. by intros [? ? ? ?]. Qed.

(** A registry with the same reservations. *)
Lemma ledger_ok_registry a r :
  ledger_ok a → reg_ok r → (∀ id, default res0 (reserved_on r id) = default res0 (reserved_on (a_store a) id)) →
  ledger_ok (mkAllocState r (a_ledger a) (a_db a)).
Proof.
  intros [Hs Hb Hsl Hj] Hok Hres. split; try done. intros id.
  change (ledger_records (mkAllocState r (a_ledger a) (a_db a))) with (ledger_records a). rewrite <- Hb. exact (Hres id).
Qed.

Section inv.
Context (T : Db → Prop) `{!TxnState T}.
(** A job whose reservation need not be held for an execution, because it
    is about to start, and an execution that does not count, because it is
    about to end. *)
Context (starting : option string) (ending : option nat).
(** The executions that threads work on, when this is known. *)
Context (workers : option (list nat)).

Definition attended (s : Sys) : Prop := ∀ r, r ∈ ledger_records (y_alloc s) →
  starting = Some (ar_job_id r) ∨
  ∃ x, x ∈ y_active s ∧ ending ≠ Some (x_id x) ∧ j_id (x_job x) = ar_job_id r.

Definition ids_ok (s : Sys) : Prop :=
  NoDup (x_id <$> y_active s) ∧ Forall (λ i, (i < y_next s)%nat) (x_id <$> y_active s).

Definition jobs_queued_ok (s : Sys) : Prop := ∀ q, y_queue s = Some q → queue_ok q ∧ Forall job_ok (q_heap q).

Definition manned (s : Sys) : Prop := ∀ L, workers = Some L → (x_id <$> y_active s) ≡ₚ L.

Record inv (s : Sys) : Prop := {
  in_ledger : ledger_ok (y_alloc s);
  in_db : db_fine T (y_db s);
  in_queue : jobs_queued_ok s;
  in_ring : ring_ok (y_events s);
  in_ids : ids_ok s;
  in_attended : attended s;
  in_manned : manned s;
}.

(** What the invariant does not speak of may change. *)
Lemma inv_frame s s' :
  y_alloc s' = y_alloc s → y_queue s' = y_queue s → y_events s' = y_events s → y_active s' = y_active s →
  y_next s' = y_next s → inv s → inv s'.
Proof.
  intros E1 E2 E3 E4 E5 [H1 H2 H3 H4 H5 H6 H7]. unfold jobs_queued_ok, ids_ok, attended, manned, y_db in *.
  split; unfold jobs_queued_ok, ids_ok, attended, manned, y_db; by rewrite ?E1, ?E2, ?E3, ?E4, ?E5.
Qed.

Lemma inv_alloc a s :
  inv s → ledger_ok a → db_fine T (a_db a) → ledger_records a ⊆ ledger_records (y_alloc s) → inv (set_y_alloc a s).
Proof.
  intros [H1 H2 H3 H4 H5 H6 H7] Ha Hd Hr. destruct s. split; try done. intros r Hr'%Hr. by apply H6.
Qed.

Lemma modify_frame f :
  (∀ s, y_alloc (f s) = y_alloc s ∧ y_queue (f s) = y_queue s ∧ y_events (f s) = y_events s
        ∧ y_active (f s) = y_active s ∧ y_next (f s) = y_next s) → maintains inv (st_modify f).
Proof. intros Hf. apply yields_modify. intros s Hs. destruct (Hf s) as (? & ? & ? & ? & ?). by eapply inv_frame. Qed.

(** *** The parts of the state *)

Lemma yields_ydb {A} (m : ST Db A) φ : yields (db_fine T) m φ → yields inv (ydb m) φ.
Proof.
  intros Hm s Hs. destruct (m (y_db s)) as [a d] eqn:E. rewrite (ydb_run m s a d E). cbn [fst snd].
  pose proof (Hm _ (in_db s Hs)) as Hd. rewrite E in Hd. destruct Hd as [Ha Hd]. split; [done|].
  apply inv_alloc; [done| |done|done]. pose proof (in_ledger s Hs) as Hl. unfold y_registry, y_ledger.
  destruct (y_alloc s) as [st L d0]. by eapply ledger_ok_db.
Qed.

(** The registry, with given reservations. *)
Definition reg_at (ρ : string → Res) (l : Registry) : Prop := reg_ok l ∧ ∀ id, default res0 (reserved_on l id) = ρ id.

Lemma yields_cloud {A} (m : ST CloudState A) φ :
  (∀ ρ, yields (λ c, reg_at ρ (cl_registry c)) m φ) → yields inv (on_cloud m) φ.
Proof.
  intros Hm s Hs. unfold on_cloud.
  specialize (Hm (λ id, default res0 (reserved_on (y_registry s) id)) (mkCloud (y_registry s) (y_commands s))).
  destruct Hm as [Ha [Hok Hres]]. { split; [exact (lo_store _ (in_ledger s Hs))|done]. }
  destruct (m _) as [a c]. cbn [fst snd] in *. split; [done|].
  apply (inv_frame (set_y_alloc (mkAllocState (cl_registry c) (y_ledger s) (y_db s)) s)); try by destruct s.
  apply inv_alloc; [done| |apply Hs|done]. by apply ledger_ok_registry; [apply Hs|..].
Qed.

(** Database and event ring. *)
Definition jenv_fine (j : JEnv) : Prop := db_fine T (je_db j) ∧ ring_ok (je_events j).

Lemma yields_jenv {A} (m : ST JEnv A) φ : yields jenv_fine m φ → yields inv (on_jenv m) φ.
Proof.
  intros Hm s Hs. unfold on_jenv. pose proof (Hm (mkJEnv (y_db s) (y_events s)) (conj (in_db s Hs) (in_ring s Hs))) as H.
  destruct (m _) as [a x]. cbn [fst snd] in *. destruct H as [Ha [Hd Hr]]. split; [done|].
  assert (inv (set_y_alloc (mkAllocState (y_registry s) (y_ledger s) (je_db x)) s)) as Hi.
  { apply inv_alloc; [done| |done|done]. pose proof (in_ledger s Hs) as Hl. unfold y_registry, y_ledger.
    destruct (y_alloc s) as [st L d0]. by eapply ledger_ok_db. }
  destruct Hi as [H1 H2 H3 H4 H5 H6 H7]. destruct s. by split.
Qed.

Lemma yields_jdb {A} (m : ST Db A) φ : yields (db_fine T) m φ → yields jenv_fine (jdb m) φ.
Proof.
  intros Hm [d r] [Hd Hr]. unfold jdb. specialize (Hm d Hd). cbn [je_db je_events] in *. destruct (m d) as [a d'].
  cbn [fst snd] in *. destruct Hm. by split_and!.
Qed.

Lemma jpush_yields json u : maintains jenv_fine (jpush json u).
Proof. intros [d r] [Hd Hr]. split; [done|]. split; [done|]. by apply events_push_ok. Qed.
End inv.

#[export] Hint Resolve jpush_yields : inv.
(** A function of db.c. *)
Ltac db_fun := first [solve [eauto 2 with inv] | by apply yields_gets | apply stmt_yields; [eauto 2 with inv|constructor]].
#[export] Hint Extern 3 (yields _ (ydb _) _) => apply yields_ydb; db_fun : inv.
#[export] Hint Extern 3 (yields _ (jdb _) _) => apply yields_jdb; db_fun : inv.

Section leaves.
Context (T : Db → Prop) `{!TxnState T} (f : option string) (l : option nat) (w : option (list nat)).
#[local] Notation I := (inv T f l w).

Lemma push_event_yields print ms u : maintains (jenv_fine T) (push_event print ms u).
Proof. unfold push_event. follow. Qed.
#[local] Hint Resolve push_event_yields : inv.

Lemma push_persistent_yields e c ty d u : maintains I (sys_events_push_persistent e c ty d u).
Proof. apply yields_jenv. unfold events_push_persistent. follow. Qed.

(** A status change keeps the identifier and the resources of the job. *)
Definition same_job (j j' : Job) : Prop := j_id j' = j_id j ∧ job_req j' = job_req j.

Lemma set_status_yields e job st r :
  yields I (sys_set_status_r e job st r) (λ x, same_job job x.2).
Proof.
  assert (maintains I (sys_set_status_r e job st r)) as Hm.
  2:{ intros s Hs. split; [|by apply Hm]. unfold sys_set_status_r, on_jenv. pose proof (job_set_status_r_result (en_print_object e) job st r (mkJEnv (y_db s) (y_events s))) as H.
    destruct (job_set_status_r _ _ _ _ _) as [x j]. cbn [fst] in *. subst x. unfold status_changed.
    destruct (transition_allowed _ _); [|by split]. destruct job. by destruct (is_terminal st). }
  apply yields_jenv. unfold job_set_status_r. follow.
Qed.

Lemma same_job_ok j j' : same_job j j' → job_ok j → job_ok j'.
Proof. unfold job_ok, job_fits. by intros [-> ->]. Qed.

Definition int_ok (z : Z) : Prop := z ≤ INT_MAX.

Lemma job_create_yields e cmd p c g r d u a :
  int_ok c → int_ok g → int_ok r → int_ok d →
  yields I (sys_job_create_ex e cmd p c g r d u a) (λ o, ∀ j, o = Some j → job_ok j).
Proof.
  intros Hc Hg Hr Hd. unfold sys_job_create_ex.
  eapply yields_bind; [by apply (yields_gets _ _ (λ _, True))|]. intros n _.
  eapply yields_bind; [apply modify_frame; by intros []|]. intros _ _. apply yields_jenv. unfold job_create_ex.
  destruct (negb _); [by apply yields_ret|]. eapply yields_bind; [apply yields_jdb; by apply (yields_gets _ _ (λ _, True))|].
  intros now _. cbv zeta. set (job := new_job _ _ _ _ _ _ _ _ _ _ _).
  assert (job_ok job) as Hj.
  { split; [|unfold job; cbn [new_job j_id]; apply cbuf_len; unfold JOB_ID_LEN; lia].
    unfold job_fits, INTS, int_ok, INT_MAX, res_le in *. cbn. split_and!; destruct (0 <? _); lia. }
  eapply yields_bind.
  { apply yields_jdb. unfold db_insert_job. apply yields_dml_rc; [done|apply insert_job_preserves|apply insert_job_rows, Hj]. }
  intros rc _. apply yields_ret. intros j. destruct (negb _); [done|]. by intros [= <-].
Qed.

Lemma queue_push_yields e job : job_ok job → maintains I (sys_queue_push e job).
Proof.
  intros Hj s Hs. split; [done|]. unfold sys_queue_push. destruct (y_queue s) as [q|] eqn:Eq; [|done].
  destruct (in_queue T f l w s Hs q Eq) as [Hok Hall]. destruct (queue_push _ job q) as [rc q'] eqn:E. cbn [snd].
  apply queue_push_ok in E as (Hok' & _ & H); [|done].
  assert (Forall job_ok (q_heap q')) as Hall'.
  { destruct H as [[_ Hp]|[_ ->]]; [|done]. unfold Spec.push in Hp. rewrite Hp. by constructor. }
  destruct Hs as [H1 H2 H3 H4 H5 H6 H7]. destruct s. split; try done. by intros ? [= <-].
Qed.

Lemma queue_taken (g : ST Queue (option Job)) :
  (∀ q r q', queue_ok q → g q = (r, q') → queue_ok q' ∧ match r with Some x => q_heap q ≡ₚ x :: q_heap q' | None => q_heap q' = q_heap q end) →
  yields I (λ s, match y_queue s with None => (None, s) | Some q => let '(j, q) := g q in (j, set_y_queue (Some q) s) end)
    (λ o, ∀ j, o = Some j → job_ok j).
Proof.
  intros Hg s Hs. destruct (y_queue s) as [q|] eqn:Eq; [|done]. destruct (in_queue T f l w s Hs q Eq) as [Hok Hall].
  destruct (g q) as [r q'] eqn:E. apply Hg in E as [Hok' H]; [|done]. cbn [fst snd].
  assert (Forall job_ok (q_heap q') ∧ ∀ j, r = Some j → job_ok j) as [Hall' Hr].
  { destruct r as [x|]; [|by rewrite H]. rewrite H in Hall. inversion Hall; subst. split; [done|]. by intros j [= <-]. }
  split; [done|]. destruct Hs as [H1 H2 H3 H4 H5 H6 H7]. destruct s. split; try done. by intros ? [= <-].
Qed.

Lemma try_pop_yields : yields I sys_queue_try_pop (λ o, ∀ j, o = Some j → job_ok j).
Proof.
  apply queue_taken. intros q r q' Hok E. apply queue_try_pop_spec in E as [? H]; [|done]. split; [done|]. destruct r; apply H.
Qed.

Lemma remove_yields id : yields I (sys_queue_remove_by_id id) (λ o, ∀ j, o = Some j → job_ok j).
Proof.
  apply queue_taken. intros q r q' Hok E. apply queue_remove_ok in E as [? H]; [|done]. split; [done|]. destruct r; apply H.
Qed.

Lemma deprovision_yields e p i : maintains I (sys_cloud_deprovision e p i).
Proof.
  apply yields_cloud. intros ρ. assert (∀ cmd id, maintains (λ c, reg_at ρ (cl_registry c)) (deprovision_with (en_popen e) cmd id)) as H.
  { intros cmd id c [Hok Hres]. split; [done|]. destruct (deprovision_with _ cmd id c) as [rc c'] eqn:E.
    unfold reg_at. cbn [snd]. apply deprovision_with_spec in E as [[[_ ->]|(_ & _ & _ & ->)] _]; [done|].
    destruct (registry_remove _ _) as [rc' r] eqn:Er. apply registry_remove_spec in Er as (? & Hr & _); [|done].
    split; [done|]. intros id'. cbn [snd]. by rewrite Hr. }
  unfold cloud_deprovision, aws_deprovision, gcp_deprovision, azure_deprovision. follow; apply H.
Qed.

Lemma provision_yields e spec n : res_le (sp_res spec) INTS → maintains I (sys_cloud_provision e spec n).
Proof.
  intros Hspec. unfold sys_cloud_provision, y_now. eapply yields_bind; [by apply (yields_gets _ _ (λ _, True))|]. intros now _.
  apply yields_cloud. intros ρ. set (P := λ c, reg_at ρ (cl_registry c)).
  assert (∀ cmd k, maintains P (run_command (en_popen e) cmd k)) as Hrun.
  { intros cmd k c Hc. split; [done|]. unfold run_command. by destruct (en_popen e cmd) as [[]|]. }
  assert (∀ provider id, maintains P (on_registry (registry_upsert (cloud_machine provider id spec)))) as Hup.
  { intros provider id c [Hok Hres]. split; [done|]. unfold on_registry. destruct (registry_upsert _ _) as [rc r] eqn:E.
    apply registry_upsert_spec in E as (? & Hr & _); [|done|by apply cloud_machine_fresh]. split; [done|]. intros id'. cbn [fst snd cl_registry]. by rewrite Hr. }
  unfold cloud_provision, aws_provision, gcp_provision, azure_provision, named_provision.
  repeat first [apply Hrun | apply Hup | apply (yields_bind _ _ _ (λ _, True)); [|intros ? _] | progress follow].
Qed.

Lemma registry_yields {A} (m : ST Registry A) :
  (∀ l a l', reg_ok l → m l = (a, l') → reg_ok l' ∧ ∀ id, default res0 (reserved_on l' id) = default res0 (reserved_on l id)) →
  maintains I (on_cloud (on_registry m)).
Proof.
  intros Hm. apply yields_cloud. intros ρ c [Hok Hres]. split; [done|]. unfold on_registry. destruct (m _) as [a r] eqn:E.
  apply Hm in E as [? Hr]; [|done]. split; [done|]. intros id. cbn [fst snd cl_registry]. by rewrite Hr.
Qed.
End leaves.

#[export] Hint Resolve push_persistent_yields set_status_yields try_pop_yields remove_yields deprovision_yields queue_push_yields : inv.

(** ** The allocator *)

#[export] Instance any_txn : TxnState (λ _, True).
Proof. by intros d d' _ _ _. Qed.

Lemma begin_any : maintains (db_fine (λ _, True)) db_begin.
Proof. apply yields_keeps. intros d r d' E [Hi _]. split; [|done]. by eapply db_begin_inv. Qed.
Lemma commit_any : maintains (db_fine (λ _, True)) db_commit.
Proof. apply yields_keeps. intros d r d' E [Hi _]. split; [|done]. by eapply db_commit_inv. Qed.
Lemma rollback_any : maintains (db_fine (λ _, True)) db_rollback.
Proof. apply yields_keeps. intros d r d' E [Hi _]. split; [|done]. by eapply db_rollback_inv. Qed.
#[export] Hint Resolve idle_txn open_txn_txn any_txn : inv.
#[export] Hint Resolve begin_any commit_any rollback_any : inv.

Section allocator.
#[local] Notation D := (db_fine (λ _, True)).
Definition alloc_fine (a : AllocState Registry) : Prop := D (a_db a).

Lemma on_store_yields {A} (m : ST Registry A) : maintains alloc_fine (on_store m).
Proof. intros a Ha. split; [done|]. unfold alloc_fine, on_store in *. by destruct (m _). Qed.
Lemma on_ledger_yields {A} (m : ST Ledger A) : maintains alloc_fine (on_ledger m).
Proof. intros a Ha. split; [done|]. unfold alloc_fine, on_ledger in *. by destruct (m _). Qed.
Lemma on_db_yields {A} (m : ST Db A) : maintains D m → maintains alloc_fine (on_db m).
Proof. intros Hm a Ha. split; [done|]. unfold alloc_fine, on_db in *. specialize (Hm _ Ha). destruct (m _). apply Hm. Qed.

Lemma insert_allocation_yields j m r : maintains D (db_insert_allocation j m r).
Proof. unfold db_insert_allocation. follow. Qed.
#[local] Hint Resolve on_store_yields on_ledger_yields insert_allocation_yields : inv.

Lemma persist_yields record : maintains D (persist_record record).
Proof.
  unfold persist_record. follow. induction (ar_slots record) as [|slot slots IH]; cbn [persist_slots]; follow.
Qed.

Lemma reserve_single_fine env j m req : maintains alloc_fine (reserve_single env j m req).
Proof. unfold reserve_single, discard_record, clear_record. follow; apply on_db_yields, persist_yields. Qed.
#[local] Hint Resolve reserve_single_fine : inv.

Lemma reserve_fine env j req : maintains alloc_fine (alloc_reserve env j req).
Proof. unfold alloc_reserve. follow. Qed.
Lemma reserve_on_fine env j t req : maintains alloc_fine (alloc_reserve_on env j t req).
Proof. unfold alloc_reserve_on. follow. Qed.
Lemma release_fine j : maintains alloc_fine (alloc_release j).
Proof. unfold alloc_release, discard_record, clear_record. follow. apply on_db_yields. unfold db_release_allocation. follow. Qed.
End allocator.

(** The invariant between two operations. *)
Notation calm := (inv idle).

Lemma calm_alloc f l w s : calm f l w s → alloc_inv (y_alloc s).
Proof. intros Hs. apply alloc_inv_iff. split; apply Hs. Qed.

Lemma idle_fine a : alloc_inv a → alloc_fine a → db_fine idle (a_db a).
Proof. intros Ha [Hi _]. split; [done|apply Ha]. Qed.

(** A release leaves no record of the job. *)
Lemma release_records jid a rc a' : alloc_inv a → alloc_release jid a = (rc, a') →
  alloc_inv a' ∧ ledger_records a' ⊆ ledger_records a ∧ ∀ r, r ∈ ledger_records a' → ar_job_id r ≠ jid.
Proof.
  intros Ha E. apply alloc_release_spec in E as [Ha' H]; [|done]. split; [done|].
  destruct (filter _ _) as [|r rest] eqn:Ef.
  - destruct H as [_ Hp]. split; [by rewrite Hp|]. intros r Hr. rewrite Hp in Hr. intros Hj.
    assert (r ∈ filter (λ r, of_job jid r = true) (ledger_records a)) as Hin; [|rewrite Ef in Hin; set_solver].
    apply list_elem_of_filter. split; [|done]. unfold of_job. by rewrite Hj, String.eqb_refl.
  - destruct H as (-> & _ & Hp). split; [rewrite Hp; set_solver|]. intros r' Hr' Hj.
    assert (r ∈ filter (λ r, of_job jid r = true) (ledger_records a)) as [Hof _]%list_elem_of_filter by (rewrite Ef; set_solver).
    unfold of_job in Hof. apply String.eqb_eq in Hof. pose proof (ai_jobs a Ha) as Hnd. unfold active_jobs in Hnd.
    change (active_records _) with (ledger_records a) in Hnd. rewrite Hp in Hnd. cbn [map] in Hnd. apply NoDup_cons in Hnd as [Hnd _].
    apply Hnd. rewrite Hof, <- Hj. by apply (list_elem_of_fmap_2 ar_job_id).
Qed.

Section alloc_sys.
Implicit Types (f : option string) (l : option nat) (w : option (list nat)).

Lemma release_run jid s f l w : calm f l w s →
  let s' := (on_alloc (alloc_release jid) s).2 in
  calm f l w s' ∧ y_active s' = y_active s ∧ ∀ r, r ∈ ledger_records (y_alloc s') → ar_job_id r ≠ jid.
Proof.
  intros Hs. rewrite on_alloc_run. cbn [snd]. pose proof (calm_alloc _ _ _ _ Hs) as Ha.
  pose proof (release_fine jid (y_alloc s)) as Hf. destruct (alloc_release jid (y_alloc s)) as [rc a'] eqn:E.
  apply release_records in E as (Ha' & Hsub & Hno); [|done]. cbn [snd] in *. split_and!; [|by destruct s|by destruct s].
  apply inv_alloc; [done|by apply alloc_inv_iff|apply idle_fine; [done|]|done].
  apply Hf. split; [apply Hs|done].
Qed.

(** The reservation was for a job about to start. *)
Lemma release_starting jid l w : triple (calm (Some jid) l w) (on_alloc (alloc_release jid)) (λ _, calm None l w).
Proof.
  intros s Hs. destruct (release_run jid s _ _ _ Hs) as (Hs' & _ & Hno). revert Hs' Hno. generalize (on_alloc (alloc_release jid) s).2.
  intros s' [H1 H2 H3 H4 H5 H6 H7] Hno. split; try done. intros r Hr. destruct (H6 r Hr) as [[= E]|Hx]; [|by right].
  by destruct (Hno r Hr).
Qed.

Lemma release_yields jid f l w : maintains (calm f l w) (on_alloc (alloc_release jid)).
Proof. intros s Hs. split; [done|]. by apply release_run. Qed.

(** The job of an execution: after the release the execution is not needed. *)
Definition job_of (id : nat) (s : Sys) : Job := default zero_job (x_job <$> get_exec id s).

Lemma ids_unique s id x : ids_ok s → x ∈ y_active s → x_id x = id → get_exec id s = Some x.
Proof.
  intros [Hnd _] Hx <-. unfold get_exec. assert (where_ (exec_is (x_id x)) (y_active s) = [x]) as ->; [|done].
  unfold where_, exec_is. revert Hx Hnd. induction (y_active s) as [|y k IH]; [set_solver|]. intros [->|Hx]%elem_of_cons; cbn [fmap list_fmap].
  - intros [Hn _]%NoDup_cons. rewrite filter_cons, decide_True by by rewrite Nat.eqb_refl. f_equal. apply filter_none.
    intros z Hz E%Nat.eqb_eq. apply Hn. rewrite <- E. by apply (list_elem_of_fmap_2 x_id).
  - intros [Hn Hnd]%NoDup_cons. rewrite filter_cons, decide_False; [by apply IH|]. intros E%Nat.eqb_eq. apply Hn.
    rewrite E. by apply (list_elem_of_fmap_2 x_id).
Qed.

Lemma release_ending id f w : triple (calm f None w) (job ← exec_job id; on_alloc (alloc_release (j_id job)) ;; mret job) (λ _, calm f (Some id) w).
Proof.
  intros s Hs. rewrite !bind_step. unfold exec_job. cbn [fst snd st_gets mret st_ret]. fold (job_of id s).
  destruct (release_run (j_id (job_of id s)) s _ _ _ Hs) as (Hs' & Hact & Hno). revert Hs' Hact Hno.
  generalize (on_alloc (alloc_release (j_id (job_of id s))) s).2. intros s' [H1 H2 H3 H4 H5 H6 H7] Hact Hno. split; try done.
  intros r Hr. destruct (H6 r Hr) as [Hf|(x & Hx & _ & Hj)]; [by left|]. right. exists x. split; [done|]. split; [|done].
  intros [= E]. apply (Hno r Hr). rewrite <- Hj. unfold job_of. rewrite Hact in Hx.
  rewrite (ids_unique s id x); [done|by apply Hs|done|done].
Qed.

Lemma reserve_triple env jid req l w : (str_len jid < JOB_ID_LEN)%nat →
  triple (calm None l w) (on_alloc (alloc_reserve env jid req)) (λ r, calm (if r.1 =? 0 then Some jid else None) l w).
Proof.
  intros Hlen s Hs. rewrite on_alloc_run. cbn [fst snd]. pose proof (calm_alloc _ _ _ _ Hs) as Ha.
  pose proof (reserve_fine env jid req (y_alloc s)) as Hf. destruct (alloc_reserve env jid req (y_alloc s)) as [[rc out] a'] eqn:E.
  apply alloc_reserve_spec in E as (Ha' & H); [|done..]. cbn [fst snd] in *.
  assert (db_fine idle (a_db a')) as Hd by (apply idle_fine; [done|]; apply Hf; split; [apply Hs|done]).
  apply alloc_inv_iff in Ha' as [Hl _]. destruct H as [(-> & pre & m & post & _ & _ & _ & _ & _ & Hp & _)|(-> & _ & _ & Hp & _)]; cbn [Z.eqb].
  - destruct Hs as [H1 H2 H3 H4 H5 H6 H7]. destruct s. split; try done. intros r Hr. simpl in *.
    rewrite Hp in Hr. apply elem_of_cons in Hr as [->|Hr]; [by left|]. right. by destruct (H6 r Hr) as [?|?].
  - apply inv_alloc; [done..|]. by rewrite Hp.
Qed.

Lemma reserve_on_triple env jid target req l w : (str_len jid < JOB_ID_LEN)%nat →
  triple (calm None l w) (on_alloc (alloc_reserve_on env jid target req)) (λ r, calm (if r =? 0 then Some jid else None) l w).
Proof.
  intros Hlen s Hs. rewrite on_alloc_run. cbn [fst snd]. pose proof (calm_alloc _ _ _ _ Hs) as Ha.
  pose proof (reserve_on_fine env jid target req (y_alloc s)) as Hf. destruct (alloc_reserve_on env jid target req (y_alloc s)) as [rc a'] eqn:E.
  apply alloc_reserve_on_spec in E as (Ha' & H); [|done..]. cbn [fst snd] in *.
  assert (db_fine idle (a_db a')) as Hd by (apply idle_fine; [done|]; apply Hf; split; [apply Hs|done]).
  apply alloc_inv_iff in Ha' as [Hl _]. destruct H as [(-> & _ & Hp & _)|(Hrc & _ & Hp & _)].
  - destruct Hs as [H1 H2 H3 H4 H5 H6 H7]. destruct s. split; try done. intros r Hr. simpl in *.
    rewrite Hp in Hr. apply elem_of_cons in Hr as [->|Hr]; [by left|]. right. by destruct (H6 r Hr) as [?|?].
  - rewrite (proj2 (Z.eqb_neq rc 0) Hrc). apply inv_alloc; [done..|]. by rewrite Hp.
Qed.
End alloc_sys.
