(* ===== verification/LaunchProps.v ===== *)
(** What the launch of a job starts: the process of the job and no other, with
    its command, environment and logs; a launch that fails leaves none. *)
From S2P Require Import Prelude Job Queue Events Json Registry Sql Db DbAdmin DbInv DbProps Allocator JobOps Cloud Transfer Config Shell System SysFixture Executor ExecProps SysInv.

(** ** What does not touch the processes *)

Class Processes (P : Sys → Prop) : Prop :=
  processes_only s s' : y_spawned s' = y_spawned s → y_killed s' = y_killed s → P s → P s'.

Section kept.
Context (P : Sys → Prop) `{!Processes P} (e : Env).
#[local] Notation "'keeps_processes' m" := (maintains P m) (at level 20).

Lemma same_processes {A} (m : ST Sys A) :
  (∀ s, y_spawned (m s).2 = y_spawned s ∧ y_killed (m s).2 = y_killed s) → keeps_processes m.
Proof. intros Hm s Hs. split; [done|]. destruct (Hm s) as [H1 H2]. by eapply processes_only. Qed.

Lemma alloc_processes {A} (m : ST (AllocState Registry) A) : keeps_processes (on_alloc m).
Proof. apply same_processes. intros s. unfold on_alloc. destruct (m _). by destruct s. Qed.
Lemma jenv_processes {A} (m : ST JEnv A) : keeps_processes (on_jenv m).
Proof. apply same_processes. intros s. unfold on_jenv. destruct (m _). by destruct s. Qed.
Lemma cloud_processes {A} (m : ST CloudState A) : keeps_processes (on_cloud m).
Proof. apply same_processes. intros s. unfold on_cloud. destruct (m _). by destruct s. Qed.
Lemma gets_processes {A} (f : Sys → A) : keeps_processes (st_gets f).
Proof. by apply yields_gets. Qed.
Lemma modify_processes f : (∀ s, y_spawned (f s) = y_spawned s ∧ y_killed (f s) = y_killed s) → keeps_processes (st_modify f).
Proof. apply (same_processes (st_modify f)). Qed.
Lemma system_processes cmd : keeps_processes (run_system e cmd).
Proof. apply same_processes. by intros []. Qed.
Lemma upd_processes id f : keeps_processes (upd_exec id f).
Proof. apply same_processes. by intros []. Qed.
Lemma unregister_processes id : keeps_processes (active_unregister id).
Proof. apply same_processes. by intros []. Qed.
#[local] Hint Resolve alloc_processes jenv_processes cloud_processes gets_processes system_processes upd_processes unregister_processes : inv.
#[local] Hint Extern 2 (yields _ (st_modify _) _) => apply modify_processes; by intros [] : inv.

Lemma job_processes id : keeps_processes (exec_job id).
Proof. apply gets_processes. Qed.
Lemma upd_job_processes id f : keeps_processes (upd_job id f).
Proof. apply upd_processes. Qed.
Lemma snapshot_processes id : keeps_processes (active_terminal_snapshot id).
Proof. apply gets_processes. Qed.
Lemma set_status_processes job st r : keeps_processes (sys_set_status_r e job st r).
Proof. apply jenv_processes. Qed.
Lemma push_processes a b c d : keeps_processes (sys_events_push_persistent e a b c d).
Proof. apply jenv_processes. Qed.
Lemma ydb_processes {A} (m : ST Db A) : keeps_processes (ydb m).
Proof. apply alloc_processes. Qed.
Lemma deprovision_processes p i : keeps_processes (sys_cloud_deprovision e p i).
Proof. apply cloud_processes. Qed.
#[local] Hint Resolve job_processes upd_job_processes snapshot_processes set_status_processes push_processes ydb_processes deprovision_processes : inv.

Lemma finish_processes id st r : keeps_processes (finish_without_process e id st r).
Proof. unfold finish_without_process, exec_set_status_r, release_execution, maybe_auto_deprovision. follow. Qed.
Lemma script_processes job i o : keeps_processes (write_run_script e job i o).
Proof. unfold write_run_script, write_script. follow. Qed.
Lemma logs_processes child : keeps_processes (open_logs e child).
Proof. unfold open_logs, open_log. follow. Qed.
End kept.

(** ** Preparing the launch *)

Definition prepared (s s' : Sys) : Prop :=
  y_spawned s' = y_spawned s ∧ y_killed s' = y_killed s ∧ y_active s' = y_active s.
#[export] Instance prepared_preorder : PreOrder prepared.
Proof. split; [done|]. intros a b c (? & ? & ?) (? & ? & ?). split_and!; congruence. Qed.

Ltac prepare :=
  repeat match goal with
  | |- keeps _ (mbind _ _) => apply keeps_bind; [apply _| |intros ?]
  | |- keeps _ (mret _) => apply keeps_ret; apply _
  | |- keeps _ (st_gets _) => apply keeps_gets; apply _
  | |- keeps _ (st_modify _) => apply keeps_modify; first [by intros [] | intros []; by case_match]
  | |- keeps _ (match ?x with _ => _ end) => destruct x
  end.

Lemma script_prepares e job i o : keeps prepared (write_run_script e job i o).
Proof. unfold write_run_script, write_script. prepare. Qed.
Lemma logs_prepare e child : keeps prepared (open_logs e child).
Proof. unfold open_logs, open_log. prepare. Qed.
Lemma system_prepares e cmd : keeps prepared (run_system e cmd).
Proof. intros s a s' [= <- <-]. by destruct s. Qed.

Section launch.
Context (e : Env) (sp : SpawnEnv) (id : nat) (x : Execution).

(** What the fork and the thread of the watcher leave, from a state where
    [x] is the execution. *)
Definition started (cmd : string) (child : list string → Child) (mk : Z → WatchArg) (s : Sys) (r : option WatchArg) (s' : Sys) : Prop :=
  match r with
  | Some wa => ∃ pid argv, wa = mk pid ∧ sp_fork sp = Some pid ∧ sp_wordexp sp cmd = Some argv ∧
      y_spawned s' = y_spawned s ++ [(pid, child argv)] ∧ y_killed s' = y_killed s ∧ x_pid <$> get_exec id s' = Some pid
  | None => ∀ c, c ∈ y_spawned s' → c ∈ y_spawned s ∨ c.1 ∈ y_killed s'
  end.

Lemma set_process_run pid s : get_exec id s = Some x → x_termination_requested x = false →
  let s' := (active_set_process id pid s).2 in
  y_spawned s' = y_spawned s ∧ y_killed s' = y_killed s ∧ x_pid <$> get_exec id s' = Some pid.
Proof.
  intros Hx Hr. unfold active_set_process. rewrite bind_step. unfold active_terminal_snapshot. rewrite bind_step. cbn [fst snd st_gets upd_exec st_modify].
  rewrite get_exec_upd by (by intros []). rewrite Nat.eqb_refl, Hx. cbn [fmap option_fmap option_map].
  assert (x_termination_requested (set_x_pid pid x) = false) as -> by (by destruct x). cbn [mret st_ret snd].
  rewrite get_exec_upd by (by intros []). rewrite Nat.eqb_refl, Hx. destruct s; cbn. split_and!; [done..|]. by destruct x.
Qed.

Lemma start_watcher_run cmd b child mk s : get_exec id s = Some x → x_termination_requested x = false → (∀ pid, wa_exec (mk pid) = id) →
  started cmd child mk s (start_watcher e sp cmd b child mk s).1 (start_watcher e sp cmd b child mk s).2.
Proof.
  intros Hx Hr Hmk. unfold start_watcher. destruct (sp_wordexp sp cmd) as [argv|] eqn:Ew; [|intros c Hc; by left].
  assert (∀ s, prepared s (open_logs e (child argv) s).2) as Hlogs.
  { intros s0. destruct (open_logs e (child argv) s0) as [u s1] eqn:E. by eapply logs_prepare. }
  assert (∀ s1 s2 c, prepared s1 s2 → c ∈ y_spawned s2 → c ∈ y_spawned s1) as Hin by (by intros s1 s2 c (-> & _)).
  rewrite bind_step. assert (prepared s ((if b then mret tt else open_logs e (child argv)) s).2) as H1.
  { by destruct b. }
  revert H1. generalize ((if b then mret tt else open_logs e (child argv)) s).2. intros s1 H1.
  destruct (sp_fork sp) as [pid|] eqn:Ef; [|intros c Hc; left; by eapply Hin].
  rewrite bind_step. assert (prepared s1 ((if b then open_logs e (child argv) else mret tt) s1).2) as H2.
  { by destruct b. }
  revert H2. generalize ((if b then open_logs e (child argv) else mret tt) s1).2. intros s2 H2.
  assert (prepared s s2) as (Hs & Hk & Ha) by by etrans. clear H1 H2 Hin Hlogs. rewrite bind_step. cbn [fst snd st_modify].
  set (s3 := set_y_spawned _ s2). assert (get_exec id s3 = Some x) as Hx3.
  { unfold get_exec in *. subst s3. destruct s2; cbn in *. by rewrite Ha. }
  assert (y_spawned s3 = y_spawned s ++ [(pid, child argv)] ∧ y_killed s3 = y_killed s) as [Hs3 Hk3] by (subst s3; destruct s2; cbn in *; by rewrite Hs).
  clearbody s3. clear Hs Hk Ha. destruct (sp_calloc_ok sp); cbn [negb].
  - rewrite bind_step. rewrite Hmk. destruct (set_process_run pid s3 Hx3 Hr) as (H4 & H5 & H6). revert H4 H5 H6.
    generalize (active_set_process id pid s3).2. intros s4 H4 H5 H6. destruct (sp_thread_ok sp); cbn [negb].
    + exists pid, argv. cbn. split_and!; try done; congruence.
    + rewrite !bind_step. intros c. destruct s4; cbn in *. subst. rewrite Hs3. intros [?|[= ->]%list_elem_of_singleton]%elem_of_app; [by left|right]. set_solver.
  - rewrite bind_step. intros c. destruct s3; cbn in *. subst. intros [?|[= ->]%list_elem_of_singleton]%elem_of_app; [by left|right]. set_solver.
Qed.

(** The command of a job and what its process does, here or through ssh. *)
Definition job_command (here : bool) (host : string) : string := if here then j_command (x_job x) else ssh_cmd e (x_job x) host.
Definition job_process (here : bool) : list string → Child := if here then local_child e (x_job x) else remote_child e (x_job x).

(** The same from the start of [spawn_process]. *)
Definition launched (here : bool) (host : string) (s : Sys) (r : option WatchArg) (s' : Sys) : Prop :=
  match r with
  | Some wa => wa_exec wa = id ∧ wa_is_remote wa = negb here ∧ sp_fork sp = Some (wa_pid wa) ∧
      (∃ argv, sp_wordexp sp (job_command here host) = Some argv ∧ y_spawned s' = y_spawned s ++ [(wa_pid wa, job_process here argv)]) ∧
      y_killed s' = y_killed s ∧ x_pid <$> get_exec id s' = Some (wa_pid wa)
  | None => ∀ c, c ∈ y_spawned s' → c ∈ y_spawned s ∨ c.1 ∈ y_killed s'
  end.

Lemma started_launched here host b mk s s1 : get_exec id s = Some x → x_termination_requested x = false → prepared s s1 →
  (∀ pid, wa_exec (mk pid) = id ∧ wa_pid (mk pid) = pid ∧ wa_is_remote (mk pid) = negb here) →
  let r := start_watcher e sp (job_command here host) b (job_process here) mk s1 in launched here host s r.1 r.2.
Proof.
  intros Hx Hr (Hs & Hk & Ha) Hmk. assert (get_exec id s1 = Some x) as Hx1 by (unfold get_exec in *; by rewrite Ha).
  pose proof (start_watcher_run (job_command here host) b (job_process here) mk s1 Hx1 Hr (λ pid, proj1 (Hmk pid))) as H. cbv zeta.
  destruct (start_watcher _ _ _ _ _ _ s1) as [[wa|] s']; cbn [fst snd started launched] in *; [|by rewrite <- Hs].
  destruct H as (pid & argv & -> & Hf & Hw & Hs' & Hk' & Hp). destruct (Hmk pid) as (? & -> & ?). rewrite Hs in Hs'. rewrite Hk in Hk'. eauto 10.
Qed.

Lemma not_started here host s s1 : prepared s s1 → launched here host s None s1.
Proof. intros (Hs & _ & _) c. rewrite Hs. by left. Qed.

Lemma prepare_then {A B} (m : ST Sys A) (f : A → ST Sys B) s Q :
  keeps prepared m → (∀ a, triple (prepared s) (f a) Q) → triple (prepared s) (m ≫= f) Q.
Proof. intros Hm. apply triple_bind. intros s1 Hs. etrans; [exact Hs|]. destruct (m s1) as [a s2] eqn:E. by eapply Hm. Qed.

Lemma spawn_process_run s : get_exec id s = Some x → x_termination_requested x = false →
  let '(local, host) := machine_host (y_registry s) (j_machine_id (x_job x)) 256 in
  let r := spawn_process e sp id s in
  launched (local || negb (str_nonempty (cfg_str (en_cfg e) ssh_user))) host s r.1 r.2.
Proof.
  intros Hx Hr. unfold spawn_process. rewrite bind_step. unfold exec_job. cbn [fst snd st_gets]. rewrite Hx. cbn [fmap option_fmap option_map default].
  rewrite bind_step. cbn [fst snd st_gets]. change (Datatypes.id (x_job x)) with (x_job x). destruct (machine_host _ _ _) as [local host]. cbv zeta.
  destruct (local || _) eqn:Eh; [by apply (started_launched true)|].
  match goal with |- launched _ _ _ (?m s).1 _ => assert (triple (prepared s) m (λ r s', launched false host s r s')) as H; [|by apply H] end.
  assert (∀ s1, prepared s s1 → launched false host s None s1) as Hnone by (intros; by apply not_started).
  apply prepare_then; [apply keeps_modify; intros []; by case_match|]. intros _.
  apply prepare_then; [apply system_prepares|]. intros rc. destruct (negb (rc =? 0)); [exact Hnone|].
  apply prepare_then; [apply system_prepares|]. intros _.
  apply prepare_then; [apply script_prepares|]. intros [script|]; [|exact Hnone].
  apply prepare_then; [apply system_prepares|]. intros rc2. destruct (negb (rc2 =? 0)); [exact Hnone|].
  intros s1 Hs1. by apply (started_launched false).
Qed.
End launch.

(** ** Property *)

(** Finishing without a process removes the execution and touches no process. *)
Lemma finished_run e id st r s : let s' := (finish_without_process e id st r s).2 in
  get_exec id s' = None ∧ y_spawned s' = y_spawned s ∧ y_killed s' = y_killed s.
Proof.
  assert (Processes (λ s', y_spawned s' = y_spawned s ∧ y_killed s' = y_killed s)) as Hp by (intros s1 s2 -> ->; done).
  destruct (finish_processes _ e id st r s (conj eq_refl eq_refl)) as [_ [H1 H2]]. split; [|done].
  pose proof (drops_finish e id st r s) as Hd. destruct (finish_without_process e id st r s) as [u s'].
  specialize (Hd u s' eq_refl). cbn in Hd. destruct Hd as [Hids _]. cbn [snd]. unfold get_exec.
  destruct (where_ (exec_is id) (y_active s')) as [|y l] eqn:E; [done|].
  assert (y ∈ where_ (exec_is id) (y_active s')) as [Hy Hin]%where_elem by (rewrite E; left).
  assert (x_id y ∈ active_ids s') as Hid by by apply list_elem_of_fmap_2. rewrite Hids in Hid. apply list_elem_of_filter in Hid as [Hne _].
  by apply Nat.eqb_eq in Hy.
Qed.


(** A launch whose watcher's thread starts, and one where it does not. *)
Definition demo_execution : Execution := mkExec 3 (row "a" "u" "x" JOB_STATUS_RUNNING 1) false JOB_STATUS_QUEUED "" 0.
Definition demo_ready : Sys := set_y_active [demo_execution] (small_system [row "a" "u" "x" JOB_STATUS_RUNNING 1] [] []).
Definition demo_spawn (thread_ok : bool) : SpawnEnv := mkSpawnEnv (λ cmd, Some [cmd]) (Some 42) true thread_ok.


(** The script that runs before a job is for jobs on this machine only. *)
Example remote_job_skips_pre_job_script (e : Env) (job : Job) (argv : list string) : ch_pre_job (remote_child e job argv) = None.
Proof. reflexivity. Qed.

(** The command of a job on this machine is split by [wordexp] in the service,
    not by a shell: one with a character that [wordexp] refuses, such as a
    pipe, is not started. *)
Example refused_command_is_not_started (e : Env) (words : string → option (list string)) (n : Z) s x :
  get_exec 3 s = Some x → x_termination_requested x = false → words (j_command (x_job x)) = None →
  str_nonempty (cfg_str (en_cfg e) ssh_user) = false → (spawn_process e (mkSpawnEnv words (Some n) true true) 3 s).1 = None.
Proof.
  intros Hx Hr Hw Hu. pose proof (spawn_process_run e (mkSpawnEnv words (Some n) true true) 3 x s Hx Hr) as H.
  destruct (machine_host _ _ _) as [local host]. rewrite Hu, orb_true_r in H. cbv zeta in H. destruct (spawn_process _ _ _ s) as [[wa|] s']; [|done].
  destruct H as (_ & _ & _ & (argv & Hw' & _) & _). cbn in Hw'. congruence.
Qed.
