(* ===== verification/SysExec.v ===== *)
(** The executor keeps the invariant of the process, in every section of its
    threads. *)
From S2P Require Import Prelude Job Uuid Heap Queue Events Json Registry Sql Db DbAdmin DbInv Allocator AllocatorSpec AllocatorProps JobOps Cloud Transfer Config Shell System Store Decision Executor ExecProps ExecutorWin SysInv.

(** ** Leaves *)

(** What a section may do to the parts that the invariant does not speak of. *)
Definition untouched (s s' : Sys) : Prop :=
  y_alloc s' = y_alloc s ∧ y_queue s' = y_queue s ∧ y_events s' = y_events s ∧ y_active s' = y_active s ∧ y_next s' = y_next s.

Section leaves.
Context (T : Db → Prop) `{!TxnState T} (f : option string) (l : option nat) (w : option (list nat)).
#[local] Notation I := (inv T f l w).

Lemma untouched_yields {A} (m : ST Sys A) : (∀ s, untouched s (m s).2) → maintains I m.
Proof. intros Hm s Hs. split; [done|]. destruct (Hm s) as (? & ? & ? & ? & ?). by eapply inv_frame. Qed.

Lemma run_system_yields e cmd : maintains I (run_system e cmd).
Proof. apply untouched_yields. by intros []. Qed.
Lemma kill_yields pid : maintains I (kill_process pid).
Proof. apply untouched_yields. by intros []. Qed.
Lemma remove_files_yields g : maintains I (sys_remove g).
Proof. apply untouched_yields. intros s. unfold sys_remove. destruct (g _); by destruct s. Qed.
Lemma copy_file_yields e src dst : maintains I (copy_file e src dst).
Proof. apply untouched_yields. intros s. unfold copy_file. destruct (_ !! _); [|done]. destruct (en_can_write _ _); by destruct s. Qed.
Lemma init_dirs_yields id : maintains I (store_init_job_dirs id).
Proof. by apply yields_ret. Qed.

Lemma upd_exec_inv id g s : I s →
  (∀ x, x ∈ y_active s → x_id x = id → x_id (g x) = x_id x ∧ j_id (x_job (g x)) = j_id (x_job x)) →
  I (set_y_active (update_where (exec_is id) g (y_active s)) s).
Proof.
  intros [H1 H2 H3 H4 H5 H6 H7] Hg.
  assert (∀ x, x ∈ y_active s → let y := if exec_is id x then g x else x in x_id y = x_id x ∧ j_id (x_job y) = j_id (x_job x)) as Hg'.
  { intros x Hx. cbn zeta. destruct (exec_is id x) eqn:E; [|done]. apply Hg; [done|]. by apply Nat.eqb_eq. }
  clear Hg. assert (x_id <$> update_where (exec_is id) g (y_active s) = x_id <$> y_active s) as Hids.
  { unfold update_where. rewrite <- list_fmap_compose. apply list_fmap_ext. intros i x Hx%list_elem_of_lookup_2. by apply Hg'. }
  destruct s as [a ev q act sd ap ti ru co ki fi cr nx spn]. simpl in *. split; try done.
  - unfold ids_ok in *. simpl in *. by rewrite Hids.
  - intros r Hr. destruct (H6 r Hr) as [?|(x & Hx & Hl & Hj)]; [by left|]. right. simpl in *. destruct (Hg' x Hx) as [Hi Hi'].
    eexists. split; [apply update_where_elem; exists x; split; [done|reflexivity]|]. by rewrite Hi, Hi'.
  - unfold manned in *. simpl in *. by rewrite Hids.
Qed.

Lemma upd_exec_yields id g :
  (∀ x, x_id (g x) = x_id x) → (∀ x, j_id (x_job (g x)) = j_id (x_job x)) → maintains I (upd_exec id g).
Proof. intros H1 H2 s Hs. split; [done|]. by apply upd_exec_inv. Qed.

Lemma upd_job_yields id g : (∀ j, j_id (g j) = j_id j) → maintains I (upd_job id g).
Proof. intros H. apply upd_exec_yields; intros []; cbn; [done|apply H]. Qed.

Lemma exec_set_status_yields e id st r : maintains I (exec_set_status_r e id st r).
Proof.
  intros s Hs. split; [done|]. unfold exec_set_status_r. rewrite bind_step. unfold exec_job. cbn [fst snd st_gets]. fold (job_of id s).
  rewrite bind_step. pose proof (set_status_yields T f l w e (job_of id s) st r s Hs) as [Hsame Hs'].
  pose proof (on_jenv_active (job_set_status_r (en_print_object e) (job_of id s) st r) s) as [Hact _].
  change (on_jenv _ s) with (sys_set_status_r e (job_of id s) st r s) in Hact. destruct (sys_set_status_r _ _ _ _ s) as [[rc j] s1].
  cbn [fst snd mret st_ret] in *. rewrite bind_step. cbn [fst snd upd_job upd_exec st_modify mret st_ret]. apply upd_exec_inv; [done|].
  intros x Hx Hid. split; [by destruct x|]. destruct x as [i j' a b c d]; cbn in *. destruct Hsame as [-> _].
  unfold job_of. rewrite Hact in Hx. rewrite (ids_unique s id _ (in_ids _ _ _ _ s Hs) Hx Hid). done.
Qed.

Lemma deprovision_exec_yields e m : maintains I (maybe_auto_deprovision e m).
Proof.
  unfold maybe_auto_deprovision. follow.
Qed.
End leaves.
#[export] Hint Resolve run_system_yields kill_yields remove_files_yields copy_file_yields init_dirs_yields upd_exec_yields upd_job_yields
  exec_set_status_yields deprovision_exec_yields : inv.
#[export] Hint Extern 1 (∀ j : Job, j_id _ = j_id _) => by intros [] : inv.
#[export] Hint Extern 1 (∀ x : Execution, _ = _) => by intros [] : inv.
#[export] Hint Extern 4 (yields (inv _ _ _ _) (st_modify _) _) => apply modify_frame; by intros [] : inv.

Section files.
Context (T : Db → Prop) `{!TxnState T} (f : option string) (l : option nat) (w : option (list nat)).
#[local] Notation I := (inv T f l w).

Lemma register_file_yields stat i t path : maintains (db_fine T) (artifact_register_file stat i t path).
Proof. unfold artifact_register_file. follow; db_fun. Qed.
#[local] Hint Resolve register_file_yields : inv.

Lemma collect_entries_yields stat below i dir entries n :
  (∀ p, maintains (db_fine T) (below p)) → maintains (db_fine T) (collect_entries stat below i dir entries n).
Proof.
  intros Hb. revert n. induction entries as [|x entries IH]; intros n; cbn [collect_entries]; [follow|]. cbv zeta.
  repeat case_match; try apply IH; (eapply yields_bind; [first [apply Hb|apply register_file_yields]|]); intros z _; case_match; (apply IH || follow).
Qed.

Lemma collect_tree_yields stat readdir levels i dir : maintains (db_fine T) (collect_output_tree stat readdir levels i dir).
Proof.
  revert dir. induction levels as [|levels IH]; intros dir; cbn [collect_output_tree]; [follow|]. destruct (readdir dir); [|follow].
  by apply collect_entries_yields.
Qed.
#[local] Hint Resolve collect_tree_yields : inv.

Lemma collect_yields e i : maintains I (sys_artifact_collect_job e i).
Proof.
  unfold sys_artifact_collect_job. eapply yields_bind; [by apply (yields_gets _ _ (λ _, True))|]. intros fs _.
  apply yields_ydb. unfold artifact_collect_job. follow.
Qed.

Lemma forward_entries_yields e src dst entries n : maintains I (forward_entries e src dst entries n).
Proof.
  revert n. induction entries as [|x entries IH]; intros n; cbn [forward_entries]; [follow|]. destruct (_ || _); [done|]. cbv zeta.
  eapply yields_bind; [by apply (yields_gets _ _ (λ _, True))|]. intros [[]|] _; try apply IH. follow; apply IH.
Qed.
#[local] Hint Resolve forward_entries_yields : inv.

Lemma forward_yields e a b : maintains I (store_forward_outputs e a b).
Proof. unfold store_forward_outputs. follow. Qed.
End files.
#[export] Hint Resolve collect_yields forward_yields : inv.

(** ** Executions come and go *)

(** An execution keeps the job in flight, or takes it over. *)
Definition takes_over (job : Job) (f g : option string) : Prop := g = f ∨ f = Some (j_id job) ∧ g = None.

Lemma register_triple e job f g : takes_over job f g →
  triple (calm f None None) (active_register e job) (λ o, calm (if o then g else f) None None).
Proof.
  intros Hf s Hs. unfold active_register. destruct (en_malloc_ok e); cbn [negb]; [|done].
  rewrite bind_step. cbn [fst snd st_gets]. destruct (y_shutting_down s); [done|]. rewrite bind_step. cbn [fst snd st_gets].
  rewrite bind_step. cbn [fst snd st_modify mret st_ret]. destruct Hs as [H1 H2 H3 [H4 H4'] [H5 H5'] H6 _].
  destruct s as [a ev q act sd ap ti ru co ki fi cr nx spn]. simpl in *. rewrite Forall_forall in H5'. split; try done.
  - split; cbn; [|constructor; [lia|]].
    + apply NoDup_cons. split; [|done]. intros Hin%H5'. lia.
    + apply Forall_forall. intros i Hi%H5'. lia.
  - intros r Hr. cbn in *. destruct (H6 r Hr) as [E|(x & Hx & _ & Hj)]; [|right; exists x; set_solver].
    destruct Hf as [->|[-> ->]]; [by left|]. right. injection E as E. eexists. split; [left|done].
Qed.

(** The execution that does not count any more is removed. *)
Lemma unregister_triple f id : triple (calm f (Some id) None) (active_unregister id) (λ _, calm f None None).
Proof.
  intros s [H1 H2 H3 H4 [H5 H5'] H6 _]. destruct s as [a ev q act sd ap ti ru co ki fi cr nx spn]. simpl in *. split; try done.
  - assert (x_id <$> delete_where (exec_is id) act `sublist_of` x_id <$> act) as Hsub by apply fmap_sublist, where_sublist.
    split; cbn; [by eapply sublist_NoDup|]. apply Forall_forall. intros i Hi. simpl in H5'. rewrite Forall_forall in H5'.
    apply H5'. by eapply elem_of_sublist.
  - intros r Hr. destruct (H6 r Hr) as [?|(x & Hx & Hl & Hj)]; [by left|]. right. exists x. split; [|done]. cbn in *.
    unfold delete_where. apply where_elem. split; [|done]. unfold exec_is. destruct (Nat.eqb_spec (x_id x) id); [congruence|done].
Qed.

(** [exec_job], the release of its job, and the rest. *)
Lemma release_then {B} id f w (k : Job → ST Sys B) R :
  (∀ job, triple (calm f (Some id) w) (k job) R) →
  triple (calm f None w) (job ← exec_job id; on_alloc (alloc_release (j_id job)) ;; k job) R.
Proof.
  intros Hk s Hs. pose proof (release_ending id f w s Hs) as H. rewrite !bind_step in *. cbn [fst snd mret st_ret] in *.
  by apply Hk.
Qed.

(** Whatever job the scheduler's thread is dispatching. *)
Section exec.
Context (e : Env) (f : option string).
(** Their threads are counted below. *)
#[local] Notation C := (calm f None None).

Lemma abandon_yields id : maintains C (spawn_abandon id).
Proof.
  apply triple_maintains. unfold spawn_abandon. apply release_then. intros job.
  eapply triple_bind; [apply unregister_triple|]. by intros _ s Hs.
Qed.
#[local] Hint Resolve abandon_yields : inv.

Lemma release_triple id : triple C (release_execution e id) (λ _, calm f (Some id) None).
Proof. apply release_then. intros job. apply maintains_triple. auto with inv. Qed.

Lemma leave_yields id : maintains C (release_execution e id ;; active_unregister id).
Proof. apply triple_maintains. eapply triple_bind; [apply release_triple|]. intros ?. apply unregister_triple. Qed.
#[local] Hint Resolve leave_yields : inv.

Lemma finish_yields id st r : maintains C (finish_without_process e id st r).
Proof.
  unfold finish_without_process, active_terminal_snapshot. eapply yields_bind; [by apply (yields_gets _ _ (λ _, True))|].
  intros requested _. destruct (default _ requested) as [status reason]. unfold exec_job.
  eapply yields_bind; [by apply (yields_gets _ _ (λ _, True))|]. intros job _.
  apply (yields_bind _ _ _ (λ _, True)); [follow|]. intros _ _. apply leave_yields.
Qed.
#[local] Hint Resolve finish_yields : inv.

Lemma open_logs_yields child : maintains C (open_logs e child).
Proof. unfold open_logs, open_log. follow. Qed.
#[local] Hint Resolve open_logs_yields : inv.
Lemma start_watcher_yields sp cmd b child mk : maintains C (start_watcher e sp cmd b child mk).
Proof. unfold start_watcher, active_set_process, active_clear_process, active_terminal_snapshot. follow. Qed.
#[local] Hint Resolve start_watcher_yields : inv.

Lemma run_script_yields job a b : maintains C (write_run_script e job a b).
Proof. unfold write_run_script, write_script. follow. Qed.
#[local] Hint Resolve run_script_yields : inv.

Lemma spawn_process_yields sp id : maintains C (spawn_process e sp id).
Proof. unfold spawn_process, exec_job. follow. apply untouched_yields. intros y. cbn. case_match; by destruct y. Qed.
#[local] Hint Resolve spawn_process_yields : inv.

Lemma launcher_yields sp id : maintains C (launcher_thread e sp id).
Proof. unfold launcher_thread, launcher_with, exec_job, active_terminal_snapshot. follow. Qed.

Lemma watcher_collect_yields wa code : maintains C (watcher_collect e wa code).
Proof. unfold watcher_collect, exec_job, active_terminal_snapshot, active_clear_process. follow. Qed.

Lemma watcher_complete_yields wa code t : maintains C (watcher_complete e wa code t).
Proof.
  unfold watcher_complete. unfold exec_job.
  eapply yields_bind; [by apply (yields_gets _ _ (λ _, True))|]. intros job _.
  apply (yields_bind _ _ _ (λ _, True)); [|intros _ _; eapply yields_bind; [apply collect_yields, _|intros _ _]].
  { destruct t as [[]|]; [follow|]. destruct (exit_outcome wa code). follow. }
  apply triple_maintains. eapply triple_bind; [apply release_triple|]. intros ?.
  eapply triple_bind; [|intros ?; apply unregister_triple]. apply maintains_triple. follow.
Qed.
#[local] Hint Resolve launcher_yields watcher_collect_yields watcher_complete_yields : inv.

(** *** Termination requests *)

Lemma request_yields T `{!TxnState T} g l w id st r : maintains (inv T g l w) (upd_exec id (request_termination st r)).
Proof.
  apply upd_exec_yields; intros x; unfold request_termination; destruct (x_termination_requested x); [done..|].
  by destruct x as [? []].
Qed.

Lemma request_termination_yields w i st r : maintains (calm f None w) (active_request_termination e i st r).
Proof. pose proof request_yields. unfold active_request_termination. follow. Qed.
#[local] Hint Resolve request_termination_yields : inv.

Lemma shutdown_yields w : maintains (calm f None w) (executor_shutdown e).
Proof.
  unfold executor_shutdown. eapply yields_bind; [auto with inv|]. intros _ _.
  eapply yields_bind; [by apply (yields_gets _ _ (λ _, True))|]. intros xs _. apply yields_iter. intros x _.
  pose proof request_yields. unfold shutdown_execution. follow.
Qed.

(** *** Starting a job *)

Lemma spawn_register_triple job g : takes_over job f g → triple C (spawn_register e job) (λ _, calm g None None).
Proof.
  intros Hf. unfold spawn_register. eapply triple_bind; [by apply register_triple|]. intros [id|]; [by intros s Hs|].
  eapply triple_bind_yields; [apply set_status_yields, _|]. intros _ _.
  apply triple_then_ret. destruct Hf as [->|[-> ->]]; [apply maintains_triple, release_yields|apply release_starting].
Qed.

Lemma spawn_claim_yields id : maintains C (spawn_claim e id).
Proof. unfold spawn_claim, exec_job. follow. Qed.
Lemma spawn_start_yields id : maintains C (spawn_start e id).
Proof. unfold spawn_start, exec_job, y_now. follow. Qed.
#[local] Hint Resolve spawn_claim_yields spawn_start_yields : inv.

Lemma thread_run_yields c t : maintains C (thread_run e c t).
Proof.
  destruct t; cbn [thread_run]; unfold executor_cancel, executor_timeout; follow.
  apply triple_maintains. eapply triple_weaken; [by apply spawn_register_triple; left|done].
Qed.

(** *** The Windows build *)

Context (wn : WinEnv).

Lemma run_sync_yields cmd : maintains C (run_sync_win wn cmd).
Proof. unfold run_sync_win. follow. Qed.
Lemma win_reason_yields id text : maintains C (set_reason wn id text).
Proof. unfold set_reason. follow. Qed.
Lemma write_script_yields sep job a b : maintains C (write_script sep e job a b).
Proof. unfold write_script. follow. Qed.
Lemma win_watcher_yields cmd child mk failed : maintains C failed → maintains C (win_start_watcher wn cmd child mk failed).
Proof. intros H. unfold win_start_watcher, active_set_process, active_clear_process, active_terminal_snapshot. follow. Qed.
Lemma pre_job_yields : maintains C (pre_job e wn).
Proof. unfold pre_job. follow. Qed.
#[local] Hint Resolve run_sync_yields win_reason_yields write_script_yields win_watcher_yields pre_job_yields : inv.

Lemma spawn_local_yields id job : maintains C (spawn_local e wn id job).
Proof. unfold spawn_local. follow. apply win_watcher_yields. follow. Qed.
Lemma spawn_remote_yields id job host : maintains C (spawn_remote e wn id job host).
Proof. unfold spawn_remote. follow. apply untouched_yields. intros y. case_match; by destruct y. Qed.
#[local] Hint Resolve spawn_local_yields spawn_remote_yields : inv.
Lemma spawn_win_yields id : maintains C (spawn_process_win e wn id).
Proof. unfold spawn_process_win, exec_job. follow. Qed.
#[local] Hint Resolve spawn_win_yields : inv.

Lemma launcher_win_yields id : maintains C (launcher_thread_win e wn id).
Proof. unfold launcher_thread_win, launcher_with, exec_job, active_terminal_snapshot. follow. Qed.
Lemma collect_win_yields wa code : maintains C (watcher_collect_win e wn wa code).
Proof. unfold watcher_collect_win, exec_job, active_terminal_snapshot, active_clear_process. follow. Qed.
#[local] Hint Resolve launcher_win_yields collect_win_yields thread_run_yields : inv.

Lemma thread_run_win_yields c t : maintains C (thread_run_win e wn c t).
Proof. destruct t; cbn [thread_run_win]; follow. Qed.
End exec.

Lemma run_section_yields e f win c t : maintains (calm f None None) (run_section e win c t).
Proof. destruct win; [apply thread_run_win_yields|apply thread_run_yields]. Qed.

#[export] Hint Resolve launcher_yields request_termination_yields shutdown_yields : inv.

(** ** Who works on the executions *)

Lemma inv_forget T f l w s : inv T f l w s → inv T f l None s.
Proof. intros [H1 H2 H3 H4 H5 H6 _]. by split. Qed.

Lemma inv_know T f l L s : inv T f l None s → active_ids s ≡ₚ L → inv T f l (Some L) s.
Proof. intros [H1 H2 H3 H4 H5 H6 _] HL. split; try done. by intros ? [= <-]. Qed.

Lemma inv_known T f l L s : inv T f l (Some L) s → active_ids s ≡ₚ L.
Proof. intros Hs. exact (in_manned _ _ _ _ s Hs L eq_refl). Qed.

(** More executions are worked on. *)
Definition add_workers (ids : list nat) (w : option (list nat)) : option (list nat) := (λ L, ids ++ L) <$> w.

Lemma add_no_workers w : add_workers [] w = w.
Proof. by destruct w. Qed.
