(* ===== verification/SysSched.v ===== *)
(** The scheduler keeps the invariant of the process: held jobs, timeouts,
    every stage of the scan, start-up, shut-down and cancellation. *)
From S2P Require Import Prelude Job Uuid Heap Queue Events Json Registry Sql Db DbAdmin DbInv Allocator AllocatorSpec AllocatorProps JobOps Cloud Transfer Config Shell System Store Decision Executor ExecProps Scheduler SchedSteps SysInv SysExec.

(** ** Decisions *)

Definition modest (o : option dc_result) : Prop := ∀ r, o = Some r → dr_target_cores r ≤ INT_MAX.

Lemma first_choices_bound p zs :
  Forall (λ v, 0 ≤ v ≤ 10000) (dp_map p) → sumZ (snd <$> first_choices p zs) ≤ 10000 * Z.of_nat (length zs).
Proof.
  intros H. assert (Forall (λ z, z ≤ 10000) (snd <$> first_choices p zs)) as Hall.
  { apply Forall_fmap, Forall_lookup. unfold first_choices, imap_zones. intros i c.
    rewrite list_lookup_imap. intros (z & Hz & ->)%fmap_Some. simpl. unfold zone_cores. case_match; [|done].
    by apply fidelity_cores_nonneg. }
  assert (length (snd <$> first_choices p zs) = length zs) as <-.
  { rewrite length_fmap. unfold first_choices, imap_zones. by rewrite length_imap. }
  induction Hall as [|x l Hx _ IH]; [done|]. cbn [length]. change (sumZ (x :: l)) with (x + sumZ l). lia.
Qed.

Lemma decide_zones_modest p available zs r :
  Forall (λ v, 0 ≤ v ≤ 10000) (dp_map p) → (length zs ≤ 64)%nat → decide_zones p available zs = Some r →
  dr_target_cores r ≤ INT_MAX.
Proof.
  intros Hmap Hlen E. pose proof (first_choices_bound p zs Hmap) as Hb.
  pose proof (decide_zones_ok p available zs r Hmap E) as (_ & _ & Hav & _). revert E. unfold decide_zones.
  destruct (allocation_document p zs (first_choices p zs)); simpl; [|done]. set (want := sumZ _) in *. unfold INT_MAX.
  destruct (Z.ltb_spec 0 available) as [Ha|Ha].
  - intros E. specialize (Hav Ha). destruct (Z.ltb_spec available want) as [?|?]; [lia|]. revert E. cbn [andb]. intros [= <-]. cbn. lia.
  - rewrite Z.ltb_irrefl. cbn [andb]. intros [= <-]. cbn. lia.
Qed.

(** Whatever job the scheduler's thread is dispatching. *)
Section sched.
Context (e : Env) (f : option string) (w : option (list nat)).
#[local] Notation C := (calm f None w).

Lemma decide_job_yields id : yields C (decide_job e id) modest.
Proof.
  unfold decide_job. eapply yields_bind; [by apply (yields_gets _ _ (λ _, True))|]. intros ctx _.
  eapply yields_bind; [by apply (yields_gets _ _ (λ _, True))|]. intros fs _. apply yields_ydb. unfold decision_core_decide.
  eapply yields_bind; [db_fun|]. intros [j|] _; [|apply yields_ret; by intros r [= <-]].
  destruct (presim_zones _ _ _) as [[t zs]|] eqn:Ez; apply yields_ret; [|done]. intros r.
  apply presim_zones_count in Ez. apply decide_zones_modest; [apply decision_params_map|lia].
Qed.
#[local] Hint Resolve decide_job_yields : inv.

Lemma set_reason_yields i r : maintains C (set_reason i r).
Proof. unfold set_reason. follow. Qed.
#[local] Hint Resolve set_reason_yields : inv.

Lemma ok_with_cores j n : job_ok j → n ≤ INT_MAX → job_ok (with_req_cores n j).
Proof. intros [Hf Hl] Hn. split; [|by destruct j]. revert Hf. unfold job_fits, res_le. destruct j. cbn. lia. Qed.

Lemma apply_decision_yields job r : job_ok job → dr_target_cores r ≤ INT_MAX → yields C (apply_decision job r) job_ok.
Proof.
  intros Hj Hr. unfold apply_decision. apply (yields_bind _ _ _ (λ _, True)); [follow|]. intros _ _. apply yields_ret.
  case_match; [by apply ok_with_cores|done].
Qed.

Lemma create_refinements_yields job zones zi depends : job_ok job → maintains C (create_refinements e job zones zi depends).
Proof.
  intros Hj. revert zi depends. induction zones as [|z zones IH]; intros zi depends; cbn [create_refinements]; [follow|].
  destruct (negb _); [done|]. cbv zeta. destruct (_ && _); [done|].
  eapply yields_bind; [apply job_create_yields; [apply _|..]|].
  1: { unfold int_ok, zone_int, INT_MAX. case_match; [|lia]. case_match; [apply d_to_int_range|lia]. }
  1-3: destruct Hj as [Hf _]; revert Hf; unfold job_fits, res_le, int_ok; destruct job; cbn; lia.
  intros [child|] Hc; [|done]. specialize (Hc _ eq_refl).
  eapply yields_bind; [apply init_dirs_yields|]. intros _ _. eapply yields_bind; [by apply queue_push_yields|].
  intros _ _. apply IH.
Qed.
#[local] Hint Resolve create_refinements_yields : inv.

Lemma refine_yields job doc : job_ok job → maintains C (refine e job doc).
Proof. intros Hj. unfold refine. follow. Qed.
#[local] Hint Resolve refine_yields : inv.

(** ** Held jobs and timeouts *)

Lemma held_decision_yields job : job_ok job → maintains C (held_decision e job).
Proof.
  intros Hj. unfold held_decision. eapply yields_bind; [apply decide_job_yields|]. intros [r|] Hr; [|follow].
  eapply yields_bind; [apply apply_decision_yields; [done|by apply Hr]|]. intros job' Hj'. follow.
Qed.

Lemma push_changed_yields job st r : job_ok job →
  maintains C (x ← sys_set_status_r e job st r; sys_queue_push e x.2 ;; mret tt).
Proof.
  intros Hj. eapply yields_bind; [apply set_status_yields, _|]. intros x Hx.
  eapply yields_bind; [apply queue_push_yields; exact (same_job_ok _ _ Hx Hj)|]. intros. by apply yields_ret.
Qed.

Lemma release_held_yields job : maintains C (release_held e job).
Proof.
  unfold release_held. eapply yields_bind; [by apply (yields_gets _ _ (λ _, True))|]. intros b _. destruct (negb b); [follow|].
  eapply yields_bind; [apply yields_ydb, get_job_yields, _|]. intros [full|] Hf; [|follow]. by apply push_changed_yields, Hf.
Qed.
#[local] Hint Resolve held_decision_yields release_held_yields : inv.

Lemma forward_parents_yields ps c : maintains C (forward_parents e ps c).
Proof. induction ps as [|p ps IH]; cbn [forward_parents]; follow. Qed.
#[local] Hint Resolve forward_parents_yields : inv.

Lemma check_held_yields job : job_ok job → maintains C (check_held_job e job).
Proof. intros Hj. unfold check_held_job, y_now. follow. Qed.

Lemma check_held_jobs_yields : maintains C (scheduler_check_held_jobs e).
Proof.
  unfold scheduler_check_held_jobs. eapply yields_bind; [apply yields_ydb, load_jobs_yields, _|]. intros r Hr.
  apply yields_iter. intros j Hj. rewrite Forall_forall in Hr. by apply check_held_yields, Hr.
Qed.

Lemma check_timeout_yields now job : maintains C (check_timeout e now job).
Proof.
  unfold check_timeout, deprovision_after_timeout, executor_timeout. pose proof release_yields. follow.
Qed.

Lemma check_timeouts_yields : maintains C (scheduler_check_timeouts e).
Proof.
  unfold scheduler_check_timeouts. eapply yields_bind; [apply yields_ydb, load_jobs_yields, _|]. intros r _.
  destruct (_ <? 0); [follow|]. unfold y_now. eapply yields_bind; [by apply (yields_gets _ _ (λ _, True))|]. intros now _.
  apply yields_iter. intros j _. apply check_timeout_yields.
Qed.
#[local] Hint Resolve check_held_jobs_yields check_timeouts_yields : inv.

Lemma cancel_job_yields i r : maintains C (scheduler_cancel_job e i r).
Proof. unfold scheduler_cancel_job, executor_cancel. follow. Qed.
End sched.
#[export] Hint Resolve decide_job_yields set_reason_yields refine_yields : inv.

(** ** The scan *)

Section scan.
Context (e : Env) (w : option (list nat)).
#[local] Notation C := (calm None None w).

(** The execution whose launcher thread an outcome has started. *)
Definition started (o : ScanOutcome) : list nat := match o with Dispatched _ launched => option_list launched | _ => [] end.

(** The job whose resources a stage has reserved. *)
Definition in_flight (r : ScanStep) : option string := match r with Settled _ => None | Reserved job _ => Some (j_id job) end.

(** A stage keeps the invariant, up to the job that it reserves for, and
    starts no thread. *)
Definition stage (m : ST Sys ScanStep) : Prop :=
  triple C m (λ r s, (∀ o, r = Settled o → started o = []) ∧ calm (in_flight r) None w s).

Lemma stage_settled (m : ST Sys ScanStep) : yields C m (λ r, ∃ o, r = Settled o ∧ started o = []) → stage m.
Proof. intros H. eapply triple_weaken; [exact H|]. intros r s [(o & -> & Ho) Hs]. split; [by intros ? [= <-]|exact Hs]. Qed.

Lemma stage_ret o : started o = [] → stage (mret (Settled o)).
Proof. intros Ho. apply stage_settled, yields_ret. by exists o. Qed.

Lemma stage_bind {A} (m : ST Sys A) (k : A → ST Sys ScanStep) : maintains C m → (∀ a, stage (k a)) → stage (m ≫= k).
Proof. intros Hm Hk. eapply triple_bind_yields; [exact Hm|]. intros a _. apply Hk. Qed.

Lemma requeue_stage job : job_ok job → stage (requeue e job).
Proof. intros Hj. unfold requeue. apply stage_bind; [by apply queue_push_yields|]. intros _. by apply stage_ret. Qed.

(** The reason is recorded and the job pushed back. *)
Lemma reason_requeue_stage job i r : job_ok job → stage (set_reason i r ;; requeue e job).
Proof. intros Hj. apply stage_bind; [auto with inv|]. intros _. by apply requeue_stage. Qed.

Lemma reserve_stage_keeps job : job_ok job → stage (reserve_stage e job).
Proof.
  intros Hj. unfold reserve_stage. eapply triple_bind; [apply reserve_triple, Hj|].
  intros [rc mid]. cbn [fst]. destruct (rc =? 0); cbn [negb]; [|by apply requeue_stage].
  eapply triple_bind_yields; [by apply (yields_gets _ _ (λ _, True))|]. intros m _. case_match.
  - eapply triple_bind; [apply release_starting|]. intros ?. by apply requeue_stage.
  - assert (j_id (with_machine_id (cbuf 64 mid) job) = j_id job) as Hid by by destruct job. cbv zeta. rewrite <- Hid at 1.
    by intros s Hs.
Qed.

Lemma auto_provision_stage job : job_ok job → stage (auto_provision e job).
Proof.
  intros Hj. unfold auto_provision. apply stage_bind.
  { apply untouched_yields. intros s. cbn. case_match; by destruct s. }
  intros _. apply stage_bind; [apply provision_yields; exact (proj1 Hj)|]. intros [rc mid]. cbv zeta.
  apply stage_bind; [follow|]. intros _. by apply requeue_stage.
Qed.

Lemma allocate_stage_keeps job : job_ok job → stage (allocate_stage e job).
Proof.
  intros Hj. unfold allocate_stage. apply stage_bind; [by apply yields_gets|]. intros [|]; [by apply reserve_stage_keeps|].
  apply stage_bind; [by apply yields_gets|]. intros [|]; [by apply auto_provision_stage|].
  apply stage_bind; [by apply yields_gets|]. intros d. by apply reason_requeue_stage.
Qed.

Lemma decision_stage_keeps job : job_ok job → stage (decision_stage e job).
Proof.
  intros Hj. unfold decision_stage. destruct (negb _); [by apply allocate_stage_keeps|].
  eapply triple_bind_yields; [apply decide_job_yields|]. intros [r|] Hr; [|by apply allocate_stage_keeps].
  eapply triple_bind_yields; [apply apply_decision_yields; [done|by apply Hr]|]. intros job' Hj'.
  apply stage_bind; [follow|]. intros [|]; [by apply stage_ret|].
  destruct (dr_action r); try (by apply allocate_stage_keeps); try (by apply reason_requeue_stage);
    (apply stage_bind; [auto with inv|]; intros _; by apply allocate_stage_keeps).
Qed.

Lemma presim_stage_keeps job : job_ok job → stage (presim_stage e job).
Proof.
  intros Hj. unfold presim_stage. cbv zeta. apply stage_bind; [by apply yields_gets|]. intros has.
  destruct (negb _); [by apply decision_stage_keeps|].
  eapply triple_bind_yields; [apply job_create_yields; [apply _|unfold int_ok, INT_MAX; lia..]|].
  intros [child|] Hc; [specialize (Hc _ eq_refl)|by apply decision_stage_keeps].
  repeat (apply stage_bind; [auto with inv|]; intros ?). by apply stage_ret.
Qed.

Lemma affinity_stage_keeps job : job_ok job → stage (affinity_stage e job).
Proof.
  intros Hj. unfold affinity_stage. destruct (negb _); [by apply presim_stage_keeps|].
  eapply triple_bind_yields; [apply yields_ydb, get_job_yields, _|]. intros [ref|] _; [|by apply presim_stage_keeps].
  case_match; [|by apply reason_requeue_stage]. eapply triple_bind; [apply reserve_on_triple, Hj|].
  intros rc. cbv beta. destruct (rc =? 0); [|by apply reason_requeue_stage].
  assert (j_id (with_machine_id (cbuf 64 (j_machine_id ref)) job) = j_id job) as Hid by by destruct job. cbv zeta. rewrite <- Hid at 1.
  by intros s Hs.
Qed.

Lemma admit_job_stage job : job_ok job → stage (admit_job e job).
Proof.
  intros Hj. unfold admit_job, quota_stage. apply stage_bind; [auto with inv|]. intros p. destruct (negb _); [by apply stage_ret|].
  apply stage_bind; [auto with inv|]. intros [rc reason]. destruct (negb _); [by apply reason_requeue_stage|by apply affinity_stage_keeps].
Qed.

(** ** Start-up, shut-down and cancellation *)

Lemma restore_jobs_yields jobs : Forall job_ok jobs → maintains C (restore_jobs e jobs).
Proof. unfold y_now. induction 1 as [|j jobs Hj _ IH]; cbn [restore_jobs]; [follow|]. unfold y_now. follow. Qed.

Lemma new_queue_yields q : (∀ x, q = Some x → queue_ok x ∧ q_heap x = []) → maintains C (st_modify (set_y_queue q)).
Proof.
  intros Hq. apply yields_modify. intros s [H1 H2 H3 H4 H5 H6 H7]. destruct s. split; try done. intros x E. simpl in *. subst q.
  destruct (Hq x eq_refl) as [Hok ->]. by split.
Qed.

Lemma scheduler_init_yields ok : maintains C (scheduler_init e ok).
Proof.
  unfold scheduler_init. destruct (negb ok).
  { eapply yields_bind; [by apply new_queue_yields|]. intros. by apply yields_ret. }
  eapply yields_bind; [apply new_queue_yields; intros x [= <-]; split; [apply queue_create_ok; done|done]|]. intros _ _.
  eapply yields_bind; [apply yields_ydb, recover_yields|]. intros _ _.
  eapply yields_bind; [apply yields_ydb, load_jobs_yields, _|]. intros r Hr.
  apply (yields_bind _ _ _ (λ _, True)); [|intros; by apply yields_ret]. destruct (_ <? 0); [by apply yields_ret|by apply restore_jobs_yields].
Qed.
End scan.

(** The outcomes of a scan, in any order. *)
Definition all_started (os : list ScanOutcome) : list nat := os ≫= started.

(** ** The hand-over to the executor *)

(** What the thread holds in [executor_spawn]: the reservation, then the
    execution. *)
Definition spawn_flight (sp : Spawning) : option string := match sp with SRegister job => Some (j_id job) | _ => None end.
Definition spawn_thread (sp : Spawning) : Thread :=
  match sp with SRegister job => TRegister job | SClaim id => TClaim id | SStart id => TStart id end.
Definition spawn_ids (sp : Spawning) : list nat := thread_exec (spawn_thread sp).

Section spawn.
Context (e : Env).

Lemma spawn_section_calm sp :
  triple (calm (spawn_flight sp) None None) (spawn_section e sp) (λ r, calm (r.1 ≫= spawn_flight) None None).
Proof.
  intros s Hs. rewrite spawn_section_run. destruct sp as [job|id|id]; cbn zeta; cbn [fst snd].
  - pose proof (spawn_register_triple e _ job None ltac:(by right) s Hs) as H. by destruct (spawn_register e job s).1.
  - pose proof (spawn_claim_yields e None id s Hs) as [_ H]. by case_match.
  - by apply spawn_start_yields.
Qed.

(** The execution left in the hands of the thread, or of a new one. *)
Definition handed (r : option Spawning * option nat) : list nat := match r.1 with Some sp => spawn_ids sp | None => option_list r.2 end.

Lemma spawn_section_ids sp s L : ids_ok s → active_ids s ≡ₚ spawn_ids sp ++ L →
  active_ids (spawn_section e sp s).2 ≡ₚ handed (spawn_section e sp s).1 ++ L.
Proof.
  intros [Hnd _] HL. rewrite spawn_section_run. unfold handed. destruct sp as [job|id|id]; cbn zeta; cbn [fst snd].
  - cbn in HL. unfold spawn_register. rewrite bind_step. destruct (active_register e job s) as [o s1] eqn:E. apply register_ids in E.
    destruct o as [id|]; cbn [fst snd mret st_ret fmap option_fmap option_map].
    + destruct E as (_ & -> & _). by rewrite HL.
    + rewrite <- HL. destruct E as [<- _]. rewrite !bind_step. cbn [fst snd fmap option_fmap option_map option_list app].
      assert (keeps same_ids (sys_set_status_r e job JOB_STATUS_FAILED "Executor unavailable" ;; on_alloc (alloc_release (j_id job)))) as Hk by kept.
      destruct (Hk s1 _ _ (surjective_pairing _)) as [Hk' _]. rewrite bind_step in Hk'. by apply reflexive_eq.
  - destruct (spawn_claim e id s) as [rc s1] eqn:E. apply drops_claim in E. unfold failed in E. cbn [fst snd].
    destruct (rc =? 0); cbn [negb] in E; destruct E as [-> _]; [exact HL|]. by apply filter_ne_perm.
  - destruct (spawn_start e id s) as [rc s1] eqn:E. apply drops_start in E. unfold failed in E. cbn [fst snd].
    destruct (rc =? 0); cbn [negb] in E; destruct E as [-> _]; [exact HL|]. by apply filter_ne_perm.
Qed.

Lemma spawn_section_workers sp w : triple (calm (spawn_flight sp) None (add_workers (spawn_ids sp) w)) (spawn_section e sp)
  (λ r, calm (r.1 ≫= spawn_flight) None (add_workers (handed r) w)).
Proof.
  intros s Hs. pose proof (spawn_section_calm sp s (inv_forget _ _ _ _ _ Hs)) as Hc. cbv beta in Hc. destruct w as [L|]; [|exact Hc].
  apply inv_know; [exact Hc|]. apply spawn_section_ids; [exact (in_ids _ _ _ _ s Hs)|by apply inv_known in Hs].
Qed.

(** To the end. *)
Lemma spawn_sections_workers n sp w : (spawn_left sp ≤ n)%nat →
  triple (calm (spawn_flight sp) None (add_workers (spawn_ids sp) w)) (spawn_sections e n sp) (λ r, calm None None (add_workers (option_list r) w)).
Proof.
  revert sp. induction n as [|n IH]; intros sp Hn; [by destruct sp; cbn in Hn; lia|]. intros s Hs. cbn [spawn_sections]. rewrite bind_step.
  pose proof (spawn_section_workers sp w s Hs) as Hr. destruct (spawn_section e sp s) as [[sp1 l] s1] eqn:E. unfold handed in Hr. cbn [fst snd] in *.
  destruct sp1 as [sp1|]; [|exact Hr]. apply spawn_section_left in E. apply IH; [lia|exact Hr].
Qed.

Lemma executor_spawn_workers job w :
  triple (calm (Some (j_id job)) None w) (executor_spawn e job) (λ r, calm None None (add_workers (option_list r.2) w)).
Proof.
  intros s Hs. pose proof (spawn_sections_workers 3 (SRegister job) w ltac:(done) s) as H. rewrite spawn_is_executor_spawn in H. apply H.
  cbn. by rewrite add_no_workers.
Qed.

Lemma dispatch_triple job w : triple (calm (Some (j_id job)) None w) (scheduler_dispatch e job) (λ r, calm None None (add_workers (option_list r) w)).
Proof.
  unfold scheduler_dispatch. eapply triple_bind_yields; [apply yields_ydb, get_job_yields, _|]. intros o _.
  destruct (negb _).
  - eapply triple_bind; [apply release_starting|]. intros ? s Hs. cbn. by rewrite add_no_workers.
  - eapply triple_bind; [apply executor_spawn_workers|]. by intros r s Hs.
Qed.

Lemma dispatch_to_triple job d w : triple (calm (Some (j_id job)) None w) (dispatch_to e job d) (λ o, calm None None (add_workers (started o) w)).
Proof.
  unfold dispatch_to. eapply triple_bind_yields; [auto with inv|]. intros _ _.
  eapply triple_bind_yields; [eauto 3 with inv|]. intros _ _. eapply triple_bind; [apply dispatch_triple|]. by intros o s Hs.
Qed.
End spawn.

(** ** The steps of the thread *)

(** The held jobs that the thread has loaded, the job that it dispatches, and
    what it does as a thread of the executor. *)
Definition pc_ok (pc : SchedPc) : Prop := match pc with AtHeld jobs => Forall job_ok jobs | _ => True end.
Definition flight (pc : SchedPc) : option string :=
  match pc with
  | AtReserved job _ _ | AtDispatch job _ => Some (j_id job)
  | AtSpawn _ sp _ => spawn_flight sp
  | _ => None
  end.
Definition spawning (pc : SchedPc) : list Thread := match pc with AtSpawn _ sp _ => [spawn_thread sp] | _ => [] end.
Definition attending (pc : SchedPc) : list nat := spawning pc ≫= thread_exec.

Lemma attending_run pc : attending pc = match pc with AtSpawn _ sp _ => spawn_ids sp | _ => [] end.
Proof. destruct pc; try done. apply app_nil_r. Qed.

(** Not in a dispatch. *)
Definition at_rest (pc : SchedPc) : Prop := pc_ok pc ∧ flight pc = None ∧ attending pc = [].

Section steps.
Context (e : Env) (w : option (list nat)).
#[local] Notation C := (calm None None w).

Lemma sched_loop_yields : yields C sched_loop at_rest.
Proof. apply yields_gets. intros s _. by destruct (y_running s). Qed.

Lemma begin_scan_yields : yields C begin_scan at_rest.
Proof. by apply yields_gets. Qed.

Lemma begin_timeouts_yields : yields C begin_timeouts at_rest.
Proof.
  unfold begin_timeouts. apply (yields_bind _ _ _ (λ _, True)); [follow|]. intros r _. destruct (_ <? 0); [apply begin_scan_yields|].
  unfold y_now. eapply yields_bind; [by apply (yields_gets _ _ (λ _, True))|]. intros now _. by apply yields_ret.
Qed.

Lemma sched_wake_yields : yields C sched_wake at_rest.
Proof.
  unfold sched_wake. eapply yields_bind; [by apply (yields_gets _ _ (λ _, True))|]. intros tick _.
  eapply yields_bind; [apply modify_frame; by intros []|]. intros _ _. destruct (_ =? 0); [|apply begin_scan_yields].
  eapply yields_bind; [apply yields_ydb, load_jobs_yields, _|]. intros r Hr. by apply yields_ret.
Qed.

(** Before a section and after it. *)
Definition pc_calm (pc : SchedPc) (ids : list nat) : Sys → Prop := calm (flight pc) None (add_workers (ids ++ attending pc) w).
Definition section_post (r : SchedPc * list ScanOutcome) (s : Sys) : Prop := pc_ok r.1 ∧ pc_calm r.1 (all_started r.2) s.

Lemma post_at_rest pc os s : at_rest pc → calm None None (add_workers (all_started os) w) s → section_post (pc, os) s.
Proof. intros (Hp & Hf & Ha) Hs. split; [done|]. unfold pc_calm. cbn [fst snd]. by rewrite Hf, Ha, app_nil_r. Qed.

Lemma section_quiet (m : ST Sys SchedPc) : yields C m at_rest → triple C (pc ← m; mret (pc, [])) section_post.
Proof.
  intros Hm s Hs. rewrite bind_step. destruct (Hm s Hs) as [Hp Hs']. apply post_at_rest; [done|]. cbn. by rewrite add_no_workers.
Qed.

Lemma section_moves {A} (m : ST Sys A) pc : maintains C m → at_rest pc → triple C (m ;; mret (pc, [])) section_post.
Proof.
  intros Hm Hp s Hs. rewrite bind_step. destruct (Hm s Hs) as [_ Hs']. apply post_at_rest; [done|]. cbn. by rewrite add_no_workers.
Qed.

Lemma admit_section_workers job n : job_ok job → triple C (admit_section e job n) section_post.
Proof.
  intros Hj. unfold admit_section. eapply triple_bind; [by apply admit_job_stage|]. intros r s [Ho Hs]. destruct r as [o|j detail].
  - apply post_at_rest; [done|]. assert (all_started [o] = started o) as -> by apply app_nil_r. rewrite (Ho o eq_refl). by rewrite add_no_workers.
  - split; [done|]. unfold pc_calm. cbn. by rewrite add_no_workers.
Qed.

Lemma record_dispatch_yields f job detail : maintains (calm f None w) (record_dispatch e job detail).
Proof. unfold record_dispatch. follow. Qed.

Lemma dispatch_section_workers job n : triple (calm (Some (j_id job)) None w) (dispatch_section job n) section_post.
Proof.
  unfold dispatch_section, still_queued. eapply triple_bind_yields; [apply (yields_bind _ _ _ (λ _, True)); [apply yields_ydb; eapply yields_any, get_job_yields, _|]; intros o _; by apply (yields_ret _ _ (λ _, True))|].
  intros q _. destruct (negb q).
  - eapply triple_bind; [apply release_starting|]. intros ? s Hs. apply post_at_rest; [done|]. cbn. by rewrite add_no_workers.
  - intros s Hs. split; [done|]. unfold pc_calm. cbn. by rewrite add_no_workers.
Qed.

Lemma sched_section_workers pc : pc_ok pc → triple (pc_calm pc []) (sched_section e pc) section_post.
Proof.
  pose proof (section_quiet _ sched_loop_yields) as Hend. intros Hpc s Hs. unfold pc_calm in Hs. rewrite attending_run in Hs.
  destruct pc as [| |[|job jobs]|now [|job jobs]|[|n]|job d n|job n|m sp n]; cbn [sched_section]; cbn [flight app] in Hs;
    try rewrite add_no_workers in Hs; revert s Hs.
  - intros s Hs. apply post_at_rest; [done|]. cbn. by rewrite add_no_workers.
  - apply section_quiet, sched_wake_yields.
  - apply section_quiet, begin_timeouts_yields.
  - apply Forall_cons in Hpc as [Hj Hjs]. apply section_moves; [by apply check_held_yields|done].
  - apply section_quiet, begin_scan_yields.
  - apply section_moves; [apply check_timeout_yields|done].
  - exact Hend.
  - eapply triple_bind_yields; [by apply (yields_gets _ _ (λ _, True))|]. intros b _. destruct (negb b); [exact Hend|].
    eapply triple_bind_yields; [apply try_pop_yields|]. intros [job|] Hj; [|exact Hend]. by apply admit_section_workers, Hj.
  - eapply triple_bind_yields; [apply record_dispatch_yields|]. intros _ _ s Hs. split; [done|]. unfold pc_calm. cbn. by rewrite add_no_workers.
  - apply dispatch_section_workers.
  - eapply triple_bind; [apply spawn_section_workers|]. intros [[sp1|] l] s Hs; unfold handed in Hs; cbn [fst snd mbind option_bind] in Hs |- *.
    + split; [done|]. unfold pc_calm. rewrite attending_run. exact Hs.
    + apply post_at_rest; [done|]. cbn. by rewrite app_nil_r.
Qed.

Lemma finish_round_yields pc : pc_ok pc → maintains C (finish_round e pc).
Proof.
  intros Hpc. destruct pc as [| |jobs|now jobs| | | |]; cbn [finish_round]; try by apply yields_ret.
  - apply (yields_bind _ _ _ (λ _, True)); [|intros; apply check_timeouts_yields]. apply yields_iter. intros j Hj.
    apply check_held_yields. cbn in Hpc. rewrite Forall_forall in Hpc. by apply Hpc.
  - apply yields_iter. intros j _. apply check_timeout_yields.
Qed.

(** After the end of the thread. *)
Definition finish_post (os : list ScanOutcome) : Sys → Prop := calm None None (add_workers (all_started os) w).

Lemma finish_quiet {A} (m : ST Sys A) : maintains C m → triple C (m ;; mret []) finish_post.
Proof. intros Hm s Hs. rewrite bind_step. destruct (Hm s Hs) as [_ Hs']. unfold finish_post. cbn. by rewrite add_no_workers. Qed.

Lemma finish_dispatched m (l : option nat) : all_started [Dispatched m l] = option_list l.
Proof. apply app_nil_r. Qed.

Lemma sched_finish_workers pc : pc_ok pc → triple (pc_calm pc []) (sched_finish e pc) finish_post.
Proof.
  intros Hpc s Hs. unfold pc_calm in Hs. rewrite attending_run in Hs.
  assert (flight pc = None → attending pc = [] → triple C (finish_round e pc ;; mret []) finish_post) as Hround
    by (intros _ _; by apply finish_quiet, finish_round_yields).
  destruct pc as [| |jobs|now jobs|n|job d n|job n|m sp n]; cbn [sched_finish]; cbn [flight app] in Hs;
    try rewrite add_no_workers in Hs; try by apply Hround.
  - revert s Hs. eapply triple_bind_yields; [apply sched_wake_yields|]. intros pc Hp. apply finish_quiet, finish_round_yields, Hp.
  - revert s Hs. eapply triple_bind; [apply dispatch_to_triple|]. intros o s Hs. unfold finish_post. cbn [fst snd mret st_ret].
    assert (all_started [o] = started o) as -> by apply app_nil_r. exact Hs.
  - revert s Hs. eapply triple_bind; [apply dispatch_triple|]. intros l s Hs. unfold finish_post. cbn [fst snd mret st_ret]. by rewrite finish_dispatched.
  - revert s Hs. eapply triple_bind; [apply spawn_sections_workers; by destruct sp; cbn; lia|].
    intros l s Hs. unfold finish_post. cbn [fst snd mret st_ret]. by rewrite finish_dispatched.
Qed.
End steps.
