(* ===== verification/SysWeb.v ===== *)
(** The HTTP handlers keep the invariant of the process: submission,
    workflows and batches with their transactions, accounts, listings and
    administration, up to [routes_handler]. *)
From S2P Require Import Prelude Job Uuid Heap Queue Events Httpd Json Registry Sql Db DbAdmin DbInv Allocator AllocatorSpec AllocatorProps JobOps Cloud Transfer Config Shell System Store Decision Executor ExecProps Scheduler RegistryProps Sha256 Auth Probe Http Batches Apps AppsProps Submit Workflow Reports Accounts Views Admin Router SysInv SysExec SysSched.

(** ** Bounds of the numbers in a request *)

Definition small (r : AppResources) : Prop := int_ok (ar_cores r) ∧ int_ok (ar_gpu r) ∧ int_ok (ar_ram_mb r) ∧ int_ok (ar_disk_mb r).

Lemma bounded_int_clamp item d lo hi : bounded_int item d lo hi = clamp_item item lo hi d.
Proof. unfold bounded_int, clamp_item, clamp_int. by destruct (cJSON_IsNumber item). Qed.

Lemma clamp_item_le item lo hi d : lo ≤ hi → 0 ≤ hi → d ≤ hi → d_exact lo = true → d_exact hi = true → clamp_item item lo hi d ≤ hi.
Proof.
  intros H1 H2 H3 Hlo Hhi. unfold clamp_item, clamp_int. destruct (cJSON_IsNumber item); [|done].
  destruct (dlt _ _) eqn:E1; [done|]. destruct (dgt _ _) eqn:E2; [done|].
  destruct (isfinite (valuedouble item)) eqn:Ef; [by apply (d_trunc_range _ lo hi)|]. by destruct (valuedouble item).
Qed.

Lemma in_range_small r : resources_in_range r → small r.
Proof. unfold resources_in_range, small, int_ok, INT_MAX. lia. Qed.

Lemma submit_resources_small req app : (∀ r, app = Some r → small r) → small (submit_resources req app).
Proof.
  intros H. unfold submit_resources. destruct app as [r|]; [by apply H|].
  unfold small, int_ok, INT_MAX. cbn [ar_cores ar_gpu ar_ram_mb ar_disk_mb].
  split_and!; (etransitivity; [apply clamp_item_le; (lia || reflexivity)|lia]).
Qed.

Lemma resolve_app_small c cfg fs id ps r : resolve_app c cfg fs id ps = inr r → small (rs_resources r).
Proof.
  unfold resolve_app, resolve_app_command. destruct (normalize_app _ _ _ _ _ _) as [err|[resources normalized]] eqn:E; [done|].
  apply normalize_app_ok in E as [Hr _]. destruct (resolve_app_command_legacy _ _ _ _ _ _) as [[err|[cmd env]]|]; cbn; [done| |done].
  destruct (require _ _); cbn; [done|]. intros [= <-]. by apply in_range_small.
Qed.

Lemma submit_command_small c cfg fs req cmd env app : submit_command c cfg fs req = inr (cmd, env, app) → ∀ r, app = Some r → small r.
Proof.
  unfold submit_command. cbv zeta. destruct (app_only cfg).
  - destruct (cJSON_IsString _); [done|]. destruct (negb _); [done|].
    destruct (resolve_app _ _ _ _ _) as [|r] eqn:E; cbn; [done|]. intros [= <- <- <-] ? [= <-]. by eapply resolve_app_small.
  - destruct (negb _); [done|]. by intros [= <- <- <-].
Qed.

Lemma step_command_small c cfg fs i step cmd env app : step_command c cfg fs i step = inr (cmd, env, app) → ∀ r, app = Some r → small r.
Proof.
  assert (∀ id ps cmd env app, match resolve_app c cfg fs id ps with
    | inl err => step_error i err | inr r => inr (rs_cmd r, rs_env_json r, Some (rs_resources r)) end = inr (cmd, env, app) →
    ∀ r, app = Some r → small r) as H.
  { intros id ps cm en ap. destruct (resolve_app _ _ _ _ _) as [|r] eqn:E; [done|]. intros [= <- <- <-] ? [= <-]. by eapply resolve_app_small. }
  unfold step_command. cbv zeta. destruct (app_only cfg).
  - destruct (cJSON_IsString _); [done|]. destruct (negb _); [done|]. apply H.
  - destruct (_ && _); [by intros [= <- <- <-]|]. destruct (_ && _); [apply H|done].
Qed.

(** ** Transactions of the process *)

Lemma ydb_triple {A} (T : Db → Prop) (T' : A → Db → Prop) f l w (m : ST Db A) :
  triple (db_fine T) m (λ a, db_fine (T' a)) → triple (inv T f l w) (ydb m) (λ a, inv (T' a) f l w).
Proof.
  intros Hm s Hs. destruct (m (y_db s)) as [a d] eqn:E. rewrite (ydb_run m s a d E). cbn [fst snd].
  pose proof (Hm _ (in_db _ _ _ _ s Hs)) as Hd. rewrite E in Hd. destruct Hs as [H1 H2 H3 H4 H5 H6 H7].
  assert (ledger_ok (mkAllocState (y_registry s) (y_ledger s) d)) as Hl.
  { unfold y_registry, y_ledger. destruct (y_alloc s) as [st L d0]. by eapply ledger_ok_db. }
  destruct s. by split.
Qed.

Lemma begin_calm f l w : triple (calm f l w) (ydb db_begin) (λ rc, if rc =? 0 then inv open_txn f l w else calm f l w).
Proof.
  eapply triple_weaken; [apply (ydb_triple _ (λ rc, if rc =? 0 then open_txn else idle))|].
  - eapply triple_weaken; [apply begin_triple|]. intros rc d. cbv beta. destruct (rc =? 0); intros H; exact H.
  - intros rc s. cbv beta. destruct (rc =? 0); intros H; exact H.
Qed.
Lemma commit_calm f l w : triple (inv open_txn f l w) (ydb db_commit) (λ _, calm f l w).
Proof. apply (ydb_triple _ (λ _, idle)), commit_triple. Qed.
Lemma rollback_ends f l w : triple (inv open_txn f l w) (ydb db_rollback) (λ _, calm f l w).
Proof. apply (ydb_triple _ (λ _, idle)), rollback_triple. Qed.

Lemma yields_map {S A B} (P : S → Prop) (f : A → ST S B) (φ : A → Prop) l :
  Forall φ l → (∀ x, φ x → maintains P (f x)) → maintains P (st_map f l).
Proof.
  intros Hl Hf. induction Hl as [|x l Hx _ IH]; cbn [st_map]; [by apply yields_ret|]. eapply yields_bind; [by apply Hf|]. intros y _.
  eapply yields_bind; [apply IH|]. intros ys _. by apply yields_ret.
Qed.

(** ** Handlers *)

Section web.
Context (e : Env) (fl : option string) (w : option (list nat)).
#[local] Notation C := (calm fl None w).

Lemma sys_remove_calm g : maintains C (sys_remove g).
Proof. apply remove_files_yields. Qed.
Lemma write_file_yields path data : maintains C (write_file e path data).
Proof. apply untouched_yields. intros s. unfold write_file. cbn. case_match; by destruct s. Qed.
#[local] Hint Resolve sys_remove_calm write_file_yields : inv.
#[local] Hint Extern 3 (yields _ (sys_queue_push _ _) _) => apply queue_push_yields : inv.

(** *** Submission *)

Lemma repeated_yields c u k : maintains C (repeated_submission c u k).
Proof. unfold repeated_submission. follow. Qed.

Lemma collect_deps_yields u r deps s : maintains C (collect_deps u r deps s).
Proof.
  revert s. induction deps as [|d deps IH]; intros s; cbn [collect_deps]; [follow|]. cbv zeta. destruct (negb _); [done|].
  eapply yields_bind; [apply yields_ydb; db_fun|]. intros j _. case_match; [follow|done].
Qed.
#[local] Hint Resolve collect_deps_yields repeated_yields : inv.

Lemma submit_create_yields u req cmd app : (∀ r, app = Some r → small r) →
  yields C (submit_create e u req cmd app) (λ o, ∀ j, o = Some j → job_ok j).
Proof.
  intros Ha. unfold submit_create. destruct (submit_resources_small req app Ha) as (? & ? & ? & ?).
  by apply job_create_yields; [apply _|..].
Qed.

Lemma hold_job_yields job d i : maintains C (hold_job job d i).
Proof. unfold hold_job. follow. Qed.

Lemma submit_finish_yields u k env t d i job : job_ok job → maintains C (submit_finish e u k env t d i job).
Proof.
  intros Hj. unfold submit_finish. apply (yields_bind _ _ _ (λ _, True)); [follow|]. intros _ _.
  apply (yields_bind _ _ _ job_ok).
  { case_match; [|by apply yields_ret]. eapply yields_bind; [eauto 3 with inv|]. intros. apply yields_ret. by destruct job. }
  intros job1 Hj1. apply (yields_bind _ _ _ job_ok).
  { case_match; [|by apply yields_ret]. eapply yields_bind; [eauto 3 with inv|]. intros. apply yields_ret. by destruct job1. }
  intros job2 Hj2. apply (yields_bind _ _ _ (λ _, True)); [follow|]. intros rc _. destruct (negb _); [follow|].
  apply (yields_bind _ _ _ (λ _, True)); [|intros; by apply yields_ret]. destruct (_ || _); [apply hold_job_yields|follow].
Qed.

Lemma submit_job_yields c acc rq u r : maintains C (submit_job e c acc rq u r).
Proof.
  unfold submit_job, submit_request, submit_depends_on. destruct (extract_idempotency_key _ _) as [k|]; [|follow].
  destruct (_ && _); [follow|]. apply (yields_bind _ _ _ (λ _, True)); [follow|]. intros [] _; [follow|].
  destruct (negb _); [follow|]. destruct (en_parse _ _) as [req|]; [|follow].
  eapply yields_bind; [by apply (yields_gets _ _ (λ _, True))|]. intros fs _.
  destruct (submit_command _ _ _ _) as [|[[cmd env] app]] eqn:Ec; [follow|]. destruct (submit_input_files _); [follow|].
  apply (yields_bind _ _ _ (λ _, True)); [cbv zeta; follow|]. intros [|deps] _; [follow|].
  eapply yields_bind; [apply submit_create_yields; by eapply submit_command_small|]. intros [job|] Hj; [|follow].
  by apply submit_finish_yields, Hj.
Qed.

(** *** Release, cancellation, retry, purge, files *)

Lemma changed_then_push {B} job st r (g : Z * Job → ST Sys B) : job_ok job →
  (∀ x, maintains C (g x)) → maintains C (x ← sys_set_status_r e job st r; sys_queue_push e x.2 ;; g x).
Proof.
  intros Hj Hg. eapply yields_bind; [apply set_status_yields, _|]. intros x Hx.
  eapply yields_bind; [apply queue_push_yields; exact (same_job_ok _ _ Hx Hj)|]. intros. apply Hg.
Qed.

Lemma release_job_yields i : maintains C (release_job e i).
Proof.
  unfold release_job. eapply yields_bind; [apply yields_ydb, get_job_yields, _|]. intros [job|] Hj; [|follow].
  destruct (negb _); [follow|]. apply changed_then_push; [by apply Hj|]. intros. follow.
Qed.

Lemma cancel_yields i : maintains C (cancel_job e i).
Proof. pose proof cancel_job_yields. unfold cancel_job. follow. Qed.

Lemma retry_job_yields c i : maintains C (retry_job e c i).
Proof.
  unfold retry_job, retry_failed, y_now. eapply yields_bind; [apply yields_ydb; db_fun|]. intros [p|] _; [|follow].
  destruct (negb _); [follow|]. eapply yields_bind; [by apply (yields_gets _ _ (λ _, True))|]. intros [] _; [follow|].
  eapply yields_bind; [apply remove_yields|]. intros _ _. eapply yields_bind; [apply yields_ydb, retry_yields|]. intros rc _.
  destruct (negb _); [follow|]. eapply yields_bind; [apply sys_remove_calm|]. intros ended _. destruct (negb _); [follow|].
  eapply yields_bind; [apply yields_ydb, get_job_yields, _|]. intros [job|] Hj; [specialize (Hj _ eq_refl)|]; follow.
Qed.

Lemma purge_dirs_yields jobs n : maintains C (purge_dirs e jobs n).
Proof.
  revert n. induction jobs as [|j jobs IH]; intros n; cbn [purge_dirs]; [follow|]. destruct (negb _); [done|].
  eapply yields_bind; [apply sys_remove_calm|]. intros ended _. destruct (negb _); [follow|done].
Qed.
#[local] Hint Resolve purge_dirs_yields : inv.

Lemma purge_jobs_yields c : maintains C (purge_jobs e c).
Proof. unfold purge_jobs. follow. Qed.

Lemma upload_yields rq i f : maintains C (upload_input e rq i f).
Proof.
  unfold upload_input. destruct (_ <? _); [follow|]. destruct (decode_filename_segment _ _); [|follow].
  eapply yields_bind.
  { apply untouched_yields. intros s0. unfold sys_upload. cbv zeta. destruct (upload_handle _ _ _ _ _ _) as [rc [p|]]; by destruct s0. }
  intros n _. destruct (_ <? _); [follow|]. apply (yields_bind _ _ _ (λ _, True)); [|intros; by apply yields_ret].
  unfold check_and_auto_release. eapply yields_bind; [apply yields_ydb, get_job_yields, _|]. intros [job|] Hj; [|follow].
  destruct (_ || _); [follow|]. eapply yields_bind; [by apply (yields_gets _ _ (λ _, True))|]. intros fs _. case_match; [|follow].
  apply changed_then_push; [by apply Hj|]. intros. follow.
Qed.

(** *** Batches *)

Lemma bounded_int_ok item d lo hi : lo ≤ hi → 0 ≤ hi → d ≤ hi → d_exact lo = true → d_exact hi = true → hi ≤ INT_MAX → int_ok (bounded_int item d lo hi).
Proof. intros. rewrite bounded_int_clamp. unfold int_ok. etransitivity; [by apply clamp_item_le|done]. Qed.

Lemma batch_job_yields ok b d :
  yields (inv open_txn fl None w) (batch_job (with_malloc ok e) b d) (λ o, ∀ j, o = Some j → job_ok j).
Proof.
  unfold batch_job, batch_job_create. cbv zeta. eapply yields_bind.
  { apply job_create_yields; [apply _|apply bounded_int_ok; unfold INT_MAX; (lia || reflexivity)..]. }
  intros [job|] Hj; [|by apply yields_ret]. specialize (Hj _ eq_refl).
  eapply yields_bind; [apply yields_ydb; db_fun|]. intros rc _. destruct (negb _); [by apply yields_ret|].
  apply (yields_bind _ _ _ (λ _, True)); [follow|]. intros rc2 _. destruct (negb _); apply yields_ret; [done|].
  intros j [= <-]. by destruct job.
Qed.

Lemma batch_jobs_yields ok b i ds :
  yields (inv open_txn fl None w) (batch_jobs e ok b i ds) (λ o, ∀ js, o = Some js → Forall job_ok js).
Proof.
  revert i. induction ds as [|d ds IH]; intros i; cbn [batch_jobs]; [apply yields_ret; by intros js [= <-]|].
  eapply yields_bind; [apply batch_job_yields|]. intros [job|] Hj; [|by apply yields_ret].
  eapply yields_bind; [apply IH|]. intros [js|] Hjs; apply yields_ret; [|done]. intros js' [= <-]. constructor; [by apply Hj|by apply Hjs].
Qed.

Lemma failed_open : triple (inv open_txn fl None w) transaction_failed (λ _, C).
Proof. unfold transaction_failed. apply triple_then_ret, rollback_ends. Qed.
Lemma failed_calm : maintains C transaction_failed.
Proof. unfold transaction_failed. eapply yields_bind; [apply yields_ydb, rollback_calm|]. intros. by apply yields_ret. Qed.

Lemma batch_transaction_yields ok b ds : maintains C (batch_transaction e ok b ds).
Proof.
  apply triple_maintains. unfold batch_transaction. eapply triple_bind; [apply begin_calm|]. intros rc. cbv beta.
  destruct (rc =? 0); cbn [negb]; [|apply maintains_triple, failed_calm].
  eapply triple_bind_yields; [apply yields_ydb; db_fun|]. intros rc2 _. destruct (negb _); [apply failed_open|].
  eapply triple_bind_yields; [apply batch_jobs_yields|]. intros [js|] Hjs; [|apply failed_open].
  eapply triple_bind; [apply commit_calm|]. intros rc3. cbv beta. apply maintains_triple. destruct (negb _); [apply failed_calm|].
  eapply yields_bind; [apply yields_iter|intros; follow]. intros j Hj. unfold batch_push.
  specialize (Hjs _ eq_refl). rewrite Forall_forall in Hjs. specialize (Hjs _ Hj). follow.
Qed.
#[local] Hint Resolve batch_transaction_yields : inv.

Lemma batches_submit_yields a b ok rnd body u : maintains C (batches_submit e a b ok rnd body u).
Proof. unfold batches_submit, y_now. follow. Qed.
Lemma batches_get_yields b u r : maintains C (batches_get b u r).
Proof. unfold batches_get. follow. Qed.

(** *** Workflows *)

#[local] Notation W := (inv open_txn fl None w).

Lemma external_deps_yields i u r deps s : maintains W (external_deps i u r deps s).
Proof.
  revert s. induction deps as [|d deps IH]; intros s; cbn [external_deps]; [follow|]. cbv zeta. destruct (_ || _); [follow|].
  eapply yields_bind; [apply yields_ydb; db_fun|]. intros j _. destruct (negb _); [follow|]. case_match; [done|follow].
Qed.

Lemma step_job_ok b step d i job : job_ok job → job_ok (step_job b step d i job).
Proof. intros Hj. unfold step_job. cbv zeta. repeat case_match; by destruct job. Qed.

Lemma step_store_yields env job : maintains W (step_store e env job).
Proof.
  unfold step_store. apply (yields_bind _ _ _ (λ _, True)); [follow|]. intros _ _. destruct env; cbv zeta; [|follow].
  destruct (negb _); [follow|]. eapply yields_bind; [|intros; follow].
  apply untouched_yields. intros y. unfold write_file. cbn. case_match; by destruct y.
Qed.

Lemma workflow_step_yields c ok u r b ids step :
  yields W (workflow_step e c ok u r b ids step) (λ x, ∀ j, x.1 = Some j → job_ok j).
Proof.
  unfold workflow_step. cbv zeta. destruct (negb _); [by apply yields_ret|].
  eapply yields_bind; [by apply (yields_gets _ _ (λ _, True))|]. intros fs _.
  destruct (step_command _ _ _ _ _) as [err|[[cmd env] app]] eqn:Ec; cbn [mbind step_bind]; [by apply yields_ret|].
  destruct (step_deps _ _ _) as [err|deps]; cbn [mbind step_bind mret step_ret]; [by apply yields_ret|].
  eapply yields_bind; [|intros ext _].
  { unfold step_external_deps. cbv zeta. destruct (_ && _); [by apply (yields_ret _ _ (λ _, True))|apply external_deps_yields]. }
  destruct ext as [err|d]; cbn [mbind step_bind]; [by apply yields_ret|].
  destruct (step_input_files _ _) as [err|i]; cbn [mbind step_bind mret step_ret]; [by apply yields_ret|].
  destruct (submit_resources_small step app) as (? & ? & ? & ?); [by eapply step_command_small|].
  eapply yields_bind; [by apply job_create_yields; [apply _|..]|]. intros [job|] Hj; [|by apply yields_ret]. specialize (Hj _ eq_refl).
  eapply yields_bind; [apply step_store_yields|]. intros err _. apply yields_ret. intros j [= <-]. by apply step_job_ok.
Qed.

Lemma workflow_steps_yields c ok u r b created steps : Forall job_ok created →
  yields W (workflow_steps e c ok u r b created steps) (λ x, Forall job_ok x.1).
Proof.
  revert created. induction steps as [|step steps IH]; intros created Hc; cbn [workflow_steps]; [by apply yields_ret|].
  eapply yields_bind; [apply workflow_step_yields|]. intros [o err] Hx. cbv zeta. cbn [fst snd] in *.
  assert (Forall job_ok (created ++ match o with Some job => [job] | None => [] end)) as Hc'.
  { apply Forall_app. split; [done|]. destruct o; [constructor; [by apply Hx|done]|done]. }
  destruct err; [by apply yields_ret|by apply IH].
Qed.

Lemma discard_yields jobs : maintains C (workflow_discard_jobs e jobs).
Proof. induction jobs as [|j jobs IH]; cbn [workflow_discard_jobs]; follow. Qed.
#[local] Hint Resolve discard_yields : inv.

Lemma workflow_queue_yields job : job_ok job → maintains C (workflow_queue e job).
Proof. intros Hj. unfold workflow_queue. follow. Qed.

Lemma workflow_transaction_yields c ok u r req : maintains C (workflow_transaction e c ok u r req).
Proof.
  apply triple_maintains. unfold workflow_transaction. cbv zeta. eapply triple_bind; [apply begin_calm|]. intros rc. cbv beta.
  destruct (rc =? 0); cbn [negb]; [|apply maintains_triple; follow].
  eapply triple_bind_yields; [by apply workflow_steps_yields|]. intros [js err] Hjs. cbn [fst snd] in *. destruct err as [[code msg]|].
  - eapply triple_bind; [apply rollback_ends|]. intros ?. apply maintains_triple. follow.
  - eapply triple_bind; [apply commit_calm|]. intros rc2. cbv beta. apply maintains_triple. destruct (negb _); [follow|].
    eapply yields_bind; [by eapply yields_map, workflow_queue_yields|]. intros. by apply yields_ret.
Qed.
#[local] Hint Resolve workflow_transaction_yields : inv.

Lemma submit_workflow_yields c acc ok rq u r : maintains C (submit_workflow e c acc ok rq u r).
Proof. unfold submit_workflow. follow. Qed.

Lemma list_saved_yields c u r : maintains C (list_saved_workflows e c u r).
Proof.
  unfold list_saved_workflows. destruct (negb _); [follow|]. eapply yields_bind; [apply yields_ydb; db_fun|]. intros ws _.
  eapply yields_bind; [eapply (yields_map _ _ (λ _, True)); [by apply Forall_true|]|]; intros; unfold workflow_json; follow.
Qed.
Lemma save_workflow_yields c rq u r : maintains C (save_workflow e c rq u r).
Proof. unfold save_workflow, update_saved_workflow, y_now. follow. Qed.
Lemma delete_saved_yields i u r : maintains C (delete_saved_workflow i u r).
Proof. unfold delete_saved_workflow. follow. Qed.
Lemma favorite_yields i u : maintains C (toggle_workflow_favorite i u).
Proof. unfold toggle_workflow_favorite. follow. Qed.

(** *** Accounts *)

Lemma login_yields c rq : maintains C (login_request e c rq).
Proof.
  unfold login_request, upgrade_password, login_session, generate_api_key_for_user, y_now.
  destruct (en_parse _ _) as [req|]; [|follow]. cbv zeta. destruct (negb _); [follow|].
  eapply yields_bind; [eauto 3 with inv|]. intros [[]|] _; follow.
Qed.
Lemma change_password_yields c rq u : maintains C (auth_change_password e c rq u).
Proof. unfold auth_change_password. follow. Qed.
Lemma list_keys_yields c : maintains C (list_keys c).
Proof. unfold list_keys. follow. Qed.
Lemma create_key_yields c rq : maintains C (create_key e c rq).
Proof. unfold create_key, y_now. follow. Qed.
Lemma revoke_key_yields c rq : maintains C (revoke_key e c rq).
Proof. unfold revoke_key. follow. Qed.

Lemma create_user_yields c item : maintains C (create_user c item).
Proof. unfold create_user. cbv zeta. follow. Qed.
Lemma create_user_list_yields c items n m : maintains C (create_user_list c items n m).
Proof.
  revert n m. induction items as [|item items IH]; intros n m; cbn [create_user_list]; [follow|].
  eapply yields_bind; [apply create_user_yields|]. intros [ok res] _. eapply yields_bind; [apply IH|]. intros. by apply yields_ret.
Qed.
#[local] Hint Resolve create_user_list_yields : inv.
Lemma create_users_yields c rq : maintains C (create_users e c rq).
Proof. unfold create_users. follow. Qed.
Lemma update_user_yields rq : maintains C (update_user e rq).
Proof. unfold update_user. follow. Qed.
Lemma delete_user_yields rq : maintains C (delete_user e rq).
Proof. unfold delete_user. follow. Qed.
Lemma list_quotas_yields c : maintains C (list_quotas c).
Proof. unfold list_quotas. follow. Qed.
Lemma upsert_quota_yields rq : maintains C (upsert_quota e rq).
Proof. unfold upsert_quota. follow. Qed.
Lemma delete_quota_yields rq : maintains C (delete_quota e rq).
Proof. unfold delete_quota. follow. Qed.

(** *** Listings and reports *)

Lemma report_yields {R A} (f : Z → Tables → list R) (g : option (list R * bool) → A) : maintains C (ydb (r ← query f; mret (g r))).
Proof. apply yields_ydb. eapply yields_bind; [apply query_maintains, _|]. intros. by apply yields_ret. Qed.
#[local] Hint Extern 2 (yields _ (ydb (db_list_users _)) _) => apply report_yields : inv.
#[local] Hint Extern 2 (yields _ (ydb (db_report_jobs_over_time _ _ _ _ _)) _) => apply report_yields : inv.
#[local] Hint Extern 2 (yields _ (ydb (db_report_per_user _ _ _)) _) => apply report_yields : inv.
#[local] Hint Extern 2 (yields _ (ydb (db_report_per_app _ _ _)) _) => apply report_yields : inv.
#[local] Hint Extern 2 (yields _ (ydb (db_report_per_machine _ _ _)) _) => apply report_yields : inv.

Lemma list_users_yields c : maintains C (list_users c).
Proof. unfold list_users. follow. Qed.
Lemma list_jobs_yields rq c u r : maintains C (list_jobs rq c u r).
Proof. unfold list_jobs. cbv zeta. follow. Qed.
Lemma list_queue_yields rq c u r : maintains C (list_queue rq c u r).
Proof. unfold list_queue. follow. Qed.
Lemma get_job_handler_yields i : maintains C (Views.get_job i).
Proof. unfold Views.get_job. follow. Qed.
Lemma dep_items_yields toks : maintains C (dep_items toks).
Proof.
  induction toks as [|t toks IH]; cbn [dep_items]; [follow|]. cbv zeta. destruct (negb _); [done|]. unfold dep_item.
  apply (yields_bind _ _ _ (λ _, True)); [follow|]. intros d _. eapply yields_bind; [apply IH|]. intros. by apply yields_ret.
Qed.
#[local] Hint Resolve dep_items_yields : inv.
Lemma job_deps_yields i : maintains C (get_job_deps i).
Proof. unfold get_job_deps. follow. Qed.
Lemma job_log_yields i b : maintains C (get_job_log e i b).
Proof. unfold get_job_log. follow. Qed.
Lemma job_files_yields i : maintains C (list_job_files e i).
Proof. unfold list_job_files. follow. Qed.
Lemma artifacts_list_yields c i : maintains C (artifacts_list c i).
Proof. unfold artifacts_list. follow. Qed.
Lemma stats_yields : maintains C (get_stats e).
Proof. unfold get_stats. follow. Qed.
Lemma metrics_yields b : maintains C (get_metrics e b).
Proof. unfold get_metrics. follow. Qed.
Lemma listing_yields g : maintains C (machine_listing e g).
Proof. unfold machine_listing. follow. Qed.
Lemma list_apps_yields c cfg : maintains C (list_apps c cfg).
Proof. unfold list_apps. follow. Qed.
Lemma get_app_yields c cfg i : maintains C (get_app c cfg i).
Proof. unfold get_app. follow. Qed.
Lemma download_yields rq i f : maintains C (download_output e rq i f).
Proof. unfold download_output. follow. Qed.
Lemma list_events_yields c rq : maintains C (admin_list_events c rq).
Proof. unfold admin_list_events. follow. Qed.
Lemma reports_yield c rq :
  maintains C (admin_report_jobs c rq) ∧ maintains C (admin_report_users rq) ∧
  maintains C (admin_report_apps rq) ∧ maintains C (admin_report_machines rq).
Proof. unfold admin_report_jobs, admin_report_users, admin_report_apps, admin_report_machines, report_reply. split_and!; follow. Qed.

(** *** Administration *)

Lemma registry_calm {A} (m : ST Registry A) :
  (∀ l a l', reg_ok l → m l = (a, l') → reg_ok l' ∧ ∀ id, default res0 (reserved_on l' id) = default res0 (reserved_on l id)) →
  maintains C (sys_registry m).
Proof. apply registry_yields. Qed.

Lemma copy_optional_len o k n s : copy_optional_string o k n = Some s → (0 < n)%nat → (str_len (or_empty s) < n)%nat.
Proof.
  unfold copy_optional_string. destruct (cJSON_GetObjectItemCaseSensitive o k); [|by intros [= <-]].
  destruct (_ || _) eqn:E; [done|]. intros [= <-] _. apply orb_false_iff in E as [_ E]. by apply Nat.leb_gt in E.
Qed.

Lemma json_optional_le o k lo hi v : json_optional_int o k lo hi = Some v → d_exact lo = true → d_exact hi = true → 0 ≤ hi → or_zero v ≤ hi.
Proof.
  unfold json_optional_int. intros H Hlo Hhi H0. destruct (cJSON_GetObjectItemCaseSensitive o k); [|by injection H as <-].
  destruct (_ || _) eqn:E; [done|]. injection H as <-. cbn. rewrite !orb_false_iff, !negb_false_iff in E.
  destruct E as ((((_ & _) & Hint) & H1) & H2). by apply (d_range _ lo hi).
Qed.

Lemma request_machine_fresh req m : request_machine req = Some m → fresh_machine m.
Proof.
  unfold request_machine. intros H. repeat (apply bind_Some in H as (? & ? & H)). injection H as <-. split; [done|]. split; cbn.
  - unfold res_le, INT_MAX. cbn. repeat match goal with H : json_optional_int _ _ _ _ = _ |- _ => apply json_optional_le in H; [|reflexivity..|lia] end. lia.
  - eapply copy_optional_len; [done|lia].
Qed.

Lemma add_machine_yields rq : maintains C (add_machine e rq).
Proof.
  unfold add_machine. destruct (en_parse _ _) as [req|]; [|follow]. destruct (request_machine req) as [m|] eqn:Em; [|follow].
  destruct (_ || _); [follow|]. destruct (negb _); [follow|]. eapply yields_bind; [|intros; by apply yields_ret].
  apply registry_calm. intros l a l' Hok Ha. apply registry_upsert_spec in Ha as (? & ? & _); [by split|done|by eapply request_machine_fresh].
Qed.

Lemma remove_machine_yields i : maintains C (remove_machine i).
Proof.
  unfold remove_machine. eapply yields_bind; [|intros; by apply yields_ret].
  apply registry_calm. intros l a l' Hok Ha. by apply registry_remove_spec in Ha as (? & ? & _).
Qed.

Lemma request_spec_small body spec : request_spec body = Some spec → res_le (sp_res spec) INTS.
Proof.
  unfold request_spec. intros H. repeat (apply bind_Some in H as (? & ? & H)). injection H as <-.
  unfold res_le, INTS, INT_MAX. cbn. repeat match goal with H : json_optional_int _ _ _ _ = _ |- _ => apply json_optional_le in H; [|reflexivity..|lia] end. lia.
Qed.

Lemma cloud_provision_yields rq : maintains C (admin_cloud_provision e rq).
Proof.
  unfold admin_cloud_provision. destruct (en_parse _ _) as [body|]; [|follow]. destruct (request_spec body) as [spec|] eqn:Es; [|follow].
  do 2 (destruct (negb _); [follow|]). eapply yields_bind; [by eapply provision_yields, request_spec_small|]. intros r _. follow.
Qed.
Lemma cloud_deprovision_yields rq : maintains C (admin_cloud_deprovision e rq).
Proof. unfold admin_cloud_deprovision. follow. Qed.
Lemma wol_yields c rq : maintains C (admin_wol e c rq).
Proof. unfold admin_wol. cbv zeta. follow. Qed.

Lemma delete_file_yields p : maintains C (delete_file p).
Proof. unfold delete_file. follow. Qed.
Lemma rename_file_yields a b : maintains C (rename_file a b).
Proof. apply untouched_yields. intros s0. cbn. case_match; by destruct s0. Qed.
#[local] Hint Resolve delete_file_yields rename_file_yields : inv.
Lemma upsert_app_yields c a b rq : maintains C (upsert_app e c a b rq).
Proof. unfold upsert_app. cbv zeta. follow. Qed.
Lemma delete_app_yields c i : maintains C (delete_app e c i).
Proof. unfold delete_app, file_exists. follow. Qed.
Lemma web_file_yields c p : maintains C (serve_web_file c p).
Proof. unfold serve_web_file. follow. Qed.
End web.
