(* ===== verification/SysRouter.v ===== *)
(** [routes_handler] keeps the invariant of the process, whatever the
    request: every endpoint, the public routes and the check of the key. *)
From S2P Require Import Prelude Job Uuid Heap Queue Events Httpd Json Registry Sql Db DbAdmin DbInv Allocator AllocatorSpec AllocatorProps JobOps Cloud Transfer Config Shell System Store Decision Executor ExecProps Scheduler RegistryProps Sha256 Auth Probe Http Batches Apps AppsProps Submit Workflow Reports Accounts Views Admin Router SysInv SysExec SysSched SysWeb.

(** [fl]: the job that the scheduler's thread dispatches; [workers]: the
    executions that threads work on. *)
Definition web_calm (fl : option string) (workers : option (list nat)) (w : Web) : Prop := calm fl None workers (w_sys w).

Lemma yields_wsys {A} fl workers (m : ST Sys A) φ : yields (calm fl None workers) m φ → yields (web_calm fl workers) (wsys m) φ.
Proof. intros Hm w Hw. unfold wsys. specialize (Hm (w_sys w) Hw). by destruct (m (w_sys w)). Qed.

(** The other parts of the state may change. *)
Lemma web_frame fl workers f : (∀ w, w_sys (f w) = w_sys w) → maintains (web_calm fl workers) (st_modify f).
Proof. intros Hf. apply yields_modify. intros w Hw. unfold web_calm. by rewrite Hf. Qed.

Lemma answered_yields fl workers m : maintains (calm fl None workers) m → maintains (web_calm fl workers) (answered m).
Proof. intros Hm. unfold answered. eapply yields_bind; [by apply yields_wsys|]. intros. by apply yields_ret. Qed.

Lemma login_calm fl workers e c rq : maintains (web_calm fl workers) (auth_login e c rq).
Proof.
  intros w Hw. unfold auth_login. destruct (login_rate_check _ _ _) as [b rl]. destruct (negb b); [by destruct w|].
  apply (yields_wsys _ _ _ (λ _, True) (login_yields e fl workers c rq)). by destruct w.
Qed.

Lemma maintenance_calm fl workers e c rq b : maintains (web_calm fl workers) (admin_maintenance e c rq b).
Proof.
  unfold admin_maintenance. cbv zeta. destruct (_ && _); [by apply yields_ret|].
  apply (yields_bind _ _ _ (λ _, True)).
  { destruct b; [|by apply yields_ret]. eapply yields_bind; [apply web_frame; by intros []|]. intros _ _.
    apply yields_wsys, push_persistent_yields, _. }
  intros _ _. eapply yields_bind; [apply yields_wsys, yields_ydb; db_fun|]. intros st _.
  eapply yields_bind; [by apply (yields_gets _ _ (λ _, True))|]. intros. by apply yields_ret.
Qed.

Lemma presim_config_calm fl workers e rq : maintains (web_calm fl workers) (admin_update_presim_config e rq).
Proof. intros w Hw. unfold admin_update_presim_config. destruct (en_parse _ _); by destruct w. Qed.

Lemma subscribe_calm fl workers rq c u r : maintains (web_calm fl workers) (sse_subscribe rq c u r).
Proof.
  intros w Hw. unfold sse_subscribe. cbv zeta. set (w1 := set_w_sse _ w). assert (web_calm fl workers w1) as Hw1 by by destruct w.
  destruct (ca_alloc_ok c); [|done]. assert (maintains (web_calm fl workers) (wsys (ydb (db_list_jobs 256)))) as H.
  { apply yields_wsys, yields_ydb. db_fun. }
  specialize (H w1 Hw1). by destruct (wsys _ w1).
Qed.

Section router.
Context (c : Call) (io : HandlerIo) (rq : Request) (fl : option string) (workers : option (list nat)).

Lemma run_action_calm e i a : maintains (web_calm fl workers) (run_action c rq e i a).
Proof.
  destruct a as [[| | | |f|f| | | |b]|]; cbn [run_action]; try apply answered_yields; try apply yields_wsys; try by apply yields_ret.
  - apply get_job_handler_yields.
  - apply cancel_yields.
  - apply retry_job_yields.
  - apply release_job_yields.
  - apply upload_yields.
  - apply download_yields.
  - apply job_files_yields.
  - apply artifacts_list_yields.
  - apply job_deps_yields.
  - apply job_log_yields.
Qed.

Lemma run_endpoint_calm u r ep : maintains (web_calm fl workers) (run_endpoint c io rq u r ep).
Proof.
  unfold run_endpoint, st_get. eapply yields_bind; [by apply (yields_gets _ _ (λ _, True))|]. intros w _. cbv zeta.
  set (e := with_cfg _ _). destruct ep; unfold reply; first [by apply yields_ret | apply answered_yields | apply yields_wsys | idtac].
  - apply change_password_yields.
  - eapply yields_bind; [apply presim_config_calm|]. intros. by apply yields_ret.
  - eapply yields_bind; [apply maintenance_calm|]. intros. by apply yields_ret.
  - apply metrics_yields.
  - apply submit_job_yields.
  - apply list_jobs_yields.
  - apply purge_jobs_yields.
  - eapply yields_bind; [apply subscribe_calm|]. intros. by apply yields_ret.
  - unfold on_job, reply. destruct (is_admin r); [apply run_action_calm|].
    eapply yields_bind; [apply yields_wsys, yields_ydb; db_fun|]. intros job _. destruct (owns_job _ _); [apply run_action_calm|by apply yields_ret].
  - apply list_queue_yields.
  - apply batches_submit_yields.
  - apply batches_get_yields.
  - apply list_apps_yields.
  - apply get_app_yields.
  - apply list_saved_yields.
  - apply save_workflow_yields.
  - apply submit_workflow_yields.
  - apply delete_saved_yields.
  - apply favorite_yields.
  - apply listing_yields.
  - apply add_machine_yields.
  - apply remove_machine_yields.
  - apply stats_yields.
  - apply list_quotas_yields.
  - apply upsert_quota_yields.
  - apply delete_quota_yields.
  - apply list_keys_yields.
  - apply create_key_yields.
  - apply revoke_key_yields.
  - apply upsert_app_yields.
  - apply delete_app_yields.
  - apply list_users_yields.
  - apply create_users_yields.
  - apply update_user_yields.
  - apply delete_user_yields.
  - apply list_events_yields.
  - apply (reports_yield _ _ c rq).
  - apply (reports_yield _ _ c rq).
  - apply (reports_yield _ _ c rq).
  - apply (reports_yield _ _ c rq).
  - apply listing_yields.
  - apply cloud_provision_yields.
  - apply cloud_deprovision_yields.
  - apply wol_yields.
Qed.

Lemma public_route_calm : maintains (web_calm fl workers) (public_route c rq).
Proof.
  unfold public_route, st_get, reply. eapply yields_bind; [by apply (yields_gets _ _ (λ _, True))|]. intros w _. cbv zeta.
  repeat match goal with
  | |- yields _ (if ?b then _ else _) _ => destruct b
  | |- yields _ (mret _) _ => by apply yields_ret
  | |- yields _ (answered _) _ => apply answered_yields, web_file_yields
  | |- yields _ (mbind _ _) _ => eapply yields_bind; [apply login_calm|]; intros; by apply yields_ret
  end.
Qed.

Lemma routes_handler_calm : maintains (web_calm fl workers) (routes_handler c io rq).
Proof.
  unfold routes_handler, reply. eapply yields_bind; [apply public_route_calm|]. intros [r|] _; [by apply yields_ret|].
  eapply yields_bind.
  { apply yields_wsys, yields_ydb. unfold auth_check_role_user. destruct (extract_key_hash _ _); [db_fun|by apply (yields_ret _ _ (λ _, True))]. }
  intros [[role user]|] _; [|by apply yields_ret]. unfold st_get.
  eapply yields_bind; [by apply (yields_gets _ _ (λ _, True))|]. intros w _. apply run_endpoint_calm.
Qed.
End router.
