(* ===== verification/Process.v ===== *)
(** The process of src/main.c: start-up, and what may happen then in any
    order, the requests of the HTTP thread, the steps of the scheduler, the
    sections of the executor's threads, the probe, the event stream, the
    answers of the storage, and the stop.  The last theorem is about every
    state the process can reach. *)
From S2P Require Import Prelude Job Uuid Heap Queue Events Httpd Json Registry Sql Db DbAdmin DbInv DbProps Allocator AllocatorSpec AllocatorProps JobOps Cloud Transfer Config Shell System SysFixture Store Decision Executor ExecProps ExecutorWin Scheduler SchedSteps RegistryProps Sha256 Auth Probe Http Batches Apps AppsProps Submit Workflow Reports Accounts Views Admin Router SysInv SysExec SysSched SysWeb SysRouter.

(** ** Start-up *)

(** The static variables before main, with the database as [db_open] left it. *)
Definition initial_sys (d : Db) (files : gmap string string) : Sys :=
  mkSys (mkAllocState [] no_ledger d) ring_init None [] false [] 0 false [] [] files 0 0 [].

(** [orchestrator_run] from the registry to the scheduler's start.
    [provisioning] is the text of the document, if it can be read;
    [queue_ok]: whether the queue could be created. *)
Definition orchestrator_start (e : Env) (provisioning : option string) (queue_ok : bool) : ST Sys bool :=
  sys_registry (registry_load (en_parse e) provisioning) ;;
  st_modify (set_y_events ring_init) ;;
  initialized ← scheduler_init e queue_ok;
  if negb initialized then ydb db_close ;; mret false else scheduler_start e ;; mret true.

(** ** Running *)

(** The static variables, the threads of the executor, and where the threads
    of the scheduler and of the prober are. *)
Record Process := mkProcess { p_web : Web; p_threads : list Thread; p_sched : SchedPc; p_probe : ProbePc }.
Definition set_p_web (w : Web) (p : Process) : Process := mkProcess w (p_threads p) (p_sched p) (p_probe p).

Definition initial_process (cfg : Config) (s : Sys) : Process := mkProcess (mkWeb s cfg true login_rl_init []) [] (sched_loop s).1 PIdle.

Inductive Event :=
  | ERequest (c : Call) (io : HandlerIo) (rq : Request)             (* mg_mgr_poll finds a request *)
  | ETick (e : Env)                                                 (* the scheduler's thread runs its next section *)
  | EThread (e : Env) (win : option WinEnv) (i : nat) (choice : Choice) (* thread [i] runs its next section, in either build *)
  | EProbe (connects : nat → string → string → Z → Tcp) (system : nat → string → Z) (malloc_ok : bool) (* the prober's next section *)
  | EStream (conns : Conns) (due : bool)                            (* the rest of the HTTP thread's round *)
  | EHttpUp                                                         (* http_thread before its loop *)
  | EHttpDown                                                       (* http_thread after its loop *)
  | EStorage (now : Z) (answers : list Outcome)                     (* time passes; what SQLite will answer *)
  | EStop (e : Env)                                                 (* scheduler_stop, up to the wait *)
  | EFinish.                                                        (* after the wait, and db_close *)

Definition on_sys {A} (m : ST Sys A) (w : Web) : A * Web := wsys m w.

(** The launcher threads that a scan has started. *)
Definition launched (o : ScanOutcome) : option Thread :=
  match o with Dispatched _ (Some id) => Some (TLaunch id) | _ => None end.

Definition storage_answers (now : Z) (answers : list Outcome) : ST Db unit :=
  st_modify (λ d, mkDb (s_open d) (s_transaction_active d) (sq_saved d) (tables d) (changes d) now answers).

Definition stream_round (conns : Conns) (due : bool) (w : Web) : Web :=
  match http_thread_round id due conns (w_sse w) (y_events (w_sys w)) with
  | Some (_, clients, ring, _) =>
      mkWeb (set_y_events ring (w_sys w)) (w_cfg w) (w_accepting_jobs w) (w_login_rl w) clients
  | None => w
  end.

(** The wait of [executor_shutdown] ends when no execution is active. *)
Definition orchestrator_finish : ST Sys unit :=
  waiting ← st_gets y_active;
  match waiting with
  | [] => scheduler_stop_finish ;; ydb db_close
  | _ => mret tt
  end.

(** A section of the scheduler's thread; the launcher threads that it starts. *)
Definition sched_turn (e : Env) (p : Process) : Process :=
  let '((pc, outcomes), w) := wsys (sched_section e (p_sched p)) (p_web p) in
  mkProcess w (p_threads p ++ omap launched outcomes) pc (p_probe p).

(** A section of the prober with the configuration that [orchestrator_run]
    passes to [probe_start_background]. *)
Definition background_probe (cfg : Config) : ProbeConfig :=
  probe_config (cfg_int cfg probe_interval_ms) (probe_method_of (cfg_str cfg probe_method)) (cfg_int cfg probe_port)
    (cfg_int cfg probe_timeout_ms) (cfg_int cfg probe_retries).
Definition prober_section (connects : nat → string → string → Z → Tcp) (system : nat → string → Z) (malloc_ok : bool) (cfg : Config) (pc : ProbePc)
    : ST Sys ProbePc :=
  let c := background_probe cfg in
  now ← y_now;
  sys_registry (probe_section connects system now malloc_ok (pc_method c) (pc_port c) (pc_timeout_ms c) (pc_retries c) pc).

(** [s_running] is cleared and the thread comes to its end, with the dispatch
    that it is in. *)
Definition sched_join (e : Env) (pc : SchedPc) : ST Sys (list ScanOutcome) := st_modify (set_y_running false) ;; sched_finish e pc.

Definition run_event (ev : Event) (p : Process) : Process :=
  let w := p_web p in
  let env e := with_cfg (w_cfg w) e in
  match ev with
  | ERequest c io rq => set_p_web (routes_handler c io rq w).2 p
  | ETick e => sched_turn (env e) p
  | EThread e win i choice =>
      match p_threads p !! i with
      | Some t =>
          let '(ts, w) := wsys (run_section (env e) win choice t) w in
          mkProcess w (take i (p_threads p) ++ ts ++ drop (S i) (p_threads p)) (p_sched p) (p_probe p)
      | None => p
      end
  | EProbe connects system malloc_ok =>
      let '(pc, w) := wsys (prober_section connects system malloc_ok (w_cfg w) (p_probe p)) w in
      mkProcess w (p_threads p) (p_sched p) pc
  | EStream conns due => set_p_web (stream_round conns due w) p
  | EHttpUp => set_p_web (wsys (st_modify (set_y_events ring_init)) w).2 p
  | EHttpDown => set_p_web (set_w_sse [] w) p
  | EStorage now answers => set_p_web (wsys (ydb (storage_answers now answers)) w).2 p
  | EStop e =>
      let '(outcomes, w) := wsys (sched_join (env e) (p_sched p)) w in
      mkProcess (wsys (scheduler_stop_request (env e)) w).2 (p_threads p ++ omap launched outcomes) AtEnd (p_probe p)
  | EFinish => match p_sched p with AtEnd => set_p_web (wsys orchestrator_finish w).2 p | _ => p end
  end.

Definition run_events (evs : list Event) (p : Process) : Process := foldl (λ p ev, run_event ev p) p evs.

(** ** Every part keeps the invariant *)


(** What [db_open] promises: an open database without a transaction, whose
    rows respect the keys of the schema and the width of the integers. *)
Definition opened (d : Db) : Prop := s_open d = true ∧ idle d ∧ rows_ok (tables d).

(** *** What runs beside the scheduler's thread *)

Section beside.
Context (fl : option string) (workers : option (list nat)).
#[local] Notation C := (calm fl None workers).

Lemma events_init_calm : maintains C (st_modify (set_y_events ring_init)).
Proof. apply yields_modify. intros s [H1 H2 H3 H4 H5 H6 H7]. destruct s. by split. Qed.

Lemma probe_registry e1 e2 now ok md p t r pc : ∀ l a l', reg_ok l → probe_section e1 e2 now ok md p t r pc l = (a, l') →
  reg_ok l' ∧ ∀ id, default res0 (reserved_on l' id) = default res0 (reserved_on l id).
Proof.
  intros l a l' Hok. set (P := λ k : Registry, reg_ok k ∧ ∀ id, default res0 (reserved_on k id) = default res0 (reserved_on l id)).
  assert (∀ id st tm k, maintains P (registry_update_probe id st tm k)) as Hu.
  { intros id st tm k k0 [Hk Hr]. split; [done|]. destruct (registry_update_probe _ _ _ _ k0) as [rc k1] eqn:E.
    apply registry_update_probe_spec in E as [Hk1 Hr1]; [|done]. split; [done|]. intros id'. cbn [snd]. by rewrite Hr1. }
  assert (maintains P (probe_section e1 e2 now ok md p t r pc)) as H.
  { assert (∀ x, maintains P (mret x : ST Registry ProbePc)) as Hret by (intros; by apply yields_ret).
    destruct pc as [|[|m ms]|m ms]; cbn [probe_section]; cbv zeta; [|apply Hret| |].
    - eapply yields_bind; [by apply (yields_gets _ _ (λ _, True))|]. intros ms _. apply Hret.
    - destruct (_ || _); [apply Hret|]. destruct (is_local m); (eapply yields_bind; [apply Hu|]); intros ? _; apply Hret.
    - eapply yields_bind; [apply Hu|]. intros ? _. apply Hret. }
  intros E. specialize (H l (conj Hok (λ _, eq_refl))). rewrite E in H. apply H.
Qed.

Lemma prober_calm connects system ok cfg pc : maintains C (prober_section connects system ok cfg pc).
Proof.
  unfold prober_section, y_now. cbv zeta. eapply yields_bind; [by apply (yields_gets _ _ (λ _, True))|]. intros now _.
  apply registry_calm, probe_registry.
Qed.

Lemma stream_calm conns due w : web_calm fl workers w → web_calm fl workers (stream_round conns due w).
Proof.
  intros Hw. unfold stream_round, http_thread_round. cbn [id]. destruct (events_drain _ _) as [evts ring] eqn:E.
  pose proof (in_ring _ _ _ _ _ Hw) as Hring. apply events_drain_spec in E as (Hok & _); [|done|done].
  assert (∀ cl, web_calm fl workers (mkWeb (set_y_events ring (w_sys w)) (w_cfg w) (w_accepting_jobs w) (w_login_rl w) cl)) as H.
  { intros cl. unfold web_calm in *. cbn. destruct Hw as [H1 H2 H3 H4 H5 H6 H7]. destruct (w_sys w). by split. }
  destruct (sse_broadcasts evts conns (w_sse w)) as [r|]; cbn; [|done]. destruct due; [|apply H].
  destruct (sse_heartbeat conns r.1); cbn; [apply H|done].
Qed.

Lemma storage_calm now answers : maintains C (ydb (storage_answers now answers)).
Proof. apply yields_ydb, yields_modify. intros d [[H1 H2] [Ha Hs]]. by destruct d. Qed.
End beside.

(** *** The start and the stop *)

Section calm.
Context (workers : option (list nat)).
#[local] Notation C := (calm None None workers).

Lemma initial_calm d files : workers = Some [] → opened d → C (initial_sys d files).
Proof.
  intros -> (_ & [Ha Hs] & Hr). split; try done; [..|by intros ? [= <-]].
  - split; [|intros id; reflexivity|constructor|constructor]. split; [set_solver|constructor|done].
  - split; [|by split]. split; [done|]. intros t Ht. unfold y_db in *. cbn in *. congruence.
  - by split; [constructor|].
  - intros x Hx. by apply elem_of_nil in Hx.
Qed.

Lemma booked_nothing l id : (∀ m, m ∈ l → m_reserved m = res0) → default res0 (reserved_on l id) = res0.
Proof.
  intros H. unfold reserved_on, registry_get_copy. destruct (find_machine id l) as [i|] eqn:E; [|done]. cbn.
  apply find_machine_Some in E as (m & Hm & _). rewrite Hm. cbn. apply H. by eapply list_elem_of_lookup_2.
Qed.

Lemma load_calm parse file s : C s → y_registry s = [] → C (sys_registry (registry_load parse file) s).2.
Proof.
  intros Hs He. unfold sys_registry, on_cloud, on_registry. cbn [cl_registry cl_commands]. rewrite He.
  pose proof (registry_load_establishes_invariant parse file []) as H.
  destruct (registry_load parse file []) as [n l]. cbn [snd].
  assert (reg_ok l ∧ ∀ id, default res0 (reserved_on l id) = res0) as [Hok Hz].
  { destruct H as [[_ ->]|(_ & Hok & H0)]; [split; [|done]; split; [set_solver|constructor|done]|].
    split; [done|]. intros id. by apply booked_nothing. }
  apply (inv_frame idle None None workers (set_y_alloc (mkAllocState l (y_ledger s) (y_db s)) s)); try by destruct s.
  apply inv_alloc; [done| |apply Hs|done]. apply ledger_ok_registry; [apply Hs|done|].
  intros id. rewrite Hz. change (a_store (y_alloc s)) with (y_registry s). by rewrite He.
Qed.

Lemma close_calm : maintains C (ydb db_close).
Proof.
  apply yields_ydb. intros d [[H1 H2] [Ha Hs]]. split; [done|]. unfold db_close. cbn [snd]. by destruct d.
Qed.

Lemma start_calm e file ok : triple (λ s, C s ∧ y_registry s = []) (orchestrator_start e file ok) (λ _, C).
Proof.
  unfold orchestrator_start. eapply (triple_bind _ _ _ (λ _, C)); [intros s [Hs He]; by apply load_calm|]. intros _.
  apply maintains_triple. eapply yields_bind.
  { apply events_init_calm. }
  intros _ _. eapply yields_bind; [apply scheduler_init_yields|]. intros b _. destruct (negb b).
  - eapply yields_bind; [apply close_calm|]. intros. by apply yields_ret.
  - eapply yields_bind; [|intros; by apply yields_ret]. apply untouched_yields. intros s. unfold scheduler_start.
    destruct (y_queue s) eqn:E; [|done]. destruct (y_running s); by destruct s.
Qed.

Lemma stop_request_calm e : maintains C (scheduler_stop_request e).
Proof.
  unfold scheduler_stop_request. eapply yields_bind; [|intros; apply shutdown_yields]. apply yields_modify.
  intros s [H1 H2 H3 H4 H5 H6 H7]. destruct s as [a ev q act sd ap ti ru co ki fi cr nx spn]. split; try done. intros q' E. simpl in *.
  destruct q as [q0|]; [|done]. injection E as <-. destruct (H3 q0 eq_refl) as [Hok Hall]. split; [|done]. by destruct Hok; split.
Qed.

Lemma finish_calm : maintains C orchestrator_finish.
Proof.
  intros s Hs. split; [done|]. unfold orchestrator_finish, scheduler_stop_finish. rewrite bind_step. cbn [fst snd st_gets].
  destruct (y_active s) as [|x l] eqn:Ex; [|done]. rewrite bind_step. rewrite bind_step. cbn [fst snd st_modify].
  assert (y_alloc (set_y_queue None s) = y_alloc s) as Hq by by destruct s. rewrite on_alloc_run. cbn [snd]. apply close_calm. apply inv_alloc.
  - apply new_queue_yields; [by intros|done].
  - assert (ledger_records (y_alloc s) = []) as He.
    { destruct (ledger_records (y_alloc s)) as [|r k] eqn:E; [done|]. destruct (in_attended _ _ _ _ s Hs r) as [?|(x & Hx & _)]; [rewrite E; left|done|].
      rewrite Ex in Hx. by apply elem_of_nil in Hx. }
    pose proof (in_ledger _ _ _ _ s Hs) as [H1 H2 H3 H4]. rewrite Hq. destruct (y_alloc s) as [st L d].
    split; [exact H1| |constructor|constructor]. intros id. exact (eq_trans (H2 id) (f_equal (booked id) He)).
  - rewrite Hq. pose proof (in_db _ _ _ _ s Hs) as Hd. unfold y_db in Hd. by destruct (y_alloc s).
  - rewrite Hq. unfold alloc_shutdown. by destruct (y_alloc s); intros r Hr%elem_of_nil.
Qed.

End calm.

(** *** Threads *)

(** Every active execution is in the hands of exactly one thread, that of the
    scheduler while it is in [executor_spawn]. *)
Definition all_threads (p : Process) : list Thread := spawning (p_sched p) ++ p_threads p.
Definition process_calm (p : Process) : Prop :=
  web_calm (flight (p_sched p)) (Some (all_threads p ≫= thread_exec)) (p_web p) ∧ pc_ok (p_sched p).

Lemma known_attended fl w ts : web_calm fl (Some (ts ≫= thread_exec)) w → ExecProps.attended (mkWorld (w_sys w) ts).
Proof. intros H. pose proof (in_ids _ _ _ _ _ H) as [H1 H2]. split; [by apply inv_known in H|by split]. Qed.

Lemma launched_started os : (omap launched os ≫= thread_exec) = all_started os.
Proof.
  unfold all_started. induction os as [|o os IH]; [done|]. cbn [omap list_omap]. rewrite bind_cons, <- IH.
  by destruct o as [| | |m [id|]].
Qed.

Lemma thread_section e win choice i t p w ts :
  p_threads p !! i = Some t → process_calm p → wsys (run_section e win choice t) (p_web p) = (ts, w) →
  process_calm (mkProcess w (take i (p_threads p) ++ ts ++ drop (S i) (p_threads p)) (p_sched p) (p_probe p)).
Proof.
  intros Hi [Hp Hpc] E. split; [|exact Hpc].
  pose proof (yields_wsys _ None _ _ (run_section_yields e _ win choice t) (p_web p) (inv_forget _ _ _ _ _ Hp)) as [_ H].
  rewrite E in H. cbn [snd] in H. unfold all_threads. cbn [p_web p_threads p_sched]. apply inv_know; [exact H|].
  pose proof (known_attended _ _ _ Hp) as Ha. unfold all_threads in Ha. rewrite <- (take_drop_middle _ _ _ Hi), app_assoc in Ha.
  unfold wsys in E. destruct (run_section e win choice t (w_sys (p_web p))) as [ts' s'] eqn:Er. injection E as <- <-.
  rewrite app_assoc. exact (proj1 (section_attended _ _ _ _ _ _ _ _ _ Er Ha)).
Qed.

(** The executions of a process and those of its threads, in any order. *)
Lemma threads_calm fl w ids os pc ts : calm fl None (add_workers (all_started os ++ ids) (Some (ts ≫= thread_exec))) w →
  ids = attending pc → calm fl None (Some ((spawning pc ++ ts ++ omap launched os) ≫= thread_exec)) w.
Proof.
  intros Hs ->. apply inv_know; [by eapply inv_forget|]. rewrite (inv_known _ _ _ _ _ Hs). rewrite !bind_app, launched_started.
  unfold attending. cbn [add_workers fmap option_fmap option_map]. rewrite (Permutation_app_comm (ts ≫= thread_exec)), !app_assoc.
  f_equiv. apply Permutation_app_comm.
Qed.

Lemma sched_calm p : process_calm p → pc_calm (Some (p_threads p ≫= thread_exec)) (p_sched p) [] (w_sys (p_web p)).
Proof. intros [Hp _]. unfold web_calm, all_threads in Hp. by rewrite bind_app in Hp. Qed.

Lemma turn_calm e p : process_calm p → process_calm (sched_turn e p).
Proof.
  intros Hp. pose proof (sched_section_workers e _ _ (proj2 Hp) _ (sched_calm p Hp)) as [Hpc H]. unfold sched_turn, wsys.
  destruct (sched_section e (p_sched p) (w_sys (p_web p))) as [[pc os] s]. cbn [fst snd] in *. split; [|exact Hpc].
  unfold web_calm, all_threads. cbn [p_web p_threads p_sched]. destruct (p_web p). by eapply threads_calm.
Qed.

(** The thread of the scheduler is joined. *)
Lemma join_calm e p : process_calm p → let r := sched_join e (p_sched p) (w_sys (p_web p)) in
  calm None None (Some ((p_threads p ++ omap launched r.1) ≫= thread_exec)) r.2.
Proof.
  intros Hp. cbv zeta. set (m := sched_join e (p_sched p)).
  assert (triple (pc_calm (Some (p_threads p ≫= thread_exec)) (p_sched p) []) m (finish_post (Some (p_threads p ≫= thread_exec)))) as Hm.
  { unfold m, sched_join. eapply triple_bind_yields; [unfold pc_calm; apply modify_frame; by intros []|]. intros _ _. apply sched_finish_workers, Hp. }
  specialize (Hm _ (sched_calm p Hp)). destruct (m (w_sys (p_web p))) as [os s]. cbn [fst snd] in *.
  change (p_threads p ++ ?x) with (spawning AtEnd ++ p_threads p ++ x). eapply threads_calm; [|reflexivity]. by rewrite app_nil_r.
Qed.

Lemma run_event_calm ev p : process_calm p → process_calm (run_event ev p).
Proof.
  intros Hp. pose proof Hp as [Hw Hpc].
  assert (∀ w, web_calm (flight (p_sched p)) (Some (all_threads p ≫= thread_exec)) w → process_calm (set_p_web w p)) as Hset by by split.
  destruct ev; cbn [run_event]; cbv zeta.
  - by apply Hset, routes_handler_calm.
  - by apply turn_calm.
  - destruct (p_threads p !! i) as [t|] eqn:Hi; [|done]. destruct (wsys _ _) as [ts w] eqn:E. by eapply thread_section.
  - pose proof (yields_wsys _ _ _ _ (prober_calm _ _ connects system malloc_ok (w_cfg (p_web p)) (p_probe p)) _ Hw) as [_ H].
    destruct (wsys _ _) as [pc w]. by split.
  - by apply Hset, stream_calm.
  - apply Hset. eapply yields_wsys; [apply events_init_calm|exact Hw].
  - apply Hset. unfold web_calm in *. by destruct (p_web p).
  - apply Hset. eapply yields_wsys; [apply storage_calm|exact Hw].
  - pose proof (join_calm (with_cfg (w_cfg (p_web p)) e) p Hp) as H. cbv zeta in H. unfold wsys at 1.
    destruct (sched_join _ _ _) as [os s]. split; [|done]. eapply yields_wsys; [apply stop_request_calm|]. by destruct (p_web p).
  - destruct (p_sched p) eqn:E; try done. apply Hset. eapply yields_wsys; [apply finish_calm|exact Hw].
Qed.

Lemma run_events_calm evs p : process_calm p → process_calm (run_events evs p).
Proof. revert p. induction evs as [|ev evs IH]; intros p Hp; [done|]. by apply IH, run_event_calm. Qed.

(** From the start of a process on a database that was opened. *)
Lemma start_process_calm cfg e d files provisioning queue_ok : opened d →
  process_calm (initial_process cfg (orchestrator_start e provisioning queue_ok (initial_sys d files)).2).
Proof.
  intros Hd. pose proof (start_calm (Some []) e provisioning queue_ok (initial_sys d files)) as H. revert H.
  generalize (orchestrator_start e provisioning queue_ok (initial_sys d files)). intros [b s] H.
  assert (calm None None (Some []) s) as Hs by (apply H; split; [by apply initial_calm|done]).
  unfold process_calm, all_threads. cbn. by destruct (y_running s).
Qed.

(** What the invariant says of the reservations. *)
Lemma calm_booked f l ids s m : calm f l ids s → m ∈ y_registry s → m_reserved m = booked (m_id m) (ledger_records (y_alloc s)).
Proof.
  intros Hs Hm. pose proof (lo_booked _ (in_ledger _ _ _ _ s Hs) (m_id m)) as <-. apply list_elem_of_lookup in Hm as [i Hi].
  pose proof (lo_store _ (in_ledger _ _ _ _ s Hs)) as Hok. cbn. unfold reserved_on, registry_get_copy.
  rewrite (find_machine_lookup _ i m (ro_ids _ Hok) Hi). cbn. unfold y_registry in Hi. by rewrite Hi.
Qed.

Lemma calm_held f l ids s r : calm f l ids s → r ∈ ledger_records (y_alloc s) →
  f = Some (ar_job_id r) ∨ ∃ x, x ∈ y_active s ∧ j_id (x_job x) = ar_job_id r.
Proof. intros Hs Hr. destruct (in_attended _ _ _ _ s Hs r Hr) as [?|(x & Hx & _ & Hj)]; [by left|right; by exists x]. Qed.

Lemma calm_unreserved l ids s m : calm None l ids s → y_active s = [] → m ∈ y_registry s → m_reserved m = res0.
Proof.
  intros Hs Hnil Hm. rewrite (calm_booked _ _ _ _ _ Hs) by done. destruct (ledger_records (y_alloc s)) as [|r k] eqn:E; [done|].
  destruct (calm_held _ _ _ _ r Hs) as [?|(x & Hx & _)]; [rewrite E; left|done|]. rewrite Hnil in Hx. by apply elem_of_nil in Hx.
Qed.

(** ** Property *)

(** C1. No reservation is ever lost or leaked: from the start of the process
    on a database that [db_open] accepted, after any requests, rounds of the
    event stream, steps of the threads of the scheduler (a job or a part of
    its dispatch each), the prober (an update of the registry each) and the
    executor in either build, failures of the storage and a stop, in any
    order, what is reserved on a machine is what the allocator's ledger lists
    for it and leaves the machine's minimum free; every entry of the ledger belongs to an active
    execution of its job or to the job that the scheduler's thread is
    dispatching, and no job has two; so when no execution is active and no job
    is being dispatched nothing is reserved.  The keys of every table are
    unique and no transaction is left open. *)
Theorem reservations_belong_to_active_executions cfg e d files provisioning queue_ok evs (Hopen : opened d) :
  let s0 := (orchestrator_start (with_cfg cfg e) provisioning queue_ok (initial_sys d files)).2 in
  let p := run_events evs (initial_process cfg s0) in
  let s := w_sys (p_web p) in
  (∀ m, m ∈ y_registry s →
     m_reserved m = booked (m_id m) (ledger_records (y_alloc s)) ∧
     res_le res0 (m_reserved m) ∧ res_le (res_add (m_reserved m) (m_min m)) (m_total m)) ∧
  (∀ r, r ∈ ledger_records (y_alloc s) →
     flight (p_sched p) = Some (ar_job_id r) ∨ ∃ x, x ∈ y_active s ∧ j_id (x_job x) = ar_job_id r) ∧
  NoDup (ar_job_id <$> ledger_records (y_alloc s)) ∧
  (y_active s = [] → flight (p_sched p) = None → ∀ m, m ∈ y_registry s → m_reserved m = res0) ∧
  tables_ok (tables (y_db s)) ∧ idle (y_db s).
Proof.
  intros s0 p s. assert (process_calm p) as [Hs _] by by apply run_events_calm, start_process_calm.
  unfold web_calm in Hs. fold s in Hs.
  split_and!; [|by intros r; eapply calm_held|apply (in_ledger _ _ _ _ s Hs)| |exact (proj1 (proj1 (proj1 (in_db _ _ _ _ s Hs))))|exact (proj2 (in_db _ _ _ _ s Hs))].
  - intros m Hm. split; [by eapply calm_booked|]. pose proof (lo_store _ (in_ledger _ _ _ _ s Hs)) as Hok. by destruct (ro_machines _ Hok m Hm).
  - intros Hnil Hf m. rewrite Hf in Hs. by eapply calm_unreserved.
Qed.

(** One machine of eight cores; one job that wants three. *)
Definition demo_provisioning : cJSON :=
  JObject [("machines", JArray [JObject [("id", JString "m1"); ("hostname", JString "localhost"); ("cores", JNumber (d_of_Z 8)); ("ram_mb", JNumber (d_of_Z 4000))]])].
Definition demo_env : Env :=
  mkEnv config_defaults (λ _, None) (λ text, if String.eqb text "machines" then Some demo_provisioning else None) (λ _, None) (λ _, 0)
    (λ n, NoUrandom 0 (Z.of_nat n)) None (mkAllocEnv true true) true true true (λ _, true).
Definition demo_start (d : Db) : Process :=
  initial_process config_defaults (orchestrator_start (with_cfg config_defaults demo_env) (Some "machines") true (initial_sys d ∅)).2.
Definition demo_choice : Choice := mkChoice (mkSpawnEnv (λ cmd, Some [cmd]) (Some 77) true true) (Some 0).
Definition demo_db : Db := test_db [row "a" "u" "x" JOB_STATUS_QUEUED 3] [].

(** The probe, a scan that dispatches the job, its launch, its end, a stop. *)
Definition demo_probe : Event := EProbe (λ _ _ _ _, mkTcp true true 1 0) (λ _ _, 0) true.
Definition demo_dispatch : list Event := [demo_probe; demo_probe] ++ replicate 7 (ETick demo_env).
Definition demo_events : list Event :=
  demo_dispatch ++ [EThread demo_env None 0 demo_choice; EThread demo_env None 0 demo_choice; EThread demo_env None 0 demo_choice; EStop demo_env; EFinish].

Lemma demo_db_opened : opened demo_db.
Proof.
  split; [done|]. split; [done|]. split; [|repeat constructor; cbn; done]. split; cbn; try first [apply NoDup_nil_2 | apply NoDup_singleton].
  all: try (split; [apply NoDup_nil_2|by intros ? ?%elem_of_nil]).
Qed.

Lemma reservations_belong_to_active_executions_witness :
  map m_reserved (y_registry (w_sys (p_web (run_events demo_dispatch (demo_start demo_db))))) = [mkRes 3 0 100 0] ∧
  let s := w_sys (p_web (run_events demo_events (demo_start demo_db))) in
  map j_status (t_jobs (tables (y_db s))) = [JOB_STATUS_SUCCEEDED] ∧
  ∀ m, m ∈ y_registry s → m_reserved m = res0.
Proof.
  split; [vm_compute; reflexivity|]. intros s. split; [vm_compute; reflexivity|].
  pose proof (reservations_belong_to_active_executions config_defaults demo_env demo_db ∅ (Some "machines") true demo_events demo_db_opened)
    as (_ & _ & _ & H & _). apply H; vm_compute; reflexivity.
Defined.
