(* ===== verification/Races.v ===== *)
(** Interleavings of the scheduler's thread with the others: a request or a
    stop in the middle of a dispatch, and two in which a job that the thread
    has loaded is stale when it comes to it. *)
From S2P Require Import Prelude Job Uuid Heap Queue Events Httpd Json Registry Sql Db DbProps Allocator JobOps Cloud Transfer Config Shell System SysFixture Store Decision Executor ExecutorWin Scheduler SchedSteps Auth Probe Http Submit Router RouterProps SysSched Process.

(** The job and the reason of its status at the end of some events. *)
Definition end_of (evs : list Event) (d : Db) : list (JobStatus * string) :=
  map (λ j, (j_status j, j_status_reason j)) (t_jobs (tables (y_db (w_sys (p_web (run_events evs (demo_start d))))))).

(** A user cancels a job whose resources the thread has just reserved: the
    last look at the row releases them, and no execution starts. *)
Definition queued_job : Db := server_db [row "a" "ann" "x" JOB_STATUS_QUEUED 3].
Definition cancels (id : string) : Event := ERequest (server_call JNull) demo_io (http_request "DELETE" ("/jobs/" +:+ id)).
Definition reserved_on_machines (p : Process) : list Res := map m_reserved (y_registry (w_sys (p_web p))).

Example cancelled_while_reserved :
  let reserved := [demo_probe; demo_probe] ++ replicate 2 (ETick demo_env) in
  let p := run_events reserved (demo_start queued_job) in
  let q := run_events (reserved ++ [cancels "a"] ++ replicate 5 (ETick demo_env)) (demo_start queued_job) in
  flight (p_sched p) = Some "a" ∧ reserved_on_machines p = [mkRes 3 0 100 0] ∧ y_active (w_sys (p_web p)) = [] ∧
  map j_status (t_jobs (tables (y_db (w_sys (p_web q))))) = [JOB_STATUS_CANCELLED] ∧
  reserved_on_machines q = [res0] ∧ y_active (w_sys (p_web q)) = [] ∧ p_threads q = [].
Proof. vm_compute. auto 10. Qed.

(** A stop that comes while the thread is in [executor_spawn]: the job is
    started, told to end, and never becomes a process. *)
Example stopped_while_spawning :
  let spawning := [demo_probe; demo_probe] ++ replicate 5 (ETick demo_env) in
  let stopped := run_events (spawning ++ [EStop demo_env]) (demo_start queued_job) in
  let ended := run_events (spawning ++ [EStop demo_env; EThread demo_env None 0 demo_choice; EFinish]) (demo_start queued_job) in
  length (p_threads (run_events spawning (demo_start queued_job))) = 0%nat ∧
  length (p_threads stopped) = 1%nat ∧ map x_termination_requested (y_active (w_sys (p_web stopped))) = [true] ∧
  map j_status (t_jobs (tables (y_db (w_sys (p_web ended))))) = [JOB_STATUS_CANCELLED] ∧
  p_threads ended = [] ∧ reserved_on_machines ended = [res0] ∧ s_open (y_db (w_sys (p_web ended))) = false.
Proof. vm_compute. auto 10. Qed.

(** *** Findings *)

(** A job runs with a limit of ten seconds.  In its tenth round the thread
    loads the running jobs, the job completes, and the thread then finds no
    execution to end and writes FAILED over SUCCEEDED. *)
Definition limited_job : Db := test_db [with_timeout_seconds 10 (row "a" "u" "x" JOB_STATUS_QUEUED 3)] [].
Definition until_loaded : list Event :=
  demo_dispatch ++ [ETick demo_env; EThread demo_env None 0 demo_choice] ++ replicate 16 (ETick demo_env)
  ++ [EStorage 1100 []; ETick demo_env; ETick demo_env].
Definition completes : list Event := [EThread demo_env None 0 demo_choice; EThread demo_env None 0 demo_choice].

Example timeout_overwrites_success :
  end_of (until_loaded ++ completes) limited_job = [(JOB_STATUS_SUCCEEDED, "Completed successfully")] ∧
  end_of (until_loaded ++ completes ++ [ETick demo_env]) limited_job = [(JOB_STATUS_FAILED, "Timed out after 100 seconds (limit=10 s)")] ∧
  transition_allowed JOB_STATUS_SUCCEEDED JOB_STATUS_FAILED = false.
Proof. vm_compute. auto. Qed.

(** A user cancels a held job after the thread has loaded it: the request is
    answered, and the thread then writes FAILED over CANCELLED because a
    dependency has failed. *)
Definition held_jobs : Db :=
  server_db [with_depends_on "dep" (row "held" "ann" "" JOB_STATUS_CREATED 1); row "dep" "ann" "" JOB_STATUS_FAILED 1].

Example cascade_overwrites_cancellation :
  let loaded := replicate 19 (ETick demo_env) in
  map fst (end_of (loaded ++ [cancels "held"]) held_jobs) = [JOB_STATUS_CANCELLED; JOB_STATUS_FAILED] ∧
  map fst (end_of (loaded ++ [cancels "held"] ++ [ETick demo_env]) held_jobs) = [JOB_STATUS_FAILED; JOB_STATUS_FAILED] ∧
  transition_allowed JOB_STATUS_CANCELLED JOB_STATUS_FAILED = false.
Proof. vm_compute. auto. Qed.
