(* ===== verification/Shutdown.v ===== *)
(** How the service stops: after [scheduler_stop] has asked the executor to
    shut down, the work that is left is bounded by the executions that were
    active, each of them was told to end and its process was killed, and when
    the last one is gone the database is closed. *)
From S2P Require Import Prelude Job Uuid Heap Queue Events Httpd Json Registry Sql Db DbAdmin DbInv Allocator AllocatorSpec AllocatorProps JobOps Cloud Transfer Config Shell System SysFixture Store Decision Executor ExecProps ExecutorWin Scheduler SchedSteps RegistryProps Sha256 Auth Probe Http Router SysInv SysExec SysSched SysWeb SysRouter Process.

(** ** The work that is left *)

(** The atomic sections that a thread still runs, at most. *)
Definition sections_left (t : Thread) : nat :=
  match t with
  | TRegister _ => 6 | TClaim _ => 5 | TStart _ => 4 | TLaunch _ => 3 | TWatch _ => 2
  | TComplete _ _ _ | TCancel _ _ | TTimeout _ _ => 1
  end.
Definition sections_of (ts : list Thread) : nat := sum_list (sections_left <$> ts).
Definition work (p : Process) : nat := sections_of (p_threads p).

(** The sections that some events run. *)
Definition section_run (ev : Event) (p : Process) : nat :=
  match ev with
  | EThread _ _ i _ => if decide (i < length (p_threads p))%nat then 1 else 0
  | _ => 0
  end.
Fixpoint sections (evs : list Event) (p : Process) : nat :=
  match evs with
  | [] => 0
  | ev :: evs => section_run ev p + sections evs (run_event ev p)
  end.

(** What still happens when the HTTP thread, the probe and the scheduler's
    thread have been joined. *)
Definition settled (ev : Event) : bool :=
  match ev with EThread _ _ _ _ | EStorage _ _ | EFinish => true | _ => false end.

(** The threads of launched executions; no others live between two events. *)
Definition serving (t : Thread) : bool := match t with TLaunch _ | TWatch _ | TComplete _ _ _ => true | _ => false end.

Lemma section_decreases e win c t s : (sections_of (run_section e win c t s).1 < sections_left t)%nat.
Proof.
  destruct win, t; cbn [run_section thread_run_win thread_run]; rewrite bind_step; cbn [mret st_ret fst]; unfold sections_of; try (case_match; cbn; lia); cbn; lia.
Qed.

Lemma section_serving e win c t s : serving t → forallb serving (run_section e win c t s).1.
Proof. destruct win, t; try done; intros _; cbn [run_section thread_run_win thread_run]; rewrite bind_step; cbn [mret st_ret fst]; by repeat case_match. Qed.

Lemma sections_of_app ts us : sections_of (ts ++ us) = (sections_of ts + sections_of us)%nat.
Proof. unfold sections_of. by rewrite fmap_app, sum_list_with_app. Qed.

(** ** The executions that were told to end *)

Definition told (killed : list Z) (x : Execution) : Prop :=
  x_termination_requested x = true ∧ (0 < x_pid x → x_pid x ∈ killed).
Definition doomed (s : Sys) : Prop :=
  y_shutting_down s = true ∧ ∀ x, x ∈ y_active s → told (y_killed s) x.

Lemma told_more k k' x : k ⊆ k' → told k x → told k' x.
Proof. intros Hk [H1 H2]. split; [done|]. auto. Qed.

(** Every section keeps the executions doomed. *)
Section doomed.
Context (e : Env).
#[local] Notation D := doomed.

Lemma doomed_same {A} (m : ST Sys A) :
  (∀ s, y_active (m s).2 = y_active s ∧ y_killed (m s).2 = y_killed s ∧ y_shutting_down (m s).2 = y_shutting_down s) → maintains D m.
Proof. intros Hm s [H1 H2]. split; [done|]. destruct (Hm s) as (Ha & Hk & Hs). unfold doomed. by rewrite Ha, Hk, Hs. Qed.

Lemma doomed_alloc {A} (m : ST (AllocState Registry) A) : maintains D (on_alloc m).
Proof. apply doomed_same. intros s. unfold on_alloc. destruct (m _). by destruct s. Qed.
Lemma doomed_jenv {A} (m : ST JEnv A) : maintains D (on_jenv m).
Proof. apply doomed_same. intros s. unfold on_jenv. destruct (m _). by destruct s. Qed.
Lemma doomed_cloud {A} (m : ST CloudState A) : maintains D (on_cloud m).
Proof. apply doomed_same. intros s. unfold on_cloud. destruct (m _). by destruct s. Qed.
Lemma doomed_gets {A} (f : Sys → A) : maintains D (st_gets f).
Proof. by apply yields_gets. Qed.
Lemma doomed_run_system cmd : maintains D (run_system e cmd).
Proof. apply doomed_same. by intros []. Qed.

Lemma doomed_kill pid : maintains D (kill_process pid).
Proof.
  intros s [H1 H2]. split; [done|]. destruct s; cbn in *. split; [done|]. intros x Hx. eapply told_more; [|by apply H2]. cbn. set_solver.
Qed.

Lemma doomed_upd id f : (∀ k x, told k x → told k (f x)) → maintains D (upd_exec id f).
Proof.
  intros Hf s [H1 H2]. split; [done|]. destruct s; cbn in *. split; [done|]. intros y (x & Hx & ->)%update_where_elem. cbn in *.
  destruct (exec_is id x); auto.
Qed.
Lemma doomed_upd_job id f : maintains D (upd_job id f).
Proof. apply doomed_upd. by intros k []. Qed.
Lemma doomed_clear id : maintains D (active_clear_process id).
Proof. apply doomed_upd. intros k [] [H _]. split; [exact H|]. cbn. lia. Qed.
Lemma doomed_request id st r : maintains D (upd_exec id (request_termination st r)).
Proof. apply doomed_upd. intros k x [H1 H2]. unfold request_termination. by rewrite H1. Qed.

Lemma doomed_unregister id : maintains D (active_unregister id).
Proof. intros s [H1 H2]. split; [done|]. destruct s; cbn in *. split; [done|]. intros x [_ Hx]%where_elem. by apply H2. Qed.

Lemma get_exec_elem id s x : get_exec id s = Some x → x ∈ y_active s.
Proof. by intros [_ ?]%head_Some_elem_of%where_elem. Qed.
Lemma get_exec_none id s x : get_exec id s = None → x ∈ y_active s → x_id x ≠ id.
Proof.
  unfold get_exec. intros Hn%head_None Hx Hid. assert (x ∈ where_ (exec_is id) (y_active s)) as Hin.
  { apply where_elem. split; [|done]. unfold exec_is. by apply Nat.eqb_eq. }
  rewrite Hn in Hin. by apply elem_of_nil in Hin.
Qed.

(** A process that starts too late is killed at once. *)
Lemma doomed_set_process id pid : maintains D (active_set_process id pid).
Proof.
  intros s [H1 H2]. split; [done|]. unfold active_set_process. rewrite bind_step. unfold active_terminal_snapshot. rewrite bind_step.
  cbn [fst snd st_gets upd_exec st_modify]. rewrite get_exec_upd by (by intros []). rewrite Nat.eqb_refl.
  assert (∀ k x, y_killed s ⊆ k → x ∈ y_active s → (x_id x = id → pid ∈ k) → told k (if exec_is id x then set_x_pid pid x else x)) as Hx.
  { intros k x Hk Hx Hp. destruct (exec_is id x) eqn:E; [|eapply told_more; [done|by apply H2]].
    apply Nat.eqb_eq in E. pose proof (H2 x Hx) as [Hr _]. destruct x; split; [done|]. cbn. auto. }
  destruct (get_exec id s) as [x0|] eqn:E; cbn [fmap option_fmap option_map].
  - assert (x_termination_requested (set_x_pid pid x0) = true) as ->.
    { apply get_exec_elem in E. pose proof (H2 x0 E) as [Hr _]. by destruct x0. }
    destruct s; cbn in *. split; [done|]. intros y (x & Hin & ->)%update_where_elem. cbn. apply Hx; set_solver.
  - pose proof (λ x, get_exec_none id s x E) as Hne. destruct s; cbn in *. split; [done|]. intros y (x & Hin & ->)%update_where_elem. cbn.
    apply Hx; [done|done|]. intros Hid. by destruct (Hne x Hin).
Qed.
End doomed.
#[local] Hint Resolve doomed_alloc doomed_jenv doomed_cloud doomed_gets doomed_run_system doomed_kill doomed_upd_job doomed_clear
  doomed_request doomed_unregister doomed_set_process : inv.

Section doomed_sections.
Context (e : Env).
#[local] Notation D := doomed.

Lemma doomed_exec_job id : maintains D (exec_job id).
Proof. apply doomed_gets. Qed.
Lemma doomed_snapshot id : maintains D (active_terminal_snapshot id).
Proof. apply doomed_gets. Qed.
Lemma doomed_ydb {A} (m : ST Db A) : maintains D (ydb m).
Proof. apply doomed_alloc. Qed.
Lemma doomed_set_status_r job st r : maintains D (sys_set_status_r e job st r).
Proof. apply doomed_jenv. Qed.
Lemma doomed_push a b c d : maintains D (sys_events_push_persistent e a b c d).
Proof. apply doomed_jenv. Qed.
Lemma doomed_deprovision_cloud p i : maintains D (sys_cloud_deprovision e p i).
Proof. apply doomed_cloud. Qed.
Lemma doomed_init_dirs id : maintains D (store_init_job_dirs id).
Proof. by apply yields_ret. Qed.
Lemma doomed_collect_files job_id : maintains D (sys_artifact_collect_job e job_id).
Proof. unfold sys_artifact_collect_job. eapply yields_bind; [apply doomed_gets|]. intros. apply doomed_ydb. Qed.
Lemma doomed_now : maintains D y_now.
Proof. apply doomed_gets. Qed.
#[local] Hint Resolve doomed_exec_job doomed_snapshot doomed_ydb doomed_set_status_r doomed_push doomed_deprovision_cloud doomed_init_dirs
  doomed_collect_files doomed_now : inv.
#[local] Hint Extern 2 (yields doomed (st_modify _) _) => apply doomed_same; intros []; cbn; case_match; done : inv.
#[local] Hint Extern 3 (yields doomed (st_modify _) _) => apply doomed_same; by intros [] : inv.

Lemma doomed_exec_set_status id st r : maintains D (exec_set_status_r e id st r).
Proof. unfold exec_set_status_r. follow. Qed.
Lemma doomed_deprovision m : maintains D (maybe_auto_deprovision e m).
Proof. unfold maybe_auto_deprovision. follow. Qed.
#[local] Hint Resolve doomed_exec_set_status doomed_deprovision : inv.
Lemma doomed_release id : maintains D (release_execution e id).
Proof. unfold release_execution. follow. Qed.
#[local] Hint Resolve doomed_release : inv.
Lemma doomed_finish id st r : maintains D (finish_without_process e id st r).
Proof. unfold finish_without_process. follow. Qed.
Lemma doomed_abandon id : maintains D (spawn_abandon id).
Proof. unfold spawn_abandon. follow. Qed.
Lemma doomed_open_logs child : maintains D (open_logs e child).
Proof. unfold open_logs, open_log. follow. Qed.
#[local] Hint Resolve doomed_open_logs : inv.
Lemma doomed_start_watcher sp cmd b child mk : maintains D (start_watcher e sp cmd b child mk).
Proof. unfold start_watcher. follow. Qed.
Lemma doomed_script job i o : maintains D (write_run_script e job i o).
Proof. unfold write_run_script, write_script. follow. Qed.
#[local] Hint Resolve doomed_finish doomed_abandon doomed_start_watcher doomed_script : inv.
Lemma doomed_spawn_process sp id : maintains D (spawn_process e sp id).
Proof. unfold spawn_process. follow. Qed.
Lemma doomed_collect wa code : maintains D (watcher_collect e wa code).
Proof. unfold watcher_collect. follow. Qed.
Lemma doomed_request_termination job_id st r : maintains D (active_request_termination e job_id st r).
Proof. unfold active_request_termination. follow. Qed.
#[local] Hint Resolve doomed_spawn_process doomed_collect doomed_request_termination : inv.

(** The executor accepts no job. *)
Lemma doomed_register job : maintains D (spawn_register e job).
Proof.
  unfold spawn_register. apply (yields_bind _ _ _ (λ o, o = None)); [|intros ? ->; follow].
  intros s Hs. unfold active_register. destruct (en_malloc_ok e); cbn [negb]; [|done]. rewrite bind_step. cbn [fst snd st_gets].
  by rewrite (proj1 Hs).
Qed.

Lemma doomed_thread c t : maintains D (thread_run e c t).
Proof.
  destruct t; cbn [thread_run].
  - eapply yields_bind; [apply doomed_register|]. intros. by apply yields_ret.
  - unfold spawn_claim. follow.
  - unfold spawn_start. follow.
  - unfold launcher_thread, launcher_with. follow.
  - follow.
  - unfold watcher_complete. follow.
  - unfold executor_cancel. follow.
  - unfold executor_timeout. follow.
Qed.

Context (wn : WinEnv).

Lemma doomed_sync cmd : maintains D (run_sync_win wn cmd).
Proof. unfold run_sync_win. follow. Qed.
Lemma doomed_set_reason id text : maintains D (ExecutorWin.set_reason wn id text).
Proof. unfold ExecutorWin.set_reason. follow. Qed.
Lemma doomed_write_script sep job i o : maintains D (write_script sep e job i o).
Proof. unfold write_script. follow. Qed.
Lemma doomed_win_watcher cmd child mk failed : maintains D failed → maintains D (win_start_watcher wn cmd child mk failed).
Proof. intros H. unfold win_start_watcher. follow. Qed.
Lemma doomed_pre_job : maintains D (pre_job e wn).
Proof. unfold pre_job. follow. Qed.
#[local] Hint Resolve doomed_sync doomed_set_reason doomed_write_script doomed_win_watcher doomed_pre_job : inv.
Lemma doomed_spawn_local id job : maintains D (spawn_local e wn id job).
Proof. unfold spawn_local. follow. apply doomed_win_watcher. follow. Qed.
Lemma doomed_spawn_remote id job host : maintains D (spawn_remote e wn id job host).
Proof. unfold spawn_remote. follow. Qed.
#[local] Hint Resolve doomed_spawn_local doomed_spawn_remote : inv.
Lemma doomed_spawn_win id : maintains D (spawn_process_win e wn id).
Proof. unfold spawn_process_win. follow. Qed.
Lemma doomed_collect_win wa code : maintains D (watcher_collect_win e wn wa code).
Proof. unfold watcher_collect_win. follow. Qed.
#[local] Hint Resolve doomed_spawn_win doomed_collect_win doomed_thread : inv.

Lemma doomed_thread_win c t : maintains D (thread_run_win e wn c t).
Proof. destruct t; cbn [thread_run_win]; try apply doomed_thread; [|follow]. unfold launcher_thread_win, launcher_with. follow. Qed.
End doomed_sections.

Lemma doomed_section e win c t : maintains doomed (run_section e win c t).
Proof. destruct win; [apply doomed_thread_win|apply doomed_thread]. Qed.

(** ** The stop reaches every execution *)

Section stop.
Context (e : Env).

(** What the loop does to the execution of its turn. *)
Definition ending (f : Execution → Execution) : Prop :=
  ∀ x, x_id (f x) = x_id x ∧ x_pid (f x) = x_pid x ∧ (x_termination_requested x = true → x_termination_requested (f x) = true).

Lemma ending_request st r : ending (request_termination st r).
Proof. intros x. unfold request_termination. case_match; split_and!; by try destruct x. Qed.
Lemma ending_job j : ending (set_x_job j).
Proof. by intros []. Qed.
Lemma ending_id : ending id.
Proof. done. Qed.
Lemma ending_compose f g : ending f → ending g → ending (g ∘ f).
Proof. intros Hf Hg x. destruct (Hf x) as (? & ? & ?), (Hg (f x)) as (? & ? & ?). cbn. split_and!; try congruence. auto. Qed.
Lemma request_requests st r x : x_termination_requested (request_termination st r x) = true.
Proof. unfold request_termination. by case_match. Qed.

Lemma update_where_twice id (f g : Execution → Execution) l : (∀ x, x_id (f x) = x_id x) →
  update_where (exec_is id) g (update_where (exec_is id) f l) = update_where (exec_is id) (g ∘ f) l.
Proof.
  intros Hf. unfold update_where. rewrite <- list_fmap_compose. apply list_fmap_ext. intros i x _. cbn.
  destruct (exec_is id x) eqn:E; [|by rewrite E]. unfold exec_is in *. by rewrite Hf, E.
Qed.

Lemma status_run id st r s : let s' := (exec_set_status_r e id st r s).2 in
  (∃ f, ending f ∧ y_active s' = update_where (exec_is id) f (y_active s)) ∧
  y_killed s' = y_killed s ∧ y_shutting_down s' = y_shutting_down s.
Proof.
  unfold exec_set_status_r. rewrite bind_step. unfold exec_job. cbn [fst snd st_gets]. rewrite bind_step. unfold sys_set_status_r, on_jenv.
  destruct (job_set_status_r _ _ _ _ _) as [[rc j] je]. rewrite bind_step. cbn [fst snd upd_job upd_exec st_modify mret st_ret].
  destruct s; cbn. split; [|done]. exists (λ x, set_x_job j x). split; [apply ending_job|done].
Qed.

Lemma turn_run x s : let s' := (shutdown_execution e x s).2 in
  (∃ f, ending f ∧ (∀ y, x_termination_requested (f y) = true) ∧ y_active s' = update_where (exec_is (x_id x)) f (y_active s)) ∧
  y_killed s' = y_killed s ++ (if 0 <? x_pid x then [x_pid x] else []) ∧ y_shutting_down s' = y_shutting_down s.
Proof.
  unfold shutdown_execution. set (q := request_termination _ _). rewrite !bind_step. cbn [fst snd upd_exec st_modify].
  set (s1 := set_y_active _ s). set (m := if _ && _ then _ else _).
  assert ((∃ f, ending f ∧ y_active (m s1).2 = update_where (exec_is (x_id x)) f (y_active s1)) ∧
    y_killed (m s1).2 = y_killed s1 ∧ y_shutting_down (m s1).2 = y_shutting_down s1) as ((f & Hf & Ha) & Hk & Hs).
  { subst m. destruct (_ && _); [rewrite bind_step; apply status_run|]. split; [|done]. exists id. split; [apply ending_id|].
    symmetry. unfold update_where. etrans; [|apply list_fmap_id]. apply list_fmap_ext. intros i y _. by destruct (exec_is _ y). }
  assert (let s' := ((if 0 <? x_pid x then kill_process (x_pid x) else mret tt) (m s1).2).2 in
    y_active s' = y_active (m s1).2 ∧ y_shutting_down s' = y_shutting_down (m s1).2 ∧
    y_killed s' = y_killed (m s1).2 ++ (if 0 <? x_pid x then [x_pid x] else [])) as (Ha' & Hs' & Hk').
  { destruct (0 <? x_pid x); [by destruct (m s1).2|]. cbn. by rewrite app_nil_r. }
  rewrite Ha', Hk', Hs', Ha, Hk, Hs. subst s1. destruct s; cbn. split; [|done]. exists (f ∘ q). split_and!.
  - apply ending_compose; [apply ending_request|done].
  - intros y. apply Hf, request_requests.
  - apply update_where_twice. intros y. apply request_termination_id.
Qed.

Lemma stop_loop xs s : ids_ok s → NoDup (x_id <$> xs) → (∀ x, x ∈ xs → x ∈ y_active s) →
  (∀ y, y ∈ y_active s → y ∈ xs ∨ told (y_killed s) y) → y_shutting_down s = true → doomed (st_iter (shutdown_execution e) xs s).2.
Proof.
  revert s. induction xs as [|x xs IH]; intros s Hids Hnd Hin Hall Hs; cbn [st_iter].
  { split; [done|]. intros y Hy. by destruct (Hall y Hy) as [?%elem_of_nil|?]. }
  rewrite bind_step. destruct (turn_run x s) as ((f & Hf & Hreq & Ha) & Hk & Hs'). cbv zeta in *.
  assert (ids_ok (shutdown_execution e x s).2) as Hids'.
  { destruct (shutdown_execution e x s) as [u s'] eqn:E. apply (kept_shutdown_execution same_ids) in E as [E1 E2].
    unfold ids_ok, active_ids in *. cbn [snd]. by rewrite E1, E2. }
  apply NoDup_cons in Hnd as [Hx Hnd]. apply IH; [done|done| | |congruence].
  - intros y Hy. rewrite Ha. apply update_where_elem. exists y. split; [by apply Hin; right|].
    destruct (exec_is (x_id x) y) eqn:E; [|done]. apply Nat.eqb_eq in E. destruct Hx. rewrite <- E. by apply (list_elem_of_fmap_2 x_id).
  - intros y. rewrite Ha, Hk. intros (z & Hz & ->)%update_where_elem. destruct (exec_is (x_id x) z) eqn:E.
    + right. apply Nat.eqb_eq in E. pose proof (ids_unique s _ z Hids Hz E) as Ez.
      rewrite (ids_unique s _ x Hids (Hin x ltac:(left)) eq_refl) in Ez. injection Ez as <-.
      split; [by apply Hreq|]. destruct (Hf x) as (_ & -> & _). intros Hp. rewrite (proj2 (Z.ltb_lt _ _) Hp). set_solver.
    + destruct (Hall z Hz) as [[->|Hz']%elem_of_cons|Ht]; [|by left|right; eapply told_more; [|done]; set_solver].
      unfold exec_is in E. by rewrite Nat.eqb_refl in E.
Qed.

Lemma stop_dooms s : ids_ok s → doomed (scheduler_stop_request e s).2.
Proof.
  intros Hs. unfold scheduler_stop_request, executor_shutdown. rewrite bind_step. cbn [fst snd st_modify]. rewrite bind_step.
  cbn [fst snd st_modify]. rewrite bind_step. cbn [fst snd st_gets].
  apply stop_loop; destruct s; unfold ids_ok in *; cbn in *; naive_solver.
Qed.
End stop.

(** ** After the stop *)

Lemma serving_launched os : Forall serving (omap launched os).
Proof. induction os as [|o os IH]; cbn [omap list_omap]; [done|]. destruct o as [| | |m [k|]]; cbn; try done. by constructor. Qed.

Lemma serving_turn e p : Forall serving (p_threads p) → Forall serving (p_threads (sched_turn e p)).
Proof.
  intros Hp. unfold sched_turn. destruct (wsys _ _) as [[pc os] w]. apply Forall_app. split; [done|apply serving_launched].
Qed.

Lemma serving_event ev p : Forall serving (p_threads p) → Forall serving (p_threads (run_event ev p)).
Proof.
  intros Hp. destruct ev as [|e|e win i c| | | | | | |]; cbn [run_event]; cbv zeta; try done.
  - by apply serving_turn.
  - destruct (p_threads p !! i) as [t|] eqn:E; [|done]. unfold wsys.
    pose proof (section_serving (with_cfg (w_cfg (p_web p)) e) win c t (w_sys (p_web p))) as Ht. destruct (run_section _ _ _ _ _) as [ts s].
    cbn [p_threads fst] in *. rewrite !Forall_app. split_and!; [by apply Forall_take| |by apply Forall_drop].
    apply Forall_forall. intros u Hu. rewrite Forall_forall in Hp. specialize (Ht (Hp t (list_elem_of_lookup_2 _ _ _ E))).
    apply forallb_True in Ht. by eapply Forall_forall in Ht.
  - by destruct (wsys _ _).
  - destruct (wsys _ _) as [os w]. apply Forall_app. split; [done|apply serving_launched].
  - by destruct (p_sched p).
Qed.

Lemma serving_events evs p : Forall serving (p_threads p) → Forall serving (p_threads (run_events evs p)).
Proof. revert p. induction evs as [|ev evs IH]; intros p Hp; [done|]. by apply IH, serving_event. Qed.

Lemma section_work ev p : settled ev → (section_run ev p + work (run_event ev p) ≤ work p)%nat.
Proof.
  destruct ev as [| |e win i c| | | | | | |]; try done; intros _; cbn [section_run run_event]; cbv zeta; [|by destruct (p_sched p)].
  destruct (p_threads p !! i) as [t|] eqn:E; [|rewrite decide_False; [lia|]; by intros [? ?]%lookup_lt_is_Some; congruence].
  rewrite decide_True by by eapply lookup_lt_Some. unfold wsys, work.
  pose proof (section_decreases (with_cfg (w_cfg (p_web p)) e) win c t (w_sys (p_web p))) as Ht. destruct (run_section _ _ _ _ _) as [ts s].
  cbn [p_threads fst] in *. rewrite <- (take_drop_middle _ _ _ E) at 3. rewrite !sections_of_app. unfold sections_of in *. cbn. lia.
Qed.

Lemma sections_work evs p : Forall settled evs → (sections evs p + work (run_events evs p) ≤ work p)%nat.
Proof.
  revert p. induction evs as [|ev evs IH]; intros p; [intros _; cbn; lia|]. intros [Hev Hevs]%Forall_cons.
  pose proof (section_work ev p Hev). specialize (IH (run_event ev p) Hevs). cbn [sections]. unfold run_events in *. cbn [foldl]. lia.
Qed.

Lemma doomed_event ev p : settled ev → doomed (w_sys (p_web p)) → doomed (w_sys (p_web (run_event ev p))).
Proof.
  intros Hev Hp. destruct ev as [| |e win i c| | | | |now ans|e|]; try done; cbn [run_event]; cbv zeta; unfold wsys.
  - destruct (p_threads p !! i) as [t|]; [|done]. destruct (doomed_section (with_cfg (w_cfg (p_web p)) e) win c t _ Hp) as [_ H].
    by destruct (run_section _ _ _ _ _).
  - destruct (doomed_alloc (on_db (storage_answers now ans)) _ Hp) as [_ H]. unfold ydb in *. by destruct (on_alloc _ _).
  - destruct (p_sched p); try done. assert (maintains doomed orchestrator_finish) as Hf; [|destruct (Hf _ Hp) as [_ H]; by destruct (orchestrator_finish _)].
    unfold orchestrator_finish, scheduler_stop_finish. eapply yields_bind; [apply doomed_gets|]. intros [|x l] _; [|by apply yields_ret].
    eapply yields_bind; [|intros; apply doomed_alloc]. eapply yields_bind; [apply doomed_same; by intros []|]. intros. apply doomed_alloc.
Qed.

Lemma doomed_events evs p : Forall settled evs → doomed (w_sys (p_web p)) → doomed (w_sys (p_web (run_events evs p))).
Proof.
  revert p. induction evs as [|ev evs IH]; intros p; [done|]. intros [Hev Hevs]%Forall_cons Hp. by apply IH, doomed_event.
Qed.

(** The scheduler's thread has ended. *)
Lemma settled_sched ev p : settled ev → p_sched (run_event ev p) = p_sched p.
Proof.
  destruct ev as [| |e win i c| | | | | | |]; try done; intros _; cbn [run_event]; cbv zeta; [|by destruct (p_sched p) eqn:E].
  destruct (p_threads p !! i); [|done]. by destruct (wsys _ _).
Qed.

Lemma settled_ended evs p : Forall settled evs → p_sched p = AtEnd → p_sched (run_events evs p) = AtEnd.
Proof.
  revert p. induction evs as [|ev evs IH]; intros p; [done|]. intros [Hev Hevs]%Forall_cons Hp. apply IH; [done|]. by rewrite settled_sched.
Qed.

Lemma stop_ended e p : p_sched (run_event (EStop e) p) = AtEnd.
Proof. cbn [run_event]. cbv zeta. by destruct (wsys _ _). Qed.

(** ** Property *)

Lemma serving_workers ts : Forall serving ts → length (ts ≫= thread_exec) = length ts ∧ (sections_of ts ≤ 3 * length ts)%nat.
Proof.
  unfold sections_of. induction 1 as [|t ts Ht _ [IH1 IH2]]; [done|]. rewrite bind_cons, length_app, IH1. cbn [fmap list_fmap sum_list_with length].
  destruct t; try done; cbn in *; lia.
Qed.

Lemma process_workers p : process_calm p → p_sched p = AtEnd → Forall serving (p_threads p) →
  length (y_active (w_sys (p_web p))) = length (p_threads p).
Proof.
  intros [Hp _] He Ht. unfold all_threads in Hp. rewrite He in Hp. destruct (serving_workers _ Ht) as [<- _]. pose proof (Permutation_length (inv_known _ _ _ _ _ Hp)) as H.
  unfold active_ids in H. by rewrite length_fmap in H.
Qed.

(** The stop event, wherever the scheduler's thread is. *)
Lemma event_dooms e p : process_calm p → doomed (w_sys (p_web (run_event (EStop e) p))).
Proof.
  intros Hp. cbn [run_event]. cbv zeta. unfold wsys at 1. pose proof (join_calm (with_cfg (w_cfg (p_web p)) e) p Hp) as H. cbv zeta in H.
  destruct (sched_join _ _ _) as [os s]. cbn [fst snd p_web] in *. unfold wsys.
  pose proof (stop_dooms (with_cfg (w_cfg (p_web p)) e) s (in_ids _ _ _ _ _ H)) as Hd. destruct (p_web p). cbn in *. by destruct (scheduler_stop_request _ _).
Qed.

Lemma finish_run s : y_active s = [] → let s' := (orchestrator_finish s).2 in
  y_queue s' = None ∧ s_open (y_db s') = false ∧ y_active s' = [].
Proof.
  intros Hnil. unfold orchestrator_finish, scheduler_stop_finish. rewrite bind_step. cbn [fst snd st_gets]. rewrite Hnil, !bind_step.
  destruct s as [[st L d]]. cbn in *. by destruct d.
Qed.


(** A stop while a process runs: it is killed, its watcher wakes up, and the
    database is closed. *)
Definition demo_before : list Event := demo_dispatch ++ [EThread demo_env None 0 demo_choice].
Definition demo_killed : Choice := mkChoice (mkSpawnEnv (λ cmd, Some [cmd]) (Some 77) true true) None.
Definition demo_after : list Event := [EFinish; EThread demo_env None 0 demo_killed; EStorage 5 []; EThread demo_env None 0 demo_killed].

