(* ===== verification/Main.v ===== *)
(** The program of src/main.c, src/platform/service_linux.c and
    src/persistence/log.c: the messages, the command line, the configuration it loads, the creation of a key by [keygen], the
    service with its start and the signals that stop it. *)
From S2P Require Import Prelude Job Uuid Json Events Registry Sql Db DbAdmin Config System Sha256 Auth Http Router Process.

(** ** src/persistence/log.c *)

Inductive LogLevel := LOG_DEBUG | LOG_INFO | LOG_WARN | LOG_ERROR.

Definition log_set_level (level_str : string) : LogLevel :=
  if String.eqb level_str "debug" then LOG_DEBUG
  else if String.eqb level_str "warn" then LOG_WARN
  else if String.eqb level_str "error" then LOG_ERROR
  else LOG_INFO.

Definition level_number (l : LogLevel) : Z := match l with LOG_DEBUG => 0 | LOG_INFO => 1 | LOG_WARN => 2 | LOG_ERROR => 3 end.

Definition log_writes (s_level level : LogLevel) : bool := negb (level_number level <? level_number s_level).

Definition level_name (l : LogLevel) : string :=
  match l with LOG_DEBUG => "DEBUG" | LOG_INFO => "INFO" | LOG_WARN => "WARN" | LOG_ERROR => "ERROR" end.

(** What stderr holds after a message; [ts] is the formatted time, [text] the
    formatted arguments. *)
Definition log_write (s_level level : LogLevel) (ts tag text stderr : string) : string :=
  if log_writes s_level level
  then stderr +:+ "[" +:+ ts +:+ "] [" +:+ level_name level +:+ "] [" +:+ tag +:+ "] " +:+ text +:+ String NL ""
  else stderr.

(** ** The command line *)

Definition valid_keygen_user_id (user_id : string) : bool :=
  str_nonempty user_id && (str_len user_id <=? 64)%nat
  && str_forallb (λ c, is_lower c || is_upper c || is_digit c || Ascii.eqb c "_" || Ascii.eqb c "-") user_id.

Definition valid_keygen_label (label : string) : bool :=
  str_nonempty label && (str_len label <=? 128)%nat
  && str_forallb (λ c, negb ((char_code c <? 32) || (char_code c =? 127))) label.

Definition default_conf : string := "config/orchestrator.conf".

Record KeygenArgs := mkKeygenArgs { ka_label : string; ka_conf : string; ka_role : string; ka_user_id : string }.
Definition keygen_defaults (conf : string) : KeygenArgs := mkKeygenArgs "default" conf "admin" "".

(** The options after [keygen]; [None]: exit status 2. *)
Fixpoint keygen_args (args : list string) (a : KeygenArgs) : option KeygenArgs :=
  match args with
  | [] => Some a
  | option :: value :: args =>
      if String.eqb option "--label" then keygen_args args (mkKeygenArgs value (ka_conf a) (ka_role a) (ka_user_id a))
      else if String.eqb option "--conf" then keygen_args args (mkKeygenArgs (ka_label a) value (ka_role a) (ka_user_id a))
      else if String.eqb option "--role" then keygen_args args (mkKeygenArgs (ka_label a) (ka_conf a) value (ka_user_id a))
      else if String.eqb option "--user" then keygen_args args (mkKeygenArgs (ka_label a) (ka_conf a) (ka_role a) value)
      else None
  | [_] => None
  end.

Definition keygen_args_ok (a : KeygenArgs) : bool :=
  valid_keygen_label (ka_label a)
  && (String.eqb (ka_role a) "admin" || String.eqb (ka_role a) "user")
  && (negb (str_nonempty (ka_user_id a)) || valid_keygen_user_id (ka_user_id a))
  && (negb (String.eqb (ka_role a) "user") || str_nonempty (ka_user_id a)).

(** The arguments without the program's name: the last [--conf] that has a value. *)
Fixpoint conf_path (args : list string) (conf : string) : string :=
  match args with
  | a :: (b :: _) as args => conf_path args (if String.eqb a "--conf" then b else conf)
  | _ => conf
  end.

(** [--daemon] and [--pidfile] in [platform_service_start]. *)
Fixpoint service_args (args : list string) (do_daemon : bool) (pidfile : string) : bool * string :=
  match args with
  | [] => (do_daemon, pidfile)
  | a :: args =>
      let do_daemon := do_daemon || String.eqb a "--daemon" in
      if String.eqb a "--pidfile" then
        match args with value :: args => service_args args do_daemon value | [] => (do_daemon, pidfile) end
      else service_args args do_daemon pidfile
  end.

(** ** Files *)

(** A path as the operating system resolves it. *)
Definition absolute (cwd path : string) : string :=
  if str_prefix "/" path then path else if String.eqb cwd "/" then "/" +:+ path else cwd +:+ "/" +:+ path.

Definition presim_conf : string := "config/presim.conf".

(** What differs between the builds: the configuration files, the values
    before they are read, what happens to the values afterwards, and the file
    that a path names. *)
Record Build := mkBuild {
  b_conf : string; b_presim : string;
  b_defaults : Config;
  b_paths : Config → Config;
  b_file : string → string
}.

Definition posix_build (cwd : string) : Build := mkBuild default_conf presim_conf config_defaults id (absolute cwd).

Section configuration.
Context (strtod : string → option double).

(** [read]: the text of a file, if it can be opened.  [None]: exit status 2. *)
Definition load_configuration (b : Build) (read : string → option string) (conf : string) : option Config :=
  let '(rc1, c) := config_load strtod (read (b_file b conf)) (b_defaults b) in
  let '(rc2, c) := config_load strtod (read (b_file b (b_presim b))) c in
  if negb (rc1 =? 0) || negb (rc2 =? 0) || negb ((config_validate c 256).1 =? 0) then None else Some (b_paths b c).
End configuration.

(** ** One invocation *)

(** What is left on the disk between invocations. *)
Record Disk := mkDisk { dk_databases : gmap string Tables; dk_pid_files : gmap string Z }.

Inductive Fork := ForkFails | InParent | InChild.

(** What an invocation finds: its arguments and working directory; the files
    that can be read and the library functions; whether [db_open] succeeds on
    a file, the time, and what SQLite answers; the bytes of the random
    generator and the stack under the hash contexts; the results of fork and
    setsid; the environment of the service, the files under its directories,
    whether the queue and the HTTP thread are created; and what happens
    before the HTTP thread starts, until the stop, and during it. *)
Record Launch := mkLaunch {
  l_args : list string;
  l_cwd : string;
  l_read : string → option string;
  l_strtod : string → option double;
  l_opens : string → bool;
  l_now : Z;
  l_answers : list Outcome;
  l_urandom : option (list Z);
  l_stack : SHA256_CTX;
  l_fork : Fork;
  l_setsid_ok : bool;
  l_fork2 : Fork;
  l_pid : Z;
  l_can_write : string → bool;
  l_env : Env;
  l_files : gmap string string;
  l_queue_ok : bool;
  l_http_ok : bool;
  l_before : list Event;
  l_running : list Event;
  l_stopping : list Event
}.

(** The tables that a connection leaves in the file: an open transaction is
    undone. *)
Definition persisted (d : Db) : Tables := default (tables d) (sq_saved d).

Definition open_database (l : Launch) (path : string) : ST Disk (option Db) := λ disk,
  (if l_opens l path
   then Some (mkDb true false None (default no_tables (dk_databases disk !! path)) 0 (l_now l) (l_answers l)) else None, disk).

Definition save_database (path : string) (d : Db) : ST Disk unit :=
  st_modify (λ disk, mkDisk (<[path := persisted d]> (dk_databases disk)) (dk_pid_files disk)).

(** *** keygen *)

(** With the database open: the exit status and the key that is printed. *)
Definition keygen_key (stack : SHA256_CTX) (a : KeygenArgs) (urandom : option (list Z)) : ST Db (Z * option string) :=
  bound ← (if str_nonempty (ka_user_id a) then
             u ← db_get_user_auth (ka_user_id a) 256;
             mret (match u with Some (_, enabled) => negb (enabled =? 0) | None => false end)
           else mret true);
  if negb bound then db_close ;; mret (2, None) else
  match urandom with
  | None => db_close ;; mret (1, None)
  | Some raw =>
      let raw_hex := hex_bytes raw in
      result ← db_insert_api_key_full (auth_hash_key stack raw_hex) (ka_label a) (Some (ka_role a)) (Some (ka_user_id a)) 0;
      db_close ;;
      mret (if result =? 0 then (0, Some raw_hex) else (1, None))
  end.

Definition keygen (b : Build) (l : Launch) (args : list string) : ST Disk (Z * option string) :=
  match keygen_args args (keygen_defaults (b_conf b)) with
  | None => mret (2, None)
  | Some a =>
      if negb (keygen_args_ok a) then mret (2, None) else
      match load_configuration (l_strtod l) b (l_read l) (ka_conf a) with
      | None => mret (2, None)
      | Some cfg =>
          let path := b_file b (cfg_str cfg db_path) in
          d ← open_database l path;
          match d with
          | None => mret (1, None)
          | Some d =>
              let '(r, d) := keygen_key (l_stack l) a (l_urandom l) d in
              save_database path d ;; mret r
          end
      end
  end.

(** *** The service *)

Definition http_event (ev : Event) : bool :=
  match ev with ERequest _ _ _ | EStream _ _ | EHttpUp | EHttpDown => true | _ => false end.
Definition without_http (evs : list Event) : list Event := filter (λ ev, http_event ev = false) evs.

(** The events of [orchestrator_run] after the scheduler has started. *)
Definition service_events (l : Launch) (e : Env) : list Event :=
  without_http (l_before l)
  ++ (if l_http_ok l then [EHttpUp] ++ l_running l ++ [EHttpDown] else [])
  ++ [EStop e] ++ without_http (l_stopping l) ++ [EFinish].

(** [file]: the file that a path names, in the working directory of then.
    The result: whether it has returned, which it has not while an execution
    is active. *)
Definition orchestrator_run (l : Launch) (file : string → string) (cfg : Config) : ST Disk bool :=
  let path := file (cfg_str cfg db_path) in
  d ← open_database l path;
  match d with
  | None => mret true
  | Some d =>
      let e := with_cfg cfg (l_env l) in
      let provisioning := l_read l (file (cfg_str cfg provisioning_json)) in
      let '(started, s) := orchestrator_start e provisioning (l_queue_ok l) (initial_sys d (l_files l)) in
      if negb started then save_database path (y_db s) ;; mret true else
      let s := w_sys (p_web (run_events (service_events l e) (initial_process cfg s))) in
      save_database path (y_db s) ;;
      mret (match y_active s with [] => true | _ => false end)
  end.

(** The exit status of a process that does not become the daemon. *)
Definition daemonise (l : Launch) : option Z :=
  match l_fork l with
  | ForkFails => Some 1
  | InParent => Some 0
  | InChild =>
      if negb (l_setsid_ok l) then Some 1 else
      match l_fork2 l with ForkFails => Some 1 | InParent => Some 0 | InChild => None end
  end.

Definition write_pidfile (l : Launch) (path : string) : ST Disk unit :=
  if l_can_write l path then st_modify (λ disk, mkDisk (dk_databases disk) (<[path := l_pid l]> (dk_pid_files disk))) else mret tt.

(** Some of the status a process exits with at once, or [None] when
    [orchestrator_run] was called, and whether that has returned. *)
Definition platform_service_start (l : Launch) (cfg : Config) : ST Disk (option Z * bool) :=
  let pid_file := cfg_str cfg pid_file in
  let '(do_daemon, pidfile) := service_args (l_args l) false (if str_nonempty pid_file then pid_file else "/var/run/orchestrator.pid") in
  match (if do_daemon then daemonise l else None) with
  | Some status => mret (Some status, true)
  | None =>
      let file := absolute (if do_daemon then "/" else l_cwd l) in
      write_pidfile l (file pidfile) ;;
      returned ← orchestrator_run l file cfg;
      mret (None, returned)
  end.

(** [main] without [keygen]; [start] is [platform_service_start].  The exit
    status; [None]: the process has not exited. *)
Definition main_service (b : Build) (l : Launch) (start : Config → ST Disk (option Z * bool)) : ST Disk (option Z) :=
  match load_configuration (l_strtod l) b (l_read l) (conf_path (l_args l) (b_conf b)) with
  | None => mret (Some 2)
  | Some cfg =>
      r ← start cfg;
      mret (match (r : option Z * bool) with
            | (Some status, _) => Some status
            | (None, returned) => if returned then Some 0 else None
            end)
  end.

Definition main_of (b : Build) (l : Launch) (start : Config → ST Disk (option Z * bool)) : ST Disk (option Z) :=
  match l_args l with
  | "keygen" :: args => r ← keygen b l args; mret (Some (fst (r : Z * option string)))
  | _ => main_service b l start
  end.

Definition main (l : Launch) : ST Disk (option Z) := main_of (posix_build (l_cwd l)) l (platform_service_start l).

(** ** Signals *)

Definition SIGHUP : Z := 1.
Definition SIGINT : Z := 2.
Definition SIGTERM : Z := 15.

(** What [platform_service_start] has set: [sig_handler], or nothing. *)
Inductive Disposition := Handled | Ignored | Default.
Definition disposition (sig : Z) : Disposition :=
  if (sig =? SIGTERM) || (sig =? SIGINT) then Handled else if sig =? SIGHUP then Ignored else Default.

(** The value of [s_stop_requested] afterwards. *)
Definition sig_handler (sig : Z) (s_stop_requested : bool) : bool :=
  if (sig =? SIGTERM) || (sig =? SIGINT) then true else s_stop_requested.
Definition signalled (sig : Z) (s_stop_requested : bool) : bool :=
  match disposition sig with Handled => sig_handler sig s_stop_requested | _ => s_stop_requested end.

(** The loop [while (!platform_stop_requested()) sleep_ms(250)]: each round is
    what arrives while it sleeps.  Some of the state and the rounds that are
    left when the loop ends. *)
Fixpoint wait_stop {A S} (arrive : A → S → S) (stop : S → bool) (rounds : list (list A)) (s : S) : option (S * list (list A)) :=
  if stop s then Some (s, rounds) else
  match rounds with [] => None | r :: rounds => wait_stop arrive stop rounds (foldl (flip arrive) s r) end.

Section wait.
Context {A S : Type} (arrive : A → S → S) (stop : S → bool) (asks : A → bool).
Hypothesis stop_arrive : ∀ a s, stop (arrive a s) = asks a || stop s.

Lemma stop_arrivals l s : stop (foldl (flip arrive) s l) = existsb asks l || stop s.
Proof. revert s. induction l as [|a l IH]; intros s; [done|]. cbn. rewrite IH, stop_arrive. by destruct (asks a), (existsb _ _). Qed.

(** The loop ends exactly when something that arrives asks for it, and not
    later than the round in which it arrives. *)
Lemma wait_stop_ends rounds s : is_Some (wait_stop arrive stop rounds s) ↔ existsb asks (concat rounds) || stop s = true.
Proof.
  revert s. induction rounds as [|r rounds IH]; intros s; cbn [wait_stop concat].
  - destruct (stop s); cbn; split; [done|by exists (s, [])|by intros [? [=]]|done].
  - rewrite existsb_app. destruct (stop s) eqn:E; [rewrite !orb_true_r; split; [done|by exists (s, r :: rounds)]|].
    rewrite IH, stop_arrivals, E, !orb_false_r. by rewrite orb_comm.
Qed.

Lemma wait_stop_state rounds s s' rest : wait_stop arrive stop rounds s = Some (s', rest) →
  ∃ slept, rounds = slept ++ rest ∧ s' = foldl (flip arrive) s (concat slept) ∧ stop s' = true.
Proof.
  revert s. induction rounds as [|r rounds IH]; intros s; cbn [wait_stop]; destruct (stop s) eqn:E; try done.
  - intros [= <- <-]. by exists [].
  - intros [= <- <-]. by exists [].
  - intros (slept & -> & -> & Hs)%IH. exists (r :: slept). cbn. by rewrite foldl_app.
Qed.
End wait.

(** SIGTERM and SIGINT end the service, and nothing else that it handles. *)
Lemma service_waits_for_signal rounds :
  is_Some (wait_stop signalled id rounds false) ↔ existsb (λ sig, (sig =? SIGTERM) || (sig =? SIGINT)) (concat rounds) = true.
Proof.
  rewrite (wait_stop_ends _ _ (λ sig, (sig =? SIGTERM) || (sig =? SIGINT))); [by rewrite orb_false_r|].
  intros sig s. unfold signalled, disposition, sig_handler, id. by destruct (_ || _), (sig =? SIGHUP).
Qed.
