(* ===== verification/ServiceWin.v ===== *)
(** The Windows service of src/platform/service_win.c, the Windows parts of
    src/main.c, and sequences of invocations in either build. *)
From S2P Require Import Prelude Config Sql Db System ExecutorWin Router Process Main.

(** ** What the service control manager is told *)

Inductive SvcState := SERVICE_STOPPED | SERVICE_START_PENDING | SERVICE_STOP_PENDING | SERVICE_RUNNING.
#[export] Instance SvcState_eq_dec : EqDecision SvcState.
Proof. solve_decision. Defined.

Definition NO_ERROR : Z := 0.
Definition SERVICE_ACCEPT_STOP : Z := 1.
Definition SERVICE_ACCEPT_SHUTDOWN : Z := 4.
Definition SERVICE_WIN32_OWN_PROCESS : Z := 16.
Definition SERVICE_CONTROL_STOP : Z := 1.
Definition SERVICE_CONTROL_SHUTDOWN : Z := 5.

Record SERVICE_STATUS := mkStatus {
  dwServiceType : Z; dwCurrentState : SvcState; dwControlsAccepted : Z;
  dwWin32ExitCode : Z; dwCheckPoint : Z; dwWaitHint : Z
}.

(** The static variables of the file, that of [set_service_status] too, and
    the calls of [SetServiceStatus]. *)
Record Service := mkService {
  sv_stop_requested : bool;
  sv_type : Z;
  sv_checkpoint : Z;
  sv_reported : list SERVICE_STATUS
}.
Definition service_init : Service := mkService false 0 0 [].

Definition platform_request_stop (s : Service) : Service := mkService true (sv_type s) (sv_checkpoint s) (sv_reported s).

Definition set_service_status (state : SvcState) (exit_code wait_hint : Z) (s : Service) : Service :=
  let accepted := if decide (state = SERVICE_START_PENDING) then 0 else Z.lor SERVICE_ACCEPT_STOP SERVICE_ACCEPT_SHUTDOWN in
  let checkpoint :=
    match state with SERVICE_RUNNING | SERVICE_STOPPED => sv_checkpoint s | _ => u32 (sv_checkpoint s + 1) end in
  let shown := match state with SERVICE_RUNNING | SERVICE_STOPPED => 0 | _ => checkpoint end in
  mkService (sv_stop_requested s) (sv_type s) checkpoint
    (sv_reported s ++ [mkStatus (sv_type s) state accepted exit_code shown wait_hint]).

Definition is_stop_control (ctrl : Z) : bool := (ctrl =? SERVICE_CONTROL_STOP) || (ctrl =? SERVICE_CONTROL_SHUTDOWN).

Definition svc_ctrl_handler (ctrl : Z) (s : Service) : Service :=
  if is_stop_control ctrl then platform_request_stop (set_service_status SERVICE_STOP_PENDING NO_ERROR 5000 s) else s.

(** The calls of the handler, which runs in the dispatcher's thread, between
    the steps of [svc_main]. *)
Definition svc_controls (ctrls : list Z) (s : Service) : Service := foldl (flip svc_ctrl_handler) s ctrls.

(** *** [svc_main] *)

(** Up to the call of [orchestrator_run]; [None]: the handler cannot be
    registered. *)
Definition svc_start (registered : bool) (s : Service) : option Service :=
  if negb registered then None else
  let s := mkService (sv_stop_requested s) SERVICE_WIN32_OWN_PROCESS (sv_checkpoint s) (sv_reported s) in
  Some (set_service_status SERVICE_RUNNING NO_ERROR 0 (set_service_status SERVICE_START_PENDING NO_ERROR 3000 s)).

(** [orchestrator_run] as the service sees it: the controls that arrive while
    it starts, whether it starts, those of each round of its loop, and those
    that arrive while it shuts down. *)
Definition svc_run (starting : list Z) (started : bool) (rounds : list (list Z)) (stopping : list Z) (s : Service) : option Service :=
  let s := svc_controls starting s in
  if negb started then Some s else
  match wait_stop svc_ctrl_handler sv_stop_requested rounds s with
  | Some (s, _) => Some (svc_controls stopping s)
  | None => None
  end.

(** [None]: it has not returned. *)
Definition svc_main (registered : bool) (starting : list Z) (started : bool) (rounds : list (list Z)) (stopping : list Z) (s : Service)
    : option Service :=
  match svc_start registered s with
  | None => Some s
  | Some s => set_service_status SERVICE_STOPPED NO_ERROR 0 <$> svc_run starting started rounds stopping s
  end.

(** ** Start-up *)

(** What [platform_service_start] does. *)
Inductive Start := RunInConsole | RunAsService | RunNothing.

Definition ERROR_FAILED_SERVICE_CONTROLLER_CONNECT : Z := 1063.

(** [dispatcher]: the error of [StartServiceCtrlDispatcherA], if it fails. *)
Definition service_start_win (args : list string) (dispatcher : option Z) : Start :=
  if existsb (String.eqb "--console") args then RunInConsole else
  match dispatcher with
  | None => RunAsService
  | Some err => if err =? ERROR_FAILED_SERVICE_CONTROLLER_CONNECT then RunInConsole else RunNothing
  end.

(** ** Paths next to the executable *)

Definition MAX_PATH : nat := 260.

(** The text up to the last [c] with it, if there is one. *)
Fixpoint upto_last (c : ascii) (s : string) : option string :=
  match s with
  | "" => None
  | String x s =>
      match upto_last c s with
      | Some t => Some (String x t)
      | None => if Ascii.eqb x c then Some (String x "") else None
      end
  end.

(** [exe]: what [GetModuleFileNameA] stored; [behind]: what stands after a
    buffer that holds no terminator. *)
Definition exe_relative_path (exe behind rel : string) : string :=
  match upto_last "\" exe with
  | Some dir => crt_text behind MAX_PATH (dir +:+ rel)
  | None => crt_text behind (MAX_PATH - 1) rel
  end.

Definition has_char (c : ascii) (s : string) : bool := negb (str_forallb (λ x, negb (Ascii.eqb x c)) s).

Definition resolved_fields : list StrField := [db_path; work_dir; provisioning_json; pre_job_script_win; ssh_key; temp_dir].

(** [RESOLVE] *)
Definition resolve_field (exe behind : string) (c : Config) (f : StrField) : Config :=
  let value := cfg_str c f in
  if str_nonempty value && negb (has_char ":" value)
  then set_str f (cbuf (str_size f) (exe_relative_path exe behind value)) c
  else c.
Definition resolve_config_paths (exe behind : string) (c : Config) : Config := foldl (resolve_field exe behind) c resolved_fields.

(** [config_defaults] of the Windows build. *)
Definition config_defaults_win : Config :=
  set_str apps_dir "config\apps" (set_str provisioning_json "config\provisioning.json" (set_str pid_file "" config_defaults)).

(** [file]: the file that the system finds under a path. *)
Definition win_build (exe behind : string) (file : string → string) : Build :=
  mkBuild (exe_relative_path exe behind "config\orchestrator.conf") (exe_relative_path exe behind "config\presim.conf")
    config_defaults_win (resolve_config_paths exe behind) file.

(** ** Invocations *)

(** What an invocation finds on Windows besides: the path of the executable,
    what stands behind a full buffer, the files of paths, the dispatcher's
    error, and whether the handler is registered. *)
Record WinLaunch := mkWinLaunch {
  wl_launch : Launch;
  wl_exe : string; wl_behind : string;
  wl_file : string → string;
  wl_dispatcher : option Z;
  wl_registered : bool
}.

(** The service runs in a thread of the dispatcher, which returns when
    [svc_main] has. *)
Definition platform_service_start_win (w : WinLaunch) (cfg : Config) : ST Disk (option Z * bool) :=
  let l := wl_launch w in
  match service_start_win (l_args l) (wl_dispatcher w) with
  | RunNothing => mret (None, true)
  | RunAsService => if wl_registered w then returned ← orchestrator_run l (wl_file w) cfg; mret (None, returned) else mret (None, true)
  | RunInConsole => returned ← orchestrator_run l (wl_file w) cfg; mret (None, returned)
  end.

Definition main_win (w : WinLaunch) : ST Disk (option Z) :=
  main_of (win_build (wl_exe w) (wl_behind w) (wl_file w)) (wl_launch w) (platform_service_start_win w).

Inductive Invocation := OnPosix (l : Launch) | OnWindows (w : WinLaunch).
Definition invoke (i : Invocation) : ST Disk (option Z) := match i with OnPosix l => main l | OnWindows w => main_win w end.

(** One after the other on the same disk. *)
Fixpoint history (ins : list Invocation) : ST Disk (list (option Z)) :=
  match ins with [] => mret [] | i :: ins => status ← invoke i; rest ← history ins; mret (status :: rest) end.

(** ** The reports *)

Definition stop_pending (type k : Z) : SERVICE_STATUS := mkStatus type SERVICE_STOP_PENDING 5 NO_ERROR k 5000.

Lemma controls_run ctrls s : 0 ≤ sv_checkpoint s → sv_checkpoint s + Z.of_nat (length ctrls) < 4294967296 →
  ∃ n : nat, (n ≤ length ctrls)%nat ∧ existsb is_stop_control ctrls = (0 <? n)%nat ∧
    svc_controls ctrls s = mkService ((0 <? n)%nat || sv_stop_requested s) (sv_type s) (sv_checkpoint s + Z.of_nat n)
      (sv_reported s ++ (stop_pending (sv_type s) <$> seqZ (sv_checkpoint s + 1) (Z.of_nat n))).
Proof.
  revert s. induction ctrls as [|c ctrls IH]; intros s H0 Hlt.
  - exists 0%nat. split_and!; [done..|]. cbn. rewrite app_nil_r, Z.add_0_r. by destruct s.
  - unfold svc_controls in *. cbn [foldl flip existsb length] in *. unfold svc_ctrl_handler at 2. destruct (is_stop_control c) eqn:Ec.
    + assert (u32 (sv_checkpoint s + 1) = sv_checkpoint s + 1) as Hu by (unfold u32; apply Z.mod_small; lia).
      destruct (IH (platform_request_stop (set_service_status SERVICE_STOP_PENDING NO_ERROR 5000 s))) as (n & Hn & He & ->); cbn; rewrite ?Hu; [lia..|].
      exists (S n). split_and!; [lia|by cbn|]. cbn. rewrite orb_true_r. f_equal; [lia|]. rewrite <- app_assoc. f_equal. cbn.
      rewrite Nat2Z.inj_succ, (seqZ_cons (sv_checkpoint s + 1)), Z.pred_succ by lia. done.
    + destruct (IH s) as (n & Hn & He & ->); [lia..|]. exists n. split_and!; [lia|by rewrite He|done].
Qed.

Lemma svc_stop_arrive c s : sv_stop_requested (svc_ctrl_handler c s) = is_stop_control c || sv_stop_requested s.
Proof. unfold svc_ctrl_handler. by destruct (is_stop_control c). Qed.

(** A service that has started returns exactly when it was told to stop. *)
Lemma svc_main_returns starting rounds stopping :
  is_Some (svc_main true starting true rounds stopping service_init) ↔ existsb is_stop_control (starting ++ concat rounds) = true.
Proof.
  unfold svc_main, svc_start, svc_run. cbn [negb]. set (s0 := set_service_status SERVICE_RUNNING _ _ _). set (s := svc_controls starting s0).
  transitivity (is_Some (wait_stop svc_ctrl_handler sv_stop_requested rounds s)).
  - destruct (wait_stop _ _ _ _) as [[s' r]|]; cbn; [by split; eexists|]. split; intros [? [=]].
  - rewrite (wait_stop_ends _ _ _ svc_stop_arrive), existsb_app. subst s. unfold svc_controls.
    rewrite (stop_arrivals _ _ _ svc_stop_arrive). subst s0. cbn. by rewrite orb_false_r, orb_comm.
Qed.

(** The service control manager sees the service start, run, one pending stop
    with the next checkpoint for every control that asks for it, and the end,
    the last report; a service that started ends after such a control. *)
Lemma svc_main_reports starting started rounds stopping s :
  Z.of_nat (length (starting ++ concat rounds ++ stopping)) < 4294967295 →
  svc_main true starting started rounds stopping service_init = Some s →
  ∃ n : nat, (started = true → (0 < n)%nat ∧ sv_stop_requested s = true) ∧
    sv_reported s =
      [mkStatus 16 SERVICE_START_PENDING 0 NO_ERROR 1 3000; mkStatus 16 SERVICE_RUNNING 5 NO_ERROR 0 0]
      ++ (stop_pending 16 <$> seqZ 2 (Z.of_nat n)) ++ [mkStatus 16 SERVICE_STOPPED 5 NO_ERROR 0 0].
Proof.
  intros Hlen. unfold svc_main, svc_start, svc_run. cbn [negb]. set (s0 := set_service_status SERVICE_RUNNING _ _ _).
  intros (s1 & Hrun & ->)%fmap_Some.
  assert (∃ ctrls, (length ctrls ≤ length (starting ++ concat rounds ++ stopping))%nat ∧ s1 = svc_controls ctrls s0 ∧
    (started = true → existsb is_stop_control ctrls = true)) as (ctrls & Hl & -> & He).
  { destruct started; cbn [negb] in Hrun.
    - destruct (wait_stop _ _ _ _) as [[s2 rest]|] eqn:E; [|done]. injection Hrun as <-.
      apply wait_stop_state in E as (slept & -> & -> & Hstop). exists (starting ++ concat slept ++ stopping).
      rewrite concat_app, !length_app. split; [cbn; lia|]. unfold svc_controls in *. rewrite <- !foldl_app. split; [done|intros _].
      rewrite <- foldl_app, (stop_arrivals _ _ _ svc_stop_arrive), orb_false_r in Hstop. by rewrite app_assoc, existsb_app, Hstop.
    - injection Hrun as <-. exists starting. rewrite length_app. split; [cbn; lia|done]. }
  destruct (controls_run ctrls s0) as (n & _ & Hn & ->); [done|change (sv_checkpoint s0) with 1; lia|]. exists n. split; [|done].
  intros Hs. rewrite (He Hs) in Hn. symmetry in Hn. split; [by apply Nat.ltb_lt|]. by destruct n.
Qed.

(** *** Findings *)

(** A service that cannot open its database reports that it was running and
    has stopped without an error. *)
Example failed_start_reports_no_error :
  (λ s, map (λ r, (dwCurrentState r, dwWin32ExitCode r)) (sv_reported s)) <$> svc_main true [] false [] [] service_init
  = Some [(SERVICE_START_PENDING, NO_ERROR); (SERVICE_RUNNING, NO_ERROR); (SERVICE_STOPPED, NO_ERROR)].
Proof. vm_compute. reflexivity. Qed.

(** In the console nothing asks the loop to end: the handler of the service
    is not registered and no other code sets the flag. *)
Example console_mode_never_stops rounds : wait_stop (λ (_ : unit) (s : Service), s) sv_stop_requested rounds service_init = None.
Proof. induction rounds as [|r rounds IH]; [done|]. cbn [wait_stop]. change (sv_stop_requested service_init) with false. cbn iota.
  assert (foldl (flip (λ (_ : unit) (s : Service), s)) service_init r = service_init) as -> by by induction r. exact IH. Qed.

(** A path of the configuration that is too long for the buffer of the
    executable's directory is read beyond that buffer. *)
Example long_path_reads_behind :
  let path := str_take 255 (String.concat "" (replicate 255 "x")) in
  exe_relative_path "C:\srv\o.exe" "?" path = str_take 260 ("C:\srv\" +:+ path) +:+ "?".
Proof. vm_compute. reflexivity. Qed.

Example paths_next_to_the_executable :
  let c := resolve_config_paths "C:\srv\o.exe" "" (set_str work_dir "D:\jobs" config_defaults_win) in
  (cfg_str c db_path, cfg_str c work_dir, cfg_str c provisioning_json, cfg_str c apps_dir)
  = ("C:\srv\orchestrator.db", "D:\jobs", "C:\srv\config\provisioning.json", "config\apps").
Proof. vm_compute. reflexivity. Qed.
