(* ===== verification/MainProps.v ===== *)
(** Properties of the program as a whole: what every invocation leaves in the
    databases, and the keys that [keygen] creates. *)
From S2P Require Import Prelude Job Uuid Heap Queue Events Httpd Json Registry Sql Db DbAdmin DbInv DbProps Allocator AllocatorSpec JobOps Config System Sha256 Auth Accounts AccountsProps Http Router SysFixture SysInv SysExec SysSched SysWeb SysRouter Process Main ServiceWin.

(** ** keygen *)

Lemma hex_char_xdigit v : isxdigit (hex_char v) = true.
Proof.
  unfold hex_char. generalize (Z.to_nat v). intros n. do 16 (destruct n as [|n]; [reflexivity|]). by destruct n.
Qed.

Lemma hex_bytes_xdigit l : str_forallb isxdigit (hex_bytes l) = true.
Proof.
  induction l as [|b l IH]; [done|]. change (hex_bytes (b :: l)) with (hex02 b +:+ hex_bytes l).
  rewrite forallb_app, IH. unfold hex02. cbn [str_forallb]. by rewrite !hex_char_xdigit.
Qed.

(** What the checks of the arguments leave. *)
Lemma keygen_args_sound a : keygen_args_ok a = true →
  (ka_role a = "admin" ∨ (ka_role a = "user" ∧ ka_user_id a ≠ "")) ∧ (str_len (ka_user_id a) ≤ 64)%nat.
Proof.
  unfold keygen_args_ok. intros [[[_ Hr]%andb_true_iff Hu]%andb_true_iff Hb]%andb_true_iff. split.
  - apply orb_true_iff in Hr as [Hr|Hr]; apply String.eqb_eq in Hr; [by left|right]. split; [done|].
    rewrite Hr in Hb. by apply str_nonempty_spec.
  - apply orb_true_iff in Hu as [Hu|Hu].
    + apply negb_true_iff in Hu. destruct (ka_user_id a); [cbn; lia|done].
    + unfold valid_keygen_user_id in Hu. apply andb_true_iff in Hu as [Hu _]. apply andb_true_iff in Hu as [_ Hu]. by apply Nat.leb_le.
Qed.

Lemma user_auth_healthy user_id n d : s_open d = true → outcomes d = [] →
  db_get_user_auth user_id n d =
  ((λ u, (cbuf n (u_password_hash u), u_enabled u)) <$> head (where_ (user_is user_id) (t_users (tables d))), d).
Proof.
  intros Ho Hos. unfold db_get_user_auth. rewrite bind_step, query_healthy by done. cbn. f_equal. f_equal.
  by destruct (where_ _ _).
Qed.

Lemma close_run {A} (x : A) d : (db_close ;; mret x) d = (x, set_s_open false d).
Proof. reflexivity. Qed.

(** C33. The key that [keygen] prints works, and no other key changes.  With
    a database that answers, either nothing is printed, the exit status is not
    0 and the tables are as before; or the status is 0, a user that was named
    exists and is enabled, exactly one key is added, and from then on the
    printed key authenticates requests with the role and the user of the
    command line.  Either way every key without the role of an administrator
    still names its user. *)
Theorem keygen_key_authenticates stack a urandom d status printed d'
    (Hs : length (ctx_data stack) = 64%nat) (Ha : keygen_args_ok a = true) (Hd : healthy_db d) (Hb : keys_bound (tables d))
    (Hr : ∀ raw, urandom = Some raw → length raw = 32%nat) (Hrun : keygen_key stack a urandom d = (status, printed, d')) :
  keys_bound (tables d') ∧
  match printed with
  | None => status ≠ 0 ∧ tables d' = tables d
  | Some key =>
      status = 0 ∧
      (ka_user_id a ≠ "" → ∃ u, u ∈ t_users (tables d) ∧ u_user_id u = ka_user_id a ∧ u_enabled u ≠ 0) ∧
      t_api_keys (tables d') = t_api_keys (tables d) ++
        [mkApiKey (auth_hash_key stack key) (ka_label a) (ka_role a) (ka_user_id a) (clock d) 0 0] ∧
      ∀ now, (auth_check_role_user stack (Some key) (set_clock now (set_s_open true d'))).1 = Some (ka_role a, ka_user_id a)
  end.
Proof.
  destruct (keygen_args_sound a Ha) as [Hrole Hlen]. destruct Hd as (Hi & Ho & Hos). unfold keygen_key in Hrun.
  set (found := if str_nonempty (ka_user_id a) then
                  match head (where_ (user_is (ka_user_id a)) (t_users (tables d))) with Some u => negb (u_enabled u =? 0) | None => false end
                else true).
  rewrite bind_step in Hrun.
  assert ((if str_nonempty (ka_user_id a) then
             u ← db_get_user_auth (ka_user_id a) 256;
             mret (match u with Some (_, enabled) => negb (enabled =? 0) | None => false end)
           else mret true) d = (found, d)) as Hf.
  { subst found. destruct (str_nonempty _); [|done]. rewrite bind_step, user_auth_healthy by done. cbn. by destruct (head _). }
  rewrite Hf in Hrun. cbn [fst snd] in Hrun. clear Hf.
  assert (∀ d0 : Db, tables (set_s_open false d0) = tables d0) as Hcl by (by intros []).
  destruct found eqn:Ef; cbn [negb] in Hrun; [|rewrite close_run in Hrun; injection Hrun as <- <- <-; by rewrite Hcl].
  destruct urandom as [raw|]; [|rewrite close_run in Hrun; injection Hrun as <- <- <-; by rewrite Hcl].
  cbv zeta in Hrun. rewrite bind_step in Hrun. set (key := hex_bytes raw) in *.
  assert (str_len key = 64%nat) as Hkl by (unfold key; rewrite hex_bytes_len, (Hr raw eq_refl); done).
  assert (db_insert_api_key_full (auth_hash_key stack key) (ka_label a) (Some (ka_role a)) (Some (ka_user_id a)) 0 d =
    if existsb (key_is (auth_hash_key stack key)) (t_api_keys (tables d)) then (-1, d)
    else (0, set_changes 1 (set_tables (set_t_api_keys (t_api_keys (tables d) ++
            [mkApiKey (auth_hash_key stack key) (ka_label a) (ka_role a) (ka_user_id a) (clock d) 0 0]) (tables d)) d))) as Hins.
  { unfold db_insert_api_key_full, dml_rc. rewrite bind_step, dml_healthy by done. destruct (existsb _ _); [done|]. cbn [fst snd].
    unfold role_or_user. destruct Hrole as [->|[-> _]]; done. }
  assert (auth_hash_key stack key ∉ k_key_hash <$> t_api_keys (tables d) → ∀ now,
    (auth_check_role_user stack (Some key) (set_clock now (db_insert_api_key_full (auth_hash_key stack key) (ka_label a) (Some (ka_role a)) (Some (ka_user_id a)) 0 d).2)).1 =
    Some (ka_role a, ka_user_id a)) as Hauth.
  { intros Hnew now. pose proof (stored_key_authenticates stack key (ka_label a) (ka_role a) (ka_user_id a) 0 now d) as H.
    destruct (db_insert_api_key_full _ _ _ _ _ d) as [rc d1]. cbn [snd]. destruct H as [_ ->]; try done.
    - apply hex_bytes_xdigit.
    - destruct Hrole as [->|[-> _]]; done.
    - cbn [Z.ltb andb]. f_equal. f_equal; apply str_take_ge; [destruct Hrole as [->|[-> _]]; cbn; lia|lia]. }
  rewrite Hins in Hrun, Hauth. clear Hins.
  destruct (existsb _ _) eqn:Ee; cbn [fst snd] in Hrun, Hauth; rewrite close_run in Hrun; cbn [Z.eqb] in Hrun; injection Hrun as <- <- <-;
    rewrite Hcl; [done|].
  set (hash := auth_hash_key stack key) in *. clearbody hash.
  set (row := mkApiKey _ _ _ _ _ _ _) in *. destruct d as [o ta sv t ch cl os]. cbn in Ho, Hos. subst o os. cbn [tables set_tables set_changes clock] in *.
  assert (t_api_keys (set_t_api_keys (t_api_keys t ++ [row]) t) = t_api_keys t ++ [row]) as Hkeys by (by destruct t).
  split.
  - intros k. rewrite Hkeys. intros [Hk| ->%list_elem_of_singleton]%elem_of_app; [by apply Hb|]. cbn. destruct Hrole as [|[_ ?]]; auto.
  - split; [done|]. split; [|split; [exact Hkeys|]].
    + intros Hu. subst found. rewrite (proj2 (str_nonempty_spec _)) in Ef by done. destruct (head _) as [u|] eqn:Eh; [|done].
      apply head_Some_elem_of in Eh. apply where_elem in Eh as [Hu1 Hu2]. exists u. split; [done|]. split; [by apply String.eqb_eq|].
      by apply negb_true_iff, Z.eqb_neq in Ef.
    + apply Hauth. intros (k & Hk & Hin)%list_elem_of_fmap. assert (existsb (key_is hash) (t_api_keys t) = true) as Hex; [|by rewrite Hex in Ee].
      apply existsb_exists. exists k. split; [by apply list_elem_of_In|]. unfold key_is. rewrite <- Hk. apply String.eqb_refl.
Qed.

Lemma keygen_key_authenticates_witness :
  let stack := mkCtx (replicate 64 7) 3 9 [] in
  let d := mkDb true false None (set_t_users [mkUser "ann" "Ann" "" "" 1 5] no_tables) 0 1000 [] in
  let a := mkKeygenArgs "ci" default_conf "user" "ann" in
  let raw := replicate 32 171 in
  let r := keygen_key stack a (Some raw) d in
  r.1 = (0, Some (hex_bytes raw)) ∧
  (auth_check_role_user stack (Some (hex_bytes raw)) (set_clock 2000 (set_s_open true r.2))).1 = Some ("user", "ann").
Proof.
  intros stack d a raw r. assert (r.1 = (0, Some (hex_bytes raw))) as H1 by (vm_compute; reflexivity).
  split; [exact H1|]. destruct r as [[status printed] d'] eqn:E. cbn [fst snd] in *. injection H1 as -> ->.
  destruct (keygen_key_authenticates stack a (Some raw) d 0 (Some (hex_bytes raw)) d') as [_ (_ & _ & _ & H)];
    [reflexivity|reflexivity|done|intros k Hk; by apply elem_of_nil in Hk|by intros ? [= <-]|exact E|]. apply H.
Defined.

(** ** The databases over a history of invocations *)

Definition sound_disk (disk : Disk) : Prop := ∀ path t, dk_databases disk !! path = Some t → rows_ok t.

Lemma no_tables_ok : rows_ok no_tables.
Proof.
  split; [|constructor]. split; cbn; try apply NoDup_nil_2; (split; [apply NoDup_nil_2|by intros ? ?%elem_of_nil]).
Qed.

Lemma open_sound l path disk d disk' : sound_disk disk → open_database l path disk = (Some d, disk') → disk' = disk ∧ opened d.
Proof.
  intros Hd. unfold open_database. destruct (l_opens l path); [|done]. intros [= <- <-]. split; [done|]. split; [done|]. split; [done|].
  cbn. destruct (dk_databases disk !! path) as [t|] eqn:E; [by eapply Hd|apply no_tables_ok].
Qed.

Lemma save_sound path d disk : sound_disk disk → db_inv rows_ok d → sound_disk (save_database path d disk).2.
Proof.
  intros Hdisk [H1 H2] p t. cbn. destruct (decide (p = path)) as [->|Hne]; [|rewrite lookup_insert_ne by done; apply Hdisk].
  rewrite lookup_insert_eq. intros [= <-]. unfold persisted. destruct (sq_saved d) as [t|]; [by apply H2|done].
Qed.

Lemma opened_fine d : opened d → db_fine idle d.
Proof. intros (Ho & [Ha Hs] & Hr). split; [|by split]. split; [done|]. intros t Ht. congruence. Qed.

Lemma close_fine : maintains (db_fine idle) db_close.
Proof. intros d [[H1 H2] [Ha Hs]]. split; [done|]. unfold db_close. cbn [snd]. by destruct d. Qed.

Lemma keygen_key_sound stack a urandom : maintains (db_fine idle) (keygen_key stack a urandom).
Proof.
  assert (∀ x : Z * option string, maintains (db_fine idle) (db_close ;; mret x)) as Hclose.
  { intros x. eapply yields_bind; [apply close_fine|]. intros. by apply yields_ret. }
  unfold keygen_key. apply (yields_bind _ _ _ (λ _, True)).
  - destruct (str_nonempty _); [|by apply yields_ret]. apply (yields_bind _ _ _ (λ _, True)); [apply stmt_yields; [apply _|constructor]|].
    intros. by apply yields_ret.
  - intros bound _. destruct (negb bound); [apply Hclose|]. destruct urandom as [raw|]; [|apply Hclose]. cbv zeta.
    apply (yields_bind _ _ _ (λ _, True)); [apply stmt_yields; [apply _|constructor]|]. intros result _.
    apply (yields_bind _ _ _ (λ _, True)); [apply close_fine|]. intros. by apply yields_ret.
Qed.

Lemma keygen_sound b l args : maintains sound_disk (keygen b l args).
Proof.
  intros disk Hdisk. split; [done|]. unfold keygen. destruct (keygen_args _ _) as [a|]; [|done]. destruct (negb _); [done|].
  destruct (load_configuration _ _ _ _) as [cfg|]; [|done]. cbv zeta. rewrite bind_step.
  destruct (open_database l _ disk) as [[d|] disk'] eqn:E; cbn [fst snd].
  - apply open_sound in E as [-> Hd]; [|done]. pose proof (keygen_key_sound (l_stack l) a (l_urandom l) d (opened_fine d Hd)) as [_ Hk].
    destruct (keygen_key _ _ _ d) as [r d']. rewrite bind_step. apply save_sound; [done|apply Hk].
  - unfold open_database in E. destruct (l_opens l _); [done|]. by injection E as <-.
Qed.

(** The service keeps its database, wherever it is stopped. *)
Lemma orchestrator_run_sound l file cfg : maintains sound_disk (orchestrator_run l file cfg).
Proof.
  intros disk Hdisk. split; [done|]. unfold orchestrator_run. cbv zeta. rewrite bind_step.
  destruct (open_database l _ disk) as [[d|] disk'] eqn:E; cbn [fst snd].
  - apply open_sound in E as [-> Hd]; [|done].
    pose proof (start_process_calm cfg (with_cfg cfg (l_env l)) d (l_files l) (l_read l (file (cfg_str cfg provisioning_json))) (l_queue_ok l) Hd) as Hs.
    destruct (orchestrator_start _ _ _ _) as [started s]. cbn [snd] in Hs. destruct (negb started); rewrite bind_step.
    + apply save_sound; [done|]. exact (proj1 (in_db _ _ _ _ s (proj1 Hs))).
    + apply save_sound; [done|]. eapply (λ s H, proj1 (in_db _ _ _ _ s H)). by apply run_events_calm.
  - unfold open_database in E. destruct (l_opens l _); [done|]. by injection E as <-.
Qed.

Lemma start_sound l cfg : maintains sound_disk (platform_service_start l cfg).
Proof.
  unfold platform_service_start. cbv zeta. destruct (service_args _ _ _) as [do_daemon pidfile].
  destruct (if do_daemon then daemonise l else None) as [status|]; [by apply yields_ret|].
  apply (yields_bind _ _ _ (λ _, True)).
  - unfold write_pidfile. destruct (l_can_write l _); [|by apply yields_ret]. apply yields_modify. by intros disk H.
  - intros _ _. apply (yields_bind _ _ _ (λ _, True)); [apply orchestrator_run_sound|]. intros. by apply yields_ret.
Qed.

Lemma start_win_sound w cfg : maintains sound_disk (platform_service_start_win w cfg).
Proof.
  unfold platform_service_start_win. cbv zeta.
  assert (maintains sound_disk (returned ← orchestrator_run (wl_launch w) (wl_file w) cfg; mret (@None Z, returned))) as H.
  { apply (yields_bind _ _ _ (λ _, True)); [apply orchestrator_run_sound|]. intros. by apply yields_ret. }
  destruct (service_start_win _ _); [done| |by apply yields_ret]. destruct (wl_registered w); [done|by apply yields_ret].
Qed.

Lemma main_sound b l start : (∀ cfg, maintains sound_disk (start cfg)) → maintains sound_disk (main_of b l start).
Proof.
  intros Hstart. assert (maintains sound_disk (main_service b l start)) as Hservice.
  { unfold main_service. destruct (load_configuration _ _ _ _) as [cfg|]; [|by apply yields_ret].
    apply (yields_bind _ _ _ (λ _, True)); [apply Hstart|]. intros. by apply yields_ret. }
  unfold main_of. repeat (case_match; try apply Hservice).
  apply (yields_bind _ _ _ (λ _, True)); [apply keygen_sound|]. intros. by apply yields_ret.
Qed.

Lemma history_sound ins : maintains sound_disk (history ins).
Proof.
  induction ins as [|i ins IH]; cbn [history]; [by apply yields_ret|]. apply (yields_bind _ _ _ (λ _, True)).
  - destruct i; apply main_sound; intros cfg; [apply start_sound|apply start_win_sound].
  - intros status _. apply (yields_bind _ _ _ (λ _, True)); [apply IH|]. intros. by apply yields_ret.
Qed.


Definition demo_launch (args : list string) (running : list Event) : Launch :=
  mkLaunch args "/srv" (λ p, if String.eqb p "/srv/config/provisioning.json" then Some "machines" else None) (λ _, None) (λ _, true) 1000 []
    (Some (replicate 32 171)) (mkCtx (replicate 64 7) 3 9 []) InChild true InChild 42 (λ _, true) demo_env ∅ true true [] running [].

Definition demo_keygen : Launch := demo_launch ["keygen"; "--label"; "first"] [].
(** The executable of a Windows installation and its files. *)
Definition demo_exe : string := "C:\srv\orchestrator.exe".
Definition demo_windows (args : list string) (dispatcher : option Z) : WinLaunch :=
  mkWinLaunch (demo_launch args []) demo_exe "" id dispatcher true.
Definition demo_history : list Invocation :=
  (OnPosix <$> [demo_keygen; demo_launch [] demo_dispatch; demo_launch ["keygen"; "--user"; "ann"] []; demo_launch ["keygen"; "--role"; "user"] []])
  ++ [OnWindows (demo_windows ["keygen"; "--label"; "win"] None); OnWindows (demo_windows [] None); OnWindows (demo_windows [] (Some 5))].


(** *** Findings *)

(** With [--daemon] a relative path of the configuration names a file of the
    root directory: the daemon does not see the keys that [keygen] created
    with the same configuration in the same directory. *)
Example daemon_opens_another_database :
  let r := history [OnPosix demo_keygen; OnPosix (demo_launch ["--daemon"] [])] (mkDisk ∅ ∅) in
  map (λ p, (p.1, map k_label (t_api_keys p.2))) (map_to_list (dk_databases r.2)) = [("/srv/orchestrator.db", ["first"]); ("/orchestrator.db", [])]
  ∨ map (λ p, (p.1, map k_label (t_api_keys p.2))) (map_to_list (dk_databases r.2)) = [("/orchestrator.db", []); ("/srv/orchestrator.db", ["first"])].
Proof. vm_compute. auto. Qed.

(** config/presim.conf is read after the main file and overwrites any setting. *)
Example presim_file_overwrites_main_settings :
  let read p := if String.eqb p "main.conf" then Some "listen_port = 8081" else if String.eqb p presim_conf then Some "listen_port = 9000" else None in
  (λ c, cfg_int c listen_port) <$> load_configuration (λ _, None) (mkBuild default_conf presim_conf config_defaults id id) read "main.conf" = Some 9000.
Proof. vm_compute. reflexivity. Qed.

(** A service whose database cannot be opened exits with status 0. *)
Example unopened_database_exits_with_0 :
  let l := demo_launch [] [] in
  (main (mkLaunch (l_args l) (l_cwd l) (l_read l) (l_strtod l) (λ _, false) 0 [] None (l_stack l) InChild true InChild 42 (λ _, true)
    (l_env l) ∅ true true [] [] []) (mkDisk ∅ ∅)).1 = Some 0.
Proof. vm_compute. reflexivity. Qed.
