(* ===== verification/Thermal.v ===== *)
(** The example solver of src/solvers/thermal/thermal_solver.c and its runner
    src/tools/presim_runner.c: the pre-simulation document that it writes,
    what the decision core reads from it, and the estimate of a run. *)
From S2P Require Import Prelude Json Decision.

(** ** The document *)

Definition thermal_zones : nat := 8.
Definition base_err : double := d_lit 5 100.

(** [deterministic_zone_error] is the function of the decision core, letter
    for letter. *)
Definition thermal_error (job_id : string) (i : nat) : double := deterministic_zone_error job_id (Z.of_nat i) base_err.
Definition thermal_size (i : nat) : double := dadd (d_of_Z 1) (dmul (d_of_Z (Z.of_nat i mod 3)) (d_lit 1 2)).

Definition clamp01 (unc : double) : double :=
  let unc := if dlt unc (d_of_Z 0) then d_of_Z 0 else unc in
  if dgt unc (d_of_Z 1) then d_of_Z 1 else unc.

Definition uncertainty_of (err : double) (i : nat) : double :=
  clamp01 (dmul (ddiv err (dmul base_err (d_of_Z 2))) (dadd (d_lit 1 2) (dmul (d_of_Z (Z.of_nat i mod 2)) (d_lit 1 2)))).
Definition thermal_uncertainty (job_id : string) (i : nat) : double := uncertainty_of (thermal_error job_id i) i.

(** The decimals that [%.<digits>f] prints of a non-negative number, as an
    integer: the value times 10^digits, to nearest, ties to even. *)
Definition decimals (digits : Z) (x : double) : Z :=
  if 0 <=? d_exp x then d_man x * 2 ^ d_exp x * 10 ^ digits else round_half_even (d_man x * 10 ^ digits) (2 ^ (- d_exp x)).

Definition pad_to (n : nat) (s : string) : string := Nat.iter (n - str_len s) (String "0") s.
Definition fixed (digits : nat) (x : double) : string :=
  let n := decimals (Z.of_nat digits) x in
  dec (n / 10 ^ Z.of_nat digits) +:+ "." +:+ pad_to digits (dec (n mod 10 ^ Z.of_nat digits)).

Definition quoted (s : string) : string := String DQ (s +:+ String DQ EmptyString).
Definition comma_after (i : nat) : string := if (S i <? thermal_zones)%nat then "," else "".
Definition concat_zones (f : nat → string) : string := foldr (λ i s, f i +:+ s) EmptyString (seq 0 thermal_zones).

(** What is written to [out_path]. *)
Definition presim_text (job_id : string) (now : Z) : string :=
  let line s := "  " +:+ s +:+ String NL EmptyString in
  "{" +:+ String NL EmptyString
  +:+ line (quoted "parent_job_id" +:+ ":" +:+ quoted job_id +:+ ",")
  +:+ line (quoted "case" +:+ ":" +:+ quoted "thermal" +:+ ",")
  +:+ line (quoted "method" +:+ ":" +:+ quoted "thermal_presim_v1" +:+ ",")
  +:+ line (quoted "timestamp" +:+ ":" +:+ quoted (dec now) +:+ ",")
  +:+ line (quoted "error_threshold" +:+ ": " +:+ fixed 6 (d_lit 5 100) +:+ ",")
  +:+ line (quoted "zones" +:+ ": [")
  +:+ concat_zones (λ i, line ("  {" +:+ quoted "zone" +:+ ":" +:+ dec (Z.of_nat i) +:+ "," +:+ quoted "error" +:+ ":" +:+ fixed 6 (thermal_error job_id i)
        +:+ "," +:+ quoted "size" +:+ ":" +:+ fixed 6 (thermal_size i) +:+ "}" +:+ comma_after i))
  +:+ line "],"
  +:+ line (quoted "zone_errors" +:+ ": [" +:+ concat_zones (λ i, fixed 6 (thermal_error job_id i) +:+ comma_after i) +:+ "],")
  +:+ line (quoted "zone_sizes" +:+ ": [" +:+ concat_zones (λ i, fixed 6 (thermal_size i) +:+ comma_after i) +:+ "],")
  +:+ line (quoted "zone_uncertainty" +:+ ": [" +:+ concat_zones (λ i, fixed 4 (thermal_uncertainty job_id i) +:+ comma_after i) +:+ "],")
  +:+ line (quoted "notes" +:+ ": " +:+ quoted "thermal presim (synthetic)")
  +:+ "}" +:+ String NL EmptyString.

(** The same document as the tree that a JSON parser reads: a printed decimal
    is read as the double nearest to it. *)
Definition read_back (digits : Z) (x : double) : double := d_lit (decimals digits x) (10 ^ digits).
Definition presim_tree (job_id : string) (now : Z) : cJSON :=
  let numbers digits (f : nat → double) := JArray ((λ i, JNumber (read_back digits (f i))) <$> seq 0 thermal_zones) in
  JObject
    [("parent_job_id", JString job_id); ("case", JString "thermal"); ("method", JString "thermal_presim_v1");
     ("timestamp", JString (dec now)); ("error_threshold", JNumber (read_back 6 (d_lit 5 100)));
     ("zones", JArray ((λ i, JObject [("zone", JNumber (d_of_Z (Z.of_nat i))); ("error", JNumber (read_back 6 (thermal_error job_id i)));
                                      ("size", JNumber (read_back 6 (thermal_size i)))]) <$> seq 0 thermal_zones));
     ("zone_errors", numbers 6 (thermal_error job_id)); ("zone_sizes", numbers 6 thermal_size);
     ("zone_uncertainty", numbers 4 (thermal_uncertainty job_id)); ("notes", JString "thermal presim (synthetic)")].

(** [None]: -1.  [out_opens]: whether the file can be created. *)
Definition solver_presim_run (parent_job_id out_path : option string) (out_opens : string → bool) (now : Z) : option (string * string) :=
  match parent_job_id, out_path with
  | Some job_id, Some path => if out_opens path then Some (path, presim_text job_id now) else None
  | _, _ => None
  end.

(** ** presim_runner *)

Record RunnerArgs := mkRunnerArgs { ra_parent : option string; ra_case : option string; ra_out : option string; ra_input_dir : option string }.

Fixpoint runner_args (args : list string) (a : RunnerArgs) : RunnerArgs :=
  match args with
  | o :: (v :: args') as args =>
      if String.eqb o "--parent" then runner_args args' (mkRunnerArgs (Some v) (ra_case a) (ra_out a) (ra_input_dir a))
      else if String.eqb o "--case" then runner_args args' (mkRunnerArgs (ra_parent a) (Some v) (ra_out a) (ra_input_dir a))
      else if String.eqb o "--out" then runner_args args' (mkRunnerArgs (ra_parent a) (ra_case a) (Some v) (ra_input_dir a))
      else if String.eqb o "--input-dir" then runner_args args' (mkRunnerArgs (ra_parent a) (ra_case a) (ra_out a) (Some v))
      else runner_args args a
  | _ => a
  end.

(** The exit status and the file that is written. *)
Definition presim_runner (args : list string) (out_opens : string → bool) (now : Z) : Z * option (string * string) :=
  let a := runner_args args (mkRunnerArgs None None None None) in
  match ra_parent a, ra_case a, ra_out a with
  | Some parent, Some case_name, Some out =>
      if String.eqb case_name "thermal" then
        match solver_presim_run (Some parent) (Some out) out_opens now with
        | Some written => (0, Some written)
        | None => (1, None)
        end
      else (3, None)
  | _, _, _ => (2, None)
  end.

(** ** The estimate of a run *)

Definition fidelity_map : list Z := [0; 1; 2; 4].
Definition reduction : list double := [d_of_Z 1; d_of_Z 1; d_lit 6 10; d_lit 1 4].
Definition clamp_fidelity (f : Z) : Z := if f <? 1 then 1 else if 3 <? f then 3 else f.

Record Estimate := mkEstimate { weighted_error : double; total_size : double; total_ms : Z }.

(** One zone of the loop; the conversion of a number outside of [unsigned]
    is undefined in C, here it is reduced. *)
Definition simulate_zone (acc : Estimate) (zone : double * double * Z) : Estimate :=
  let '(zone_error, zone_size, fidelity) := zone in
  let size := if dgt zone_size (d_of_Z 0) then zone_size else d_of_Z 1 in
  let f := clamp_fidelity fidelity in
  let err_final := dmul zone_error (default (d_of_Z 0) (reduction !! Z.to_nat f)) in
  let req := default 0 (fidelity_map !! Z.to_nat f) in
  let t := dmul (dmul size (d_of_Z 10)) (d_of_Z req) in
  mkEstimate (dadd (weighted_error acc) (dmul err_final size)) (dadd (total_size acc) size) (u32 (total_ms acc + u32 (d_trunc t))).

(** [None]: -1; otherwise the runtime and the average error.  The three
    arrays have [zones] elements. *)
Definition solver_simulate (zones : list (double * double * Z)) : option (Z * double) :=
  match zones with
  | [] => None
  | _ =>
      let r := foldl simulate_zone (mkEstimate (d_of_Z 0) (d_of_Z 0) 0) zones in
      let total := if dle (total_size r) (d_of_Z 0) then d_of_Z 1 else total_size r in
      Some (total_ms r, ddiv (weighted_error r) total)
  end.

(** ** Facts *)

(** The decision core reads the document of a job: the threshold, and the
    errors, sizes and uncertainties as they were printed. *)
Example decision_core_reads_document :
  read_presim (presim_tree "4f2a" 1000) (d_of_Z 0) =
  Some (d_lit 5 100,
        (λ i, mkZone (read_back 6 (thermal_error "4f2a" i)) (thermal_size i) (read_back 4 (thermal_uncertainty "4f2a" i))) <$> seq 0 8).
Proof. vm_compute. reflexivity. Qed.

Definition zone_cost (f : Z) : Z := if f <? 2 then 1 else if f <? 3 then 2 else 4.

(** The milliseconds of a zone. *)
Definition zone_ms (size : double) (f : Z) : Z :=
  u32 (d_trunc (dmul (dmul (if dgt size (d_of_Z 0) then size else d_of_Z 1) (d_of_Z 10)) (d_of_Z (default 0 (fidelity_map !! Z.to_nat (clamp_fidelity f)))))).

Lemma simulate_zone_ms acc e size f : total_ms (simulate_zone acc (e, size, f)) = u32 (total_ms acc + zone_ms size f).
Proof. reflexivity. Qed.

Lemma zone_ms_table : Forall (λ m, Forall (λ f,
  zone_ms (dadd (d_of_Z 1) (dmul (d_of_Z m) (d_lit 1 2))) f = (10 + 5 * m) * zone_cost f) [1; 2; 3]) [0; 1; 2].
Proof. repeat constructor; vm_compute; reflexivity. Qed.

Lemma zone_ms_clamped size f : zone_ms size f = zone_ms size (clamp_fidelity f) ∧ zone_cost f = zone_cost (clamp_fidelity f) ∧ clamp_fidelity f ∈ [1; 2; 3].
Proof.
  unfold zone_ms. assert (clamp_fidelity (clamp_fidelity f) = clamp_fidelity f ∧ zone_cost f = zone_cost (clamp_fidelity f) ∧ (clamp_fidelity f = 1 ∨ clamp_fidelity f = 2 ∨ clamp_fidelity f = 3))
    as (-> & -> & Hc).
  { unfold clamp_fidelity, zone_cost.
    repeat match goal with |- context [?a <? ?b] => destruct (Z.ltb_spec a b); try lia end; auto with lia. }
  split; [done|]. split; [done|]. rewrite !elem_of_cons. tauto.
Qed.

Definition sized (p : double * nat * Z) : double * double * Z := (p.1.1, thermal_size p.1.2, p.2).
Definition cost (p : double * nat * Z) : Z := (10 + 5 * (Z.of_nat p.1.2 mod 3)) * zone_cost p.2.

(** The estimate for the sizes of the document is exact, whatever the errors
    and the fidelities: ten milliseconds for each unit of size and core. *)
Lemma simulate_runtime zones acc : 0 ≤ total_ms acc → total_ms acc + 80 * Z.of_nat (length zones) < 2 ^ 32 →
  total_ms (foldl simulate_zone acc (sized <$> zones)) = total_ms acc + sumZ (cost <$> zones).
Proof.
  revert acc. induction zones as [|[[e i] f] zones IH]; intros acc H0 Hlen; [cbn; lia|].
  rewrite !fmap_cons. cbn [foldl length]. change (sumZ (?c :: ?l)) with (c + sumZ l). rewrite length_cons, Nat2Z.inj_succ in Hlen.
  assert (0 ≤ Z.of_nat i mod 3 < 3) as Hm by (apply Z.mod_pos_bound; lia).
  assert (zone_ms (thermal_size i) f = cost (e, i, f)) as Hz.
  { destruct (zone_ms_clamped (thermal_size i) f) as (-> & Hcost & Hc). unfold cost. cbn [fst snd]. rewrite Hcost.
    unfold thermal_size. revert Hc. generalize (clamp_fidelity f). apply Forall_forall. revert Hm. generalize (Z.of_nat i mod 3). intros m Hm.
    apply (proj1 (Forall_forall _ _) zone_ms_table). assert (m = 0 ∨ m = 1 ∨ m = 2) as [->|[->| ->]] by lia; set_solver. }
  assert (0 ≤ cost (e, i, f) ≤ 80) as Hcost.
  { unfold cost. cbn [fst snd]. assert (0 < zone_cost f ≤ 4) by (unfold zone_cost; repeat destruct (_ <? _); lia). nia. }
  assert (total_ms (simulate_zone acc (sized (e, i, f))) = total_ms acc + cost (e, i, f)) as Hstep.
  { unfold sized. cbn [fst snd]. rewrite simulate_zone_ms, Hz. apply Z.mod_small. lia. }
  rewrite IH; rewrite Hstep; lia.
Qed.
