(* ===== verification/Synthetic.v ===== *)
(** The example workload of src/tools/synthetic_workload.c: its arguments, the
    pseudo-random number of a case, and the run with its exit statuses. *)
From S2P Require Import Prelude Json Config.

Record SyntheticCase := mkCase { sc_index : Z; sc_seed : Z; min_sleep : Z; max_sleep : Z }.

(** ** Arguments *)

(** [None]: -1.  A value that [strtol] saturates is outside of the bounds;
    without digits the value is 0 and the end is the text. *)
Definition parse_long (text : string) (lo hi : Z) : option Z :=
  let '(parsed, rest) := default (0, text) (strtol text) in
  if str_nonempty rest || (parsed <? lo) || (hi <? parsed) then None else Some parsed.

Record ParsedCase := mkParsed { pc_index : option Z; pc_seed : option Z; pc_min : Z; pc_max : Z }.

Fixpoint parse_options (args : list string) (c : ParsedCase) : option ParsedCase :=
  match args with
  | [] => Some c
  | option :: value :: args =>
      if String.eqb option "--index" then
        v ← parse_long value 0 100000000; parse_options args (mkParsed (Some v) (pc_seed c) (pc_min c) (pc_max c))
      else if String.eqb option "--seed" then
        v ← parse_long value 0 2147483647; parse_options args (mkParsed (pc_index c) (Some v) (pc_min c) (pc_max c))
      else if String.eqb option "--min-sleep" then
        v ← parse_long value 0 3600; parse_options args (mkParsed (pc_index c) (pc_seed c) v (pc_max c))
      else if String.eqb option "--max-sleep" then
        v ← parse_long value 0 3600; parse_options args (mkParsed (pc_index c) (pc_seed c) (pc_min c) v)
      else None
  | [_] => None
  end.

Definition parse_arguments (args : list string) : option SyntheticCase :=
  match parse_options args (mkParsed None None 1 60) with
  | Some (mkParsed (Some index) (Some seed) lo hi) => if lo <=? hi then Some (mkCase index seed lo hi) else None
  | _ => None
  end.

(** ** The case *)

Definition xor_shl (k v : Z) : Z := Z.lxor v (u32 (Z.shiftl v k)).
Definition xor_shr (k v : Z) : Z := Z.lxor v (Z.shiftr v k).
Definition case_random (seed index : Z) : Z :=
  xor_shl 5 (xor_shr 17 (xor_shl 13 (Z.lxor (u32 seed) (u32 (u32 (index + 1) * 0x9e3779b9))))).

Definition sleep_duration (c : SyntheticCase) : Z := min_sleep c + case_random (sc_seed c) (sc_index c) mod u32 (max_sleep c - min_sleep c + 1).
Definition operand_a (c : SyntheticCase) : Z := sc_index c + 3.
Definition operand_b (c : SyntheticCase) : Z := case_random (sc_seed c) (sc_index c) mod 1000 + 1.
Definition multiplier (c : SyntheticCase) : Z := Z.rem (sc_index c) 11 + 1.
Definition result (c : SyntheticCase) : Z := (operand_a c + operand_b c) * multiplier c.

(** ** The run *)

Definition member (last : bool) (name value : string) : string :=
  "  " +:+ String DQ (name +:+ String DQ (": " +:+ value +:+ (if last then "" else ",") +:+ String NL EmptyString)).
Definition text_value (s : string) : string := String DQ (s +:+ String DQ EmptyString).

Definition result_json (c : SyntheticCase) (job_id worker_id : string) (started_at ended_at : Z) : string :=
  "{" +:+ String NL EmptyString +:+
  member false "job_id" (text_value job_id) +:+ member false "worker_id" (text_value worker_id) +:+
  member false "index" (dec (sc_index c)) +:+ member false "seed" (dec (sc_seed c)) +:+
  member false "sleep_seconds" (dec (sleep_duration c)) +:+ member false "operand_a" (dec (operand_a c)) +:+
  member false "operand_b" (dec (operand_b c)) +:+ member false "multiplier" (dec (multiplier c)) +:+
  member false "result" (dec (result c)) +:+ member false "started_at" (dec started_at) +:+
  member true "ended_at" (dec ended_at) +:+ "}" +:+ String NL EmptyString.

(** The exit status and the file that is written.  [getenv]: the environment;
    [can_write], [closes]: what the file system does; the two times. *)
Definition synthetic_main (args : list string) (getenv : string → option string) (can_write closes : string → bool)
    (started_at ended_at : Z) : Z * option (string * string) :=
  match parse_arguments args with
  | None => (2, None)
  | Some c =>
      match getenv "ORCH_JOB_ID", getenv "ORCH_WORKER_ID", getenv "ORCH_OUTPUT_DIR" with
      | Some job_id, Some worker_id, Some output_dir =>
          if negb (str_nonempty job_id) || negb (str_nonempty worker_id) || negb (str_nonempty output_dir) then (3, None) else
          let path := output_dir +:+ "/" +:+ "result.json" in
          if (1024 <=? str_len path)%nat then (4, None) else
          if negb (can_write path) then (5, None) else
          let written := Some (path, result_json c job_id worker_id started_at ended_at) in
          if closes path then (0, written) else (6, written)
      | _, _, _ => (3, None)
      end
  end.

(** ** Properties *)

Definition case_ok (c : SyntheticCase) : Prop :=
  0 ≤ sc_index c ≤ 100000000 ∧ 0 ≤ sc_seed c ≤ 2147483647 ∧ 0 ≤ min_sleep c ≤ max_sleep c ∧ max_sleep c ≤ 3600.

Lemma parse_long_range text lo hi v : parse_long text lo hi = Some v → lo ≤ v ≤ hi.
Proof.
  unfold parse_long. destruct (default _ _) as [p rest]. destruct (_ || _) eqn:E; [done|]. intros [= <-].
  apply orb_false_iff in E as [[_ E1]%orb_false_iff E2]. bool_prop. lia.
Qed.

Definition parsed_ok (c : ParsedCase) : Prop :=
  (∀ v, pc_index c = Some v → 0 ≤ v ≤ 100000000) ∧ (∀ v, pc_seed c = Some v → 0 ≤ v ≤ 2147483647) ∧ 0 ≤ pc_min c ≤ 3600 ∧ 0 ≤ pc_max c ≤ 3600.

Lemma parse_options_ok : ∀ args c c', parsed_ok c → parse_options args c = Some c' → parsed_ok c'.
Proof.
  fix IH 1. intros [|o [|v args]] c c' Hc; cbn [parse_options]; [by intros [= <-]|done|].
  destruct Hc as (H1 & H2 & H3 & H4).
  repeat (case_match; [intros (x & Hx%parse_long_range & Hrest)%bind_Some; (eapply IH; [|exact Hrest]); split_and!; cbn; first [done|lia|by intros ? [= <-]]|]).
  done.
Qed.

Lemma parse_arguments_ok args c : parse_arguments args = Some c → case_ok c.
Proof.
  unfold parse_arguments. destruct (parse_options args _) as [[[i|] [s|] lo hi]|] eqn:E; [|done..].
  apply parse_options_ok in E as (H1 & H2 & H3 & H4); [|by split_and!]. cbn in *. destruct (Z.leb_spec lo hi); [|done]. intros [= <-].
  specialize (H1 _ eq_refl). specialize (H2 _ eq_refl). unfold case_ok. cbn. lia.
Qed.

(** *** The generator is a permutation of the 32-bit numbers *)

Lemma u32_range v : 0 ≤ u32 v < 2 ^ 32.
Proof. apply Z.mod_pos_bound. lia. Qed.

Lemma u32_testbit v i : 0 ≤ i → Z.testbit (u32 v) i = (i <? 32) && Z.testbit v i.
Proof. intros Hi. change (u32 v) with (v mod 2 ^ 32). rewrite Z.testbit_mod_pow2 by lia. done. Qed.

Lemma range_bits v : 0 ≤ v < 2 ^ 32 ↔ v = u32 v.
Proof. split; [intros H; symmetry; by apply Z.mod_small|intros ->; apply u32_range]. Qed.

Lemma xor_shl_range k v : 0 ≤ v < 2 ^ 32 → 0 ≤ xor_shl k v < 2 ^ 32.
Proof.
  rewrite !range_bits. intros H. unfold xor_shl. apply Z.bits_inj'. intros i Hi.
  rewrite u32_testbit, Z.lxor_spec, u32_testbit, H, u32_testbit by done. by destruct (i <? 32).
Qed.

Lemma xor_shr_range k v : 0 ≤ k → 0 ≤ v < 2 ^ 32 → 0 ≤ xor_shr k v < 2 ^ 32.
Proof.
  intros Hk. rewrite !range_bits. intros H. unfold xor_shr. apply Z.bits_inj'. intros i Hi.
  rewrite u32_testbit, Z.lxor_spec, Z.shiftr_spec, H, !u32_testbit by lia. destruct (Z.ltb_spec i 32); [done|].
  by rewrite (proj2 (Z.ltb_ge (i + k) 32)) by lia.
Qed.

(** Bit [i] of the result tells bit [i] of the argument from bit [i - k]. *)
Lemma xor_shl_inj k v w : 0 < k → 0 ≤ v < 2 ^ 32 → 0 ≤ w < 2 ^ 32 → xor_shl k v = xor_shl k w → v = w.
Proof.
  intros Hk Hv%range_bits Hw%range_bits Heq. apply Z.bits_inj'.
  refine (Z_lt_induction (λ i, Z.testbit v i = Z.testbit w i) _). intros i IH. destruct (Z.neg_nonneg_cases i) as [?|Hi]; [by rewrite !Z.testbit_neg_r|].
  specialize (f_equal (λ x, Z.testbit x i) Heq) as Hb. unfold xor_shl in Hb. cbn beta in Hb.
  rewrite !Z.lxor_spec, !u32_testbit in Hb by done. rewrite Hv, Hw, !u32_testbit by done.
  destruct (Z.ltb_spec i 32); [|done]. cbn [andb] in *. rewrite !Z.shiftl_spec in Hb by done.
  destruct (Z.ltb_spec i k).
  - rewrite !(Z.testbit_neg_r _ (i - k)) in Hb by lia. by rewrite !xorb_false_r in Hb.
  - rewrite (IH (i - k)) in Hb by lia. by destruct (Z.testbit v i), (Z.testbit w i), (Z.testbit w (i - k)).
Qed.

Lemma xor_shr_inj k v w : 0 < k → 0 ≤ v < 2 ^ 32 → 0 ≤ w < 2 ^ 32 → xor_shr k v = xor_shr k w → v = w.
Proof.
  intros Hk Hv%range_bits Hw%range_bits Heq. apply Z.bits_inj'. intros i Hi.
  assert (∀ n i, 0 ≤ i → 32 - i ≤ Z.of_nat n → Z.testbit v i = Z.testbit w i) as H by (
    clear i Hi; intros n; induction n as [|n IH]; intros i Hi Hn;
    [by rewrite Hv, Hw, !u32_testbit, (proj2 (Z.ltb_ge i 32)) by lia|];
    specialize (f_equal (λ x, Z.testbit x i) Heq) as Hb; unfold xor_shr in Hb; cbn beta in Hb;
    rewrite !Z.lxor_spec, !Z.shiftr_spec, (IH (i + k)) in Hb by lia; by destruct (Z.testbit v i), (Z.testbit w i), (Z.testbit w (i + k))).
  apply (H 32%nat); lia.
Qed.

Lemma odd_multiple_inj a b : 0 ≤ a < 2 ^ 32 → 0 ≤ b < 2 ^ 32 → u32 (a * 0x9e3779b9) = u32 (b * 0x9e3779b9) → a = b.
Proof.
  intros Ha Hb H. assert (u32 (u32 (a * 0x9e3779b9) * 0x144cbc89) = u32 (u32 (b * 0x9e3779b9) * 0x144cbc89)) as E by by rewrite H.
  unfold u32 in E. rewrite !Z.mul_mod_idemp_l, <- !Z.mul_assoc in E by lia.
  rewrite <- !(Z.mul_mod_idemp_r _ (_ * _)) in E by lia. change ((0x9e3779b9 * 0x144cbc89) mod 4294967296) with 1 in E.
  rewrite !Z.mul_1_r, !Z.mod_small in E by lia. done.
Qed.

(** The numbers of two cases with one seed are different. *)
Lemma case_random_inj seed i j : 0 ≤ i < 2 ^ 32 - 1 → 0 ≤ j < 2 ^ 32 - 1 → case_random seed i = case_random seed j → i = j.
Proof.
  intros Hi Hj. unfold case_random. set (x i := Z.lxor (u32 seed) (u32 (u32 (i + 1) * 0x9e3779b9))).
  assert (∀ i, 0 ≤ x i < 2 ^ 32) as Hx.
  { intros n. unfold x. rewrite range_bits. apply Z.bits_inj'. intros b Hb. rewrite u32_testbit, !Z.lxor_spec, !u32_testbit by done. by destruct (b <? 32). }
  change (Z.lxor (u32 seed) (u32 (u32 (i + 1) * 0x9e3779b9))) with (x i). change (Z.lxor (u32 seed) (u32 (u32 (j + 1) * 0x9e3779b9))) with (x j).
  assert (∀ i, 0 ≤ xor_shl 13 (x i) < 2 ^ 32) as H1 by (intros; by apply xor_shl_range).
  assert (∀ i, 0 ≤ xor_shr 17 (xor_shl 13 (x i)) < 2 ^ 32) as H2 by (intros; by apply xor_shr_range).
  intros H%xor_shl_inj; [|done..]. apply xor_shr_inj in H; [|done..]. apply xor_shl_inj in H; [|done..]. unfold x in H.
  assert (∀ a b c, Z.lxor a b = Z.lxor a c → b = c) as Hl.
  { intros a b c E. rewrite <- (Z.lxor_0_l b), <- (Z.lxor_0_l c), <- (Z.lxor_nilpotent a), !Z.lxor_assoc. by rewrite E. }
  apply Hl, odd_multiple_inj in H; [|apply u32_range..]. unfold u32 in H. rewrite !Z.mod_small in H by lia. lia.
Qed.

(** What a case that was accepted prints: its sleep is within its bounds and
    its numbers within their types. *)
Lemma accepted_case_in_bounds args c : parse_arguments args = Some c →
  min_sleep c ≤ sleep_duration c ≤ max_sleep c ∧ 1 ≤ operand_b c ≤ 1000 ∧ 1 ≤ multiplier c ≤ 11 ∧ 4 ≤ result c < 2 ^ 31.
Proof.
  intros (Hi & Hs & Hm & Hx)%parse_arguments_ok.
  assert (u32 (max_sleep c - min_sleep c + 1) = max_sleep c - min_sleep c + 1) as Hu by (apply Z.mod_small; lia).
  assert (1 ≤ operand_b c ≤ 1000) as Hb by (unfold operand_b; pose proof (Z.mod_pos_bound (case_random (sc_seed c) (sc_index c)) 1000); lia).
  assert (1 ≤ multiplier c ≤ 11) as Hmu by (unfold multiplier; pose proof (Z.rem_bound_pos (sc_index c) 11); lia).
  split; [|split; [done|split; [done|]]].
  - unfold sleep_duration. rewrite Hu. pose proof (Z.mod_pos_bound (case_random (sc_seed c) (sc_index c)) (max_sleep c - min_sleep c + 1)). lia.
  - unfold result, operand_a. nia.
Qed.

(** An empty value counts as 0. *)
Example empty_value_is_zero : parse_arguments ["--index"; ""; "--seed"; "7"] = Some (mkCase 0 7 1 60).
Proof. reflexivity. Qed.
